(* ===== verification/_CoqProject ===== *)
-Q . S2P
Prelude.v
PyDict.v
PyFloat.v
PyText.v
Types.v
Topics.v
Wire.v
Transport.v
Async.v
Memory.v
Observers.v
NodeThreads.v
Queue.v
WorkQueue.v
WorkDispatch.v
WorkSteps.v
WorkFlow.v
LeaseQueue.v
WorkRefines.v
TaskPool.v
Executor.v
ExecutorSteps.v
TaskRunner.v
TaskQueue.v
Rpc.v
RpcClients.v
Observable.v
Meter.v
Logfire.v
Redis.v
Nats.v
Tcp.v
TcpThreads.v
Remote.v
Worker.v
RpcTcp.v
Topology.v
Scripts.v
TaskScripts.v
