(* ===== verification/Prelude.v ===== *)
(** * Eventforge, verified: the root of the development

    Eventforge is an execution and dispatch layer: in-process and networked
    publish-subscribe, work queues with acknowledgement, observed task execution
    and remote procedure calls.  This development is a shallow embedding of its
    Python code (src/eventforge/) with the theorems that make it correct.

    ** How the program is modelled

    A statement is a function of type [M W A] (this file): from a heap [W] it
    returns an [A] or raises an exception, in a new heap; [bind], [try_except],
    [try_finally] and [for_each] are Python's sequencing, [try] and [for].  What
    was done before an exception stands.  An object's attributes are a record,
    one field each, in the heap; objects that several parts share (dispatchers,
    nodes, task contexts) are reached by reference.  A call-back is any statement
    over the same heap, so that it may re-enter the object that runs it.  Python
    dictionaries keep insertion order and are association lists (PyDict);
    dynamically typed values are the type [val] (Types), whose floats are IEEE
    doubles (PyFloat); clock readings and durations are integers, and [uuid4()]
    draws distinct names from a supply.  A blocking call is one pass of
    its loop, which answers [Waiting] where the code blocks.

    Code under a lock is one statement.  Where threads meet, a step relation runs
    the critical sections of any number of threads in any order ([WorkSteps],
    [TaskPool]), or an executable [exec] says what an event does and a run is any
    list of events ([Async], [NodeThreads], [TcpThreads], [ExecutorSteps], with [run_events] of
    this file); a method that leaves its lock and enters it again is several
    definitions or events, as in the code.

    ** The files

    - Prelude: exceptions, the monad, invariants of statements ([keeps], [gives])
      with their hint database [py], lemmas on lists.  PyDict: dictionaries.
      PyFloat: the doubles of the processor, their rounding included.  PyText: what
      the programs do with text, numbers written and read.
    - Types (types.py): messages, task and RPC records, [SharedState].
    - Topics (the [_matches] of transports/memory.py, tcp.py, redis.py, nats.py):
      the three pattern matchers, over one matcher of pieces that stands for the
      used fragments of [fnmatch] and [re].
    - Wire (transports/tcp.py): the length-prefixed frames.
    - Transport (transports/base.py): the [Transport] class that [MessageQueue] is
      written against, and what transports share.  Async: [receive_async] of one
      topic as threads, event loop and time, in any order.
    - Memory (transports/memory.py): [MemoryTransport].  Redis, Nats
      (transports/redis.py, nats.py): the transports over a client library, which
      is a class of operations with its laws.  Tcp (transports/tcp.py): server and
      client, the tables they share, and the link between them; TcpThreads: the
      server's threads, senders and closers, interleaved.
    - Observers (observers.py): the four dispatchers, [Node], [Eventful];
      NodeThreads: dispatchers that share nodes, interleaved.
      Observable (observers.py): the channels of a class, [observe], [Reporter].
      Meter (observers.py): reductions, lifecycle, [attach] and the four meters.
      Logfire (integrations/logfire.py): the meter that opens spans.
    - Queue (queue.py): [MessageQueue]; [Local] puts it over [MemoryTransport].
    - WorkQueue, WorkDispatch, WorkSteps, WorkFlow (work_queue.py): the operations
      and the interface [table_inv] through which an invariant of the tables is
      shown to be kept by all of them; what each section does; the interleavings;
      the life of a message.  LeaseQueue: the abstract queue that a topic of it
      promises, messages that are leased and come back; WorkRefines: the
      refinement.
    - TaskPool and TaskRunner (task.py), Executor (executor.py); ExecutorSteps:
      submitters, workers, callbacks and [stop], interleaved.  TaskQueue (task.py):
      [@task], the runners of a process and a queue as two views of one heap.
    - Rpc (rpc.py): server, client, round-robin client, retries; RpcClients: the
      clients as objects, a retrying client over a pool.
    - Remote (remote.py): [RemoteQueue].  Worker (worker.py): the worker process.
      RpcTcp: a client and a worker, two processes, over TCP.
    - Topology (src/deploy/topology): the demander and the handlers that are
      deployed with the workers.  Scripts, TaskScripts (src/examples): the example
      programs as they run on the components.

    They interact as in the program: a [MessageQueue] subscribes its channels to
    the transport by name and the transport's [send] fires them; [WorkQueue]
    extends the queue's heap with its tables; [TaskRunner] owns a [TaskPool],
    submits to an [Executor] and fires [Eventful] channels, to which meters attach;
    [@task] makes it a handler of a queue, to which it publishes;
    the RPC server is a handler of a queue whose own [publish] answers; a
    [RemoteQueue] owns a queue over a TCP client for every peer, and the worker an
    RPC server on a queue over a TCP server.

    ** What the theorems show

    - [WorkSteps]: under every interleaving the tables stay consistent, no message
      is lost but by a successful [ack], a delivery is settled at most once, and a
      topic with consumers and pending messages always has a dispatch on its way.
      [WorkDispatch], [WorkFlow]: every message goes to exactly one consumer of
      each group, in rotation; first in, first out; backpressure; the visibility
      timeout and the retry limit.  [WorkRefines]: every run of the queue, each
      step labelled with the events that it stands for, is event by event the run
      of the abstract leasing queue; and in such a run a message is delivered no
      more often than its retries allow.
    - [Memory], [Queue]: the representation invariants of the transport and of the
      queue that is linked to it, kept by every operation with re-entrant
      call-backs; who is called for a message, in which order, and what an
      exception stops; order and bounds of the receive queues; subscriptions and
      requests undone and answered.  [Async]: what becomes of a message when
      asynchronous receivers time out, and how long they wait.
    - [Redis], [Nats], [Tcp]: the subscriptions held at the server are exactly those
      the transport's tables need; who is called for a message and how often.  The
      TCP link refines a lossless channel that ends somewhere; the server's thread
      of a client ends; a broadcast reaches the clients that work.  [TcpThreads]: no
      socket is forgotten, and [close] drains the server.
    - [Observers], [Observable], [Meter], [Logfire]: rotation, least loaded choice,
      reservations never above the capacity and always given back, also between
      threads ([NodeThreads]); who hears an
      event; a meter is the reduction of its observations; spans are closed.
    - [Topics], [Wire]: which relation each pattern matcher decides, and at which
      patterns and topics that is not the documented one; frames survive any
      cutting of the stream.
    - [TaskRunner], [TaskPool], [Executor]: which lifecycle channels fire, the
      outcome of a task, the slot given back, at most [max_instances] holders; the
      three execution modes report alike, in tables that stay well typed.
      [ExecutorSteps]: no job is lost between [submit] and [result], and the
      executor comes to rest only when all is done; a submission that crashed did so
      because a stop took its pool.  [TaskQueue]: from a message on
      the queue to the result that the task publishes there.
    - [Rpc]: a remote call is a call; serving and stopping; retries; rotation.
      [RpcClients]: a call survives the loss of workers, as many as it has retries.
      [Remote]: no link is leaked, partial broadcasts.  [Worker]: from loading the
      module, over any time of serving clients that come and go, to the last socket
      closed.  [RpcTcp]: a call over TCP, from the bytes of
      the request to the value that the caller gets.  [Topology]: the demander's
      calls are spread evenly over the servers; its configuration is read back as
      it was written.  [Scripts], [TaskScripts]: what the examples print, a model
      that goes to a worker and back.

    Some theorems state what the code does where that is not what its
    documentation says ([memory_star_matches], [re_matches_segments],
    [undrained_topic_fills], [dead_letters_starve], [lifecycle], the count of the
    queued in [pool_bounds], the empty error text in [call_outcome] and
    [call_over_tcp], repeated deliveries in [redis_delivery] and [nats_delivery],
    late messages in [async_accounts]).

    ** Bounds and fuel

    Recursion is structural (over the list of subscribers, the pending queue that
    the dispatching loop owns, the pieces of a pattern, the rounds of a retry loop)
    and every operation is a total function; loops that wait are one pass each.
    Two loops take fuel: [recv_loop] of the wire, for which any number above that
    of the messages sent is enough ([stream_roundtrip]), and [read_rounds] of the
    TCP threads, for which one round per byte and one more is ([client_loop_ends],
    [tcp_link]).  The handlers of [TaskQueue] nest at most as deep as their argument
    says, which stands for Python's bound on recursion.  Bounded queues have the bound of the code as a parameter.

    ** What is not modelled

    Logging, sockets (a connection is a stream of bytes that may fail, cut into
    chunks at any place; binding, accepting and connecting succeed or raise by an
    argument), the third-party clients (redis, nats, logfire: classes of operations
    with laws), pydantic beyond its round-trip laws (parameters of Wire and Rpc),
    the text of JSON (a parameter, whose round trip gives lists for tuples), pickle
    (a parameter that says what can cross to a process and back), the thread pools of the standard library (a submitted job runs at some
    later time), and the event loops: a coroutine is its statements, but for
    [receive_async], whose interleavings are in Async.  A time is an
    integer or, where the code multiplies one, a rational.  How argparse finds the
    worker's options in an arbitrary argument list, the benchmarks and the container
    files are left out, and of the examples 03, 05 and the parts of 04 whose output
    is measured time or what threads see of each other. *)
From stdpp Require Export base list strings numbers pretty gmap sorting option relations.
From Stdlib Require Export Ascii.

#[global] Set Default Goal Selector "!".
#[export] Set Warnings "-clear-no-such-hyp".
#[global] Open Scope Z_scope.

(** ** Python exceptions and results

    [Exc ty msg] is an instance of a subclass of [Exception] whose class name is
    [ty] and whose [str()] is [msg]; [BaseExc] stands for the classes that are not
    under [Exception] (KeyboardInterrupt, SystemExit), which an
    [except Exception:] clause lets through. *)
Inductive exn : Type :=
  | Exc (ty msg : string)
  | BaseExc (ty msg : string).

#[global] Instance exn_eq_dec : EqDecision exn.
Proof. solve_decision. Defined.

Definition exn_type (e : exn) : string :=
  match e with Exc ty _ | BaseExc ty _ => ty end.

Definition exn_str (e : exn) : string :=
  match e with Exc _ msg | BaseExc _ msg => msg end.

Definition is_Exception (e : exn) : bool :=
  match e with Exc _ _ => true | BaseExc _ _ => false end.

Inductive result (A : Type) : Type :=
  | Ok (a : A)
  | Raise (e : exn).
Arguments Ok {A} a.
Arguments Raise {A} e.

Definition is_Ok {A} (r : result A) : bool :=
  match r with Ok _ => true | Raise _ => false end.

(** ** The effect monad

    A Python statement that runs in a heap of type [W] and returns an [A] or
    raises; what it did to the heap before raising stands, as in Python. *)
Definition M (W A : Type) : Type := W -> result A * W.

Declare Scope py_scope.
Delimit Scope py_scope with py.

Section monad.
Context {W : Type}.

Definition ret {A} (a : A) : M W A := fun w => (Ok a, w).

Definition bind {A B} (m : M W A) (k : A -> M W B) : M W B :=
  fun w => match m w with
           | (Ok a, w') => k a w'
           | (Raise e, w') => (Raise e, w')
           end.

Definition throw {A} (e : exn) : M W A := fun w => (Raise e, w).

(** [try: m  except Exception as e: h e] *)
Definition try_except {A} (m : M W A) (h : exn -> M W A) : M W A :=
  fun w => match m w with
           | (Raise e, w') => if is_Exception e then h e w' else (Raise e, w')
           | r => r
           end.

(** [try: m  finally: f]; an exception of [f] replaces the outcome of [m]. *)
Definition try_finally {A} (m : M W A) (f : M W unit) : M W A :=
  fun w => let '(r, w1) := m w in
           match f w1 with
           | (Ok _, w2) => (r, w2)
           | (Raise e, w2) => (Raise e, w2)
           end.

Definition gets {A} (f : W -> A) : M W A := fun w => (Ok (f w), w).
Definition modify (f : W -> W) : M W unit := fun w => (Ok tt, f w).
Definition lift {A} (r : result A) : M W A := fun w => (r, w).
End monad.

Notation "'let!' x := m 'in' k" := (bind m (fun x => k))
  (at level 10, x binder, m at level 100, k at level 200) : py_scope.
Notation "m ;;; k" := (bind m (fun _ => k))
  (at level 100, k at level 200, right associativity) : py_scope.
#[global] Open Scope py_scope.

(** A [for] loop whose body may raise: it stops at the first exception. *)
Fixpoint for_each {W A} (l : list A) (body : A -> M W unit) : M W unit :=
  match l with
  | [] => ret tt
  | x :: l' => body x ;;; for_each l' body
  end.

(** Statements are compared by what they do from every heap. *)
Definition m_equiv {W A} (m1 m2 : M W A) : Prop := forall w, m1 w = m2 w.

#[global] Instance m_equiv_equivalence {W A} : Equivalence (@m_equiv W A).
Proof. split; red; unfold m_equiv; [done|done|congruence]. Qed.

#[global] Instance bind_proper {W A B} :
  Proper (m_equiv ==> pointwise_relation A m_equiv ==> m_equiv) (@bind W A B).
Proof.
  intros m1 m2 Hm k1 k2 Hk w. unfold bind. rewrite (Hm w).
  destruct (m2 w) as [[a|e] w']; [apply Hk | done].
Qed.

#[global] Instance for_each_proper {W A} (l : list A) :
  Proper (pointwise_relation A m_equiv ==> m_equiv) (@for_each W A l).
Proof.
  intros b1 b2 Hb. induction l as [|x l IH]; [done|].
  cbn. apply bind_proper; [apply Hb | intros _; apply IH].
Qed.

Lemma bind_run {W A B} (m : M W A) (k : A -> M W B) w a w' : m w = (Ok a, w') -> bind m k w = k a w'.
Proof. unfold bind. by intros ->. Qed.

Lemma bind_ret_l {W A B} (a : A) (k : A -> M W B) : m_equiv (bind (ret a) k) (k a).
Proof. done. Qed.

Lemma bind_ret_r {W A} (m : M W A) : m_equiv (bind m ret) m.
Proof. intros w. unfold bind, ret. by destruct (m w) as [[]]. Qed.

Lemma bind_assoc {W A B C} (m : M W A) (k : A -> M W B) (h : B -> M W C) :
  m_equiv (bind (bind m k) h) (bind m (fun a => bind (k a) h)).
Proof. intros w. unfold bind. by destruct (m w) as [[]]. Qed.

Lemma for_each_app {W A} (l1 l2 : list A) (b : A -> M W unit) :
  m_equiv (for_each (l1 ++ l2) b) (for_each l1 b ;;; for_each l2 b).
Proof.
  induction l1 as [|x l1 IH]; cbn; [done|].
  rewrite bind_assoc. by apply bind_proper; [|intros _].
Qed.

(** ** Tactics *)

(** Case analysis on every [match] of the goal, keeping the equations. *)
Ltac case_all :=
  repeat (case_match; simplify_eq/=; try done).

(** Open existentials and conjunctions of the context. *)
Ltac deex :=
  repeat match goal with
    | H : exists x, _ |- _ => let y := fresh x in destruct H as [y H]
    | H : _ /\ _ |- _ => destruct H
    end.

(** ** Hint databases: [py] for goals closed by resolution, [pyrw] for rewriting. *)
Create HintDb py discriminated.
Create Rewrite HintDb pyrw.

(** ** Invariants of statements

    [keeps I m]: from a heap where [I] holds, [m] leads to one where it holds,
    whether it returns or raises.  The rules follow the statement's structure. *)
Definition keeps {W A} (I : W -> Prop) (m : M W A) : Prop := forall w, I w -> I (m w).2.

Section keeps.
Context {W : Type} (I : W -> Prop).

Lemma keeps_ret {A} (a : A) : keeps I (ret a).
Proof. by intros w. Qed.

Lemma keeps_throw {A} e : keeps I (throw (A := A) e).
Proof. by intros w. Qed.

Lemma keeps_gets {A} (f : W -> A) : keeps I (gets f).
Proof. by intros w. Qed.

Lemma keeps_lift {A} (r : result A) : keeps I (lift r).
Proof. by intros w. Qed.

Lemma keeps_modify (f : W -> W) : (forall w, I w -> I (f w)) -> keeps I (modify f).
Proof. by intros Hf w; apply Hf. Qed.

Lemma keeps_bind {A B} (m : M W A) (k : A -> M W B) :
  keeps I m -> (forall a, keeps I (k a)) -> keeps I (bind m k).
Proof.
  intros Hm Hk w HI. unfold bind. specialize (Hm w HI).
  destruct (m w) as [[a|e] w']; [by apply Hk | done].
Qed.

Lemma keeps_try_except {A} (m : M W A) (h : exn -> M W A) :
  keeps I m -> (forall e, keeps I (h e)) -> keeps I (try_except m h).
Proof.
  intros Hm Hh w HI. unfold try_except. specialize (Hm w HI).
  destruct (m w) as [[a|e] w']; [done|]. destruct (is_Exception e); [by apply Hh | done].
Qed.

Lemma keeps_try_finally {A} (m : M W A) (f : M W unit) :
  keeps I m -> keeps I f -> keeps I (try_finally m f).
Proof.
  intros Hm Hf w HI. unfold try_finally. specialize (Hm w HI).
  destruct (m w) as [r w1]. specialize (Hf w1 Hm). by destruct (f w1) as [[] w2].
Qed.

Lemma keeps_for_each {A} (l : list A) (body : A -> M W unit) :
  (forall x, keeps I (body x)) -> keeps I (for_each l body).
Proof.
  intros Hb. induction l as [|x l IH]; [apply keeps_ret | by apply keeps_bind].
Qed.
End keeps.

#[export] Hint Resolve keeps_ret keeps_throw keeps_gets keeps_lift keeps_bind keeps_try_except
  keeps_try_finally keeps_for_each : py.
#[export] Hint Extern 1 (keeps _ (match ?x with _ => _ end)) => destruct x : py.
#[export] Hint Extern 1 (keeps _ (if ?x then _ else _)) => destruct x : py.

(** What a statement returns: [Q] of every value, from heaps where [I] holds. *)
Definition gives {W A} (I : W -> Prop) (m : M W A) (Q : A -> Prop) : Prop :=
  forall w a, I w -> (m w).1 = Ok a -> Q a.

Section gives.
Context {W : Type} (I : W -> Prop).

Lemma gives_ret {A} (a : A) (Q : A -> Prop) : Q a -> gives I (ret a) Q.
Proof. by intros HQ w b _ [= <-]. Qed.

Lemma gives_bind {A B} (m : M W A) (k : A -> M W B) (Q : A -> Prop) (R : B -> Prop) :
  keeps I m -> gives I m Q -> (forall a, Q a -> gives I (k a) R) -> gives I (bind m k) R.
Proof.
  intros Hm HQ Hk w b HI. unfold bind. specialize (Hm w HI). specialize (HQ w).
  destruct (m w) as [[a|e] w']; [|done]. apply Hk; [by apply HQ | done].
Qed.

Lemma keeps_bind_gives {A B} (m : M W A) (k : A -> M W B) (Q : A -> Prop) :
  keeps I m -> gives I m Q -> (forall a, Q a -> keeps I (k a)) -> keeps I (bind m k).
Proof.
  intros Hm HQ Hk w HI. unfold bind. specialize (Hm w HI). specialize (HQ w).
  destruct (m w) as [[a|e] w']; [by apply Hk; [apply HQ|] | done].
Qed.
End gives.

(** What a statement returns, and whether it raises at most [Exception]s. *)
Definition tame {W A} (I : W -> Prop) (m : M W A) : Prop :=
  forall w e, I w -> (m w).1 = Raise e -> is_Exception e = true.

(** A statement under [try: ... except Exception: pass] always returns. *)
Lemma swallowed {W} (I : W -> Prop) (m : M W unit) w :
  tame I m -> I w -> try_except m (fun _ => ret tt) w = (Ok tt, (m w).2).
Proof.
  intros Ht HI. specialize (Ht w). unfold try_except.
  destruct (m w) as [[[]|e] w']; [done|]. cbn in *. by rewrite (Ht e).
Qed.

(** ** Generic lemmas on lists *)
Section lists.
Context {A : Type}.
Implicit Types (l : list A) (x : A).

Lemma filter_none (P : A -> Prop) `{!forall x, Decision (P x)} l :
  Forall (fun x => ~ P x) l -> filter P l = [].
Proof.
  induction 1 as [|x l Hx _ IH]; [done|].
  by rewrite filter_cons, decide_False.
Qed.

Lemma filter_all (P : A -> Prop) `{!forall x, Decision (P x)} l :
  Forall P l -> filter P l = l.
Proof.
  induction 1 as [|x l Hx _ IH]; [done|].
  by rewrite filter_cons, decide_True, IH.
Qed.

Lemma alter_last (f : A -> A) l x : alter f (length l) (l ++ [x]) = l ++ [f x].
Proof. induction l as [|y l IH]; [done|]. cbn. by f_equal. Qed.

Lemma concat_map_nil {B} (f : A -> list B) l :
  Forall (fun x => f x = []) l -> concat (map f l) = [].
Proof. induction 1 as [|x l Hx _ IH]; [done|]. cbn. by rewrite Hx, IH. Qed.

Lemma filter_nil_inv (p : A -> bool) l :
  List.filter p l = [] -> Forall (fun x => p x = false) l.
Proof.
  induction l as [|x l IH]; [constructor|]. cbn.
  destruct (p x) eqn:Hx; [done|]. constructor; auto.
Qed.

Lemma filter_none_b (p : A -> bool) l :
  Forall (fun x => p x = false) l -> List.filter p l = [].
Proof. induction 1 as [|x l Hx _ IH]; [done|]. cbn. by rewrite Hx. Qed.

(** A filter that keeps one element: where it is. *)
Lemma filter_one_inv (p : A -> bool) l x :
  List.filter p l = [x] -> exists pre post, l = pre ++ x :: post /\ p x = true /\
    Forall (fun y => p y = false) pre /\ Forall (fun y => p y = false) post.
Proof.
  induction l as [|y l IH]; [done|]. cbn. destruct (p y) eqn:Hy.
  - intros [= -> Hl%filter_nil_inv]. by exists [], l.
  - intros (pre & post & -> & ? & ? & ?)%IH. exists (y :: pre), post. split_and!; auto.
Qed.

Lemma filter_map {B} (p : B -> bool) (q : A -> bool) (g : A -> B) l :
  (forall x, x ∈ l -> p (g x) = q x) -> List.filter p (map g l) = map g (List.filter q l).
Proof.
  induction l as [|x l IH]; intros Hpq; [done|]. cbn.
  rewrite Hpq by by left. rewrite IH by (intros y Hy; apply Hpq; by right).
  by destruct (q x).
Qed.
End lists.

(** [l.remove(x)]: the first occurrence goes (the callers have checked that there is one) *)
Section remove.
Context {A : Type} `{!EqDecision A}.
Implicit Types (l : list A) (x y : A).

Fixpoint remove_first x l : list A :=
  match l with
  | [] => []
  | y :: l' => if decide (y = x) then l' else y :: remove_first x l'
  end.

Lemma remove_first_perm x l : x ∈ l -> l ≡ₚ x :: remove_first x l.
Proof.
  induction l as [|y l IH]; [by intros ?%not_elem_of_nil|]. cbn. case_decide as Hy; [by subst|].
  intros [->|Hx]%elem_of_cons; [done|]. rewrite (IH Hx) at 1. apply perm_swap.
Qed.

Lemma remove_first_elem x y l : NoDup l -> y ∈ remove_first x l <-> y <> x /\ y ∈ l.
Proof.
  induction 1 as [|z l Hz Hl IH]; cbn; [set_solver|].
  case_decide; [subst; set_solver|]. rewrite !elem_of_cons, IH. naive_solver.
Qed.

Lemma remove_first_other x y l : y <> x -> y ∈ remove_first x l <-> y ∈ l.
Proof. intros Hy. induction l as [|z l IH]; cbn; [done|]. case_decide; set_solver. Qed.

Lemma remove_first_nodup x l : NoDup l -> NoDup (remove_first x l).
Proof.
  induction 1 as [|z l Hz Hl IH]; cbn; [constructor|].
  case_decide; [done|]. constructor; [|done]. rewrite remove_first_elem by done. naive_solver.
Qed.

(** Removing what is there once is filtering it out. *)
Lemma remove_first_filter x l : NoDup l -> remove_first x l = filter (fun y => y <> x) l.
Proof.
  induction 1 as [|z l Hz Hl IH]; [done|]. cbn [remove_first]. rewrite filter_cons.
  destruct (decide (z = x)) as [->|Hzx].
  - rewrite decide_False by naive_solver. symmetry. apply filter_all, Forall_forall. by intros y Hy ->.
  - by rewrite decide_True, IH.
Qed.
End remove.

(** ** Interleavings as lists of events

    [exec e s] is what the event [e] does in the state [s], where it can happen;
    a run is any list of events that can happen one after the other. *)
Section runs.
Context {S E : Type}.
Variable exec : E -> S -> option S.

Fixpoint run_events (es : list E) (s : S) : option S :=
  match es with
  | [] => Some s
  | e :: es' => match exec e s with Some s' => run_events es' s' | None => None end
  end.

Lemma run_events_app es1 es2 s s1 : run_events es1 s = Some s1 -> run_events (es1 ++ es2) s = run_events es2 s1.
Proof.
  revert s. induction es1 as [|e es1 IH]; intros s; cbn; [by intros [= ->]|].
  destruct (exec e s); cbn; [apply IH|done].
Qed.

Lemma run_events_none es1 es2 s : run_events es1 s = None -> run_events (es1 ++ es2) s = None.
Proof.
  revert s. induction es1 as [|e es1 IH]; intros s; cbn; [done|]. destruct (exec e s); [apply IH|done].
Qed.

(** An invariant that the events with [P] keep *)
Lemma run_events_invariant (I : S -> Prop) (P : E -> Prop) es s s' :
  (forall e s s', P e -> I s -> exec e s = Some s' -> I s') -> Forall P es -> I s -> run_events es s = Some s' -> I s'.
Proof.
  intros Hstep Hes. revert s. induction Hes as [|e es He _ IH]; intros s HI Hrun; cbn in Hrun; [by injection Hrun as <-|].
  destruct (exec e s) as [s1|] eqn:Hx; cbn in Hrun; [|done]. by eapply IH, Hrun; eapply Hstep.
Qed.

Lemma run_events_keep (I : S -> Prop) es s s' :
  (forall e s s', I s -> exec e s = Some s' -> I s') -> I s -> run_events es s = Some s' -> I s'.
Proof.
  intros Hstep. apply (run_events_invariant I (fun _ => True)); [by intros e s1 s2 _; apply Hstep|]. by apply Forall_true.
Qed.
End runs.

(** ** How many elements of a list have a property *)
Section count_if.
Context {A : Type}.
Implicit Types (P Q : A -> bool) (l : list A).

Definition count_if P l : Z := Z.of_nat (length (List.filter P l)).

Definition b2z (b : bool) : Z := if b then 1 else 0.

Lemma count_if_cons P x l : count_if P (x :: l) = b2z (P x) + count_if P l.
Proof. unfold count_if, b2z. cbn. destruct (P x); cbn [length]; lia. Qed.

Lemma count_if_nonneg P l : 0 <= count_if P l.
Proof. unfold count_if. lia. Qed.

Lemma count_if_insert P l i x y : l !! i = Some x -> count_if P (<[i := y]> l) = count_if P l - b2z (P x) + b2z (P y).
Proof.
  revert i. induction l as [|z l IH]; intros [|i] Hi; cbn in Hi; simplify_eq.
  - change (<[0%nat := y]> (x :: l)) with (y :: l). rewrite !count_if_cons. lia.
  - change (<[S i := y]> (z :: l)) with (z :: <[i := y]> l). rewrite !count_if_cons, (IH i Hi). lia.
Qed.

Lemma count_if_elem P l i x : l !! i = Some x -> P x = true -> 0 < count_if P l.
Proof.
  intros Hi Hp. rewrite <- (list_insert_id l i x Hi), (count_if_insert P l i x x Hi).
  pose proof (count_if_nonneg P (delete i l)) as Hn.
  rewrite <- (take_drop_middle l i x Hi). unfold count_if. rewrite List.filter_app, length_app. cbn. rewrite Hp. cbn [length]. lia.
Qed.

Lemma count_if_le P Q l : (forall x, P x = true -> Q x = true) -> count_if P l <= count_if Q l.
Proof.
  intros HPQ. induction l as [|x l IH]; [done|]. rewrite !count_if_cons.
  specialize (HPQ x). destruct (P x); [rewrite (HPQ eq_refl)|destruct (Q x)]; cbn; lia.
Qed.

Lemma count_if_zero P l : (forall x, x ∈ l -> P x = false) -> count_if P l = 0.
Proof.
  intros HP. induction l as [|x l IH]; [done|]. rewrite count_if_cons.
  rewrite (HP x) by by left. apply IH. intros y Hy. apply HP. by right.
Qed.
End count_if.

(** ** Strings as lists of characters *)
Abbreviation chars := (list ascii).
Definition explode (s : string) : chars := String.list_ascii_of_string s.
Definition implode (l : chars) : string := String.string_of_list_ascii l.

Lemma implode_explode s : implode (explode s) = s.
Proof. apply String.string_of_list_ascii_of_string. Qed.

Lemma explode_inj s t : explode s = explode t -> s = t.
Proof. intros H. by rewrite <- (implode_explode s), <- (implode_explode t), H. Qed.

Lemma explode_app s t : explode (s +:+ t) = explode s ++ explode t.
Proof. induction s as [|c s IH]; [done|]. exact (f_equal (cons c) IH). Qed.
