(* ===== verification/PyDict.v ===== *)
(** * Python dictionaries

    A [dict] iterates in insertion order, an assignment to an existing key
    keeps its position, and [list(d.items())] is a snapshot.  [MemoryTransport],
    [WorkQueue], [RemoteQueue] and the others iterate over their dictionaries,
    so the model keeps the order: a dictionary is an association list whose keys
    are distinct ([dict_ok]). *)
From S2P Require Import Prelude.

Section dict.
Context {K V : Type} `{!EqDecision K}.
Implicit Types (d : list (K * V)) (k j : K) (v : V).

(** [d.get(k)] *)
Fixpoint dget d k : option V :=
  match d with
  | [] => None
  | (k', v) :: d' => if decide (k' = k) then Some v else dget d' k
  end.

(** [d[k] = v] *)
Fixpoint dset d k v : list (K * V) :=
  match d with
  | [] => [(k, v)]
  | (k', v') :: d' => if decide (k' = k) then (k, v) :: d' else (k', v') :: dset d' k v
  end.

(** [del d[k]] and the effect of [d.pop(k, None)] *)
Definition ddel d k : list (K * V) := filter (fun p => p.1 <> k) d.

(** [k in d] *)
Definition dmem d k : bool := match dget d k with Some _ => true | None => false end.

Definition dkeys d : list K := d.*1.
Definition dvalues d : list V := d.*2.

Definition dict_ok d : Prop := NoDup (dkeys d).

(** A [defaultdict]: a missing key reads as [dflt]. *)
Definition dget_or (dflt : V) d k : V := default dflt (dget d k).

Lemma dget_dset_eq d k v : dget (dset d k v) k = Some v.
Proof.
  induction d as [|[k' v'] d IH]; cbn; [by rewrite decide_True|].
  case_decide; cbn; [by rewrite decide_True | by rewrite decide_False].
Qed.

Lemma dget_dset_ne d k j v : j <> k -> dget (dset d k v) j = dget d j.
Proof.
  intros Hne. induction d as [|[k' v'] d IH]; cbn; [by rewrite decide_False|].
  case_decide; cbn; [subst|]; [|by case_decide].
  by rewrite !(decide_False (P := k = j)).
Qed.

Lemma dget_dset d k j v :
  dget (dset d k v) j = if decide (j = k) then Some v else dget d j.
Proof. case_decide; [subst; apply dget_dset_eq | by apply dget_dset_ne]. Qed.

Lemma dget_ddel_eq d k : dget (ddel d k) k = None.
Proof.
  induction d as [|[k' v'] d IH]; [done|]. unfold ddel. rewrite filter_cons. cbn.
  case_decide; cbn; [by rewrite decide_False | done].
Qed.

Lemma dget_ddel_ne d k j : j <> k -> dget (ddel d k) j = dget d j.
Proof.
  intros Hne. induction d as [|[k' v'] d IH]; [done|]. unfold ddel.
  rewrite filter_cons. cbn.
  destruct (decide (k' <> k)) as [|Hk]; cbn; [by case_decide|].
  apply dec_stable in Hk as ->. rewrite decide_False by done. apply IH.
Qed.

Lemma dget_ddel d k j :
  dget (ddel d k) j = if decide (j = k) then None else dget d j.
Proof. case_decide; [subst; apply dget_ddel_eq | by apply dget_ddel_ne]. Qed.

Lemma dget_elem d k v : dget d k = Some v -> (k, v) ∈ d.
Proof.
  induction d as [|[k' v'] d IH]; cbn; [done|].
  case_decide; intros ?; simplify_eq; [by left | right; auto].
Qed.

Lemma elem_dget d k v : dict_ok d -> (k, v) ∈ d -> dget d k = Some v.
Proof.
  unfold dict_ok. induction d as [|[k' v'] d IH]; cbn; [by intros _ ?%not_elem_of_nil|].
  intros [Hni Hnd]%NoDup_cons [?|Hin]%elem_of_cons; simplify_eq.
  - by rewrite decide_True.
  - rewrite decide_False; [auto|]. intros ->. apply Hni.
    apply list_elem_of_fmap. by exists (k, v).
Qed.

Lemma dget_None d k : dget d k = None <-> k ∉ dkeys d.
Proof.
  induction d as [|[k' v'] d IH]; cbn.
  - split; [intros _; apply not_elem_of_nil | done].
  - rewrite not_elem_of_cons. destruct (decide (k' = k)) as [->|Hne]; [|rewrite IH].
    + split; [done | by intros [? _]].
    + split; [by split; [congruence|] | by intros [_ ?]].
Qed.

Lemma dget_is_Some d k : is_Some (dget d k) <-> k ∈ dkeys d.
Proof.
  pose proof (dget_None d k). destruct (dget d k) eqn:E.
  - split; [intros _; apply dget_elem in E; apply list_elem_of_fmap; by exists (k, v) | eauto].
  - split; [by intros [? ?] | intros Hin; by destruct (proj1 H eq_refl)].
Qed.

Lemma dmem_true d k : dmem d k = true <-> k ∈ dkeys d.
Proof.
  rewrite <- dget_is_Some. unfold dmem, is_Some.
  destruct (dget d k); split; intros; deex; eauto; congruence.
Qed.

Lemma dmem_false d k : dmem d k = false <-> dget d k = None.
Proof. unfold dmem. by destruct (dget d k). Qed.

Lemma dkeys_dset d k v :
  dkeys (dset d k v) = if decide (k ∈ dkeys d) then dkeys d else dkeys d ++ [k].
Proof.
  unfold dkeys. induction d as [|[k' v'] d IH]; cbn.
  - rewrite decide_False by apply not_elem_of_nil. done.
  - destruct (decide (k' = k)) as [->|Hk]; cbn.
    + rewrite decide_True by apply list_elem_of_here. done.
    + rewrite IH. destruct (decide (k ∈ d.*1)) as [Hin|Hin].
      * rewrite decide_True by by apply list_elem_of_further. done.
      * rewrite decide_False; [done|]. by intros [?|?]%elem_of_cons.
Qed.

Lemma dkeys_ddel d k : dkeys (ddel d k) = filter (fun j => j <> k) (dkeys d).
Proof.
  unfold dkeys, ddel. induction d as [|[k' v'] d IH]; [done|].
  rewrite fmap_cons, !filter_cons. cbn. case_decide; cbn; by rewrite IH.
Qed.

Lemma elem_dkeys_ddel d k j : j ∈ dkeys (ddel d k) <-> j <> k /\ j ∈ dkeys d.
Proof. rewrite dkeys_ddel. apply (list_elem_of_filter (fun j => j <> k)). Qed.

Lemma elem_dkeys_dset d k v j : j ∈ dkeys (dset d k v) <-> j = k \/ j ∈ dkeys d.
Proof. rewrite dkeys_dset. case_decide; set_solver. Qed.

Lemma dict_ok_nil : dict_ok [].
Proof. constructor. Qed.

Lemma dict_ok_dset d k v : dict_ok d -> dict_ok (dset d k v).
Proof.
  unfold dict_ok. rewrite dkeys_dset. case_decide; [done|]. intros Hd.
  apply NoDup_app. split_and!; [done| |apply NoDup_singleton].
  intros x Hx ->%list_elem_of_singleton. done.
Qed.

Lemma dict_ok_ddel d k : dict_ok d -> dict_ok (ddel d k).
Proof. unfold dict_ok. rewrite dkeys_ddel. apply NoDup_filter. Qed.

Lemma dset_fresh d k v : dget d k = None -> dset d k v = d ++ [(k, v)].
Proof.
  induction d as [|[k' v'] d IH]; cbn; [done|].
  case_decide; [done|]. intros. by rewrite IH.
Qed.

Lemma ddel_fresh d k : dget d k = None -> ddel d k = d.
Proof.
  intros Hk%dget_None. apply filter_all, Forall_forall. intros [k' v'] Hin; cbn; intros <-.
  apply Hk, list_elem_of_fmap. by exists (k', v').
Qed.

Lemma elem_ddel d k j v : (j, v) ∈ ddel d k <-> j <> k /\ (j, v) ∈ d.
Proof. unfold ddel. by rewrite list_elem_of_filter. Qed.

(** Removing a bound key takes exactly its entry out. *)
Lemma ddel_perm d k v :
  dict_ok d -> dget d k = Some v -> d ≡ₚ (k, v) :: ddel d k.
Proof.
  unfold dict_ok. induction d as [|[k' v'] d IH]; [done|].
  intros [Hni Hnd]%NoDup_cons. cbn [dget]. unfold ddel in *.
  rewrite filter_cons. cbn [fst]. case_decide as Hk; intros Hg.
  - simplify_eq. rewrite decide_False by (intros Hn; by apply Hn).
    pose proof (ddel_fresh d k (proj2 (dget_None d k) Hni)) as Hd.
    unfold ddel in Hd. by rewrite Hd.
  - rewrite decide_True by done. rewrite (IH Hnd Hg) at 1. apply Permutation_swap.
Qed.

Lemma length_ddel d k v :
  dict_ok d -> dget d k = Some v -> length d = S (length (ddel d k)).
Proof. intros Hd Hg. by rewrite (ddel_perm d k v Hd Hg) at 1. Qed.

Lemma dget_app d1 d2 k :
  dget (d1 ++ d2) k = match dget d1 k with Some v => Some v | None => dget d2 k end.
Proof. induction d1 as [|[k' v'] d1 IH]; cbn; [done|]. by case_decide. Qed.

(** The entries under one key. *)
Lemma filter_key d k : dict_ok d ->
  List.filter (fun p => bool_decide (k = p.1)) d =
    match dget d k with Some v => [(k, v)] | None => [] end.
Proof.
  unfold dict_ok. induction d as [|[k' v'] d IH]; [done|]. intros [Hni Hnd]%NoDup_cons.
  cbn. rewrite (IH Hnd). destruct (decide (k' = k)) as [->|Hne].
  - rewrite bool_decide_eq_true_2 by done. by rewrite (proj2 (dget_None d k)).
  - by rewrite bool_decide_eq_false_2 by congruence.
Qed.

Lemma dset_get d k v : dict_ok d -> dget d k = Some v -> dset d k v = d.
Proof.
  unfold dict_ok. induction d as [|[k' v'] d IH]; cbn; [done|].
  intros [Hni Hnd]%NoDup_cons. case_decide; intros; simplify_eq; [done|].
  by rewrite IH.
Qed.

Lemma dset_cons_ne k k' v v' d : k' <> k -> dset ((k', v') :: d) k v = (k', v') :: dset d k v.
Proof. intros. cbn. by rewrite decide_False. Qed.

Lemma ddel_cons_ne k k' v' d : k' <> k -> ddel ((k', v') :: d) k = (k', v') :: ddel d k.
Proof. intros. unfold ddel. rewrite filter_cons. cbn. by rewrite decide_True. Qed.

Lemma ddel_dset_eq d k v : ddel (dset d k v) k = ddel d k.
Proof.
  induction d as [|[k' v'] d IH].
  - unfold ddel. cbn [dset]. by rewrite filter_cons, decide_False by naive_solver.
  - destruct (decide (k' = k)) as [->|Hne].
    + cbn [dset]. rewrite decide_True by done. unfold ddel.
      by rewrite !filter_cons, !decide_False by naive_solver.
    + by rewrite dset_cons_ne, !ddel_cons_ne, IH by done.
Qed.

Lemma dget_or_dset dflt d k j v :
  dget_or dflt (dset d k v) j = if decide (j = k) then v else dget_or dflt d j.
Proof. unfold dget_or. rewrite dget_dset. by case_decide. Qed.

Lemma elem_dvalues d k v : dget d k = Some v -> v ∈ dvalues d.
Proof. intros Hg%dget_elem. apply list_elem_of_fmap. by exists (k, v). Qed.

Lemma elem_dset d k v j u : (j, u) ∈ dset d k v -> (j = k /\ u = v) \/ (j, u) ∈ d.
Proof.
  induction d as [|[k' v'] d IH]; cbn.
  - intros [[= -> ->]|[]%not_elem_of_nil]%elem_of_cons. by left.
  - case_decide.
    + intros [[= -> ->]|?]%elem_of_cons; [by left | right; by right].
    + intros [[= -> ->]|[?|?]%IH]%elem_of_cons; [right; by left | by left | right; by right].
Qed.

(** Keeping the entries that a test of the value passes. *)
Lemma dget_filter (p : V -> bool) d k v :
  dict_ok d ->
  dget (List.filter (fun e => p e.2) d) k = Some v <-> dget d k = Some v /\ p v = true.
Proof.
  unfold dict_ok. induction d as [|[k' v'] d IH]; [naive_solver|].
  intros [Hni Hnd]%NoDup_cons. cbn. specialize (IH Hnd).
  destruct (decide (k' = k)) as [->|Hne].
  - destruct (p v') eqn:Hp; cbn; [rewrite decide_True by done|].
    + clear IH. split; [by intros [= <-] | by intros [? _]].
    + rewrite IH. cbn in Hni. apply dget_None in Hni. rewrite Hni. split; [by intros [? _]|].
      intros [[= ->] ?]. congruence.
  - destruct (p v'); cbn; [rewrite decide_False by done|]; apply IH.
Qed.

(** Dictionaries with the same bindings differ in order only. *)
Lemma dict_perm d1 d2 :
  dict_ok d1 -> dict_ok d2 -> (forall k, dget d1 k = dget d2 k) -> d1 ≡ₚ d2.
Proof.
  intros H1 H2 Heq. apply NoDup_Permutation; [by eapply NoDup_fmap_1..|].
  intros [k v]. split; intros Hin; apply dget_elem.
  - rewrite <- Heq. by apply elem_dget.
  - rewrite Heq. by apply elem_dget.
Qed.

(** What the values of a dictionary hold together. *)
Definition dtotal {A} (g : V -> list A) d : list A := concat (map (fun p => g p.2) d).

Lemma dtotal_app {A} (g : V -> list A) d1 d2 : dtotal g (d1 ++ d2) = dtotal g d1 ++ dtotal g d2.
Proof. unfold dtotal. by rewrite map_app, concat_app. Qed.

Lemma dtotal_perm {A} (g : V -> list A) d1 d2 : d1 ≡ₚ d2 -> dtotal g d1 ≡ₚ dtotal g d2.
Proof.
  unfold dtotal. induction 1 as [|p d1 d2 _ IH|p q d|d1 d2 d3 _ IH1 _ IH2]; cbn; [done| | |].
  - by rewrite IH.
  - rewrite !app_assoc. apply Permutation_app_tail, Permutation_app_comm.
  - by rewrite IH1.
Qed.

Lemma dtotal_get {A} (g : V -> list A) d k v :
  dict_ok d -> dget d k = Some v -> dtotal g d ≡ₚ g v ++ dtotal g (ddel d k).
Proof. intros Hd Hg. by rewrite (dtotal_perm g _ _ (ddel_perm d k v Hd Hg)). Qed.

Lemma dtotal_get_or {A} (g : V -> list A) dflt d k :
  dict_ok d -> g dflt = [] -> dtotal g d ≡ₚ g (dget_or dflt d k) ++ dtotal g (ddel d k).
Proof.
  intros Hd H0. unfold dget_or. destruct (dget d k) eqn:Hg; cbn; [by apply dtotal_get|].
  by rewrite H0, ddel_fresh.
Qed.

Lemma dtotal_dset {A} (g : V -> list A) d k v :
  dict_ok d -> dtotal g (dset d k v) ≡ₚ g v ++ dtotal g (ddel d k).
Proof.
  intros Hd. rewrite <- (ddel_dset_eq d k v).
  apply dtotal_get; [by apply dict_ok_dset | apply dget_dset_eq].
Qed.
End dict.


(** The same keys with other values *)
Section dmap.
Context {K V V' : Type} `{!EqDecision K} (g : V -> V').
Implicit Types (d : list (K * V)).

Definition dmap d : list (K * V') := map (fun e => (e.1, g e.2)) d.

Lemma dkeys_dmap d : dkeys (dmap d) = dkeys d.
Proof. unfold dkeys, dmap. induction d as [|e d IH]; [done|]. cbn. f_equal. apply IH. Qed.

Lemma dget_dmap d k : dget (dmap d) k = g <$> dget d k.
Proof. induction d as [|[k' v] d IH]; [done|]. cbn. by case_decide. Qed.

Lemma dset_dmap d k v : dset (dmap d) k (g v) = dmap (dset d k v).
Proof. induction d as [|[k' v'] d IH]; [done|]. cbn. case_decide; [done|]. cbn. f_equal. apply IH. Qed.

Lemma ddel_dmap d k : ddel (dmap d) k = dmap (ddel d k).
Proof.
  unfold ddel. induction d as [|[k' v] d IH]; [done|].
  change (dmap ((k', v) :: d)) with ((k', g v) :: dmap d). rewrite !filter_cons. cbn [fst].
  case_decide; [|apply IH]. rewrite IH. done.
Qed.
End dmap.

Arguments dkeys : simpl never.
Arguments dvalues : simpl never.
Arguments dget_or : simpl never.
Arguments dmem : simpl never.
Arguments ddel : simpl never.

#[export] Hint Resolve dict_ok_nil dict_ok_dset dict_ok_ddel : py.
#[export] Hint Rewrite @dget_dset_eq @dget_ddel_eq : pyrw.
#[export] Hint Rewrite @dget_dset_ne @dget_ddel_ne using done : pyrw.

(** [{**d, k: v}] and [{**d, **e}]: later bindings overwrite earlier ones. *)
Definition dmerge {K V} `{!EqDecision K} (d e : list (K * V)) : list (K * V) :=
  fold_left (fun acc p => dset acc p.1 p.2) e d.

Section merge.
Context {K V : Type} `{!EqDecision K}.
Implicit Types (d e : list (K * V)) (k : K).

Lemma dmerge_snoc d e k v : dmerge d (e ++ [(k, v)]) = dset (dmerge d e) k v.
Proof. unfold dmerge. by rewrite fold_left_app. Qed.

Lemma dget_dmerge d e k :
  dict_ok e ->
  dget (dmerge d e) k = match dget e k with Some v => Some v | None => dget d k end.
Proof.
  revert d. induction e as [|[k' v'] e IH]; intros d; [done|].
  intros [Hni Hnd]%NoDup_cons. cbn. unfold dmerge in IH. rewrite IH by done.
  case_decide; simplify_eq.
  - assert (dget e k = None) as -> by by apply dget_None.
    apply dget_dset_eq.
  - destruct (dget e k); [done|]. by apply dget_dset_ne.
Qed.

Lemma dget_dmerge_same d d' e k : dget d k = dget d' k -> dget (dmerge d e) k = dget (dmerge d' e) k.
Proof.
  induction e as [|[k' v] e IH] using rev_ind; [done|]. intros Hd. rewrite !dmerge_snoc, !dget_dset. case_decide; auto.
Qed.

Lemma dict_ok_dmerge d e : dict_ok d -> dict_ok (dmerge d e).
Proof.
  revert d. induction e as [|[k v] e IH]; intros d Hd; [done|].
  cbn. apply IH, dict_ok_dset, Hd.
Qed.
End merge.
#[export] Hint Resolve dict_ok_dmerge : py.
