(* ===== verification/PyFloat.v ===== *)
(** * Python's floats

    IEEE 754 binary64 as the Standard Library specifies it ([SpecFloat]): every
    operation rounds, to nearest with ties to even, and there are two zeros, two
    infinities and a NaN.  The comparison of floats that are not NaN is the
    comparison of integer keys ([flt_key]), from which its order laws follow. *)
From Stdlib Require Import SpecFloat.
From S2P Require Import Prelude.

Abbreviation float := spec_float.

#[global] Instance float_eq_dec : EqDecision spec_float.
Proof. solve_decision. Defined.

(** ** Operations *)

(** The double nearest to [m * 2^e] *)
Definition float_of (m e : Z) : float := binary_normalize 53 1024 m e false.
Definition fzero : float := S754_zero false.

Definition fadd : float -> float -> float := SFadd 53 1024.
Definition fsub : float -> float -> float := SFsub 53 1024.
Definition fmul : float -> float -> float := SFmul 53 1024.
Definition fdiv : float -> float -> float := SFdiv 53 1024.
Definition flt : float -> float -> bool := SFltb.
Definition feq : float -> float -> bool := SFeqb.
Definition is_nan (x : float) : bool := match x with S754_nan => true | _ => false end.

(** [f <= z], which Python decides exactly *)
Definition float_le_int (f : float) (z : Z) : bool :=
  match f with
  | S754_zero _ => bool_decide (0 <= z)
  | S754_infinity s => s
  | S754_nan => false
  | S754_finite s m e => bool_decide (cond_Zopp s (Z.pos m) * 2 ^ Z.max e 0 <= z * 2 ^ Z.max (- e) 0)
  end.

(** [float(z)] of an integer: above this bound it raises. *)
Definition float_limit : Z := 2 ^ 1024 - 2 ^ 970.
Definition int_float (z : Z) : result float :=
  if decide (Z.abs z < float_limit) then Ok (float_of z 0)
  else Raise (Exc "OverflowError" "int too large to convert to float").

(** [f % n] for an integer [n > 0] that is a double *)
Definition fmod_int (f : float) (n : Z) : float :=
  match f with
  | S754_zero _ => fzero
  | S754_infinity _ | S754_nan => S754_nan
  | S754_finite s m e =>
      float_of ((cond_Zopp s (Z.pos m) * 2 ^ Z.max e 0) mod (n * 2 ^ Z.max (- e) 0)) (Z.min e 0)
  end.
#[global] Arguments float_of : simpl never.
#[global] Arguments int_float : simpl never.
#[global] Arguments float_limit : simpl never.

(** Counts as a program reaches them convert. *)
Lemma int_float_ok z : 0 <= z <= 2 ^ 53 -> int_float z = Ok (float_of z 0).
Proof.
  intros Hz. unfold int_float. rewrite decide_True; [done|].
  assert (2 ^ 53 < float_limit) by (vm_compute; reflexivity). lia.
Qed.

(** ** The order *)

(** Where a float is: its sign, then its exponent, then its digits *)
Definition float_key (x : float) : Z * Z * Z :=
  match x with
  | S754_infinity true => (-2, 0, 0)
  | S754_finite true m e => (-1, - e, - Z.pos m)
  | S754_zero _ | S754_nan => (0, 0, 0)
  | S754_finite false m e => (1, e, Z.pos m)
  | S754_infinity false => (2, 0, 0)
  end.

Definition below (k l : Z * Z * Z) : Prop :=
  k.1.1 < l.1.1 \/ k.1.1 = l.1.1 /\ (k.1.2 < l.1.2 \/ k.1.2 = l.1.2 /\ k.2 < l.2).

Lemma compare_key x y : is_nan x = false -> is_nan y = false ->
  match SFcompare x y with
  | Some Lt => below (float_key x) (float_key y)
  | Some Eq => float_key x = float_key y
  | Some Gt => below (float_key y) (float_key x)
  | None => False
  end.
Proof.
  unfold below. destruct x as [sx|sx| |sx mx ex], y as [sy|sy| |sy my ey]; try done;
    try destruct sx; try destruct sy; intros _ _; cbn; try done; try lia.
  - change (PosDef.Pos.compare_cont Eq mx my) with (Pos.compare mx my).
    destruct (Z.compare_spec ex ey); cbn; try lia. destruct (Pos.compare_spec mx my); cbn; subst; try done; lia.
  - change (PosDef.Pos.compare_cont Eq mx my) with (Pos.compare mx my).
    destruct (Z.compare_spec ex ey); cbn; try lia. destruct (Pos.compare_spec mx my); cbn; subst; try done; lia.
Qed.

Lemma flt_key x y : is_nan x = false -> is_nan y = false -> flt x y = true <-> below (float_key x) (float_key y).
Proof.
  intros Hx Hy. pose proof (compare_key x y Hx Hy) as Hc. unfold flt, SFltb.
  destruct (SFcompare x y) as [[]|]; unfold below in *; split; try done.
  - intros Hb. rewrite Hc in Hb. lia.
  - lia.
Qed.

Lemma feq_key x y : is_nan x = false -> is_nan y = false -> feq x y = true <-> float_key x = float_key y.
Proof.
  intros Hx Hy. pose proof (compare_key x y Hx Hy) as Hc. unfold feq, SFeqb.
  destruct (SFcompare x y) as [[]|]; unfold below in *; split; try done;
    destruct (float_key x) as [[a b] c], (float_key y) as [[a' b'] c']; cbn in Hc; intros [=]; lia.
Qed.

(** Neither is below the other: they are equal. *)
Lemma flt_total x y : is_nan x = false -> is_nan y = false -> flt x y = false -> flt y x = false -> feq x y = true.
Proof.
  intros Hx Hy. rewrite <- !not_true_iff_false, !flt_key, feq_key by done. unfold below.
  destruct (float_key x) as [[a b] c], (float_key y) as [[a' b'] c']. cbn. intros H1 H2. repeat f_equal; lia.
Qed.

Lemma flt_irrefl x : flt x x = false.
Proof.
  destruct (is_nan x) eqn:Hx; [by destruct x|]. apply not_true_iff_false. rewrite flt_key by done. unfold below. lia.
Qed.

Lemma flt_asym x y : flt x y = true -> flt y x = false.
Proof.
  destruct (is_nan x) eqn:Hx; [by destruct x|]. destruct (is_nan y) eqn:Hy; [destruct y; try done; by destruct x|].
  rewrite <- not_true_iff_false, !flt_key by done. unfold below. lia.
Qed.

(** What is not above [y] is not above what is not below [y]. *)
Lemma flt_false_trans x y z : is_nan x = false -> is_nan y = false -> is_nan z = false ->
  flt y x = false -> flt z y = false -> flt z x = false.
Proof.
  intros Hx Hy Hz. rewrite <- !not_true_iff_false, !flt_key by done. unfold below.
  destruct (float_key x) as [[a b] c], (float_key y) as [[a' b'] c'], (float_key z) as [[a'' b''] c'']. cbn. lia.
Qed.
