(* ===== verification/PyText.v ===== *)
(** * Python text

    [str.strip], [str.split], [str.partition] and [int] on ASCII text, as
    [demander.py], [worker.py] (by argparse) and [07_distributed_workers.py] use
    them, and that they undo what formatting a number or an address does. *)
From S2P Require Import Prelude.
#[local] Open Scope Z_scope.

Module PyText.

Definition is_space (c : ascii) : bool :=
  let n := nat_of_ascii c in
  ((9 <=? n) && (n <=? 13) || (28 <=? n) && (n <=? 32))%nat.

Fixpoint lstrip (l : chars) : chars :=
  match l with c :: l' => if is_space c then lstrip l' else l | [] => [] end.
Definition strip (l : chars) : chars := rev (lstrip (rev (lstrip l))).

Fixpoint split_on (sep : ascii) (l : chars) : list chars :=
  match l with
  | [] => [[]]
  | c :: l' =>
      if decide (c = sep) then [] :: split_on sep l'
      else match split_on sep l' with t :: ts => (c :: t) :: ts | [] => [[c]] end
  end.

(** What is before the first [sep], and what is after it *)
Fixpoint partition (sep : ascii) (l : chars) : chars * chars :=
  match l with
  | [] => ([], [])
  | c :: l' => if decide (c = sep) then ([], l') else let '(a, b) := partition sep l' in (c :: a, b)
  end.

Definition digit (c : ascii) : option Z :=
  let n := Z.of_nat (nat_of_ascii c) in if bool_decide (48 <= n <= 57) then Some (n - 48) else None.

(** Digits, with single underscores between them *)
Fixpoint digits (l : chars) (acc : Z) (after_digit : bool) : option Z :=
  match l with
  | [] => if after_digit then Some acc else None
  | c :: l' =>
      match digit c with
      | Some d => digits l' (10 * acc + d) true
      | None => if (after_digit && bool_decide (c = "_"%char))%bool then digits l' acc false else None
      end
  end.

Definition py_int (s : string) : option Z :=
  match strip (explode s) with
  | c :: l =>
      if decide (c = "-"%char) then Z.opp <$> digits l 0 false
      else if decide (c = "+"%char) then digits l 0 false
      else digits (c :: l) 0 false
  | [] => None
  end.

Definition bad_int (s : string) : exn :=
  Exc "ValueError" ("invalid literal for int() with base 10: '" +:+ s +:+ "'").

Definition parse_int (s : string) : result Z :=
  match py_int s with Some z => Ok z | None => Raise (bad_int s) end.

(** ** Reading back what was written *)
Definition plain_char (c : ascii) : Prop := is_space c = false.

Lemma lstrip_plain l : Forall plain_char l -> lstrip l = l.
Proof. destruct 1 as [|c l Hc _]; [done|]. cbn. by rewrite Hc. Qed.

Lemma strip_plain l : Forall plain_char l -> strip l = l.
Proof.
  intros Hl. unfold strip. rewrite (lstrip_plain l) by done. rewrite lstrip_plain.
  - apply rev_involutive.
  - rewrite Forall_forall in *. intros c Hc. apply Hl. by rewrite list_elem_of_In, <- in_rev, <- list_elem_of_In in Hc.
Qed.

Lemma digit_pretty x : (x < 10)%N -> digit (pretty_N_char x) = Some (Z.of_N x).
Proof.
  intros Hx. assert (x = 0 \/ x = 1 \/ x = 2 \/ x = 3 \/ x = 4 \/ x = 5 \/ x = 6 \/ x = 7 \/ x = 8 \/ x = 9)%N as Hc by lia.
  by repeat destruct Hc as [->|Hc]; [..|subst x].
Qed.

Lemma digit_plain c d : digit c = Some d -> plain_char c /\ c <> "-"%char /\ c <> "+"%char.
Proof.
  unfold digit, plain_char, is_space. case_bool_decide as Hc; [|done]. intros _.
  split; [|split; intros ->; destruct Hc as [Hc _]; vm_compute in Hc; by destruct Hc].
  apply orb_false_iff. split; apply andb_false_iff; right; apply Nat.leb_gt; lia.
Qed.

Lemma digits_pretty x s b : (0 < x)%N ->
  digits (explode (pretty_N_go x s)) 0 b = digits (explode s) (Z.of_N x) true.
Proof.
  revert s. induction (N.lt_wf_0 x) as [x _ IH]; intros s Hx. rewrite pretty_N_go_step by done.
  pose proof (N.div_mod x 10 ltac:(done)) as Hdm. pose proof (N.mod_lt x 10 ltac:(done)) as Hm.
  destruct (decide (x / 10 = 0)%N) as [Hz|Hz].
  - rewrite Hz, pretty_N_go_0. cbn [explode String.list_ascii_of_string digits].
    rewrite digit_pretty by done. do 2 f_equal. lia.
  - rewrite IH by (lia || by apply N.div_lt). cbn [explode String.list_ascii_of_string digits].
    rewrite digit_pretty by done. do 2 f_equal. lia.
Qed.

Lemma pretty_plain x s : Forall (fun c => is_Some (digit c)) (explode s) ->
  Forall (fun c => is_Some (digit c)) (explode (pretty_N_go x s)).
Proof.
  revert s. induction (N.lt_wf_0 x) as [x _ IH]; intros s Hs.
  destruct (decide (x = 0)%N) as [->|Hx]; [by rewrite pretty_N_go_0|]. rewrite pretty_N_go_step by lia.
  apply IH; [by apply N.div_lt; lia|]. constructor; [|done].
  rewrite digit_pretty by by apply N.mod_lt. by eexists.
Qed.

Lemma pretty_N_digits (x : N) : Forall (fun c => is_Some (digit c)) (explode (pretty x)).
Proof.
  unfold pretty, pretty_N. case_decide; [|by apply pretty_plain].
  repeat constructor. by eexists.
Qed.

Lemma digits_pretty_N (x : N) : digits (explode (pretty x)) 0 false = Some (Z.of_N x).
Proof.
  unfold pretty, pretty_N. case_decide as Hx; [by subst|]. by rewrite digits_pretty by lia.
Qed.

Lemma py_int_digits l : Forall (fun c => is_Some (digit c)) l -> l <> [] ->
  py_int (implode l) = digits l 0 false.
Proof.
  intros Hl Hne. unfold py_int, explode, implode. rewrite String.list_ascii_of_string_of_list_ascii.
  rewrite strip_plain by (eapply Forall_impl; [exact Hl|]; intros c [d Hd]; by apply (digit_plain c d)).
  destruct l as [|c l]; [done|]. apply Forall_cons in Hl as [[d Hd] _].
  destruct (digit_plain c d Hd) as (_ & Hm & Hp). by rewrite !decide_False.
Qed.

(** [int(str(z))] is [z]. *)
Lemma py_int_pretty (z : Z) : py_int (pretty z) = Some z.
Proof.
  assert (forall x : N, explode (pretty x) <> []) as Hne.
  { intros x Hx. pose proof (digits_pretty_N x) as Hd. by rewrite Hx in Hd. }
  assert (forall x : N, implode (explode (pretty x)) = pretty x) as Hie
    by (intros x; apply String.string_of_list_ascii_of_string).
  destruct z as [|p|p]; [done| |].
  - change (pretty (Z.pos p)) with (pretty (N.pos p)). rewrite <- Hie, py_int_digits, digits_pretty_N; [done| |done].
    apply pretty_N_digits.
  - change (pretty (Z.neg p)) with ("-" +:+ pretty (N.pos p)). unfold py_int.
    change (explode ("-" +:+ pretty (N.pos p))) with ("-"%char :: explode (pretty (N.pos p))).
    rewrite strip_plain.
    + rewrite decide_True, digits_pretty_N by done. done.
    + constructor; [done|]. eapply Forall_impl; [apply (pretty_N_digits (N.pos p))|].
      intros c [d Hd]. by apply (digit_plain c d).
Qed.

Lemma parse_int_pretty (z : Z) : parse_int (pretty z) = Ok z.
Proof. unfold parse_int. by rewrite py_int_pretty. Qed.

Lemma partition_app sep l1 l2 : sep ∉ l1 -> partition sep (l1 ++ sep :: l2) = (l1, l2).
Proof.
  induction l1 as [|c l1 IH]; cbn; [by rewrite decide_True|].
  intros [Hc Hl]%not_elem_of_cons. by rewrite decide_False, IH by congruence.
Qed.

Lemma split_on_app sep l1 l2 : sep ∉ l1 -> split_on sep (l1 ++ sep :: l2) = l1 :: split_on sep l2.
Proof.
  induction l1 as [|c l1 IH]; cbn; [by rewrite decide_True|].
  intros [Hc Hl]%not_elem_of_cons. by rewrite decide_False, IH by congruence.
Qed.

Lemma split_on_none sep l : sep ∉ l -> split_on sep l = [l].
Proof.
  induction l as [|c l IH]; [done|]. cbn. intros [Hc Hl]%not_elem_of_cons. by rewrite decide_False, IH by congruence.
Qed.

(** The characters of a number written out *)
Lemma pretty_Z_chars (z : Z) : Forall (fun c => is_Some (digit c) \/ c = "-"%char) (explode (pretty z)).
Proof.
  assert (forall x : N, Forall (fun c => is_Some (digit c) \/ c = "-"%char) (explode (pretty x))) as Hn
    by (intros x; eapply Forall_impl; [apply pretty_N_digits|]; by left).
  destruct z as [|p|p]; [exact (Hn 0%N)|exact (Hn (N.pos p))|].
  change (explode (pretty (Z.neg p))) with ("-"%char :: explode (pretty (N.pos p))).
  constructor; [by right|apply Hn].
Qed.
End PyText.
