(* ===== verification/Types.v ===== *)
(** * [eventforge/types.py]: messages, task and RPC records, [SharedState]

    Python values ([Any] payloads, headers, arguments) are the type [val];
    dictionaries are those of [PyDict].  Clock readings and durations are
    integers (ticks) where Python has floats.  [uuid4()] draws from a supply of
    distinct names: the n-th call of a run returns [uuid4 n]. *)
From Stdlib Require Import SpecFloat.
From S2P Require Import Prelude PyDict PyFloat.

(** ** Python values *)
#[local] Set Warnings "-register-all".
Inductive val : Type :=
  | VNone
  | VBool (b : bool)
  | VInt (z : Z)
  | VFloat (f : float)
  | VStr (s : string)
  | VList (l : list val)
  | VTuple (l : list val)
  | VDict (d : list (val * val))
  | VObj (id : nat).                     (** any other object *)

(** [bool(v)] *)
Definition truthy (v : val) : bool :=
  match v with
  | VNone => false
  | VBool b => b
  | VInt z => bool_decide (z <> 0)
  | VFloat f => negb (feq f fzero)
  | VStr s => bool_decide (s <> "")
  | VList l | VTuple l => match l with [] => false | _ => true end
  | VDict d => match d with [] => false | _ => true end
  | VObj _ => true
  end.

(** [isinstance(v, dict)], [isinstance(v, (list, tuple))] *)
Definition is_dict (v : val) : bool := match v with VDict _ => true | _ => false end.
Definition is_seq (v : val) : bool := match v with VList _ | VTuple _ => true | _ => false end.

(** [if s:] on an [Optional[str]] *)
Definition opt_truthy (s : option string) : bool :=
  match s with Some s => bool_decide (s <> "") | None => false end.

(** [v + 1] on a header value: integers (and booleans, which are integers)
    only; anything else raises TypeError.  A float count would give a float; no
    operation of the program stores one and the model refuses it. *)
Definition py_succ (v : val) : result Z :=
  match v with
  | VInt z => Ok (z + 1)
  | VBool b => Ok (Z.b2z b + 1)
  | _ => Raise (Exc "TypeError" "unsupported operand type(s) for +")
  end.

(** *** Arithmetic *)
Inductive num : Type := NInt (z : Z) | NFloat (f : float).

(** A boolean is an integer; anything else is no number, [e]. *)
Definition num_of (e : exn) (v : val) : result num :=
  match v with
  | VInt z => Ok (NInt z)
  | VBool b => Ok (NInt (Z.b2z b))
  | VFloat f => Ok (NFloat f)
  | _ => Raise e
  end.

Definition num_float (n : num) : result float :=
  match n with NInt z => int_float z | NFloat f => Ok f end.

(** [float(v)] of a number *)
Definition py_float (v : val) : result float :=
  match num_of (Exc "TypeError" "float() argument must be a string or a real number") v with
  | Ok n => num_float n
  | Raise e => Raise e
  end.

(** [a op b]: on integers exact, otherwise on floats *)
Definition py_arith (op : string) (on_int : Z -> Z -> Z) (on_float : float -> float -> float) (a b : val) : result val :=
  let bad := Exc "TypeError" ("unsupported operand type(s) for " +:+ op) in
  match num_of bad a, num_of bad b with
  | Ok (NInt x), Ok (NInt y) => Ok (VInt (on_int x y))
  | Ok x, Ok y =>
      match num_float x, num_float y with
      | Ok x, Ok y => Ok (VFloat (on_float x y))
      | Raise e, _ | _, Raise e => Raise e
      end
  | Raise e, _ | _, Raise e => Raise e
  end.
Definition py_add : val -> val -> result val := py_arith "+" Z.add fadd.
Definition py_sub : val -> val -> result val := py_arith "-" Z.sub fsub.
Definition py_mul : val -> val -> result val := py_arith "*" Z.mul fmul.

(** [v % n] for an integer [n > 0] that is a double *)
Definition py_mod (v : val) (n : Z) : result val :=
  match num_of (Exc "TypeError" "unsupported operand type(s) for %") v with
  | Ok (NInt z) => Ok (VInt (z mod n))
  | Ok (NFloat f) => Ok (VFloat (fmod_int f n))
  | Raise e => Raise e
  end.

Lemma py_arith_raises op f g a b e : py_arith op f g a b = Raise e -> is_Exception e = true.
Proof.
  unfold py_arith, num_of, num_float, int_float.
  destruct a, b; try case_decide; try case_decide; by intros [= <-].
Qed.

Lemma py_mod_raises v n e : py_mod v n = Raise e -> is_Exception e = true.
Proof. unfold py_mod, num_of. destruct v; by intros [= <-]. Qed.

(** ** [uuid4()] *)
Definition uuid4 (n : nat) : string := "uuid-" +:+ pretty n.

#[global] Instance uuid4_inj : Inj (=) (=) uuid4.
Proof. intros n m H. unfold uuid4 in H. cbn in H. simplify_eq. by apply (inj pretty). Qed.

(** ** [TaskStatus], [Message], ... *)
Inductive TaskStatus : Type := PENDING | RUNNING | COMPLETED | FAILED | CANCELLED.

#[global] Instance TaskStatus_eq_dec : EqDecision TaskStatus.
Proof. solve_decision. Defined.

(** [TaskStatus.value] and the lookup [TaskStatus(s)], which raises on other strings. *)
Definition status_value (s : TaskStatus) : string :=
  match s with
  | PENDING => "pending" | RUNNING => "running" | COMPLETED => "completed"
  | FAILED => "failed" | CANCELLED => "cancelled"
  end.

Definition status_of (s : string) : result TaskStatus :=
  if decide (s = "pending") then Ok PENDING
  else if decide (s = "running") then Ok RUNNING
  else if decide (s = "completed") then Ok COMPLETED
  else if decide (s = "failed") then Ok FAILED
  else if decide (s = "cancelled") then Ok CANCELLED
  else Raise (Exc "ValueError" (s +:+ " is not a valid TaskStatus")).

Abbreviation hdrs := (list (string * val)).

Record Message : Type := mkMessage {
  msg_id : string;
  topic : string;
  payload : val;
  headers : hdrs;
  timestamp : Z;
  reply_to : option string;
  correlation_id : option string;
}.

(** [msg.model_copy(update={...})], one field at a time. *)
Definition with_headers (m : Message) (h : hdrs) : Message :=
  mkMessage (msg_id m) (topic m) (payload m) h (timestamp m) (reply_to m) (correlation_id m).
Definition with_id (m : Message) (i : string) : Message :=
  mkMessage i (topic m) (payload m) (headers m) (timestamp m) (reply_to m) (correlation_id m).
Definition with_topic (m : Message) (t : string) : Message :=
  mkMessage (msg_id m) t (payload m) (headers m) (timestamp m) (reply_to m) (correlation_id m).

Record TaskRequest : Type := mkTaskRequest {
  treq_id : string; func_name : string; treq_args : list val;
  treq_kwargs : hdrs; priority : Z; treq_timeout : option Z;
}.

Record TaskResult : Type := mkTaskResult {
  task_id : string;
  status : TaskStatus;
  value : val;
  error : option string;
  error_type : option string;
  execution_time : Z;
  worker_id : string;
}.

Definition TaskResult_is_success (r : TaskResult) : bool := bool_decide (status r = COMPLETED).
Definition TaskResult_is_failure (r : TaskResult) : bool := bool_decide (status r = FAILED).

Record RPCRequest : Type := mkRPCRequest {
  req_id : string; req_method : string; req_args : list val;
  req_kwargs : hdrs; req_timeout : option Z;
}.

(** The [args] validator (mode "before"): a list becomes a tuple. *)
Definition convert_args (v : val) : val :=
  match v with VList l => VTuple l | _ => v end.

Record RPCResponse : Type := mkRPCResponse {
  resp_id : string; request_id : string; resp_result : val;
  resp_error : option string; resp_error_type : option string;
}.

Definition RPCResponse_is_success (r : RPCResponse) : bool :=
  match resp_error r with None => true | Some _ => false end.

Record Subscription : Type := mkSubscription {
  subn_id : string; subn_topic : string; subn_pattern : bool
}.

(** ** [SharedState]

    Every method is one critical section of the RLock, so a method is an atomic
    step of the dictionary.  The function given to [update] runs inside the
    lock, which its own thread may re-enter: it is a statement over the same
    state. *)
Module SharedState.
Definition state : Type := list (string * val).

Definition init : state := [].

Definition get (key : string) (dflt : val) : M state val :=
  gets (fun s => default dflt (dget s key)).

Definition set (key : string) (v : val) : M state unit :=
  modify (fun s => dset s key v).

Definition update (key : string) (func : val -> M state val) : M state val :=
  let! old := gets (fun s => default VNone (dget s key)) in
  let! new := func old in
  modify (fun s => dset s key new) ;;;
  ret new.

Definition delete (key : string) : M state bool := fun s =>
  if dmem s key then (Ok true, ddel s key) else (Ok false, s).

Definition clear : M state unit := modify (fun _ => []).

Definition items : M state state := gets id.

Definition contains (key : string) : M state bool := gets (fun s => dmem s key).

(** The [n] updates of [n] threads, in whichever order the lock admits them. *)
Fixpoint update_n (n : nat) (key : string) (func : val -> M state val) : M state unit :=
  match n with
  | O => ret tt
  | S n => update key func ;;; update_n n key func
  end.

(** An [update] whose function raises leaves the value as it was (when the
    function itself does not touch the state) and lets the exception out. *)
Lemma update_raises key func s e :
  func (default VNone (dget s key)) s = (Raise e, s) ->
  update key func s = (Raise e, s).
Proof. intros H. unfold update, bind, gets. by rewrite H. Qed.

Lemma update_pure key (f : val -> val) s :
  update key (fun v => ret (f v)) s =
    (Ok (f (default VNone (dget s key))), dset s key (f (default VNone (dget s key)))).
Proof. done. Qed.

(** No update is lost: [n] atomic updates with a pure function apply it [n] times. *)
Lemma update_n_pure n key (f : val -> val) s :
  exists s', update_n (S n) key (fun v => ret (f v)) s = (Ok tt, s') /\
    dget s' key = Some (Nat.iter (S n) f (default VNone (dget s key))) /\
    forall k, k <> key -> dget s' k = dget s k.
Proof.
  revert s. induction n as [|n IH]; intros s.
  - exists (dset s key (f (default VNone (dget s key)))). cbn. split_and!; [done| |].
    + by autorewrite with pyrw.
    + intros k Hk. by apply dget_dset_ne.
  - remember (S n) as m eqn:Hm. cbn [update_n]. unfold bind. rewrite update_pure.
    edestruct IH as (s' & -> & Hg & Ho). exists s'. split_and!; [done| |].
    + rewrite Hg, dget_dset_eq. cbn [default]. by rewrite (Nat.iter_succ_r m).
    + intros k Hk. rewrite Ho by done. by apply dget_dset_ne.
Qed.
End SharedState.

(** ** [TaskContext] and [ExecutionContext] *)
Record TaskContext : Type := mkTaskContext {
  ctx_task_id : string;
  ctx_func_name : string;
  ctx_topic : option string;
  ctx_args : list val;
  ctx_kwargs : hdrs;
  ctx_start_time : Z;
  ctx_end_time : Z;
  ctx_result : val;
  ctx_error : option exn;
  ctx_metadata : hdrs;
}.

Definition ctx_execution_time (c : TaskContext) : Z := ctx_end_time c - ctx_start_time c.
Definition ctx_is_success (c : TaskContext) : bool :=
  match ctx_error c with None => true | Some _ => false end.
Definition ctx_is_failure (c : TaskContext) : bool :=
  match ctx_error c with None => false | Some _ => true end.

Record ExecutionContext : Type := mkExecutionContext {
  ec_func_name : string;
  ec_args : list val;
  ec_kwargs : hdrs;
  ec_start_time : Z;
  ec_end_time : Z;
  ec_result : val;
  ec_error : option exn;
  ec_metadata : hdrs;
}.

(** An end time of 0 is one that was not set. *)
Definition ec_execution_time (c : ExecutionContext) : Z :=
  if decide (ec_end_time c = 0) then 0 else ec_end_time c - ec_start_time c.
Definition ec_is_success (c : ExecutionContext) : bool :=
  match ec_error c with None => true | Some _ => false end.
