(* ===== verification/Topics.v ===== *)
(** * Topic patterns

    The four transports decide with three different matchers whether a
    message's topic matches a subscription's pattern:
    - [Memory.matches]: [MemoryTransport._matches], a rewriting of the pattern
      by [str.replace] followed by [fnmatch.fnmatch];
    - [tcp_matches]: [_topic_matches] of transports/tcp.py, a bare [fnmatch];
    - [re_matches]: [_matches] of transports/redis.py and transports/nats.py
      (the same text), a regular expression built from the pattern.

    [fnmatch] and the fragment of [re] used here are the standard library's:
    both compile to a sequence of pieces ([One p]: one character satisfying [p];
    [Many p]: any number of them) matched against the whole topic.  Bracket
    expressions are read as CPython documents them ([[seq]], [[!seq]], ranges
    inside); a range whose bounds are reversed matches no character. *)
From S2P Require Import Prelude.

(** ** Pieces *)
Inductive piece : Type :=
  | One (p : ascii -> bool)
  | Many (p : ascii -> bool).

(** [eos] decides what may remain at the end: nothing for [\Z], nothing or one
    newline for [$]. *)
Fixpoint pmatch (eos : chars -> bool) (ps : list piece) : chars -> bool :=
  match ps with
  | [] => eos
  | One p :: ps' => fun s => match s with [] => false | c :: s' => p c && pmatch eos ps' s' end
  | Many p :: ps' => fix many (s : chars) : bool :=
      pmatch eos ps' s || match s with [] => false | c :: s' => p c && many s' end
  end.

Definition end_Z (s : chars) : bool := match s with [] => true | _ => false end.
Definition newline : ascii := "010"%char.
Definition end_dollar (s : chars) : bool :=
  match s with [] => true | [c] => bool_decide (c = newline) | _ => false end.

Definition isc (c : ascii) : ascii -> bool := fun x => bool_decide (x = c).
Definition anychar : ascii -> bool := fun _ => true.
Definition not_dot : ascii -> bool := fun x => bool_decide (x <> "."%char).
Definition not_newline : ascii -> bool := fun x => bool_decide (x <> newline).

Section pmatch.
Variable eos : chars -> bool.

Lemma pmatch_one p ps s :
  pmatch eos (One p :: ps) s = true <->
  exists c s', s = c :: s' /\ p c = true /\ pmatch eos ps s' = true.
Proof.
  destruct s as [|c s]; cbn; [split; [done | by intros (?&?&?&?)]|].
  rewrite andb_true_iff. naive_solver.
Qed.

Lemma pmatch_many p ps s :
  pmatch eos (Many p :: ps) s = true <->
  exists s1 s2, s = s1 ++ s2 /\ Forall (fun c => p c = true) s1 /\ pmatch eos ps s2 = true.
Proof.
  induction s as [|c s IH]; cbn [pmatch].
  - rewrite orb_false_r. split; [by exists [], []|].
    by intros (s1 & s2 & [-> ->]%eq_sym%app_nil & _ & ?).
  - rewrite orb_true_iff, andb_true_iff. cbn [pmatch] in IH. rewrite IH. split.
    + intros [?|(Hc & s1 & s2 & -> & ? & ?)]; [by exists [], (c :: s)|].
      exists (c :: s1), s2. auto.
    + intros (s1 & s2 & Heq & Hall & Hm). destruct s1 as [|c' s1]; cbn in Heq.
      * left. by subst.
      * simplify_eq. apply Forall_cons in Hall as [? ?]. right. eauto 6.
Qed.

Lemma pmatch_lits l ps s :
  pmatch eos (map (fun c => One (isc c)) l ++ ps) s = true <->
  exists s', s = l ++ s' /\ pmatch eos ps s' = true.
Proof.
  revert s. induction l as [|c l IH]; intros s; [cbn; naive_solver|].
  cbn [map app]. rewrite pmatch_one. unfold isc. setoid_rewrite bool_decide_eq_true.
  setoid_rewrite IH. naive_solver.
Qed.
End pmatch.

(** ** [str.replace(old, new)]: leftmost, non-overlapping, [old] non-empty *)
Fixpoint prefixb (p s : chars) : bool :=
  match p, s with
  | [], _ => true
  | _, [] => false
  | a :: p', b :: s' => bool_decide (a = b) && prefixb p' s'
  end.

Fixpoint replace_go (old new : chars) (skip : nat) (s : chars) : chars :=
  match s with
  | [] => []
  | c :: s' =>
      match skip with
      | S k => replace_go old new k s'
      | O => if prefixb old s then new ++ replace_go old new (length old - 1) s'
             else c :: replace_go old new 0 s'
      end
  end.

Definition replace (old new s : chars) : chars := replace_go old new 0 s.

(** [old in s] *)
Fixpoint occurs (old s : chars) : bool :=
  prefixb old s || match s with [] => false | _ :: s' => occurs old s' end.

Lemma replace_id old new s : occurs old s = false -> replace old new s = s.
Proof.
  unfold replace. induction s as [|c s IH]; [done|]. cbn [occurs replace_go].
  intros [-> ?]%orb_false_iff. by rewrite IH.
Qed.

(** A literal in front of which nothing starts passes through [replace]. *)
Lemma replace_app_ne o old new l s :
  hd_error old = Some o -> o ∉ l -> replace old new (l ++ s) = l ++ replace old new s.
Proof.
  intros Ho. destruct old as [|o' old]; cbn in Ho; simplify_eq.
  induction l as [|c l IH]; [done|]. rewrite not_elem_of_cons. intros [Hc Hl].
  cbn [app]. unfold replace in *. cbn [replace_go prefixb].
  rewrite bool_decide_eq_false_2 by congruence. by rewrite <- IH.
Qed.

(** ** [fnmatch] *)
Inductive item : Type :=
  | Single (c : ascii)
  | Range (lo hi : ascii).

Definition item_in (x : ascii) (i : item) : bool :=
  match i with
  | Single c => bool_decide (x = c)
  | Range lo hi =>
      (nat_of_ascii lo <=? nat_of_ascii x)%nat && (nat_of_ascii x <=? nat_of_ascii hi)%nat
  end.

(** The inside of a bracket: [c-d] is a range, any other character is itself. *)
Fixpoint items (s : chars) : list item :=
  match s with
  | [] => []
  | c :: t =>
      match t with
      | h :: d :: rest => if decide (h = "-"%char) then Range c d :: items rest else Single c :: items t
      | _ => Single c :: items t
      end
  end.

(** The text up to the next [']'], which is consumed. *)
Fixpoint to_bracket (s : chars) : option chars :=
  match s with
  | [] => None
  | c :: s' => if decide (c = "]"%char) then Some []
               else match to_bracket s' with Some b => Some (c :: b) | None => None end
  end.

Definition strip_head (c : ascii) (s : chars) : chars * chars :=
  match s with
  | x :: s' => if decide (x = c) then ([c], s') else ([], s)
  | [] => ([], [])
  end.

(** What follows a ['[']: a leading ['!'], then a [']'] in first position, do
    not close the bracket. *)
Definition bracket_body (s : chars) : option chars :=
  let '(bang, s1) := strip_head "!" s in
  let '(rb, s2) := strip_head "]" s1 in
  match to_bracket s2 with Some b => Some (bang ++ rb ++ b) | None => None end.

Definition bracket_piece (body : chars) : piece :=
  match body with
  | c :: b => if decide (c = "!"%char) then One (fun x => negb (existsb (item_in x) (items b)))
              else One (fun x => existsb (item_in x) (items body))
  | [] => One (fun _ => false)
  end.

Fixpoint fn_translate (skip : nat) (pat : chars) : list piece :=
  match pat with
  | [] => []
  | c :: pat' =>
      match skip with
      | S k => fn_translate k pat'
      | O =>
          if decide (c = "*"%char) then Many anychar :: fn_translate 0 pat'
          else if decide (c = "?"%char) then One anychar :: fn_translate 0 pat'
          else if decide (c = "["%char) then
            match bracket_body pat' with
            | Some body => bracket_piece body :: fn_translate (S (length body)) pat'
            | None => One (isc c) :: fn_translate 0 pat'
            end
          else One (isc c) :: fn_translate 0 pat'
      end
  end.

Definition fnmatch (name pat : chars) : bool := pmatch end_Z (fn_translate 0 pat) name.

(** ** [MemoryTransport._matches] *)
Definition star : chars := ["*"%char].
Definition dstar : chars := ["*"%char; "*"%char].
Definition sentinel : chars := explode "__DOUBLE__".
Definition segment_star : chars := explode "[^.]*".

Definition memory_glob (pattern : chars) : chars :=
  let pattern := replace dstar sentinel pattern in
  let pattern := replace star segment_star pattern in
  replace sentinel star pattern.

Definition memory_matches (topic pattern : string) : bool :=
  if decide (pattern = topic) then true
  else fnmatch (explode topic) (memory_glob (explode pattern)).

(** ** [_topic_matches] of transports/tcp.py *)
Definition tcp_matches (topic pattern : string) : bool :=
  if decide (pattern = topic) then true else fnmatch (explode topic) (explode pattern).

(** ** [_matches] of transports/redis.py and transports/nats.py *)
Fixpoint re_parts (pattern : chars) : list piece :=
  match pattern with
  | [] => []
  | c :: rest =>
      if decide (c = "*"%char) then
        match rest with
        | c' :: rest' => if decide (c' = "*"%char) then Many not_newline :: re_parts rest'
                         else Many not_dot :: re_parts rest
        | [] => [Many not_dot]
        end
      else One (isc c) :: re_parts rest
  end.

Definition re_matches (topic pattern : string) : bool :=
  if decide (pattern = topic) then true
  else pmatch end_dollar (re_parts (explode pattern)) (explode topic).

(** ** [_to_redis_pattern], [_to_nats_subject] *)
Definition to_redis_pattern (topic : string) : string :=
  String.string_of_list_ascii (replace dstar star (explode topic)).

(** [topic.split(".")] and [".".join(out)] *)
Fixpoint split_dot (s : chars) : list chars :=
  match s with
  | [] => [[]]
  | c :: s' =>
      match split_dot s' with
      | [] => [[c]]
      | tok :: toks => if decide (c = "."%char) then [] :: tok :: toks else (c :: tok) :: toks
      end
  end.

Fixpoint join_dot (toks : list chars) : chars :=
  match toks with
  | [] => []
  | [t] => t
  | t :: toks' => t ++ "."%char :: join_dot toks'
  end.

Definition to_nats_subject (topic : string) : string :=
  String.string_of_list_ascii
    (join_dot (map (fun tok => if decide (tok = dstar) then [">"%char] else tok)
                   (split_dot (explode topic)))).

(** * Facts *)

(** ** Segments

    A pattern is read segment by segment: a literal segment, [*] for one segment,
    and [**], which in the code stands for one or more segments ([seg_match]) and
    in the docstring for any number of them, none too ([doc_match]). *)
Inductive seg : Type :=
  | Lit (l : chars)
  | Star1
  | Star2.

Definition seg_of (tok : chars) : seg :=
  if decide (tok = star) then Star1 else if decide (tok = dstar) then Star2 else Lit tok.

Fixpoint seg_match (ps : list seg) : list chars -> bool :=
  match ps with
  | [] => fun ts => match ts with [] => true | _ => false end
  | Lit l :: ps' => fun ts =>
      match ts with t :: ts' => bool_decide (t = l) && seg_match ps' ts' | [] => false end
  | Star1 :: ps' => fun ts => match ts with _ :: ts' => seg_match ps' ts' | [] => false end
  | Star2 :: ps' => fix many (ts : list chars) : bool :=
      match ts with [] => false | _ :: ts' => seg_match ps' ts' || many ts' end
  end.

Fixpoint doc_match (ps : list seg) : list chars -> bool :=
  match ps with
  | [] => fun ts => match ts with [] => true | _ => false end
  | Lit l :: ps' => fun ts =>
      match ts with t :: ts' => bool_decide (t = l) && doc_match ps' ts' | [] => false end
  | Star1 :: ps' => fun ts => match ts with _ :: ts' => doc_match ps' ts' | [] => false end
  | Star2 :: ps' => fix many (ts : list chars) : bool :=
      doc_match ps' ts || match ts with [] => false | _ :: ts' => many ts' end
  end.

(** [ps'] is [ps] without some of its [**]. *)
Inductive strikes : list seg -> list seg -> Prop :=
  | strikes_nil : strikes [] []
  | strikes_keep s ps ps' : strikes ps ps' -> strikes (s :: ps) (s :: ps')
  | strikes_drop ps ps' : strikes ps ps' -> strikes (Star2 :: ps) ps'.

Abbreviation dot := ("."%char).
Definition dotfree (s : chars) : Prop := dot ∉ s.

Lemma seg_match_refl ts : seg_match (map seg_of ts) ts = true.
Proof.
  induction ts as [|t ts IH]; [done|]. cbn [map]. unfold seg_of at 1.
  repeat case_decide; cbn [seg_match]; rewrite IH; [done..|].
  by rewrite bool_decide_eq_true_2.
Qed.

Lemma seg_match_star2 ps ts :
  seg_match (Star2 :: ps) ts = true <->
  exists a b, a <> [] /\ ts = a ++ b /\ seg_match ps b = true.
Proof.
  induction ts as [|t ts IH]; cbn [seg_match].
  - split; [done|]. by intros (a & b & ? & [-> ->]%eq_sym%app_nil & ?).
  - rewrite orb_true_iff. cbn [seg_match] in IH. rewrite IH. split.
    + intros [?|(a & b & ? & -> & ?)]; [by exists [t], ts|]. by exists (t :: a), b.
    + intros (a & b & Ha & Heq & Hm). destruct a as [|x a]; [done|].
      cbn in Heq. simplify_eq. destruct a as [|y a]; [by left|].
      right. by exists (y :: a), b.
Qed.

Lemma doc_match_star2 ps ts :
  doc_match (Star2 :: ps) ts = true <-> exists a b, ts = a ++ b /\ doc_match ps b = true.
Proof.
  induction ts as [|t ts IH]; cbn [doc_match].
  - rewrite orb_false_r. split; [by exists [], []|]. by intros (a & b & [-> ->]%eq_sym%app_nil & ?).
  - rewrite orb_true_iff. cbn [doc_match] in IH. rewrite IH. split.
    + intros [?|(a & b & -> & ?)]; [by exists [], (t :: ts)|]. by exists (t :: a), b.
    + intros ([|x a] & b & Heq & Hm); cbn in Heq; simplify_eq; [by left|right]. by exists a, b.
Qed.

(** A topic matches as documented when it matches in the code after the [**] that
    would have to stand for no segment are struck from the pattern. *)
Lemma doc_match_strikes ps ts :
  doc_match ps ts = true <-> exists ps', strikes ps ps' /\ seg_match ps' ts = true.
Proof.
  revert ts. induction ps as [|s ps IH]; intros ts.
  - split; [exists []; split; [constructor|done]|]. intros (ps' & Hs & Hm). by inversion Hs; subst.
  - split.
    + intros Hd. destruct s as [l| |].
      * destruct ts as [|t ts]; [done|]. cbn in Hd. apply andb_true_iff in Hd as [Hl [ps' [Hs Hm]]%IH].
        exists (Lit l :: ps'). split; [by constructor|]. cbn. by rewrite Hl.
      * destruct ts as [|t ts]; [done|]. apply IH in Hd as [ps' [Hs Hm]]. exists (Star1 :: ps'). by split; [constructor|].
      * apply doc_match_star2 in Hd as (a & b & -> & [ps' [Hs Hm]]%IH). destruct a as [|x a].
        -- exists ps'. by split; [constructor|].
        -- exists (Star2 :: ps'). split; [by constructor|]. apply seg_match_star2. by exists (x :: a), b.
    + intros (ps' & Hs & Hm). inversion Hs as [|s' q q' Hq|q q' Hq]; subst.
      * destruct s as [l| |].
        -- destruct ts as [|t ts]; [done|]. cbn in *. apply andb_true_iff in Hm as [-> Hm]. apply IH. by exists q'.
        -- destruct ts as [|t ts]; [done|]. apply IH. by exists q'.
        -- apply seg_match_star2 in Hm as (a & b & _ & -> & Hm). apply doc_match_star2. exists a, b. split; [done|].
           apply IH. by exists q'.
      * apply doc_match_star2. exists [], ts. split; [done|]. apply IH. by exists ps'.
Qed.

Lemma strikes_refl ps : strikes ps ps.
Proof. induction ps; by constructor. Qed.

Lemma strikes_starless ps ps' : Star2 ∉ ps -> strikes ps ps' -> ps' = ps.
Proof. intros Hn Hs. induction Hs; [done| |]; set_solver. Qed.

(** ** Splitting and joining at the dots *)
Section split.
Implicit Types (s : chars) (ts : list chars).

Lemma split_dot_nonnil s : split_dot s <> [].
Proof. destruct s; cbn; [done|]. case_match; [done|]. by case_decide. Qed.

Lemma split_dot_cons_dot s : split_dot (dot :: s) = [] :: split_dot s.
Proof.
  cbn. pose proof (split_dot_nonnil s). by destruct (split_dot s).
Qed.

Lemma split_dot_cons_ne c s : c <> dot -> exists t ts,
  split_dot s = t :: ts /\ split_dot (c :: s) = (c :: t) :: ts.
Proof.
  intros Hc. cbn. pose proof (split_dot_nonnil s). destruct (split_dot s) as [|t ts]; [done|].
  exists t, ts. by rewrite decide_False.
Qed.

Lemma split_dot_app s1 s2 : split_dot (s1 ++ dot :: s2) = split_dot s1 ++ split_dot s2.
Proof.
  induction s1 as [|c s1 IH]; [apply split_dot_cons_dot|]. cbn [app].
  destruct (decide (c = dot)) as [->|Hc].
  - by rewrite !split_dot_cons_dot, IH.
  - destruct (split_dot_cons_ne c (s1 ++ dot :: s2) Hc) as (t & ts & E & ->).
    destruct (split_dot_cons_ne c s1 Hc) as (t' & ts' & E' & ->).
    rewrite IH, E' in E. cbn in E. by simplify_eq.
Qed.

Lemma split_dot_free s : dotfree s -> split_dot s = [s].
Proof.
  unfold dotfree. induction s as [|c s IH]; [done|]. rewrite not_elem_of_cons.
  intros [Hc Hs]. cbn. rewrite IH by done. by rewrite decide_False by done.
Qed.

Lemma join_dot_cons t ts : ts <> [] -> join_dot (t :: ts) = t ++ dot :: join_dot ts.
Proof. by destruct ts. Qed.

Lemma join_dot_app ts1 ts2 : ts1 <> [] -> ts2 <> [] ->
  join_dot (ts1 ++ ts2) = join_dot ts1 ++ dot :: join_dot ts2.
Proof.
  intros H1 H2. induction ts1 as [|t ts1 IH]; [done|]. cbn [app].
  destruct ts1 as [|t' ts1]; [by rewrite join_dot_cons|].
  rewrite !join_dot_cons by done. rewrite IH by done. by rewrite <- app_assoc.
Qed.

Lemma join_split s : join_dot (split_dot s) = s.
Proof.
  induction s as [|c s IH]; [done|]. destruct (decide (c = dot)) as [->|Hc].
  - rewrite split_dot_cons_dot, join_dot_cons by apply split_dot_nonnil. by rewrite IH.
  - destruct (split_dot_cons_ne c s Hc) as (t & ts & E & ->).
    rewrite E in IH. destruct ts; cbn in *; by f_equal.
Qed.

Lemma split_join ts : ts <> [] -> Forall dotfree ts -> split_dot (join_dot ts) = ts.
Proof.
  intros Hne Hall. induction Hall as [|t ts Ht Hts IH]; [done|].
  destruct ts as [|t' ts]; [by apply split_dot_free|].
  rewrite join_dot_cons, split_dot_app, split_dot_free, IH by done. done.
Qed.

Lemma split_dotfree s : Forall dotfree (split_dot s).
Proof.
  induction s as [|c s IH]; [by repeat constructor; intros ?%not_elem_of_nil|].
  destruct (decide (c = dot)) as [->|Hc].
  - rewrite split_dot_cons_dot. constructor; [by intros ?%not_elem_of_nil | done].
  - destruct (split_dot_cons_ne c s Hc) as (t & ts & E & ->). rewrite E in IH.
    apply Forall_cons in IH as [? ?]. constructor; [|done].
    unfold dotfree in *. rewrite not_elem_of_cons. split; congruence.
Qed.

(** Where a dot of a joined text can be. *)
Lemma join_dot_cut ts s1 s2 : Forall dotfree ts -> ts <> [] ->
  join_dot ts = s1 ++ dot :: s2 ->
  ts = split_dot s1 ++ split_dot s2.
Proof. intros Hd Hn Heq. by rewrite <- split_dot_app, <- Heq, split_join. Qed.
End split.

(** ** [re_matches] is the segment-wise match *)
Definition seg_parts (s : seg) : list piece :=
  match s with
  | Lit l => map (fun c => One (isc c)) l
  | Star1 => [Many not_dot]
  | Star2 => [Many not_newline]
  end.

Fixpoint pieces (ps : list seg) : list piece :=
  match ps with
  | [] => []
  | [s] => seg_parts s
  | s :: ps' => seg_parts s ++ One (isc dot) :: pieces ps'
  end.

(** A token the documentation speaks of: a whole wildcard, or no star at all. *)
Definition tok_ok (tok : chars) : Prop := tok = star \/ tok = dstar \/ "*"%char ∉ tok.

Lemma re_parts_lit l s :
  "*"%char ∉ l -> re_parts (l ++ s) = map (fun c => One (isc c)) l ++ re_parts s.
Proof.
  induction l as [|c l IH]; [done|]. rewrite not_elem_of_cons. intros [Hc Hl].
  cbn. rewrite decide_False by congruence. by rewrite IH.
Qed.

Lemma re_parts_tok tok : tok_ok tok -> re_parts tok = seg_parts (seg_of tok).
Proof.
  intros [->|[->|Hni]]; [done|done|].
  unfold seg_of. repeat case_decide; subst; [by exfalso; apply Hni; left..|].
  rewrite <- (app_nil_r tok), re_parts_lit by done. by rewrite !app_nil_r.
Qed.

Lemma re_parts_tok_dot tok s :
  tok_ok tok -> re_parts (tok ++ dot :: s) = seg_parts (seg_of tok) ++ One (isc dot) :: re_parts s.
Proof.
  intros [->|[->|Hni]]; [done|done|].
  unfold seg_of. repeat case_decide; subst; [by exfalso; apply Hni; left..|].
  rewrite re_parts_lit by done. done.
Qed.

Lemma re_parts_join toks :
  Forall tok_ok toks -> re_parts (join_dot toks) = pieces (map seg_of toks).
Proof.
  induction 1 as [|t ts Ht Hts IH]; [done|]. destruct ts as [|t' ts].
  - by apply re_parts_tok.
  - rewrite join_dot_cons, re_parts_tok_dot by done. by rewrite IH.
Qed.

Definition nlfree (s : chars) : Prop := newline ∉ s.

Lemma end_dollar_nlfree s : nlfree s -> end_dollar s = true -> s = [].
Proof.
  unfold nlfree. destruct s as [|c [|]]; [done| |done].
  cbn. rewrite bool_decide_eq_true. intros H ->. exfalso. apply H. by left.
Qed.

Lemma not_dot_all s : Forall (fun c => not_dot c = true) s <-> dotfree s.
Proof.
  unfold not_dot, dotfree. rewrite Forall_forall. setoid_rewrite bool_decide_eq_true.
  naive_solver.
Qed.

Lemma not_newline_all s : Forall (fun c => not_newline c = true) s <-> nlfree s.
Proof.
  unfold not_newline, nlfree. rewrite Forall_forall. setoid_rewrite bool_decide_eq_true.
  naive_solver.
Qed.

Lemma nlfree_app s1 s2 : nlfree (s1 ++ s2) <-> nlfree s1 /\ nlfree s2.
Proof. unfold nlfree. rewrite not_elem_of_app. done. Qed.

(** One segment's pieces against a text without newlines. *)
Definition seg_text (s : seg) (x : chars) : Prop :=
  match s with Lit l => x = l | Star1 => dotfree x | Star2 => True end.

Lemma pmatch_seg s ps x : nlfree x ->
  pmatch end_dollar (seg_parts s ++ ps) x = true <->
  exists x1 x2, x = x1 ++ x2 /\ seg_text s x1 /\ pmatch end_dollar ps x2 = true.
Proof.
  intros Hnl. destruct s as [l| |]; cbn [seg_parts seg_text app].
  - rewrite pmatch_lits. naive_solver.
  - rewrite pmatch_many. by setoid_rewrite not_dot_all.
  - rewrite pmatch_many. setoid_rewrite not_newline_all. split.
    + naive_solver.
    + intros (x1 & x2 & -> & _ & ?). apply nlfree_app in Hnl as [? ?]. eauto 6.
Qed.

Lemma pmatch_seg_last s x : nlfree x ->
  pmatch end_dollar (seg_parts s) x = true <-> seg_text s x.
Proof.
  intros Hnl. rewrite <- (app_nil_r (seg_parts s)), pmatch_seg by done. split.
  - intros (x1 & x2 & -> & Hs & He). apply nlfree_app in Hnl as [_ Hnl].
    apply end_dollar_nlfree in He as ->; [|done]. by rewrite app_nil_r.
  - intros Hs. exists x, []. by rewrite app_nil_r.
Qed.

Lemma pmatch_seg_dot s ps x : nlfree x ->
  pmatch end_dollar (seg_parts s ++ One (isc dot) :: ps) x = true <->
  exists x1 x2, x = x1 ++ dot :: x2 /\ seg_text s x1 /\ pmatch end_dollar ps x2 = true.
Proof.
  intros Hnl. rewrite pmatch_seg by done. setoid_rewrite pmatch_one. unfold isc.
  setoid_rewrite bool_decide_eq_true. naive_solver.
Qed.

(** One segment against a run of tokens. *)
Definition seg_toks (s : seg) (a : list chars) : Prop :=
  match s with Lit l => a = [l] | Star1 => exists t, a = [t] | Star2 => True end.

Definition seg_dotfree (s : seg) : Prop := match s with Lit l => dotfree l | _ => True end.

Lemma seg_match_cons s ps ts :
  seg_match (s :: ps) ts = true <->
  exists a b, a <> [] /\ ts = a ++ b /\ seg_toks s a /\ seg_match ps b = true.
Proof.
  destruct s as [l| |]; [| |rewrite seg_match_star2; cbn; naive_solver].
  - destruct ts as [|t ts]; cbn.
    + split; [done|]. by intros (a & b & ? & [-> ->]%eq_sym%app_nil & _).
    + rewrite andb_true_iff, bool_decide_eq_true. split.
      * intros [-> ?]. by exists [l], ts.
      * intros (a & b & _ & Heq & -> & ?). cbn in Heq. by simplify_eq.
  - destruct ts as [|t ts]; cbn.
    + split; [done|]. by intros (a & b & ? & [-> ->]%eq_sym%app_nil & _).
    + split; [intros ?; exists [t], ts; eauto|].
      intros (a & b & _ & Heq & [x ->] & ?). cbn in Heq. by simplify_eq.
Qed.

Lemma seg_toks_text s a : a <> [] -> Forall dotfree a -> seg_dotfree s ->
  seg_toks s a <-> seg_text s (join_dot a).
Proof.
  intros Hn Hd Hs. destruct s as [l| |]; cbn in *; [split| split |done].
  - by intros ->.
  - intros Heq. apply (f_equal split_dot) in Heq.
    by rewrite split_join, split_dot_free in Heq.
  - intros [t ->]. by apply Forall_inv in Hd.
  - intros Hf%split_dot_free. rewrite split_join in Hf by done. eauto.
Qed.

Lemma seg_match_nonempty ps ts : ps <> [] -> seg_match ps ts = true -> ts <> [].
Proof. intros Hn Hm ->. destruct ps as [|[]]; done. Qed.

Lemma pieces_seg_match ps ts :
  ps <> [] -> ts <> [] -> Forall dotfree ts -> Forall seg_dotfree ps ->
  nlfree (join_dot ts) ->
  pmatch end_dollar (pieces ps) (join_dot ts) = true <-> seg_match ps ts = true.
Proof.
  intros Hps. revert ts. induction ps as [|s ps IH]; [done|]. intros ts Hts Hd Hs Hnl.
  apply Forall_cons in Hs as [Hs1 Hs2]. rewrite seg_match_cons.
  destruct ps as [|s' ps].
  { cbn [pieces]. rewrite pmatch_seg_last, <- seg_toks_text by done. split.
    - intros ?. exists ts, []. by rewrite app_nil_r.
    - intros (a & [|] & _ & -> & ? & ?); [by rewrite app_nil_r | done]. }
  change (pieces (s :: s' :: ps)) with (seg_parts s ++ One (isc dot) :: pieces (s' :: ps)).
  rewrite pmatch_seg_dot by done. split.
  - intros (x1 & x2 & Heq & Htx & Hm). exists (split_dot x1), (split_dot x2).
    rewrite Heq in Hnl. apply nlfree_app in Hnl as [_ Hnl].
    split_and!; [apply split_dot_nonnil | by apply join_dot_cut | |].
    + rewrite seg_toks_text, join_split by eauto using split_dot_nonnil, split_dotfree. done.
    + apply IH; rewrite ?join_split; try done; try apply split_dot_nonnil; [apply split_dotfree|].
      unfold nlfree in *. set_solver.
  - intros (a & b & Ha & -> & Htk & Hm).
    pose proof (seg_match_nonempty _ _ (ltac:(done) : s' :: ps <> []) Hm) as Hb.
    apply Forall_app in Hd as [Hda Hdb].
    exists (join_dot a), (join_dot b). split_and!; [by apply join_dot_app| |].
    + by apply seg_toks_text.
    + rewrite join_dot_app in Hnl by done. apply nlfree_app in Hnl as [_ Hnl].
      apply IH; try done. unfold nlfree in *. set_solver.
Qed.

Lemma re_matches_segs (topic pattern : string) :
  nlfree (explode topic) -> Forall tok_ok (split_dot (explode pattern)) ->
  re_matches topic pattern =
    seg_match (map seg_of (split_dot (explode pattern))) (split_dot (explode topic)).
Proof.
  intros Hnl Hok. unfold re_matches. case_decide as Hpt.
  - subst. symmetry. apply seg_match_refl.
  - apply Bool.eq_iff_eq_true.
    rewrite <- (join_split (explode topic)) at 1.
    rewrite <- (join_split (explode pattern)) at 1. rewrite re_parts_join by done.
    apply pieces_seg_match; rewrite ?join_split; try done.
    + intros Hn%fmap_nil_inv. by apply split_dot_nonnil in Hn.
    + apply split_dot_nonnil.
    + apply split_dotfree.
    + pose proof (split_dotfree (explode pattern)) as Hd.
      apply Forall_fmap. refine (Forall_impl _ _ _ Hd _). intros x Hx.
      unfold compose, seg_of. by repeat case_decide.
Qed.

(** C32 What [_matches] of the Redis and NATS transports decides, on a topic
    without newline characters and a pattern each of whose dot-separated segments
    is [*], [**] or free of stars: it holds iff literal segments are equal, [*]
    stands for one segment and [**] for one or more.  The docstring and the README
    say that [**] is any number of segments: whatever the code matches does match
    in that sense too, and without [**] the two agree, but where a [**] would have
    to stand for no segment at all the code does not match; a topic matches as
    documented exactly when it matches in the code once those [**] are struck from
    the pattern. *)
Theorem re_matches_segments (topic pattern : string) :
  nlfree (explode topic) -> Forall tok_ok (split_dot (explode pattern)) ->
  let ps := map seg_of (split_dot (explode pattern)) in
  let ts := split_dot (explode topic) in
  re_matches topic pattern = seg_match ps ts /\
  (re_matches topic pattern = true -> doc_match ps ts = true) /\
  (Star2 ∉ ps -> re_matches topic pattern = doc_match ps ts) /\
  (doc_match ps ts = true <-> exists ps', strikes ps ps' /\ seg_match ps' ts = true).
Proof.
  intros Hnl Hok ps ts. rewrite (re_matches_segs _ _ Hnl Hok). fold ps ts. split; [done|]. split; [|split].
  - intros Hm. apply doc_match_strikes. exists ps. split; [apply strikes_refl|done].
  - intros Hn. apply Bool.eq_iff_eq_true. rewrite doc_match_strikes. split.
    + exists ps. split; [apply strikes_refl|done].
    + intros (ps' & Hs & Hm). by rewrite <- (strikes_starless ps ps' Hn Hs).
  - apply doc_match_strikes.
Qed.

(** ** [fnmatch] on patterns with few special characters *)

(** No character that [fnmatch] treats specially. *)
Definition fn_plain (c : ascii) : Prop := c <> "*"%char /\ c <> "?"%char /\ c <> "["%char.

Lemma fn_translate_plain l s :
  Forall fn_plain l ->
  fn_translate 0 (l ++ s) = map (fun c => One (isc c)) l ++ fn_translate 0 s.
Proof.
  induction 1 as [|c l (H1 & H2 & H3) _ IH]; [done|].
  cbn. rewrite !decide_False by done. by rewrite IH.
Qed.

Lemma fnmatch_plain s l : Forall fn_plain l -> fnmatch s l = true <-> s = l.
Proof.
  intros Hl. unfold fnmatch. rewrite <- (app_nil_r l) at 1.
  rewrite fn_translate_plain, pmatch_lits by done. cbn. split.
  - intros (s' & -> & Hz). destruct s'; [by rewrite app_nil_r | done].
  - intros ->. exists []. by rewrite app_nil_r.
Qed.

Lemma fnmatch_plain_star s l : Forall fn_plain l -> fnmatch s (l ++ star) = true <-> exists r, s = l ++ r.
Proof.
  intros Hl. unfold fnmatch. rewrite fn_translate_plain, pmatch_lits by done.
  split; [naive_solver|]. intros [r ->]. exists r. split; [done|].
  change (fn_translate 0 star) with [Many anychar]. apply pmatch_many.
  exists r, []. rewrite app_nil_r. split_and!; [done| |done]. by apply Forall_true.
Qed.

(** A topic name that every [fnmatch]-based matcher takes literally. *)
Definition plain (p : string) : Prop :=
  Forall fn_plain (explode p) /\ occurs sentinel (explode p) = false.

#[global] Instance fn_plain_dec c : Decision (fn_plain c).
Proof. unfold fn_plain. apply _. Defined.
#[global] Instance plain_dec p : Decision (plain p).
Proof. unfold plain. apply _. Defined.

Lemma fn_plain_no_star l : Forall fn_plain l -> "*"%char ∉ l.
Proof. rewrite Forall_forall. intros H Hin. by destruct (H _ Hin). Qed.

Lemma memory_glob_plain p : plain p -> memory_glob (explode p) = explode p.
Proof.
  intros [Hp Ho]. apply fn_plain_no_star in Hp. unfold memory_glob.
  rewrite <- (app_nil_r (explode p)).
  rewrite (replace_app_ne "*"), (replace_app_ne "*") by done.
  unfold replace; cbn [replace_go]. rewrite !app_nil_r. by apply replace_id.
Qed.

Lemma memory_matches_plain t p : plain p -> memory_matches t p = bool_decide (t = p).
Proof.
  intros Hp. unfold memory_matches. case_decide as Hpt.
  - subst. by rewrite bool_decide_eq_true_2.
  - rewrite memory_glob_plain by done. rewrite bool_decide_eq_false_2 by congruence.
    apply not_true_iff_false. rewrite fnmatch_plain by apply Hp.
    intros ?%explode_inj. congruence.
Qed.

Lemma tcp_matches_plain t p : plain p -> tcp_matches t p = bool_decide (t = p).
Proof.
  intros Hp. unfold tcp_matches. case_decide as Hpt.
  - subst. by rewrite bool_decide_eq_true_2.
  - rewrite bool_decide_eq_false_2 by congruence.
    apply not_true_iff_false. rewrite fnmatch_plain by apply Hp.
    intros ?%explode_inj. congruence.
Qed.

(** What [MemoryTransport._matches] hands to [fnmatch] for a trailing wildcard. *)
Definition no_us (p : string) : Prop := "_"%char ∉ explode p.

Lemma memory_glob_star p :
  Forall fn_plain (explode p) -> no_us p ->
  memory_glob (explode (p +:+ ".*")) = explode p ++ explode ".[^.]*".
Proof.
  intros Hp%fn_plain_no_star Hu. unfold memory_glob. rewrite explode_app.
  rewrite (replace_app_ne "*") by done.
  change (replace dstar sentinel (explode ".*")) with (explode ".*").
  rewrite (replace_app_ne "*") by done.
  change (replace star segment_star (explode ".*")) with (explode ".[^.]*").
  by rewrite (replace_app_ne "_").
Qed.

Lemma memory_glob_dstar p :
  Forall fn_plain (explode p) -> no_us p ->
  memory_glob (explode (p +:+ ".**")) = explode (p +:+ ".") ++ star.
Proof.
  intros Hp%fn_plain_no_star Hu. unfold memory_glob. rewrite !explode_app, <- app_assoc.
  rewrite (replace_app_ne "*") by done.
  change (replace dstar sentinel (explode ".**")) with (explode ".__DOUBLE__").
  rewrite (replace_app_ne "*") by done.
  change (replace star segment_star (explode ".__DOUBLE__")) with (explode ".__DOUBLE__").
  by rewrite (replace_app_ne "_").
Qed.

(** On [MemoryTransport] the pattern [p.*] does not stand for one segment
    under [p]: besides the pattern itself it matches exactly the topics that
    continue [p.] with a second dot or a caret, because the class [[^.]] that
    [_matches] substitutes for [*] is not a negated class in [fnmatch]. *)
Theorem memory_star_matches (t p : string) :
  Forall fn_plain (explode p) -> no_us p ->
  memory_matches t (p +:+ ".*") = true <->
    t = p +:+ ".*" \/
    exists c rest, explode t = explode p ++ dot :: c :: rest /\ (c = "^"%char \/ c = dot).
Proof.
  intros Hp Hu. unfold memory_matches. case_decide as Ht; [naive_solver|].
  rewrite memory_glob_star by done. unfold fnmatch.
  rewrite fn_translate_plain, pmatch_lits by done.
  change (fn_translate 0 (explode ".[^.]*")) with
    [One (isc dot); One (fun x => existsb (item_in x) [Single "^"%char; Single dot]); Many anychar].
  setoid_rewrite pmatch_one. setoid_rewrite pmatch_one. unfold isc.
  setoid_rewrite bool_decide_eq_true. cbn [existsb item_in].
  setoid_rewrite orb_false_r. setoid_rewrite orb_true_iff.
  setoid_rewrite bool_decide_eq_true. split.
  - intros (s' & Heq & d & s2 & -> & -> & c & rest & -> & Hc & _). right. eauto.
  - intros [->|(c & rest & Heq & Hc)]; [done|].
    eexists. split; [exact Heq|]. do 2 eexists. split_and!; [done..|].
    do 2 eexists. split_and!; [done..|]. apply pmatch_many.
    exists rest, []. rewrite app_nil_r. split_and!; [done|by apply Forall_true|done].
Qed.

Lemma memory_dstar_matches (t p : string) :
  Forall fn_plain (explode p) -> no_us p ->
  memory_matches t (p +:+ ".**") = true <-> exists r, explode t = explode (p +:+ ".") ++ r.
Proof.
  intros Hp Hu. unfold memory_matches. case_decide as Ht.
  - split; [intros _|done]. subst. exists (explode "**").
    by rewrite !explode_app, <- app_assoc.
  - rewrite memory_glob_dstar by done. apply fnmatch_plain_star.
    rewrite explode_app. apply Forall_app. split; [done|]. repeat constructor; done.
Qed.

Lemma tcp_star_matches (t p : string) :
  Forall fn_plain (explode p) ->
  tcp_matches t (p +:+ ".*") = true <-> exists r, explode t = explode (p +:+ ".") ++ r.
Proof.
  intros Hp. unfold tcp_matches. case_decide as Ht.
  - split; [intros _|done]. subst. exists (explode "*").
    by rewrite !explode_app, <- app_assoc.
  - replace (explode (p +:+ ".*")) with (explode (p +:+ ".") ++ star)
      by by rewrite !explode_app, <- app_assoc.
    apply fnmatch_plain_star.
    rewrite explode_app. apply Forall_app. split; [done|]. repeat constructor; done.
Qed.

#[global] Instance tok_ok_dec tok : Decision (tok_ok tok).
Proof. unfold tok_ok. apply _. Defined.

#[global] Instance nlfree_dec s : Decision (nlfree s).
Proof. unfold nlfree. apply _. Defined.

Lemma re_matches_segments_witness :
  re_matches "orders.eu.new" "orders.*.new" = true /\
  re_matches "orders.eu.de.new" "orders.**.new" = true /\
  re_matches "orders.new" "orders.**.new" = false /\
  doc_match (map seg_of (split_dot (explode "orders.**.new"))) (split_dot (explode "orders.new")) = true.
Proof.
  assert (forall t p, bool_decide (nlfree (explode t)) = true ->
    bool_decide (Forall tok_ok (split_dot (explode p))) = true ->
    re_matches t p = seg_match (map seg_of (split_dot (explode p))) (split_dot (explode t))) as Hre.
  { intros t p Ht Hp. apply (re_matches_segments t p); by apply (bool_decide_eq_true_1 _). }
  split; [|split; [|split]].
  - rewrite Hre by (vm_compute; reflexivity). reflexivity.
  - rewrite Hre by (vm_compute; reflexivity). reflexivity.
  - rewrite Hre by (vm_compute; reflexivity). reflexivity.
  - apply (re_matches_segments "orders.new" "orders.**.new").
    + by apply (bool_decide_eq_true_1 _).
    + by apply (bool_decide_eq_true_1 _).
    + exists [Lit (explode "orders"); Lit (explode "new")]. split; [|reflexivity].
      vm_compute. repeat constructor.
Defined.

Lemma memory_star_matches_witness :
  memory_matches "events..user" "events.*" = true /\ memory_matches "events.user" "events.*" = false.
Proof.
  split; [|reflexivity].
  apply (memory_star_matches "events..user" "events").
  - repeat constructor; discriminate.
  - unfold no_us. vm_compute. set_solver.
  - right. exists dot, (explode "user"). split; [reflexivity | by right].
Defined.
