(* ===== verification/Wire.v ===== *)
(** * The TCP wire: [_send_msg], [_recv_exact], [_recv_msg] of transports/tcp.py

    A message travels as a 4-byte big-endian length and that many bytes.  A
    socket to read from is the list of the chunks that are still to arrive; the
    network cuts the byte stream into chunks as it likes, so the theorems hold
    for every such list of non-empty chunks.  [recv(n)] hands out at most [n]
    bytes of the first chunk, and the empty string once the peer has closed. *)
From Equations Require Import Equations.
From S2P Require Import Prelude.
#[local] Open Scope nat_scope.

Abbreviation bytes := (list ascii).

(** ** [struct.pack("!I", n)] and [struct.unpack("!I", b)] *)
Definition byte_of (z : Z) : ascii := ascii_of_N (Z.to_N (Z.land z 255)).
Definition of_byte (c : ascii) : Z := Z.of_N (N_of_ascii c).

Definition header_size : nat := 4.

Definition pack_u32 (n : Z) : result bytes :=
  if decide (0 <= n < 2 ^ 32)%Z
  then Ok [byte_of (Z.shiftr n 24); byte_of (Z.shiftr n 16); byte_of (Z.shiftr n 8); byte_of n]
  else Raise (Exc "error" "'I' format requires 0 <= number <= 4294967295").

Definition unpack_u32 (b : bytes) : result Z :=
  match b with
  | [b3; b2; b1; b0] =>
      Ok (Z.lor (Z.shiftl (of_byte b3) 24) (Z.lor (Z.shiftl (of_byte b2) 16)
         (Z.lor (Z.shiftl (of_byte b1) 8) (of_byte b0))))
  | _ => Raise (Exc "error" "unpack requires a buffer of 4 bytes")
  end.

(** ** Sending: the bytes that [_send_msg] gives to [sendall] *)
Definition send_msg (data : bytes) : result bytes :=
  match pack_u32 (Z.of_nat (length data)) with
  | Ok h => Ok (h ++ data)
  | Raise e => Raise e
  end.

(** ** Receiving *)
Abbreviation socket := (list bytes).

Definition recv (n : nat) (sk : socket) : bytes * socket :=
  match sk with
  | [] => ([], [])
  | c :: sk' => if decide (length c <= n) then (c, sk') else (take n c, drop n c :: sk')
  end.

(** The [while remaining > 0] loop of [_recv_exact]. *)
Equations? recv_loop (remaining : nat) (chunks : list bytes) (sk : socket)
    : option bytes * socket by wf remaining lt :=
  recv_loop 0 chunks sk := (Some (concat chunks), sk);
  recv_loop (S r) chunks sk with recv (S r) sk => {
    | ([], sk') := (None, sk');
    | (b :: bs, sk') := recv_loop (S r - length (b :: bs)) (chunks ++ [b :: bs]) sk' }.
Proof. simpl. lia. Defined.

Definition recv_exact (sk : socket) (n : nat) : option bytes * socket := recv_loop n [] sk.

Definition recv_msg (sk : socket) : result (option bytes) * socket :=
  match recv_exact sk header_size with
  | (None, sk') => (Ok None, sk')
  | (Some header, sk') =>
      match unpack_u32 header with
      | Ok n => let '(r, sk'') := recv_exact sk' (Z.to_nat n) in (Ok r, sk'')
      | Raise e => (Raise e, sk')
      end
  end.

(** * Facts *)

Lemma of_byte_range c : (0 <= of_byte c < 256)%Z.
Proof. unfold of_byte. pose proof (N_ascii_bounded c). lia. Qed.

Lemma land_255 z : Z.land z 255 = (z mod 256)%Z.
Proof. change 255%Z with (Z.ones 8). by rewrite Z.land_ones. Qed.

Lemma of_byte_of z : of_byte (byte_of z) = (z mod 256)%Z.
Proof.
  unfold of_byte, byte_of. rewrite land_255.
  pose proof (Z.mod_pos_bound z 256 ltac:(lia)).
  rewrite N_ascii_embedding by lia. lia.
Qed.

(** Disjoint bit fields: [lor] is addition. *)
Lemma lor_shiftl_add a b n :
  (0 <= n)%Z -> (0 <= b < 2 ^ n)%Z -> Z.lor (Z.shiftl a n) b = (a * 2 ^ n + b)%Z.
Proof.
  intros Hn Hb. rewrite <- Z.shiftl_mul_pow2 by done. symmetry.
  rewrite Z.add_nocarry_lxor, Z.lxor_lor; [done|..].
  all: apply Z.bits_inj'; intros i Hi; rewrite Z.land_spec, Z.bits_0, Z.shiftl_spec by done.
  all: destruct (decide (i < n)%Z); [by rewrite Z.testbit_neg_r by lia|].
  all: rewrite <- (Z.mod_small b (2 ^ n)) by done;
       rewrite Z.mod_pow2_bits_high by lia; apply andb_false_r.
Qed.

Lemma unpack_sum b3 b2 b1 b0 :
  unpack_u32 [b3; b2; b1; b0] =
    Ok (of_byte b3 * 2 ^ 24 + (of_byte b2 * 2 ^ 16 + (of_byte b1 * 2 ^ 8 + of_byte b0)))%Z.
Proof.
  pose proof (of_byte_range b3). pose proof (of_byte_range b2).
  pose proof (of_byte_range b1). pose proof (of_byte_range b0).
  unfold unpack_u32. rewrite (lor_shiftl_add _ (of_byte b0) 8) by lia.
  rewrite (lor_shiftl_add _ _ 16) by lia. by rewrite (lor_shiftl_add _ _ 24) by lia.
Qed.

Lemma unpack_pack n h : pack_u32 n = Ok h -> length h = header_size /\ unpack_u32 h = Ok n.
Proof.
  unfold pack_u32. case_decide as Hn; intros [= <-]. split; [done|].
  rewrite unpack_sum, !of_byte_of, !Z.shiftr_div_pow2 by done.
  f_equal. change (2 ^ 24)%Z with 16777216%Z. change (2 ^ 16)%Z with 65536%Z.
  change (2 ^ 8)%Z with 256%Z. change (2 ^ 32)%Z with 4294967296%Z in Hn.
  clear -Hn. Z.to_euclidean_division_equations. lia.
Qed.

(** ** Chunked reads *)
Definition chunks_ok (sk : socket) : Prop := Forall (fun c => c <> []) sk.

Lemma recv_spec n sk : n <> 0 -> chunks_ok sk ->
  match recv n sk with
  | ([], sk') => concat sk = [] /\ sk' = []
  | (b :: bs, sk') =>
      chunks_ok sk' /\ length (b :: bs) <= n /\ concat sk = (b :: bs) ++ concat sk'
  end.
Proof.
  intros Hn Hok. destruct sk as [|c sk]; [done|]. apply Forall_cons in Hok as [Hc Hok].
  cbn [recv]. case_decide.
  - by destruct c.
  - destruct c as [|x c]; [done|]. destruct n as [|n]; [done|]. cbn [take drop].
    split_and!.
    + constructor; [|done]. cbn in *. intros Hd%(f_equal length).
      rewrite length_drop in Hd. cbn in Hd. lia.
    + cbn. rewrite length_take. lia.
    + cbn. by rewrite app_assoc, take_drop.
Qed.

(** The loop returns the next [n] bytes of the stream however it is cut, and
    reports a disconnect exactly when fewer are left. *)
Lemma recv_loop_spec n acc sk : chunks_ok sk ->
  match recv_loop n acc sk with
  | (Some d, sk') =>
      n <= length (concat sk) /\ chunks_ok sk' /\
      d = concat acc ++ take n (concat sk) /\ concat sk' = drop n (concat sk)
  | (None, sk') => length (concat sk) < n /\ sk' = []
  end.
Proof.
  funelim (recv_loop n acc sk); intros Hok.
  - rewrite take_0, drop_0, app_nil_r. split_and!; [lia|done..].
  - pose proof (recv_spec (S r) sk ltac:(done) Hok) as Hs. rewrite Heq in Hs.
    destruct Hs as [-> ->]. cbn. split; [lia|done].
  - pose proof (recv_spec (S r) sk ltac:(done) Hok) as Hs. rewrite Heq in Hs.
    destruct Hs as (Hok' & Hlen & ->). specialize (H Hok').
    destruct (recv_loop _ _ _) as [[d|] sk'']; rewrite length_app;
      [|destruct H as [H ->]; cbn [length] in *; split; [lia|done]].
    destruct H as (Hl & Hk & -> & ->). split_and!; [lia|done| |].
    + rewrite concat_app. cbn [concat]. rewrite app_nil_r, <- app_assoc. f_equal.
      by rewrite take_app_ge.
    + by rewrite drop_app_ge.
Qed.

Lemma recv_exact_spec n sk : chunks_ok sk ->
  match recv_exact sk n with
  | (Some d, sk') =>
      n <= length (concat sk) /\ chunks_ok sk' /\
      d = take n (concat sk) /\ concat sk' = drop n (concat sk)
  | (None, sk') => length (concat sk) < n /\ sk' = []
  end.
Proof. intros Hok. exact (recv_loop_spec n [] sk Hok). Qed.

Lemma recv_exact_app sk d rest : chunks_ok sk -> concat sk = d ++ rest ->
  exists sk', recv_exact sk (length d) = (Some d, sk') /\ chunks_ok sk' /\ concat sk' = rest.
Proof.
  intros Hok Heq. pose proof (recv_exact_spec (length d) sk Hok) as Hs.
  destruct (recv_exact sk (length d)) as [[d'|] sk']; rewrite Heq in Hs.
  - rewrite take_app_length, drop_app_length in Hs. destruct Hs as (_ & ? & -> & ?). eauto.
  - rewrite length_app in Hs. lia.
Qed.

(** The framing law: what [send_msg] puts on the wire, followed by anything and
    cut anyhow, is read back by [recv_msg], which leaves the rest untouched. *)
Lemma recv_send_msg data frame rest sk :
  send_msg data = Ok frame -> chunks_ok sk -> concat sk = frame ++ rest ->
  exists sk', recv_msg sk = (Ok (Some data), sk') /\ chunks_ok sk' /\ concat sk' = rest.
Proof.
  unfold send_msg. intros Hs Hok Heq.
  destruct (pack_u32 _) as [h|] eqn:Hp; simplify_eq.
  apply unpack_pack in Hp as [Hlen Hun]. rewrite <- app_assoc in Heq.
  unfold recv_msg. rewrite <- Hlen.
  destruct (recv_exact_app sk h (data ++ rest) Hok Heq) as (sk1 & -> & Hok1 & Heq1).
  rewrite Hun, Nat2Z.id.
  destruct (recv_exact_app sk1 data rest Hok1 Heq1) as (sk2 & -> & ? & ?). eauto.
Qed.

(** A peer that closes in the middle of a frame: no message, no exception. *)
Lemma recv_msg_truncated data frame sk k :
  send_msg data = Ok frame -> chunks_ok sk -> k < length frame -> concat sk = take k frame ->
  exists sk', recv_msg sk = (Ok None, sk').
Proof.
  unfold send_msg. intros Hs Hok Hk Heq.
  destruct (pack_u32 _) as [h|] eqn:Hp; simplify_eq.
  apply unpack_pack in Hp as [Hlen Hun]. unfold recv_msg.
  pose proof (recv_exact_spec header_size sk Hok) as H1.
  destruct (recv_exact sk header_size) as [[d|] sk1]; [|eauto].
  destruct H1 as (Hle & Hok1 & -> & Heq1). rewrite Heq in *.
  rewrite length_take in Hle.
  rewrite take_take, Nat.min_l by lia. rewrite <- Hlen, take_app_length, Hun, Nat2Z.id.
  pose proof (recv_exact_spec (length data) sk1 Hok1) as H2.
  destruct (recv_exact sk1 _) as [[d|] sk2]; [|eauto].
  destruct H2 as (Hle2 & _). rewrite Heq1, length_drop, length_take in Hle2.
  rewrite length_app in *. lia.
Qed.

(** A payload of 4 GiB or more is refused by [struct.pack]. *)
Lemma send_msg_error data :
  is_Ok (send_msg data) = bool_decide (Z.of_nat (length data) < 2 ^ 32)%Z.
Proof.
  unfold send_msg, pack_u32. case_decide; cbn.
  - by rewrite bool_decide_eq_true_2 by lia.
  - by rewrite bool_decide_eq_false_2 by lia.
Qed.

(** The bytes of a sequence of messages. *)
Fixpoint send_all (msgs : list bytes) : result bytes :=
  match msgs with
  | [] => Ok []
  | m :: ms =>
      match send_msg m, send_all ms with
      | Ok f, Ok fs => Ok (f ++ fs)
      | Raise e, _ | Ok _, Raise e => Raise e
      end
  end.

(** [recv_msg] in a loop, as [_client_loop] and [_recv_loop] call it: one round
    per message, ending at the disconnect. *)
Fixpoint recv_all (fuel : nat) (sk : socket) : list bytes :=
  match fuel with
  | 0 => []
  | S fuel => match recv_msg sk with (Ok (Some d), sk') => d :: recv_all fuel sk' | _ => [] end
  end.

Lemma recv_msg_eof : recv_msg [] = (Ok None, []).
Proof. reflexivity. Qed.

(** C33 Whatever messages were sent, and however the network cuts their bytes
    into chunks, the receiving loop yields those messages in order and then
    stops at the disconnect: after one more round than there are messages it
    has returned them all. *)
Theorem stream_roundtrip (msgs : list bytes) (stream : bytes) (sk : socket) (fuel : nat) :
  send_all msgs = Ok stream -> chunks_ok sk -> concat sk = stream ->
  length msgs < fuel -> recv_all fuel sk = msgs.
Proof.
  revert stream sk fuel. induction msgs as [|m msgs IH]; intros stream sk fuel Hs Hok Heq Hf.
  - cbn in Hs. simplify_eq. destruct fuel as [|fuel]; [done|].
    destruct sk as [|c sk]; [done|]. apply Forall_cons in Hok as [Hc _].
    by destruct c.
  - cbn in Hs. destruct (send_msg m) as [f|] eqn:Hm; [|done].
    destruct (send_all msgs) as [fs|] eqn:Hms; [|done]. injection Hs as Hs.
    destruct fuel as [|fuel]; [cbn in Hf; lia|]. cbn [recv_all].
    destruct (recv_send_msg m f fs sk Hm Hok) as (sk' & -> & Hok' & Heq'); [congruence|].
    f_equal. eapply IH; eauto. cbn in Hf. lia.
Qed.

(** Two messages whose bytes arrive cut in the middle of a length prefix. *)
Lemma stream_roundtrip_witness :
  let a := ["h"; "i"]%char in let b := ["!"]%char in
  exists stream, send_all [a; b] = Ok stream /\
    recv_all 3 [take 2 stream; drop 2 stream] = [a; b].
Proof.
  eexists. split; [reflexivity|].
  eapply (stream_roundtrip [["h"; "i"]; ["!"]]%char); [reflexivity| |reflexivity|cbn; lia].
  repeat constructor; discriminate.
Defined.
