(* ===== verification/Transport.v ===== *)
(** * The transport interface and what the transports share

    [Transport] is the ABC of transports/base.py as a type class: [MessageQueue]
    is written against it and the transports are its instances.  The second half
    holds the parts the transports have in common: the queues behind
    [receive()] and the loop that calls the matching subscribers. *)
From S2P Require Import Prelude PyDict Types Topics.

(** ** Blocking calls

    A call that waits is described at the moment it returns: [Done] what it
    returns in the state it finds, or [Waiting] when in that state it would go
    on waiting (an empty queue and no timeout). *)
Inductive wait (A : Type) : Type :=
  | Done (a : A)
  | Waiting.
Arguments Done {A} a.
Arguments Waiting {A}.

(** ** [queue.Queue] *)
Definition q_full (maxsize : Z) (q : list Message) : bool :=
  bool_decide (0 < maxsize) && bool_decide (maxsize <= Z.of_nat (length q)).

(** [q.get(timeout=t)], with [Empty] turned into [None] as every [receive] does. *)
Definition q_get (q : list Message) (timeout : option Z)
    : result (wait (option Message)) * list Message :=
  match timeout with
  | Some t =>
      if decide (t < 0) then (Raise (Exc "ValueError" "'timeout' must be a non-negative number"), q)
      else match q with [] => (Ok (Done None), []) | m :: q' => (Ok (Done (Some m)), q') end
  | None => match q with [] => (Ok Waiting, []) | m :: q' => (Ok (Done (Some m)), q') end
  end.

(** [await asyncio.wait_for(loop.run_in_executor(None, lambda: q.get(timeout=1)), timeout=t)],
    with both timeouts turned into [None] as every [receive_async] does.  The
    thread waits for at most a second, so that the call ends even without a
    timeout; a timeout that is not positive cancels the job before it starts.
    What becomes of a job whose caller has timed out is in Async. *)
Definition q_get_async (q : list Message) (timeout : option Z)
    : result (wait (option Message)) * list Message :=
  match timeout with
  | Some t => if decide (t <= 0) then (Ok (Done None), q) else q_get q (Some 1)
  | None => q_get q (Some 1)
  end.

(** With a timeout, the two ways to receive end alike. *)
Lemma q_get_async_timeout q t : 0 < t -> q_get_async q (Some t) = q_get q (Some t).
Proof. intros Ht. unfold q_get_async, q_get. by rewrite !decide_False by lia. Qed.

Lemma q_get_async_length q tm : (length (q_get_async q tm).2 <= length q)%nat.
Proof. unfold q_get_async, q_get. repeat case_match; cbn; lia. Qed.

(** ** The ABC *)
Class Transport (W CB : Type) : Type := {
  t_send : Message -> M W unit;
  t_receive : string -> option Z -> M W (wait (option Message));
  t_receive_async : string -> option Z -> M W (wait (option Message));
  t_subscribe : string -> CB -> M W string;
  t_unsubscribe : string -> M W bool;
  t_close : M W unit;
}.

(** The text has the topic's [repr]: its name in quotes, for a name that holds
    no quote, backslash or control character. *)
Definition TransportFullError (topic : string) (maxsize : Z) : exn :=
  Exc "TransportFullError"
    ("transport queue for topic '" +:+ topic +:+ "' is full (" +:+ pretty maxsize +:+ " messages)").

(** ** The delivery loop

    [for sub_id, callback in list(self._subscribers.items()): ...]: the list is
    a snapshot, the pattern of each subscription is looked up when its turn
    comes, and an exception of a callback is dropped. *)
Section notify.
Context {W CB : Type}.
Variables (pattern_of : string -> W -> option string) (matches : string -> string -> bool).
Variable call : CB -> Message -> M W unit.

Definition notify_one (msg : Message) (sub : string * CB) : M W unit :=
  let! sub_topic := gets (pattern_of sub.1) in
  match sub_topic with
  | Some p => if matches (topic msg) p
              then try_except (call sub.2 msg) (fun _ => ret tt) else ret tt
  | None => ret tt
  end.

Definition notify (msg : Message) (snapshot : list (string * CB)) : M W unit :=
  for_each snapshot (notify_one msg).

(** Whether a subscription takes the message. *)
Definition wants (w : W) (msg : Message) (sub : string * CB) : bool :=
  match pattern_of sub.1 w with Some p => matches (topic msg) p | None => false end.

(** The callbacks of a snapshot that the message is for, in order. *)
Definition receivers (msg : Message) (snapshot : list (string * CB)) (w : W) : list CB :=
  (List.filter (wants w msg) snapshot).*2.

(** What running callbacks one after the other does to the heap. *)
Definition run_all (msg : Message) (cbs : list CB) (w : W) : W :=
  fold_left (fun w cb => (call cb msg w).2) cbs w.

(** Callbacks that raise at most [Exception]s, and keep an invariant under
    which the patterns of the subscriptions do not change. *)
Record quiet (I : W -> Prop) : Prop := {
  quiet_tame : forall cb msg, tame I (call cb msg);
  quiet_keeps : forall cb msg, keeps I (call cb msg);
  quiet_pat : forall cb msg w id, I w -> pattern_of id (call cb msg w).2 = pattern_of id w;
}.

Lemma run_all_app msg l1 l2 w : run_all msg (l1 ++ l2) w = run_all msg l2 (run_all msg l1 w).
Proof. apply fold_left_app. Qed.

Lemma notify_quiet I msg snapshot w :
  quiet I -> I w ->
  notify msg snapshot w = (Ok tt, run_all msg (receivers msg snapshot w) w).
Proof.
  intros HQ. revert w. induction snapshot as [|sub snapshot IH]; intros w HI; [done|].
  unfold notify, receivers in *. cbn [for_each List.filter].
  unfold notify_one at 1. unfold bind at 1 2, gets at 1. unfold wants at 1.
  destruct (pattern_of sub.1 w) as [p|] eqn:Hp; [destruct (matches (topic msg) p)|].
  - rewrite (swallowed I) by (done || by apply (quiet_tame I HQ)).
    rewrite IH by by apply (quiet_keeps I HQ). cbn. do 3 f_equal.
    apply List.filter_ext. intros s. unfold wants. by rewrite (quiet_pat I HQ).
  - cbn. by apply IH.
  - cbn. by apply IH.
Qed.

(** A subscription that is gone when its turn comes is passed over. *)
Lemma notify_gone msg sub snapshot w :
  pattern_of sub.1 w = None -> notify msg (sub :: snapshot) w = notify msg snapshot w.
Proof.
  intros Hp. unfold notify. cbn [for_each]. unfold notify_one at 1.
  unfold bind, gets. by rewrite Hp.
Qed.

Lemma notify_unwanted msg snapshot w :
  Forall (fun sub => wants w msg sub = false) snapshot -> notify msg snapshot w = (Ok tt, w).
Proof.
  unfold notify. induction 1 as [|sub l Hs _ IH]; [done|]. cbn [for_each].
  unfold notify_one at 1. unfold bind at 1 2, gets at 1. unfold wants in Hs.
  destruct (pattern_of sub.1 w) as [p|]; [rewrite Hs|]; cbn; apply IH.
Qed.

(** One subscription takes the message, and no other does afterwards either. *)
Lemma notify_single msg pre sub post w w' r :
  Forall (fun sub => wants w msg sub = false) pre -> wants w msg sub = true ->
  call sub.2 msg w = (r, w') -> (forall e, r = Raise e -> is_Exception e = true) ->
  Forall (fun sub => wants w' msg sub = false) post ->
  notify msg (pre ++ sub :: post) w = (Ok tt, w').
Proof.
  intros Hpre Hs Hc He Hpost. unfold notify. rewrite for_each_app.
  unfold bind. fold (notify msg pre). rewrite notify_unwanted by done.
  cbn [for_each]. unfold notify_one at 1. unfold bind at 1 2, gets at 1. unfold wants in Hs.
  destruct (pattern_of sub.1 w) as [p|]; [|done]. rewrite Hs. unfold try_except. rewrite Hc.
  destruct r as [[]|e]; [|rewrite (He e eq_refl)]; by apply notify_unwanted.
Qed.

(** Callbacks that raise at most [Exception]s never stop the loop. *)
Lemma notify_returns (I : W -> Prop) msg snapshot w :
  (forall cb, tame I (call cb msg)) -> (forall cb, keeps I (call cb msg)) -> I w ->
  exists w', notify msg snapshot w = (Ok tt, w') /\ I w'.
Proof.
  intros Ht Hk. revert w. induction snapshot as [|sub snapshot IH]; intros w HI; [by exists w|].
  unfold notify. cbn [for_each]. unfold notify_one at 1. unfold bind at 1 2, gets at 1.
  destruct (pattern_of sub.1 w) as [p|]; [destruct (matches (topic msg) p)|]; [|by apply IH..].
  rewrite (swallowed I) by done. apply IH. by apply Hk.
Qed.

(** An invariant of the heap that the callbacks keep is kept by the loop. *)
Lemma keeps_notify (I : W -> Prop) msg snapshot :
  (forall cb, keeps I (call cb msg)) -> keeps I (notify msg snapshot).
Proof. intros Hc. unfold notify, notify_one. eauto 8 with py. Qed.
End notify.

(** ** The heap of a process

    The [uuid4] supply, the transport's own state, and everything else: what the
    callbacks (channels, handlers, user code) own. *)
Record heap (T R : Type) : Type := mkHeap { h_uuid : nat; h_tr : T; h_rest : R }.
Arguments mkHeap {T R} _ _ _.
Arguments h_uuid {T R} _.
Arguments h_tr {T R} _.
Arguments h_rest {T R} _.

Section heap.
Context {T R : Type}.

Definition set_tr (t : T) (h : heap T R) : heap T R := mkHeap (h_uuid h) t (h_rest h).
Definition set_rest (r : R) (h : heap T R) : heap T R := mkHeap (h_uuid h) (h_tr h) r.

(** [str(uuid4())] or [uuid4().hex] *)
Definition new_uuid : M (heap T R) string := fun h =>
  (Ok (uuid4 (h_uuid h)), mkHeap (S (h_uuid h)) (h_tr h) (h_rest h)).

Definition get_tr : M (heap T R) T := gets h_tr.
Definition put_tr (t : T) : M (heap T R) unit := modify (set_tr t).
Definition upd_tr (f : T -> T) : M (heap T R) unit := modify (fun h => set_tr (f (h_tr h)) h).
Definition get_rest : M (heap T R) R := gets h_rest.
Definition upd_rest (f : R -> R) : M (heap T R) unit :=
  modify (fun h => set_rest (f (h_rest h)) h).
End heap.
