(* ===== verification/Async.v ===== *)
(** * [receive_async], over time

    Every transport receives asynchronously by the same lines:

<<
    await asyncio.wait_for(
        loop.run_in_executor(None, lambda: self._queues[topic].get(timeout=1)),
        timeout=timeout,
    )
>>

    The call waits in the event loop; a job of the loop's executor waits in a
    thread, for at most a second from when it starts.  A call that times out (or is
    cancelled) cancels its job, which helps as long as the job has not started; a
    started job goes on, and what it takes from the queue then is for nobody.  This
    file is the queue of one topic with any number of such calls; every thread's
    and the loop's moves are events, in any order, and time is in milliseconds.
    The atomic answer [q_get_async] that the transports' definitions use is one of
    its runs. *)
From S2P Require Import Prelude PyDict Types Transport.

Module AsyncReceive.

Definition second : Z := 1000.

(** The executor's job: in its queue; in [get(timeout=1)] until a time; ended,
    [None] standing for [Empty]; gone when the loop has taken note of it. *)
Inductive job : Type :=
  | Pending
  | Getting (until : Z)
  | Got (r : option Message)
  | Gone.

Inductive status : Type :=
  | Awaiting
  | Returned (r : option Message)
  | Cancelled.

Record acall : Type := mkCall { deadline : option Z; c_status : status; c_job : job }.

(** [taken] and [lost] record what the jobs took and what of it nobody got. *)
Record state : Type := mkState {
  now : Z;
  queue : list Message;
  calls : gmap nat acall;
  taken : list Message;
  lost : list (nat * Message);
}.

Definition init : state := mkState 0 [] ∅ [] [].

Definition set_call (i : nat) (c : acall) (s : state) : state :=
  mkState (now s) (queue s) (<[i := c]> (calls s)) (taken s) (lost s).

Inductive event : Type :=
  | Put (m : Message)                  (** a dispatching thread: [self._queues[topic].put(msg)] *)
  | Tick (d : Z)                       (** time passes *)
  | Call (i : nat) (timeout : option Z)
  | Start (i : nat)                    (** a thread of the executor takes up the job *)
  | Take (i : nat)                     (** [get] finds a message *)
  | GiveUp (i : nat)                   (** [get] raises [Empty] *)
  | Deliver (i : nat)                  (** the loop hears of the job's end *)
  | Expire (i : nat)                   (** [wait_for] times out *)
  | Cancel (i : nat).                  (** the awaiting task is cancelled *)

(** Cancelling the future of a job *)
Definition cancel_job (j : job) : job := match j with Pending => Gone | _ => j end.

Definition finish (c : acall) (r : option Message) : acall :=
  mkCall (deadline c) (match c_status c with Awaiting => Returned r | st => st end) Gone.

Definition is_awaiting (c : acall) : bool := match c_status c with Awaiting => true | _ => false end.

(** What an event does, where it can happen *)
Definition exec (e : event) (s : state) : option state :=
  match e with
  | Put m => Some (mkState (now s) (queue s ++ [m]) (calls s) (taken s) (lost s))
  | Tick d => if decide (0 <= d) then Some (mkState (now s + d) (queue s) (calls s) (taken s) (lost s)) else None
  | Call i timeout =>
      match calls s !! i with
      | None => Some (set_call i (mkCall ((fun t => now s + t) <$> timeout) Awaiting Pending) s)
      | Some _ => None
      end
  | Start i =>
      c ← calls s !! i;
      match c_job c with
      | Pending => Some (set_call i (mkCall (deadline c) (c_status c) (Getting (now s + second))) s)
      | _ => None
      end
  | Take i =>
      c ← calls s !! i;
      match c_job c, queue s with
      | Getting _, m :: q =>
          Some (mkState (now s) q (<[i := mkCall (deadline c) (c_status c) (Got (Some m))]> (calls s))
                  (taken s ++ [m]) (lost s))
      | _, _ => None
      end
  | GiveUp i =>
      c ← calls s !! i;
      match c_job c, queue s with
      | Getting u, [] =>
          if decide (u <= now s) then Some (set_call i (mkCall (deadline c) (c_status c) (Got None)) s) else None
      | _, _ => None
      end
  | Deliver i =>
      c ← calls s !! i;
      match c_job c with
      | Got r =>
          Some (mkState (now s) (queue s) (<[i := finish c r]> (calls s)) (taken s)
                  (lost s ++ match r with
                             | Some m => if is_awaiting c then [] else [(i, m)]
                             | None => []
                             end))
      | _ => None
      end
  | Expire i =>
      c ← calls s !! i;
      match c_status c, deadline c with
      | Awaiting, Some d =>
          if decide (d <= now s) then Some (set_call i (mkCall (deadline c) (Returned None) (cancel_job (c_job c))) s)
          else None
      | _, _ => None
      end
  | Cancel i =>
      c ← calls s !! i;
      match c_status c with
      | Awaiting => Some (set_call i (mkCall (deadline c) Cancelled (cancel_job (c_job c))) s)
      | _ => None
      end
  end.

Abbreviation run := (run_events exec).

(** The messages put by a run *)
Definition puts (es : list event) : list Message :=
  omap (fun e => match e with Put m => Some m | _ => None end) es.

(** * Where the messages go *)

(** What a call has got: returned, or on its way from the job *)
Definition got (c : acall) : list Message :=
  match c_status c with Returned (Some m) => [m] | _ => [] end ++
  match c_job c with Got (Some m) => [m] | _ => [] end.

Definition gots (cs : gmap nat acall) : list Message := map_to_list cs ≫= (fun ic => got ic.2).

Lemma gots_delete cs i c : cs !! i = Some c -> gots cs ≡ₚ got c ++ gots (delete i cs).
Proof. intros Hc. unfold gots. by rewrite <- (map_to_list_delete cs i c Hc). Qed.

Lemma gots_insert cs i c c' : cs !! i = Some c -> gots (<[i := c']> cs) ++ got c ≡ₚ gots cs ++ got c'.
Proof.
  intros Hc. rewrite (gots_delete cs i c Hc), (gots_delete (<[i := c']> cs) i c') by apply lookup_insert_eq.
  rewrite delete_insert_eq. solve_Permutation.
Qed.

Lemma gots_new cs i c : cs !! i = None -> gots (<[i := c]> cs) ≡ₚ got c ++ gots cs.
Proof. intros Hc. unfold gots. by rewrite (map_to_list_insert cs i c Hc). Qed.

Lemma gots_same cs i c c' : cs !! i = Some c -> got c' = got c -> gots (<[i := c']> cs) ≡ₚ gots cs.
Proof.
  intros Hc Hg. pose proof (gots_insert cs i c c' Hc) as Hp. rewrite Hg in Hp. by apply Permutation_app_inv_r in Hp.
Qed.

(** How a call's status and its job go together *)
Record call_ok (t : Z) (c : acall) : Prop := {
  co_awaiting : c_status c = Awaiting -> c_job c <> Gone;
  co_ended : forall r, c_status c = Returned r -> c_job c <> Gone ->
    r = None /\ exists d, deadline c = Some d /\ d <= t;
  co_until : forall u, c_job c = Getting u -> u <= t + second;
}.

Definition gave_up (t : Z) (c : acall) : Prop :=
  c_status c = Cancelled \/ (c_status c = Returned None /\ exists d, deadline c = Some d /\ d <= t).

Record ok (s : state) : Prop := {
  ok_calls : forall i c, calls s !! i = Some c -> call_ok (now s) c;
  ok_taken : taken s ≡ₚ gots (calls s) ++ (lost s).*2;
  ok_lost : forall i m, (i, m) ∈ lost s -> exists c, calls s !! i = Some c /\ c_job c = Gone /\ gave_up (now s) c;
}.

Lemma async_ok_init : ok init.
Proof. split; [done|done|]. by intros i m ?%not_elem_of_nil. Qed.

Lemma call_ok_later t d c : 0 <= d -> call_ok t c -> call_ok (t + d) c.
Proof.
  intros Hd [Ha He Hu]. split; [done| |].
  - intros r Hr Hj. destruct (He r Hr Hj) as (-> & d' & ? & ?). split; [done|]. exists d'. split; [done|lia].
  - intros u Hu'. specialize (Hu u Hu'). lia.
Qed.

(** An event that changes one call: the others, and what was lost, stay as they were. *)
Lemma ok_lost_insert s i c c' :
  ok s -> calls s !! i = Some c -> (c_job c = Gone -> c_job c' = Gone /\ (gave_up (now s) c -> gave_up (now s) c')) ->
  forall j m, (j, m) ∈ lost s ->
  exists x, <[i := c']> (calls s) !! j = Some x /\ c_job x = Gone /\ gave_up (now s) x.
Proof.
  intros Hok Hc Hg j m Hj. destruct (ok_lost s Hok j m Hj) as (x & Hx & Hjob & Hgu).
  destruct (decide (j = i)) as [->|Hne].
  - rewrite Hc in Hx. injection Hx as <-. exists c'. rewrite lookup_insert_eq. naive_solver.
  - exists x. by rewrite lookup_insert_ne.
Qed.

Lemma ok_calls_insert s i c' : ok s -> call_ok (now s) c' ->
  forall j x, <[i := c']> (calls s) !! j = Some x -> call_ok (now s) x.
Proof.
  intros Hok Hc j x [[_ <-]|[Hne Hx]]%lookup_insert_Some; [done|]. by apply (ok_calls s Hok j).
Qed.

(** The events that only change the state of one call *)
Lemma ok_set_call s i c c' :
  ok s -> calls s !! i = Some c -> c_job c <> Gone -> call_ok (now s) c' -> got c' = got c -> ok (set_call i c' s).
Proof.
  intros Hok Hc Hj Hc' Hg. split; cbn.
  - by apply ok_calls_insert.
  - rewrite (gots_same _ i c c') by done. apply (ok_taken s Hok).
  - apply (ok_lost_insert s i c); [done|done|]. intros ?. done.
Qed.

Lemma ok_take s i c u m q : ok s -> calls s !! i = Some c -> c_job c = Getting u ->
  ok (mkState (now s) q (<[i := mkCall (deadline c) (c_status c) (Got (Some m))]> (calls s)) (taken s ++ [m]) (lost s)).
Proof.
  intros Hok Hc Hj. destruct (ok_calls s Hok i c Hc) as [Ha He _]. split; cbn.
  - apply ok_calls_insert; [done|]. split; cbn; [done| |done]. intros r Hr _. apply He; [done|by rewrite Hj].
  - pose proof (gots_insert (calls s) i c (mkCall (deadline c) (c_status c) (Got (Some m))) Hc) as Hp.
    rewrite (ok_taken s Hok). unfold got in Hp. rewrite Hj in Hp. cbn in Hp. rewrite app_nil_r, app_assoc in Hp.
    assert (gots (calls s) ++ [m] ≡ₚ gots (<[i := mkCall (deadline c) (c_status c) (Got (Some m))]> (calls s))) as <-.
    { eapply Permutation_app_inv_r. rewrite Hp. solve_Permutation. }
    solve_Permutation.
  - apply (ok_lost_insert s i c); [done|done|]. by rewrite Hj.
Qed.

Lemma ok_deliver s i c r : ok s -> calls s !! i = Some c -> c_job c = Got r ->
  ok (mkState (now s) (queue s) (<[i := finish c r]> (calls s)) (taken s)
        (lost s ++ match r with Some m => if is_awaiting c then [] else [(i, m)] | None => [] end)).
Proof.
  intros Hok Hc Hj. destruct (ok_calls s Hok i c Hc) as [_ He _]. set (c' := finish c r).
  assert (c_job c' = Gone) as Hj' by done.
  assert (is_awaiting c = false -> gave_up (now s) c') as Hgave.
  { unfold is_awaiting, gave_up, c', finish. destruct (c_status c) as [|r'|]; cbn; [done| |by left]. intros _. right.
    destruct (He r' eq_refl) as [-> ?]; [by rewrite Hj|done]. }
  split; cbn.
  - apply ok_calls_insert; [done|]. split; [cbn; by destruct (c_status c)|by intros ? ? []|done].
  - rewrite (ok_taken s Hok). pose proof (gots_insert (calls s) i c c' Hc) as Hp.
    rewrite fmap_app. unfold got, c', finish, is_awaiting in *. rewrite Hj in Hp.
    destruct (c_status c) as [|r'|] eqn:Hst; cbn in Hp; [| |].
    + rewrite app_nil_r in Hp. assert (match r with Some _ => [] | None => [] end = ([] : list (nat * Message))) as -> by by destruct r.
      cbn. rewrite app_nil_r. f_equiv. symmetry. eapply Permutation_app_inv_r. rewrite Hp. by destruct r.
    + destruct (He r' eq_refl) as [-> _]; [by rewrite Hj|]. destruct r as [m|]; cbn in Hp |- *.
      * rewrite app_nil_r in Hp. rewrite <- Hp. solve_Permutation.
      * rewrite !app_nil_r in *. by rewrite Hp.
    + destruct r as [m|]; cbn in Hp |- *.
      * rewrite app_nil_r in Hp. rewrite <- Hp. solve_Permutation.
      * rewrite !app_nil_r in *. by rewrite Hp.
  - intros j m [Hl|Hl]%elem_of_app.
    + eapply (ok_lost_insert s i c c' Hok Hc); [by rewrite Hj|exact Hl].
    + destruct r as [m'|]; [|by apply not_elem_of_nil in Hl]. destruct (is_awaiting c); [by apply not_elem_of_nil in Hl|].
      apply list_elem_of_singleton in Hl as [= -> ->]. exists c'. rewrite lookup_insert_eq. auto.
Qed.

(** An event of a call is one of a call that there is. *)
Local Ltac exec_call Hx :=
  match type of Hx with
  | context [calls ?s !! ?i] =>
      let c := fresh "c" in let Hc := fresh "Hc" in destruct (calls s !! i) as [c|] eqn:Hc; cbn in Hx; [|discriminate Hx]
  end.

Lemma ok_exec e s s' : ok s -> exec e s = Some s' -> ok s'.
Proof.
  intros Hok. destruct e as [m|d|i tm|i|i|i|i|i|i]; cbn [exec]; intros He.
  - injection He as <-. by destruct Hok.
  - case_decide as Hd; [|done]. injection He as <-. destruct Hok as [Hc Ht Hl]. split; cbn; [|done|].
    + intros i c Hi. by apply call_ok_later, (Hc i).
    + intros i m Hm. destruct (Hl i m Hm) as (c & Hi & Hj & Hg). exists c. split_and!; [done..|].
      destruct Hg as [?|(? & d' & ? & ?)]; [by left|right]. split; [done|]. exists d'. split; [done|lia].
  - destruct (calls s !! i) eqn:Hi; [done|]. injection He as <-. split; cbn.
    + apply ok_calls_insert; [done|]. by split.
    + rewrite gots_new by done. apply (ok_taken s Hok).
    + intros j m Hj. destruct (ok_lost s Hok j m Hj) as (x & Hx & ?). exists x.
      rewrite lookup_insert_ne; [done|]. intros ->. congruence.
  - exec_call He. destruct (c_job c) eqn:Hj; try done. injection He as <-.
    destruct (ok_calls s Hok i c Hc) as [Ha Hen Hu].
    apply (ok_set_call s i c); [done|done|by rewrite Hj| |by unfold got; rewrite Hj].
    split; cbn; [done| |by intros u [= <-]]. intros r Hr _. apply Hen; [done|by rewrite Hj].
  - exec_call He. destruct (c_job c) eqn:Hj; try done.
    destruct (queue s) as [|m q] eqn:Hq; [done|]. injection He as <-. by eapply ok_take.
  - exec_call He. destruct (c_job c) eqn:Hj; try done.
    destruct (queue s); [|done]. case_decide; [|done]. injection He as <-.
    destruct (ok_calls s Hok i c Hc) as [Ha Hen Hu].
    apply (ok_set_call s i c); [done|done|by rewrite Hj| |by unfold got; rewrite Hj].
    split; cbn; [done| |done]. intros r Hr _. apply Hen; [done|by rewrite Hj].
  - exec_call He. destruct (c_job c) eqn:Hj; try done.
    injection He as <-. by apply ok_deliver.
  - exec_call He. destruct (c_status c) eqn:Hst; try done.
    destruct (deadline c) as [d|] eqn:Hd; [|done]. case_decide; [|done]. injection He as <-.
    destruct (ok_calls s Hok i c Hc) as [Ha Hen Hu].
    apply (ok_set_call s i c); [done|done|by apply Ha| |unfold got; rewrite Hst; cbn; by destruct (c_job c)].
    split; cbn; [done| |].
    + intros r [= <-] _. split; [done|]. by exists d.
    + intros u Hju. apply Hu. by destruct (c_job c).
  - exec_call He. destruct (c_status c) eqn:Hst; try done.
    injection He as <-. destruct (ok_calls s Hok i c Hc) as [Ha Hen Hu].
    apply (ok_set_call s i c); [done|done|by apply Ha| |unfold got; rewrite Hst; cbn; by destruct (c_job c)].
    split; cbn; [done|done|]. intros u Hju. apply Hu. by destruct (c_job c).
Qed.

Lemma run_ok es s s' : ok s -> run es s = Some s' -> ok s'.
Proof. apply run_events_keep, ok_exec. Qed.

(** Messages are taken in the order in which they were put. *)
Lemma run_order es s s' : run es s = Some s' -> taken s ++ queue s ++ puts es = taken s' ++ queue s'.
Proof.
  revert s. induction es as [|e es IH]; intros s Hrun; cbn in Hrun; [injection Hrun as <-; by rewrite app_nil_r|].
  destruct (exec e s) as [s1|] eqn:Hx; cbn in Hrun; [|done]. rewrite <- (IH _ Hrun). clear IH Hrun.
  destruct e; cbn in Hx |- *; unfold puts; cbn; try (exec_call Hx); repeat (case_match; try done); simplify_eq; cbn;
    rewrite <- ?app_assoc; try done.
  by match goal with H : queue s = _ |- _ => rewrite H end.
Qed.

(** Calls without a timeout that nobody cancels *)
Definition patient (e : event) : Prop :=
  match e with Call _ (Some _) | Cancel _ => False | _ => True end.

Definition all_patient (s : state) : Prop :=
  forall i c, calls s !! i = Some c -> deadline c = None /\ c_status c <> Cancelled.

Lemma patient_exec e s s' : patient e -> all_patient s -> exec e s = Some s' -> all_patient s'.
Proof.
  intros Hp Ha Hx.
  assert (forall i c c' s1, calls s !! i = Some c -> calls s1 = <[i := c']> (calls s) -> deadline c' = deadline c ->
    (c_status c' = Cancelled -> c_status c = Cancelled) -> all_patient s1) as Hins.
  { intros i c c' s1 Hc Heq Hd Hs j x. rewrite Heq. intros [[_ <-]|[_ Hx']]%lookup_insert_Some; [|by apply (Ha j)].
    destruct (Ha _ c Hc). rewrite Hd. naive_solver. }
  destruct e as [m|d|i [t|]|i|i|i|i|i|i]; cbn in Hx; try done.
  - by injection Hx as <-.
  - case_decide; [|done]. by injection Hx as <-.
  - destruct (calls s !! i) eqn:Hc; [done|]. injection Hx as <-.
    intros j x Hx. cbn in Hx. apply lookup_insert_Some in Hx as [[_ <-]|[_ Hx']]; [done|by apply (Ha j)].
  - exec_call Hx. destruct (c_job c); try done. injection Hx as <-.
    by eapply (Hins i c).
  - exec_call Hx. destruct (c_job c), (queue s); try done.
    injection Hx as <-. by eapply (Hins i c).
  - exec_call Hx. destruct (c_job c), (queue s); try done.
    case_decide; [|done]. injection Hx as <-. by eapply (Hins i c).
  - exec_call Hx. destruct (c_job c); try done. injection Hx as <-.
    eapply (Hins i c); [done..|]. cbn. by destruct (c_status c).
  - exec_call Hx. destruct (Ha i c Hc) as [Hd _]. rewrite Hd in Hx.
    by destruct (c_status c).
Qed.

(** C19 No message is conjured up or taken twice, and messages are taken in the
    order in which they were put: at any time what was put is what the jobs took,
    then what is still queued; what was taken has been returned by a call, or is on
    its way to one, or is lost.  A message is lost only to a call that had ended
    without it, by its timeout or by cancellation: if no call has a timeout and
    none is cancelled, nothing is lost.  (With timeouts messages do get lost, see
    the witness.) *)
Theorem async_accounts es s : run es init = Some s ->
  puts es = taken s ++ queue s /\
  taken s ≡ₚ gots (calls s) ++ (lost s).*2 /\
  (forall i m, (i, m) ∈ lost s -> exists c, calls s !! i = Some c /\ gave_up (now s) c) /\
  (Forall patient es -> lost s = []).
Proof.
  intros Hrun. pose proof (run_ok _ _ _ async_ok_init Hrun) as Hok. pose proof (run_order _ _ _ Hrun) as Ho. cbn in Ho.
  assert (forall i m, (i, m) ∈ lost s -> exists c, calls s !! i = Some c /\ gave_up (now s) c) as Hl.
  { intros i m Hm. destruct (ok_lost s Hok i m Hm) as (c & ? & _ & ?). by exists c. }
  split_and!; [done|apply (ok_taken s Hok)|done|]. intros Hp.
  assert (all_patient s) as Ha by by eapply (run_events_invariant exec all_patient patient); [apply patient_exec| | |exact Hrun].
  destruct (lost s) as [|[i m] l]; [done|]. destruct (Hl i m) as (c & Hc & Hg); [by left|].
  destruct (Ha i c Hc) as [Hd Hs]. destruct Hg as [?|(_ & d & Hd' & _)]; [done|congruence].
Qed.

(** From [s], call [i] can return [r] within a second, with nothing put
    meanwhile, leaving the queue [q]. *)
Definition ends (i : nat) (s : state) (r : option Message) (q : list Message) : Prop :=
  exists es s' c, run es s = Some s' /\ puts es = [] /\ now s' <= now s + second /\
    calls s' !! i = Some c /\ c_status c = Returned r /\ queue s' = q /\ lost s' = lost s.

Lemma ends_step i e s s1 r q : exec e s = Some s1 -> puts [e] = [] -> now s1 = now s -> lost s1 = lost s ->
  ends i s1 r q -> ends i s r q.
Proof.
  intros He Hp Hn Hl (es & s' & c & Hr & Hes & Ht & Hc & Hs & Hq & Hl'). exists (e :: es), s', c. cbn. rewrite He.
  rewrite Hn, Hl in *. split_and!; try done. unfold puts in *. cbn in *. by destruct e.
Qed.

Lemma ends_here i s c r : calls s !! i = Some c -> c_status c = Returned r -> ends i s r (queue s).
Proof. intros. exists [], s, c. split_and!; try done. unfold second. lia. Qed.

Lemma got_ends i s c r : calls s !! i = Some c -> c_status c = Awaiting -> c_job c = Got r -> ends i s r (queue s).
Proof.
  intros Hc Hs Hj. eapply (ends_step i (Deliver i)).
  - cbn. rewrite Hc. cbn. by rewrite Hj.
  - done.
  - done.
  - cbn. unfold is_awaiting. rewrite Hs. destruct r; apply app_nil_r.
  - eapply (ends_here i (mkState _ _ _ _ _)); [apply lookup_insert_eq|]. cbn. by rewrite Hs.
Qed.

(** A job in [get] ends by its time with the head of the queue, if there is one. *)
Lemma getting_ends i s c u : calls s !! i = Some c -> c_status c = Awaiting -> c_job c = Getting u ->
  u <= now s + second -> ends i s (head (queue s)) (tail (queue s)).
Proof.
  intros Hc Hs Hj Hu. destruct (queue s) as [|m q] eqn:Hq.
  - set (s1 := mkState (now s + second) [] (<[i := finish (mkCall (deadline c) (c_status c) (Got None)) None]>
      (<[i := mkCall (deadline c) (c_status c) (Got None)]> (calls s))) (taken s) (lost s ++ [])).
    exists [Tick second; GiveUp i; Deliver i], s1. eexists. split_and!; [|done|done|apply lookup_insert_eq| |done|apply app_nil_r].
    + unfold run. cbn [exec]. rewrite decide_True by done. cbn [mbind option_bind exec calls queue now].
      rewrite Hc. cbn [mbind option_bind]. rewrite Hj, Hq, decide_True by done.
      cbn [mbind option_bind calls set_call]. by rewrite lookup_insert_eq.
    + cbn. by rewrite Hs.
  - eapply (ends_step i (Take i)).
    + cbn. rewrite Hc. cbn. by rewrite Hj, Hq.
    + done.
    + done.
    + done.
    + eapply (got_ends i (mkState _ _ _ _ _)); [apply lookup_insert_eq|done|done].
Qed.

Lemma pending_ends i s c : calls s !! i = Some c -> c_status c = Awaiting -> c_job c = Pending ->
  ends i s (head (queue s)) (tail (queue s)).
Proof.
  intros Hc Hs Hj. eapply (ends_step i (Start i)).
  - cbn. rewrite Hc. cbn. by rewrite Hj.
  - done.
  - done.
  - done.
  - eapply (getting_ends i (set_call i _ s)); [apply lookup_insert_eq|done|done|done].
Qed.

(** Whatever the timeout, and without one: a call that is awaiting can end
    within a second of the time it is now, without a further message; a new call,
    run without interruption, ends with the answer of [q_get_async] and leaves its
    queue, so that the transports' atomic [receive_async] is one of the runs. *)
Theorem async_returns es s i tm : run es init = Some s ->
  (forall c, calls s !! i = Some c -> c_status c = Awaiting -> exists r q, ends i s r q) /\
  (calls s !! i = None -> exists s1 r q,
    exec (Call i tm) s = Some s1 /\ ends i s1 r q /\ q_get_async (queue s) tm = (Ok (Done r), q)).
Proof.
  intros Hrun. pose proof (run_ok _ _ _ async_ok_init Hrun) as Hok. split.
  - intros c Hc Hs. destruct (ok_calls s Hok i c Hc) as [Ha _ Hu]. destruct (c_job c) as [|u|r|] eqn:Hj.
    + eexists _, _. by eapply pending_ends.
    + eexists _, _. eapply getting_ends; [done..|]. by apply Hu.
    + eexists _, _. by eapply got_ends.
    + by destruct (Ha Hs).
  - intros Hi. cbn. rewrite Hi. set (s1 := set_call i _ s).
    assert (calls s1 !! i = Some (mkCall ((fun t => now s + t) <$> tm) Awaiting Pending)) as Hc by apply lookup_insert_eq.
    assert (ends i s1 (head (queue s)) (tail (queue s))) as Hends by by eapply (pending_ends i s1).
    assert ((exists t, tm = Some t /\ t <= 0) \/ ~ exists t, tm = Some t /\ t <= 0) as [(t & -> & Ht)|Hpos].
    { destruct tm as [t|]; [|naive_solver]. destruct (decide (t <= 0)); naive_solver. }
    + exists s1, None, (queue s). split; [done|]. split; [|by cbn; rewrite decide_True].
      eapply (ends_step i (Expire i) s1 (set_call i _ s1)); [|done..|].
      { unfold exec. rewrite Hc. cbn. rewrite decide_True; [done|]. lia. }
      eapply (ends_here i (set_call i _ s1)); [apply lookup_insert_eq|done].
    + exists s1, (head (queue s)), (tail (queue s)). split; [done|]. split; [done|].
      assert (q_get_async (queue s) tm = q_get (queue s) (Some 1)) as ->.
      { unfold q_get_async. destruct tm as [t|]; [|done]. rewrite decide_False; [done|]. naive_solver. }
      by destruct (queue s).
Qed.
End AsyncReceive.

Module AsyncToy.
Import AsyncReceive.

Definition msg (i : string) : Message := mkMessage i "t" VNone [] 0 None None.

(** A call times out after 100 ms while its thread goes on waiting; the message that
    comes then is taken by that thread, and a second call finds nothing. *)
Definition late : list event :=
  [Call 0 (Some 100); Start 0; Tick 100; Expire 0; Put (msg "1"); Take 0; Deliver 0;
   Call 1 None; Start 1; Tick 1000; GiveUp 1; Deliver 1].
Definition late_end : state := default init (run late init).

Example second_call_empty : c_status <$> calls late_end !! 1%nat = Some (Returned None).
Proof. vm_compute. reflexivity. Qed.

(** A call with a timeout of 30 s gives up after one. *)
Example thirty_seconds :
  match run [Call 0 (Some 30000); Start 0; Tick 1000; GiveUp 0; Deliver 0] init with
  | Some s => now s = 1000 /\ c_status <$> calls s !! 0%nat = Some (Returned None)
  | None => False
  end.
Proof. vm_compute. split; reflexivity. Qed.

(** Neither can give up earlier, nor a job that ended be delivered twice. *)
Example not_before : run [Call 0 None; Start 0; Tick 999; GiveUp 0] init = None.
Proof. reflexivity. Qed.

Definition waiting : state := default init (run [Put (msg "1"); Call 0 (Some 100); Put (msg "2")] init).
End AsyncToy.

Lemma async_accounts_witness :
  AsyncReceive.lost AsyncToy.late_end = [(0%nat, AsyncToy.msg "1")] /\
  AsyncReceive.puts AsyncToy.late = AsyncReceive.taken AsyncToy.late_end /\
  exists c, AsyncReceive.calls AsyncToy.late_end !! 0%nat = Some c /\
    AsyncReceive.gave_up (AsyncReceive.now AsyncToy.late_end) c.
Proof.
  assert (AsyncReceive.lost AsyncToy.late_end = [(0%nat, AsyncToy.msg "1")]) as Hl by (vm_compute; reflexivity).
  destruct (AsyncReceive.async_accounts AsyncToy.late AsyncToy.late_end) as (Hp & _ & Hg & _); [vm_compute; reflexivity|].
  split; [exact Hl|]. split.
  - rewrite Hp. vm_compute. reflexivity.
  - apply (Hg 0%nat (AsyncToy.msg "1")). rewrite Hl. apply list_elem_of_here.
Defined.

Lemma async_returns_witness :
  (exists r q, AsyncReceive.ends 0 AsyncToy.waiting r q) /\
  exists s1 q, AsyncReceive.exec (AsyncReceive.Call 1 (Some 5)) AsyncToy.waiting = Some s1 /\
    AsyncReceive.ends 1 s1 (Some (AsyncToy.msg "1")) q.
Proof.
  destruct (AsyncReceive.async_returns
    [AsyncReceive.Put (AsyncToy.msg "1"); AsyncReceive.Call 0 (Some 100); AsyncReceive.Put (AsyncToy.msg "2")]
    AsyncToy.waiting 0 None) as [H0 _]; [vm_compute; reflexivity|].
  destruct (AsyncReceive.async_returns
    [AsyncReceive.Put (AsyncToy.msg "1"); AsyncReceive.Call 0 (Some 100); AsyncReceive.Put (AsyncToy.msg "2")]
    AsyncToy.waiting 1 (Some 5)) as [_ H1]; [vm_compute; reflexivity|].
  split.
  - eapply H0; vm_compute; reflexivity.
  - destruct H1 as (s1 & r & q & He & Hends & Hq); [vm_compute; reflexivity|].
    vm_compute in Hq. injection Hq as <- <-. exists s1. eexists. split; [exact He|exact Hends].
Defined.
