(* ===== verification/Memory.v ===== *)
(** * [eventforge/transports/memory.py]: [MemoryTransport]

    One record field per attribute of the object.  Each method body is one
    critical section of the RLock, which a callback of [send] may re-enter from
    the same thread: a callback is any statement over the same heap. *)
From S2P Require Import Prelude PyDict Types Topics Transport.

Module MemoryTransport.

Record state (CB : Type) : Type := mkState {
  queues : list (string * list Message);
  max_queue_size : Z;
  subscribers : list (string * CB);
  topic_subs : list (string * list string);
  sub_topic : list (string * string);
  closed : bool;
}.
Arguments mkState {CB} _ _ _ _ _ _.
Arguments queues {CB} _.
Arguments max_queue_size {CB} _.
Arguments subscribers {CB} _.
Arguments topic_subs {CB} _.
Arguments sub_topic {CB} _.
Arguments closed {CB} _.

Section ops.
Context {CB R : Type}.
Abbreviation state := (state CB).
Abbreviation heap := (heap state R).

(** How a subscriber's callback runs. *)
Variable call : CB -> Message -> M heap unit.

Definition init (max_queue_size : Z) : state := mkState [] max_queue_size [] [] [] false.

Definition set_queues (q : list (string * list Message)) (s : state) : state :=
  mkState q (max_queue_size s) (subscribers s) (topic_subs s) (sub_topic s) (closed s).
Definition set_subs (su : list (string * CB)) (ts : list (string * list string))
    (st : list (string * string)) (s : state) : state :=
  mkState (queues s) (max_queue_size s) su ts st (closed s).

(** [self._queues[topic]], a [defaultdict] *)
Definition queue_of (s : state) (t : string) : list Message := dget_or [] (queues s) t.

Definition closed_error : exn := Exc "RuntimeError" "Transport is closed".

(** [self._sub_topic.get(sub_id)] *)
Definition pattern_of (id : string) (h : heap) : option string := dget (sub_topic (h_tr h)) id.

(** [self._queues[topic].put_nowait(message)], [Full] re-raised *)
Definition put_nowait (msg : Message) : M heap unit := fun h =>
  let s := h_tr h in
  let q := queue_of s (topic msg) in
  if q_full (max_queue_size s) q
  then (Raise (TransportFullError (topic msg) (max_queue_size s)),
        set_tr (set_queues (dset (queues s) (topic msg) q) s) h)
  else (Ok tt, set_tr (set_queues (dset (queues s) (topic msg) (q ++ [msg])) s) h).

Definition send (msg : Message) : M heap unit :=
  let! s := get_tr in
  if closed s then throw closed_error
  else
    notify pattern_of memory_matches call msg (subscribers s) ;;;
    put_nowait msg.

Definition receive (t : string) (timeout : option Z) : M heap (wait (option Message)) := fun h =>
  let s := h_tr h in
  if closed s then (Ok (Done None), h)
  else
    let '(r, q) := q_get (queue_of s t) timeout in
    (r, set_tr (set_queues (dset (queues s) t q) s) h).

Definition receive_async (t : string) (timeout : option Z) : M heap (wait (option Message)) := fun h =>
  let s := h_tr h in
  if closed s then (Ok (Done None), h)
  else
    let '(r, q) := q_get_async (queue_of s t) timeout in
    (r, set_tr (set_queues (dset (queues s) t q) s) h).

Definition subscribe (t : string) (cb : CB) : M heap string :=
  let! s := get_tr in
  if closed s then throw closed_error
  else
    let! sub_id := new_uuid in
    upd_tr (fun s => set_subs (dset (subscribers s) sub_id cb)
                              (dset (topic_subs s) t (dget_or [] (topic_subs s) t ++ [sub_id]))
                              (dset (sub_topic s) sub_id t) s) ;;;
    ret sub_id.

Definition unsubscribe (subscription_id : string) : M heap bool := fun h =>
  let s := h_tr h in
  if dmem (subscribers s) subscription_id then
    let ts := match dget (sub_topic s) subscription_id with
              | Some t =>
                  match dget (topic_subs s) t with
                  | Some subs => dset (topic_subs s) t (remove_first subscription_id subs)
                  | None => topic_subs s
                  end
              | None => topic_subs s
              end in
    (Ok true, set_tr (set_subs (ddel (subscribers s) subscription_id) ts
                               (ddel (sub_topic s) subscription_id) s) h)
  else (Ok false, h).

Definition close : M heap unit :=
  upd_tr (fun s => mkState (queues s) (max_queue_size s) [] [] [] true).
End ops.

Arguments send : simpl never.
Arguments put_nowait : simpl never.
Arguments receive : simpl never.
Arguments receive_async : simpl never.
Arguments subscribe : simpl never.
Arguments unsubscribe : simpl never.

#[export] Instance memory_transport {CB R} (call : CB -> Message -> M (heap (state CB) R) unit) :
    Transport (heap (state CB) R) CB := {|
  t_send := send call;
  t_receive := receive;
  t_receive_async := receive_async;
  t_subscribe := subscribe;
  t_unsubscribe := unsubscribe;
  t_close := close;
|}.

(** * The representation invariant

    The three subscription tables describe one set of live subscriptions: the
    same ids in the same order, each listed under its topic exactly once and
    nowhere else; ids come from the supply, so a new one is fresh; and a bounded
    queue never holds more than its bound. *)
Section invariant.
Context {CB R : Type}.
Implicit Types (s : state CB) (h : heap (state CB) R).

Record wf_state (n : nat) s : Prop := {
  wf_queues : dict_ok (queues s);
  wf_subs : dict_ok (subscribers s);
  wf_keys : dkeys (subscribers s) = dkeys (sub_topic s);
  wf_fresh : forall id, id ∈ dkeys (subscribers s) -> exists k, (k < n)%nat /\ id = uuid4 k;
  wf_index : forall id t, id ∈ dget_or [] (topic_subs s) t <-> dget (sub_topic s) id = Some t;
  wf_nodup : forall t, NoDup (dget_or [] (topic_subs s) t);
  wf_bound : forall t, 0 < max_queue_size s ->
    Z.of_nat (length (queue_of s t)) <= max_queue_size s;
}.

Definition wf h : Prop := wf_state (h_uuid h) (h_tr h).

Lemma wf_init n size : wf_state n (init (CB := CB) size).
Proof.
  split; try apply NoDup_nil_2; try done.
  - by intros id ?%not_elem_of_nil.
  - intros id t. split; [by intros ?%not_elem_of_nil | done].
  - intros t. apply NoDup_nil_2.
  - intros t Hm. unfold queue_of, dget_or; cbn in *. lia.
Qed.

Lemma wf_mono n m s : (n <= m)%nat -> wf_state n s -> wf_state m s.
Proof.
  intros Hle []. split; try done. intros id (k & ? & ->)%wf_fresh0. exists k. split; [lia|done].
Qed.

(** Replacing one queue by one within the bound. *)
Lemma wf_set_queue n s t q :
  wf_state n s -> (0 < max_queue_size s -> Z.of_nat (length q) <= max_queue_size s) ->
  wf_state n (set_queues (dset (queues s) t q) s).
Proof.
  intros [] Hq. split; try done; [by apply dict_ok_dset|].
  intros t' Hm. unfold queue_of, dget_or in *. cbn. rewrite dget_dset.
  case_decide; [by apply Hq | by apply wf_bound0].
Qed.

Lemma wf_put_nowait msg h : wf h -> wf (put_nowait msg h).2.
Proof.
  intros Hwf. unfold put_nowait. destruct (q_full _ _) eqn:Hf; apply wf_set_queue; try done.
  - by apply (wf_bound _ _ Hwf).
  - intros Hm. unfold q_full in Hf. rewrite length_app. cbn.
    apply andb_false_iff in Hf as [?%bool_decide_eq_false|?%bool_decide_eq_false]; lia.
Qed.

Lemma wf_receive t tm h : wf h -> wf (receive t tm h).2.
Proof.
  intros Hwf. unfold receive. destruct (closed _); [done|].
  destruct (q_get _ _) as [r q] eqn:Hq. apply wf_set_queue; [done|].
  intros Hm. pose proof (wf_bound _ _ Hwf t Hm).
  unfold q_get in Hq. repeat case_match; simplify_eq; cbn in *; lia.
Qed.

Lemma wf_receive_async t tm h : wf h -> wf (receive_async t tm h).2.
Proof.
  intros Hwf. unfold receive_async. destruct (closed _); [done|].
  pose proof (q_get_async_length (queue_of (h_tr h) t) tm) as Hl.
  destruct (q_get_async _ _) as [r q]. apply wf_set_queue; [done|].
  intros Hm. pose proof (wf_bound _ _ Hwf t Hm). cbn in *. lia.
Qed.

Lemma receive_async_timeout t tm h : 0 < tm -> receive_async t (Some tm) h = receive t (Some tm) h.
Proof. intros Ht. unfold receive_async, receive. by rewrite q_get_async_timeout. Qed.

Lemma fresh_uuid h : wf h -> uuid4 (h_uuid h) ∉ dkeys (subscribers (h_tr h)).
Proof.
  intros Hwf (k & Hlt & Heq)%(wf_fresh _ _ Hwf). apply (inj uuid4) in Heq. lia.
Qed.

Lemma wf_subscribe t cb h : wf h -> wf (subscribe t cb h).2.
Proof.
  intros Hwf. unfold subscribe, get_tr, gets, bind at 1. cbn.
  destruct (closed (h_tr h)); [done|]. cbn.
  pose proof (fresh_uuid h Hwf) as Hfr. destruct Hwf. unfold wf.
  set (id := uuid4 (h_uuid h)) in *. split; cbn; try done.
  - by apply dict_ok_dset.
  - rewrite !dkeys_dset, <- wf_keys0. by repeat case_decide.
  - intros i [->|(k & Hk & ->)%wf_fresh0]%elem_dkeys_dset.
    + exists (h_uuid h). split; [lia|done].
    + exists k. split; [lia|done].
  - intros i t'. unfold dget_or. rewrite !dget_dset.
    assert (dget (sub_topic (h_tr h)) id = None) as Hid
      by (apply dget_None; by rewrite <- wf_keys0).
    specialize (wf_index0 i t'). unfold dget_or in wf_index0.
    destruct (decide (t' = t)) as [->|Ht]; cbn.
    + rewrite elem_of_app, list_elem_of_singleton, wf_index0.
      destruct (decide (i = id)) as [->|]; naive_solver.
    + rewrite wf_index0. destruct (decide (i = id)) as [->|]; naive_solver.
  - intros t'. unfold dget_or. rewrite dget_dset. case_decide; cbn; [|apply wf_nodup0].
    apply NoDup_app. split_and!; [apply wf_nodup0 | | apply NoDup_singleton].
    intros x Hx ->%list_elem_of_singleton. apply wf_index0 in Hx.
    apply dget_elem in Hx. apply Hfr. rewrite wf_keys0.
    apply list_elem_of_fmap. by exists (id, t).
Qed.

(** Taking one id out of the index of its topic. *)
Lemma wf_index_remove s id t0 n :
  wf_state n s -> dget (sub_topic s) id = Some t0 ->
  forall t, let ts := dset (topic_subs s) t0 (remove_first id (dget_or [] (topic_subs s) t0)) in
    NoDup (dget_or [] ts t) /\
    forall i, i ∈ dget_or [] ts t <-> dget (ddel (sub_topic s) id) i = Some t.
Proof.
  intros Hwf Hid t. cbn. pose proof (wf_index _ _ Hwf) as Hix.
  pose proof (wf_nodup _ _ Hwf) as Hnd. unfold dget_or in *. rewrite dget_dset.
  split.
  - case_decide; cbn; [by apply remove_first_nodup | apply Hnd].
  - intros i. rewrite dget_ddel. destruct (decide (t = t0)) as [->|Ht]; cbn.
    + rewrite remove_first_elem, Hix by done. case_decide; naive_solver.
    + rewrite Hix. case_decide; [|done]. naive_solver.
Qed.

Lemma wf_unsubscribe id h : wf h -> wf (unsubscribe id h).2.
Proof.
  intros Hwf. unfold unsubscribe. destruct (dmem (subscribers (h_tr h)) id) eqn:Hm; [|done].
  apply dmem_true in Hm.
  assert (exists t0, dget (sub_topic (h_tr h)) id = Some t0) as [t0 Ht0]
    by (apply dget_is_Some; by rewrite <- (wf_keys _ _ Hwf)).
  rewrite Ht0.
  assert (exists subs, dget (topic_subs (h_tr h)) t0 = Some subs) as [subs Hsubs].
  { apply (wf_index _ _ Hwf) in Ht0. unfold dget_or in Ht0.
    destruct (dget (topic_subs (h_tr h)) t0); [eauto | by apply not_elem_of_nil in Ht0]. }
  rewrite Hsubs. pose proof (wf_index_remove _ id t0 _ Hwf Ht0) as Hix.
  replace (dget_or [] (topic_subs (h_tr h)) t0) with subs in Hix
    by (unfold dget_or; by rewrite Hsubs).
  destruct Hwf. split; cbn; try done.
  - by apply dict_ok_ddel.
  - by rewrite !dkeys_ddel, wf_keys0.
  - intros i [_ Hi]%elem_dkeys_ddel. by apply wf_fresh0.
  - intros i t. apply Hix.
  - intros t. apply Hix.
Qed.

Lemma wf_close h : wf h -> wf (close h).2.
Proof.
  intros []. split; cbn; try done; try apply NoDup_nil_2.
  - by intros id ?%not_elem_of_nil.
  - intros id t. split; [by intros ?%not_elem_of_nil | done].
  - intros t. apply NoDup_nil_2.
Qed.

Lemma keeps_memory_send (I : heap (state CB) R -> Prop) call msg :
  (forall cb, keeps I (call cb msg)) -> keeps I (put_nowait msg) -> keeps I (send call msg).
Proof.
  intros Hc Hp. unfold send, get_tr. apply keeps_bind; [apply keeps_gets|intros s].
  destruct (closed s); [apply keeps_throw|].
  apply keeps_bind; [by apply keeps_notify | done].
Qed.

Lemma wf_send call msg :
  (forall cb, keeps wf (call cb msg)) -> keeps wf (send call msg).
Proof. intros Hc. apply keeps_memory_send; [done | intros h; apply wf_put_nowait]. Qed.
End invariant.

(** * What [send] does *)
Section delivery.
Context {CB R : Type}.
Abbreviation heap := (heap (state CB) R).
Implicit Types (h : heap) (msg : Message).
Variable call : CB -> Message -> M heap unit.

(** C17 Every operation keeps the representation invariant: the three
    subscription tables agree, ids are fresh and no bounded queue exceeds its
    bound.  For [send] this holds whatever the callbacks do, including
    re-entering the transport, as long as each keeps the invariant itself. *)
Theorem operations_preserve_wf msg t tm cb id h :
  (forall cb msg, keeps wf (call cb msg)) ->
  wf h ->
  wf (send call msg h).2 /\ wf (receive t tm h).2 /\ wf (receive_async t tm h).2 /\ wf (subscribe t cb h).2 /\
  wf (unsubscribe id h).2 /\ wf (close h).2.
Proof.
  intros Hc Hwf. split_and!; [by apply wf_send | by apply wf_receive | by apply wf_receive_async
    | by apply wf_subscribe | by apply wf_unsubscribe | by apply wf_close].
Qed.

Abbreviation pat := (pattern_of (CB := CB) (R := R)).
Abbreviation run := (run_all call).

(** The transport is left as it was, by a callback that only touches the rest
    of the heap (and draws uuids). *)
Definition same_tr (s : state CB) h : Prop := h_tr h = s.

Definition hands_off : Prop := forall s, quiet pat call (same_tr s).

Lemma send_spec msg h :
  hands_off -> closed (h_tr h) = false ->
  send call msg h =
    put_nowait msg (run msg (receivers pat memory_matches msg (subscribers (h_tr h)) h) h).
Proof.
  intros HQ Hc. unfold send, get_tr, gets, bind at 1. rewrite Hc. unfold bind.
  by rewrite (notify_quiet pat memory_matches call (same_tr (h_tr h))).
Qed.

Lemma run_same_tr msg cbs h : hands_off -> h_tr (run msg cbs h) = h_tr h.
Proof.
  intros HQ. revert h. induction cbs as [|cb cbs IH]; intros h; [done|].
  cbn. unfold run_all in IH. rewrite IH. by apply (quiet_keeps _ _ _ (HQ (h_tr h))).
Qed.

Lemma queue_of_set (s : state CB) t q t' :
  queue_of (set_queues (dset (queues s) t q) s) t' = if decide (t' = t) then q else queue_of s t'.
Proof.
  unfold queue_of, dget_or. cbn [queues set_queues]. rewrite dget_dset.
  by destruct (decide (t' = t)).
Qed.

Definition full (s : state CB) (t : string) : bool := q_full (max_queue_size s) (queue_of s t).

Lemma put_nowait_spec msg h t :
  (put_nowait msg h).1 =
    (if full (h_tr h) (topic msg) then Raise (TransportFullError (topic msg) (max_queue_size (h_tr h))) else Ok tt) /\
  h_rest (put_nowait msg h).2 = h_rest h /\
  subscribers (h_tr (put_nowait msg h).2) = subscribers (h_tr h) /\
  max_queue_size (h_tr (put_nowait msg h).2) = max_queue_size (h_tr h) /\
  closed (h_tr (put_nowait msg h).2) = closed (h_tr h) /\
  queue_of (h_tr (put_nowait msg h).2) t =
    queue_of (h_tr h) t ++
      if decide (t = topic msg /\ full (h_tr h) (topic msg) = false) then [msg] else [].
Proof.
  unfold put_nowait, full. destruct (q_full _ _) eqn:Hf; cbn; split_and!; try done;
    rewrite queue_of_set.
  - rewrite (decide_False (P := _ /\ _)) by naive_solver. rewrite app_nil_r. case_decide; by subst.
  - destruct (decide (t = topic msg)) as [->|]; [by rewrite decide_True|].
    rewrite (decide_False (P := _ /\ _)) by naive_solver. by rewrite app_nil_r.
Qed.

(** C18 A full receive queue is reported to the sender and costs no delivery:
    the matching callbacks have all run, in subscription order, an exception of
    one keeping none from running; then [send] raises [TransportFullError] and
    every queue is as it was.  Below the bound [send] returns and the message
    is the last of its topic's queue.  (The callbacks leave the transport itself
    alone; they may do anything else.) *)
Theorem send_delivers msg h t :
  hands_off -> closed (h_tr h) = false ->
  let h' := (send call msg h).2 in
  (send call msg h).1 =
    (if full (h_tr h) (topic msg) then Raise (TransportFullError (topic msg) (max_queue_size (h_tr h))) else Ok tt) /\
  h_rest h' =
    h_rest (run msg (receivers pat memory_matches msg (subscribers (h_tr h)) h) h) /\
  queue_of (h_tr h') t =
    queue_of (h_tr h) t ++
      if decide (t = topic msg /\ full (h_tr h) (topic msg) = false) then [msg] else [].
Proof.
  intros HQ Hc. cbn. rewrite send_spec by done.
  set (h1 := run_all _ _ _ _). assert (h_tr h1 = h_tr h) as Ht by by apply run_same_tr.
  pose proof (put_nowait_spec msg h1 t) as (Hr & Hrest & _ & _ & _ & Hq).
  by rewrite Hr, Hrest, Hq, Ht.
Qed.

(** What sending a list of messages leaves in the queues. *)
Lemma send_many msgs h (t : string) :
  hands_off -> closed (h_tr h) = false ->
  (forall m, m ∈ msgs -> topic m = t) ->
  (max_queue_size (h_tr h) <= 0 \/
   Z.of_nat (length (queue_of (h_tr h) t) + length msgs) <= max_queue_size (h_tr h)) ->
  exists h', for_each msgs (send call) h = (Ok tt, h') /\ closed (h_tr h') = false /\
    max_queue_size (h_tr h') = max_queue_size (h_tr h) /\
    queue_of (h_tr h') t = queue_of (h_tr h) t ++ msgs.
Proof.
  intros HQ. revert h. induction msgs as [|m msgs IH]; intros h Hc Ht Hb.
  - exists h. cbn. by rewrite app_nil_r.
  - cbn [for_each]. unfold bind. rewrite send_spec by done.
    set (h1 := run_all _ _ _ _). assert (h_tr h1 = h_tr h) as Htr by by apply run_same_tr.
    pose proof (put_nowait_spec m h1 t) as (Hr & _ & _ & Hmax & Hcl & Hq).
    assert (topic m = t) as Hm by (apply Ht; by left).
    assert (full (h_tr h1) (topic m) = false) as Hfull.
    { rewrite Htr, Hm. unfold full, q_full. cbn [length] in Hb.
      apply andb_false_iff. rewrite !bool_decide_eq_false. lia. }
    rewrite Hfull in *. rewrite decide_True in Hq by done. rewrite Htr in *.
    destruct (put_nowait m h1) as [r h2]; cbn in *. subst r.
    destruct (IH h2) as (h' & -> & ? & ? & Hq'); [congruence| |rewrite Hmax, Hq|].
    + intros m' ?. apply Ht. by right.
    + rewrite length_app. cbn. lia.
    + exists h'. split_and!; try congruence. by rewrite Hq', Hq, <- app_assoc.
Qed.

(** A topic nobody drains stops accepting messages: with subscribers only
    (no [receive]), the first [max_queue_size] sends succeed and the next one
    raises [TransportFullError]. *)
Theorem undrained_topic_fills (n : nat) msgs m (t : string) h :
  hands_off -> closed (h_tr h) = false ->
  max_queue_size (h_tr h) = Z.of_nat n -> (0 < n)%nat ->
  queue_of (h_tr h) t = [] -> length msgs = n ->
  (forall m, m ∈ msgs -> topic m = t) -> topic m = t ->
  exists h', for_each msgs (send call) h = (Ok tt, h') /\
    (send call m h').1 = Raise (TransportFullError t (max_queue_size (h_tr h))).
Proof.
  intros HQ Hc Hmax Hn Hq Hl Ht Hm.
  destruct (send_many msgs h t HQ Hc Ht) as (h' & Hs & Hc' & Hmax' & Hq').
  { right. rewrite Hq, Hmax, Hl. cbn. lia. }
  exists h'. split; [done|]. rewrite send_spec by done.
  set (h1 := run_all _ _ _ _). assert (h_tr h1 = h_tr h') as Htr by by apply run_same_tr.
  pose proof (put_nowait_spec m h1 t) as (-> & _).
  rewrite Htr, Hm. unfold full, q_full. rewrite Hq', Hq, Hmax'. cbn.
  rewrite !bool_decide_eq_true_2 by lia. done.
Qed.

(** Reading a topic until it is empty, at most [k] messages. *)
Fixpoint drain (k : nat) (t : string) (tm : Z) : M heap (list Message) :=
  match k with
  | O => ret []
  | S k =>
      let! r := receive t (Some tm) in
      match r with
      | Done (Some m) => let! ms := drain k t tm in ret (m :: ms)
      | _ => ret []
      end
  end.

Lemma receive_head t tm h :
  0 <= tm -> closed (h_tr h) = false ->
  exists h', receive t (Some tm) h = (Ok (Done (head (queue_of (h_tr h) t))), h') /\
    closed (h_tr h') = false /\ h_rest h' = h_rest h /\ queue_of (h_tr h') t = tail (queue_of (h_tr h) t).
Proof.
  intros Htm Hc. unfold receive. rewrite Hc. unfold q_get. rewrite decide_False by lia.
  destruct (queue_of (h_tr h) t) as [|m q] eqn:Hq; eexists; split_and!; try done;
    cbn [h_tr set_tr]; rewrite queue_of_set; by rewrite decide_True.
Qed.

Lemma drain_all t tm h :
  0 <= tm -> closed (h_tr h) = false ->
  forall k, (length (queue_of (h_tr h) t) <= k)%nat ->
  exists h', drain k t tm h = (Ok (queue_of (h_tr h) t), h').
Proof.
  intros Htm Hc k. revert h Hc. induction k as [|k IH]; intros h Hc Hk.
  - exists h. destruct (queue_of (h_tr h) t); [done | cbn in Hk; lia].
  - destruct (receive_head t tm h Htm Hc) as (h1 & Hr & Hc1 & _ & Hq1).
    cbn [drain]. unfold bind at 1. rewrite Hr.
    destruct (queue_of (h_tr h) t) as [|m q]; cbn in *; [by eexists|].
    destruct (IH h1 Hc1) as (h2 & Hd); [rewrite Hq1; lia|].
    exists h2. unfold bind. by rewrite Hd, Hq1.
Qed.

(** First in, first out: messages sent to a topic (within its bound) are
    what a reader of that topic then receives, in the order they were sent,
    each once. *)
Theorem send_receive_fifo msgs (t : string) tm h :
  hands_off -> closed (h_tr h) = false -> queue_of (h_tr h) t = [] ->
  (forall m, m ∈ msgs -> topic m = t) ->
  (max_queue_size (h_tr h) <= 0 \/ Z.of_nat (length msgs) <= max_queue_size (h_tr h)) ->
  0 <= tm ->
  exists h', (for_each msgs (send call) ;;; drain (S (length msgs)) t tm) h = (Ok msgs, h').
Proof.
  intros HQ Hc Hq Ht Hb Htm.
  destruct (send_many msgs h t HQ Hc Ht) as (h' & Hs & Hc' & _ & Hq').
  { rewrite Hq. cbn. lia. }
  unfold bind. rewrite Hs. rewrite Hq in Hq'. cbn in Hq'.
  destruct (drain_all t tm h' Htm Hc' (S (length msgs))) as (h'' & Hd); [rewrite Hq'; lia|].
  exists h''. by rewrite Hd, Hq'.
Qed.
End delivery.

(** * Re-entrancy *)
Section reentrant.
Context {CB R : Type}.
Abbreviation heap := (heap (state CB) R).

Lemma unsubscribe_pattern id (h : heap) :
  wf h -> pattern_of id (unsubscribe id h).2 = None.
Proof.
  intros Hwf. unfold unsubscribe. destruct (dmem _ _) eqn:Hm; cbn.
  - apply dget_ddel_eq.
  - apply dmem_false, dget_None in Hm. apply dget_None. by rewrite <- (wf_keys _ _ Hwf).
Qed.

(** A subscription cancelled by an earlier callback of the same [send] is
    not called any more, although it is in the snapshot the loop runs over:
    what [send] does is independent of that subscription's callback. *)
Theorem unsubscribed_during_send (call1 call2 : CB -> Message -> M heap unit)
    id1 id2 cb1 cb2 msg (h : heap) :
  wf h -> closed (h_tr h) = false ->
  subscribers (h_tr h) = [(id1, cb1); (id2, cb2)] ->
  (forall h, call1 cb1 msg h = (unsubscribe id2 ;;; ret tt) h) ->
  (forall h, call2 cb1 msg h = call1 cb1 msg h) ->
  dget (sub_topic (h_tr h)) id1 = Some (topic msg) ->
  send call1 msg h = send call2 msg h.
Proof.
  intros Hwf Hc Hsubs H1 H2 Hp. unfold send, get_tr, gets, bind at 1 3. rewrite Hc, Hsubs.
  assert (forall call, (forall h, call cb1 msg h = (unsubscribe id2 ;;; ret tt) h) ->
    notify pattern_of memory_matches call msg [(id1, cb1); (id2, cb2)] h =
      (Ok tt, (unsubscribe id2 h).2)) as Hn; [|unfold bind; rewrite !Hn; [done| |done]].
  - intros call Hcall. unfold notify. cbn [for_each]. unfold bind at 1, notify_one at 1.
    unfold bind at 1, gets at 1, pattern_of at 1. cbn [fst snd]. rewrite Hp.
    assert (memory_matches (topic msg) (topic msg) = true) as ->
      by (unfold memory_matches; by rewrite decide_True).
    assert (call cb1 msg h = (Ok tt, (unsubscribe id2 h).2)) as Hcb.
    { rewrite Hcall. unfold bind, unsubscribe. by destruct (dmem _ _). }
    unfold try_except. rewrite Hcb.
    change (notify pattern_of memory_matches call msg [(id2, cb2)] (unsubscribe id2 h).2
            = (Ok tt, (unsubscribe id2 h).2)).
    rewrite notify_gone; [done|]. by apply unsubscribe_pattern.
  - intros h'. by rewrite H2.
Qed.
End reentrant.

(** * A concrete heap

    Callbacks are commands: record the message, raise, or cancel a subscription. *)
Module Toy.
Inductive cmd : Type :=
  | Log (tag : nat)
  | Bad
  | Cancel (id : string).

Abbreviation world := (heap (state cmd) (list (nat * string))).

(** Callbacks that only touch their own log. *)
Definition run (c : cmd) (msg : Message) : M world unit :=
  match c with
  | Log tag => upd_rest (fun log => log ++ [(tag, msg_id msg)])
  | _ => throw (Exc "ValueError" "bad subscriber")
  end.

(** The same with cancellation. *)
Definition run_cancel (c : cmd) (msg : Message) : M world unit :=
  match c with
  | Cancel id => unsubscribe id ;;; ret tt
  | c => run c msg
  end.

Lemma run_hands_off : hands_off run.
Proof.
  intros s. split.
  - intros [tag| |id] msg h e _; cbn; [done| |]; by intros [= <-].
  - by intros [tag| |id] msg h Hh.
  - by intros [tag| |id] msg h i Hh.
Qed.

Definition msg (i t : string) : Message := mkMessage i t VNone [] 0 None None.

Definition empty (size : Z) : world := mkHeap 0 (init size) [].

(** Two subscribers of topic [t], the first of which does [c]. *)
Definition two (c : cmd) (size : Z) : world :=
  (subscribe "t" (Log 2) (subscribe "t" c (empty size)).2).2.
End Toy.

Lemma operations_preserve_wf_witness : wf (subscribe "t" (Toy.Log 1) (Toy.two Toy.Bad 2)).2.
Proof.
  apply (operations_preserve_wf Toy.run (Toy.msg "m" "t") "t" None (Toy.Log 1) "x" (Toy.two Toy.Bad 2)).
  - intros [tag| |id] msg h Hh; exact Hh.
  - apply wf_subscribe, wf_subscribe. exact (wf_init 0 2).
Defined.

(** The first subscriber raises, the second still gets the message. *)
Lemma send_delivers_witness :
  let h' := (send Toy.run (Toy.msg "m" "t") (Toy.two Toy.Bad 2)).2 in
  h_rest h' = [(2%nat, "m")] /\ queue_of (h_tr h') "t" = [Toy.msg "m" "t"].
Proof.
  destruct (send_delivers Toy.run (Toy.msg "m" "t") (Toy.two Toy.Bad 2) "t" Toy.run_hands_off eq_refl)
    as (_ & Hr & Hq).
  split; [rewrite Hr; reflexivity | rewrite Hq; reflexivity].
Defined.

Lemma undrained_topic_fills_witness :
  exists h', for_each [Toy.msg "1" "t"; Toy.msg "2" "t"] (send Toy.run) (Toy.two Toy.Bad 2) = (Ok tt, h') /\
    (send Toy.run (Toy.msg "3" "t") h').1 = Raise (TransportFullError "t" 2).
Proof.
  apply (undrained_topic_fills Toy.run 2); try reflexivity; [apply Toy.run_hands_off|lia|].
  intros m Hm. by repeat (apply elem_of_cons in Hm as [->|Hm]; [reflexivity|]); apply not_elem_of_nil in Hm.
Defined.

Lemma send_receive_fifo_witness :
  exists h', (for_each [Toy.msg "1" "t"; Toy.msg "2" "t"] (send Toy.run) ;;; drain 3 "t" 0)
    (Toy.empty 2) = (Ok [Toy.msg "1" "t"; Toy.msg "2" "t"], h').
Proof.
  apply (send_receive_fifo Toy.run [Toy.msg "1" "t"; Toy.msg "2" "t"] "t" 0 (Toy.empty 2)
    Toy.run_hands_off); try reflexivity; [|cbn; lia].
  intros m Hm. by repeat (apply elem_of_cons in Hm as [->|Hm]; [reflexivity|]); apply not_elem_of_nil in Hm.
Defined.

Lemma unsubscribed_during_send_witness :
  let h := Toy.two (Toy.Cancel (uuid4 1)) 5 in
  h_rest (send Toy.run_cancel (Toy.msg "m" "t") h).2 = [] /\
  send Toy.run_cancel (Toy.msg "m" "t") h =
    send (fun c m => match c with Toy.Log _ => throw (Exc "E" "e") | _ => Toy.run_cancel c m end)
      (Toy.msg "m" "t") h.
Proof.
  split; [reflexivity|].
  apply (unsubscribed_during_send _ _ (uuid4 0) (uuid4 1) (Toy.Cancel (uuid4 1)) (Toy.Log 2));
    try reflexivity.
  apply wf_subscribe, wf_subscribe. exact (wf_init 0 5).
Defined.
End MemoryTransport.
