(* ===== verification/Observers.v ===== *)
(** * [eventforge/observers.py]: dispatchers, [Eventful], [Node]

    A subscriber is an [F]; calling it runs a statement over the heap [W].  The
    objects with state of their own that dispatchers reach (the index of a
    [RoundRobinDispatcher], the in-flight counter of a [Node], the class-level
    subscriber table) live in the heap and are reached by reference, so that two
    channels that share a dispatcher share its index.  [env] gathers these
    accesses; its laws are the class [EnvOk]. *)
From Stdlib Require Import QArith.
From S2P Require Import Prelude PyDict Types.
#[local] Open Scope Z_scope.

(** ** [Node]: the fields of the dataclass; [node_ref] names its [_in_flight] cell *)
Record Node (F : Type) : Type := mkNode {
  node_ref : nat;
  node_name : string;
  cpus : Z;
  memory_gb : Z;
  gpus : list Z;
  handler : F;
}.
Arguments mkNode {F} _ _ _ _ _ _.
Arguments node_ref {F} _.
Arguments cpus {F} _.
Arguments gpus {F} _.
Arguments handler {F} _.

Record env (W F Args : Type) : Type := mkEnv {
  call : F -> Args -> M W val;                 (** [fn( *args, **kwargs)] *)
  as_node : F -> option (Node F);              (** [isinstance(sub, Node)] *)
  other_load : F -> M W Q;                     (** [sub.load()] of a non-[Node] *)
  in_flight : nat -> W -> Z;
  set_in_flight : nat -> Z -> W -> W;
  rr_idx : nat -> W -> nat;                    (** [RoundRobinDispatcher._idx] *)
  set_rr_idx : nat -> nat -> W -> W;
  submit : nat -> F -> Args -> M W string;     (** [Executor.submit] *)
  class_subs : string -> string -> W -> list F; (** [_CLASS_SUBSCRIBERS] *)
}.
Arguments call {W F Args} _ _ _.
Arguments as_node {W F Args} _ _.
Arguments other_load {W F Args} _ _.
Arguments in_flight {W F Args} _ _ _.
Arguments set_in_flight {W F Args} _ _ _ _.
Arguments rr_idx {W F Args} _ _ _.
Arguments set_rr_idx {W F Args} _ _ _ _.
Arguments submit {W F Args} _ _ _ _.
Arguments class_subs {W F Args} _ _ _ _.

(** Functions that are neither nodes nor observers, and no executor: only calling
    them does anything. *)
Definition plain_env {W F Args} (call : F -> Args -> M W val) : env W F Args := {|
  call := call;
  as_node _ := None;
  other_load _ := ret (inject_Z 0);
  in_flight _ _ := 0;
  set_in_flight _ _ w := w;
  rr_idx _ _ := 0%nat;
  set_rr_idx _ _ w := w;
  submit _ _ _ := ret "task";
  class_subs _ _ _ := [];
|}.

(** Counters are cells of their own. *)
Class EnvOk {W F Args} (E : env W F Args) : Prop := {
  in_flight_set : forall r s z w,
    in_flight E s (set_in_flight E r z w) = if decide (s = r) then z else in_flight E s w;
  rr_idx_set : forall r s n w,
    rr_idx E s (set_rr_idx E r n w) = if decide (s = r) then n else rr_idx E s w;
}.

Inductive dispatcher : Type :=
  | Broadcast
  | RoundRobin (r : nat)
  | Concurrent (executor : nat)
  | LeastLoaded.

Section ops.
Context {W F Args : Type}.
Variable E : env W F Args.

(** *** [Node] *)
Definition capacity (n : Node F) : Z :=
  match gpus n with [] => Z.max (cpus n / 4) 1 | _ => Z.of_nat (length (gpus n)) end.

(** [self._in_flight / self.capacity], exactly *)
Definition node_load (n : Node F) (w : W) : Q :=
  (inject_Z (in_flight E (node_ref n) w) / inject_Z (capacity n))%Q.

Definition add_in_flight (n : Node F) (k : Z) : M W unit :=
  modify (fun w => set_in_flight E (node_ref n) (in_flight E (node_ref n) w + k) w).

Definition node_call (n : Node F) (args : Args) : M W val :=
  add_in_flight n 1 ;;;
  try_finally (call E (handler n) args) (add_in_flight n (-1)).

Definition try_acquire (n : Node F) : M W bool := fun w =>
  if decide (capacity n <= in_flight E (node_ref n) w) then (Ok false, w)
  else (Ok true, set_in_flight E (node_ref n) (in_flight E (node_ref n) w + 1) w).

Definition release (n : Node F) : M W unit := fun w =>
  if decide (0 < in_flight E (node_ref n) w)
  then (Ok tt, set_in_flight E (node_ref n) (in_flight E (node_ref n) w - 1) w)
  else (Ok tt, w).

(** Calling a subscriber: [Node.__call__] for a [Node]. *)
Definition invoke (f : F) (args : Args) : M W val :=
  match as_node E f with Some n => node_call n args | None => call E f args end.

Definition load (f : F) : M W Q :=
  match as_node E f with Some n => gets (node_load n) | None => other_load E f end.

(** *** [BroadcastDispatcher.dispatch] *)
Definition broadcast (subscribers : list F) (args : Args) : M W unit :=
  for_each subscribers (fun fn => invoke fn args ;;; ret tt).

(** *** [RoundRobinDispatcher.dispatch] *)
Definition round_robin (r : nat) (subscribers : list F) (args : Args) : M W unit :=
  match subscribers with
  | [] => ret tt
  | _ =>
      let! idx := gets (rr_idx E r) in
      modify (set_rr_idx E r (S idx)) ;;;
      match subscribers !! (idx mod length subscribers)%nat with
      | Some fn => try_except (invoke fn args ;;; ret tt) (fun _ => ret tt)
      | None => ret tt
      end
  end.

(** *** [ConcurrentDispatcher.dispatch] *)
Definition concurrent (ex : nat) (subscribers : list F) (args : Args) : M W unit :=
  for_each subscribers (fun fn =>
    try_except (submit E ex fn args ;;; ret tt) (fun _ => ret tt)).

(** *** [LeastLoadedDispatcher] *)
Fixpoint insert_by (x : Q * F) (l : list (Q * F)) : list (Q * F) :=
  match l with
  | [] => [x]
  | y :: l' => if Qle_bool x.1 y.1 then x :: l else y :: insert_by x l'
  end.

(** [sorted(..., key=...)] on the computed keys; stable *)
Definition sort_by (l : list (Q * F)) : list (Q * F) := foldr insert_by [] l.

Fixpoint loads (subscribers : list F) : M W (list (Q * F)) :=
  match subscribers with
  | [] => ret []
  | s :: rest => let! l := load s in let! ls := loads rest in ret ((l, s) :: ls)
  end.

Definition saturated : exn := Exc "RuntimeError" "all subscribers saturated".

Fixpoint select_loop (subs : list F) : M W (F * option (Node F)) :=
  match subs with
  | [] => throw saturated
  | sub :: rest =>
      match as_node E sub with
      | Some n =>
          let! ok := try_acquire n in
          if ok then ret (sub, Some n) else select_loop rest
      | None =>
          let! l := other_load E sub in
          if Qle_bool 1 l then select_loop rest else ret (sub, None)
      end
  end.

(** The chosen subscriber, with its [Node] when a slot was reserved. *)
Definition select (subscribers : list F) : M W (F * option (Node F)) :=
  let! ls := loads subscribers in
  select_loop (sort_by ls).*2.

Definition release_if (reserved : option (Node F)) : M W unit :=
  match reserved with Some n => release n | None => ret tt end.

(** [(chosen.handler if reserved else chosen)( *args, **kwargs)] *)
Definition call_chosen (chosen : F) (reserved : option (Node F)) (args : Args) : M W val :=
  match reserved with Some n => call E (handler n) args | None => invoke chosen args end.

Definition route (subscribers : list F) (args : Args) : M W val :=
  let! c := select subscribers in
  try_finally (call_chosen c.1 c.2 args) (release_if c.2).

Definition least_loaded (subscribers : list F) (args : Args) : M W unit :=
  match subscribers with
  | [] => ret tt
  | _ =>
      let! c := select subscribers in
      try_finally
        (try_except (call_chosen c.1 c.2 args ;;; ret tt) (fun _ => ret tt))
        (release_if c.2)
  end.

Definition dispatch (d : dispatcher) (subscribers : list F) (args : Args) : M W unit :=
  match d with
  | Broadcast => broadcast subscribers args
  | RoundRobin r => round_robin r subscribers args
  | Concurrent ex => concurrent ex subscribers args
  | LeastLoaded => least_loaded subscribers args
  end.
End ops.

(** ** [Eventful] *)
Record Eventful (F : Type) : Type := mkEventful {
  ev_subscribers : list F;
  ev_dispatcher : dispatcher;
  ev_owner_mro : option (list string);   (** class names, most derived first, without [object] *)
  ev_name : option string;
}.
Arguments mkEventful {F} _ _ _ _.
Arguments ev_subscribers {F} _.
Arguments ev_dispatcher {F} _.
Arguments ev_owner_mro {F} _.
Arguments ev_name {F} _.

Section eventful.
Context {W F Args : Type} `{!EqDecision F}.
Variable E : env W F Args.

Definition new_eventful (d : option dispatcher) : Eventful F :=
  mkEventful [] (default Broadcast d) None None.

Definition ev_subscribe (fn : F) (ev : Eventful F) : Eventful F :=
  mkEventful (ev_subscribers ev ++ [fn]) (ev_dispatcher ev) (ev_owner_mro ev) (ev_name ev).

(** [list.remove(fn)]: the first equal element, [ValueError] (here [None]) without one *)
Fixpoint list_remove (fn : F) (l : list F) : option (list F) :=
  match l with
  | [] => None
  | f :: l' => if decide (f = fn) then Some l'
               else match list_remove fn l' with Some l'' => Some (f :: l'') | None => None end
  end.

Definition ev_unsubscribe (fn : F) (ev : Eventful F) : bool * Eventful F :=
  match list_remove fn (ev_subscribers ev) with
  | Some l => (true, mkEventful l (ev_dispatcher ev) (ev_owner_mro ev) (ev_name ev))
  | None => (false, ev)
  end.

Definition set_dispatcher (d : dispatcher) (ev : Eventful F) : Eventful F :=
  mkEventful (ev_subscribers ev) d (ev_owner_mro ev) (ev_name ev).

(** The class-level subscribers, one class of the MRO after the other; their
    exceptions are logged and dropped. *)
Definition fire_class (klasses : list string) (name : string) (args : Args) : M W unit :=
  for_each klasses (fun klass =>
    let! cls_subs := gets (class_subs E klass name) in
    for_each cls_subs (fun fn =>
      try_except (invoke E fn args ;;; ret tt) (fun _ => ret tt))).

(** [fire] on the subscriber list and dispatcher it finds. *)
Definition fire (ev : Eventful F) (args : Args) : M W unit :=
  dispatch E (ev_dispatcher ev) (ev_subscribers ev) args ;;;
  match ev_owner_mro ev, ev_name ev with
  | Some mro, Some name => fire_class mro name args
  | _, _ => ret tt
  end.
End eventful.

(** * Facts *)

(** A channel with the default dispatcher and no owner *)
Lemma fire_plain {W F Args} (E : env W F Args) (ev : Eventful F) (args : Args) (w : W) :
  ev_dispatcher ev = Broadcast -> ev_owner_mro ev = None ->
  fire E ev args w = broadcast E (ev_subscribers ev) args w.
Proof.
  intros Hd Ho. unfold fire. rewrite Hd, Ho. cbn. unfold bind.
  by destruct (broadcast E _ _ w) as [[[]|e] w'].
Qed.

(** An invariant that calls and counters keep is kept by every dispatch. *)
Record env_keeps {W F Args} (E : env W F Args) (I : W -> Prop) : Prop := {
  keeps_call : forall f a, keeps I (call E f a);
  keeps_other_load : forall f, keeps I (other_load E f);
  keeps_in_flight : forall r z w, I w -> I (set_in_flight E r z w);
  keeps_rr_idx : forall r n w, I w -> I (set_rr_idx E r n w);
  keeps_submit : forall r f a, keeps I (submit E r f a);
}.

Section env_keeps.
Context {W F Args : Type}.
Variables (E : env W F Args) (I : W -> Prop).
Hypothesis HE : env_keeps E I.

Lemma keeps_release n : keeps I (release E n).
Proof.
  intros w HI. unfold release. case_decide; [|done]. by apply (keeps_in_flight E I HE).
Qed.

Lemma keeps_try_acquire n : keeps I (try_acquire E n).
Proof.
  intros w HI. unfold try_acquire. case_decide; [done|]. by apply (keeps_in_flight E I HE).
Qed.

Lemma keeps_add_in_flight n k : keeps I (add_in_flight E n k).
Proof. apply keeps_modify. intros w. apply (keeps_in_flight E I HE). Qed.

Lemma keeps_invoke f a : keeps I (invoke E f a).
Proof.
  unfold invoke, node_call. destruct (as_node E f); [|apply (keeps_call E I HE)].
  apply keeps_bind; [apply keeps_add_in_flight|intros _].
  apply keeps_try_finally; [apply (keeps_call E I HE) | apply keeps_add_in_flight].
Qed.

Lemma keeps_loads subs : keeps I (loads E subs).
Proof.
  induction subs as [|s subs IH]; [apply keeps_ret|]. cbn. unfold load.
  apply keeps_bind; [|eauto with py].
  destruct (as_node E s); [apply keeps_gets | apply (keeps_other_load E I HE)].
Qed.

Lemma keeps_select_loop subs : keeps I (select_loop E subs).
Proof.
  pose proof keeps_try_acquire. pose proof (keeps_other_load E I HE).
  induction subs as [|s subs IH]; [apply keeps_throw|]. cbn. eauto 8 with py.
Qed.

Lemma keeps_call_chosen c r a : keeps I (call_chosen E c r a).
Proof. destruct r; [apply (keeps_call E I HE) | apply keeps_invoke]. Qed.

Lemma keeps_dispatch d subs a : keeps I (dispatch E d subs a).
Proof.
  pose proof keeps_invoke. pose proof (keeps_submit E I HE). pose proof keeps_release.
  pose proof keeps_loads. pose proof keeps_select_loop. pose proof keeps_call_chosen.
  destruct d; cbn; unfold broadcast, round_robin, concurrent, least_loaded, select, release_if.
  - eauto 8 with py.
  - destruct subs; [apply keeps_ret|]. apply keeps_bind; [apply keeps_gets|intros n].
    apply keeps_bind; [|eauto 8 with py].
    apply keeps_modify. intros w. apply (keeps_rr_idx E I HE).
  - eauto 8 with py.
  - destruct subs; [apply keeps_ret|]. eauto 12 with py.
Qed.

Lemma keeps_fire ev a : keeps I (fire E ev a).
Proof.
  pose proof keeps_invoke. unfold fire, fire_class.
  apply keeps_bind; [apply keeps_dispatch|]. eauto 12 with py.
Qed.
End env_keeps.

Section broadcast_facts.
Context {W F Args : Type}.
Variable E : env W F Args.

(** [BroadcastDispatcher]: the subscribers run in order; the first one that
    raises ends the dispatch with its exception, the effects of those before
    it (and its own) stand, and nothing after it runs. *)
Theorem broadcast_aborts (before after : list F) (f : F) (args : Args) (w w1 w2 : W) (e : exn) :
  broadcast E before args w = (Ok tt, w1) ->
  invoke E f args w1 = (Raise e, w2) ->
  broadcast E (before ++ f :: after) args w = (Raise e, w2).
Proof.
  intros Hb Hf. unfold broadcast in *. rewrite for_each_app. unfold bind at 1. rewrite Hb.
  cbn [for_each]. unfold bind. by rewrite Hf.
Qed.

Lemma broadcast_all (subs : list F) (args : Args) (w : W) :
  (forall f w, is_Ok (invoke E f args w).1 = true) ->
  broadcast E subs args w = (Ok tt, fold_left (fun w f => (invoke E f args w).2) subs w).
Proof.
  intros Hok. revert w. unfold broadcast. induction subs as [|f subs IH]; intros w; [done|].
  cbn [for_each fold_left]. unfold bind at 1 2. specialize (Hok f w).
  destruct (invoke E f args w) as [[v|e] w']; [apply IH | done].
Qed.
End broadcast_facts.

Section round_robin_facts.
Context {W F Args : Type}.
Variables (E : env W F Args) (r : nat) (args : Args).
Context `{!EnvOk E}.
(** Who has been called, as recorded in the heap. *)
Variable log : W -> list F.
Hypothesis log_call : forall f w, log (invoke E f args w).2 = log w ++ [f].
Hypothesis log_idx : forall n w, log (set_rr_idx E r n w) = log w.
Hypothesis call_idx : forall f w, rr_idx E r (invoke E f args w).2 = rr_idx E r w.
Hypothesis call_exn : forall f w e, (invoke E f args w).1 = Raise e -> is_Exception e = true.

Lemma round_robin_step subs f w :
  subs !! (rr_idx E r w mod length subs)%nat = Some f ->
  exists w', round_robin E r subs args w = (Ok tt, w') /\
    log w' = log w ++ [f] /\ rr_idx E r w' = S (rr_idx E r w).
Proof.
  intros Hf. destruct subs as [|s subs]; [done|]. unfold round_robin.
  unfold bind at 1 2, gets, modify. rewrite Hf.
  set (w1 := set_rr_idx E r _ w). exists (invoke E f args w1).2.
  specialize (call_exn f w1). specialize (log_call f w1). specialize (call_idx f w1).
  unfold try_except, bind. destruct (invoke E f args w1) as [[v|e] w2] eqn:Hi; cbn in *.
  - split_and!; [done| |]; subst w1; rewrite ?log_call, ?call_idx, ?log_idx; [done|].
    rewrite rr_idx_set. by rewrite decide_True.
  - rewrite (call_exn e) by done.
    split_and!; [done| |]; subst w1; rewrite ?log_call, ?call_idx, ?log_idx; [done|].
    rewrite rr_idx_set. by rewrite decide_True.
Qed.

(** The subscriber of the [i]-th fire from index [idx] on. *)
Definition rr_pick (subs : list F) (idx i : nat) : option F :=
  subs !! ((idx + i) mod length subs)%nat.

Definition fires (k : nat) (subs : list F) : M W unit :=
  for_each (seq 0 k) (fun _ => round_robin E r subs args).

(** [RoundRobinDispatcher]: of [k] fires on the same non-empty subscriber
    list, the [i]-th calls exactly one subscriber, number [(idx + i) mod n],
    whatever exceptions the subscribers raise. *)
Theorem round_robin_rotates (k : nat) (subs : list F) (w : W) :
  subs <> [] ->
  exists w', fires k subs w = (Ok tt, w') /\
    map Some (log w') =
      map Some (log w) ++ map (rr_pick subs (rr_idx E r w)) (seq 0 k).
Proof.
  intros Hne. unfold fires.
  assert (forall a idx w, rr_idx E r w = (idx + a)%nat ->
    exists w', for_each (seq a k) (fun _ => round_robin E r subs args) w = (Ok tt, w') /\
      map Some (log w') = map Some (log w) ++ map (rr_pick subs idx) (seq a k)) as H;
    [|apply (H 0%nat); lia].
  clear w. induction k as [|k IH]; intros a idx w Hidx.
  - exists w. cbn. by rewrite app_nil_r.
  - cbn [seq for_each map]. unfold bind.
    assert (length subs <> 0%nat) as Hlen by by destruct subs.
    destruct (lookup_lt_is_Some_2 subs (rr_idx E r w mod length subs)) as [f Hf];
      [by apply Nat.mod_upper_bound|].
    destruct (round_robin_step subs f w Hf) as (w1 & -> & Hl & Hi).
    destruct (IH (S a) idx w1) as (w2 & -> & Hl2); [lia|].
    exists w2. split; [done|]. rewrite Hl2, Hl, map_app, <- app_assoc. cbn.
    unfold rr_pick at 2. by rewrite <- Hidx, Hf.
Qed.
End round_robin_facts.

Section node_facts.
Context {W F Args : Type}.
Variable E : env W F Args.
Context `{!EnvOk E}.
Implicit Types (n : Node F) (w : W).

Lemma capacity_pos n : 1 <= capacity n.
Proof. unfold capacity. destruct (gpus n); cbn [length]; lia. Qed.

Definition spare n w : bool := bool_decide (in_flight E (node_ref n) w < capacity n).

Lemma try_acquire_spec n w :
  (try_acquire E n w).1 = Ok (spare n w) /\
  (forall r, in_flight E r (try_acquire E n w).2 =
     if bool_decide (r = node_ref n) && spare n w
     then in_flight E r w + 1 else in_flight E r w).
Proof.
  unfold try_acquire, spare. case_decide as H.
  - rewrite bool_decide_eq_false_2 by lia. split; [done|]. intros r. by rewrite andb_false_r.
  - rewrite bool_decide_eq_true_2 by lia. split; [done|]. intros r. cbn.
    rewrite in_flight_set, andb_true_r. case_decide; [subst; by rewrite bool_decide_eq_true_2|].
    by rewrite bool_decide_eq_false_2.
Qed.

Lemma release_spec n w r :
  (release E n w).1 = Ok tt /\
  in_flight E r (release E n w).2 =
    if bool_decide (r = node_ref n)
    then if decide (0 < in_flight E r w) then in_flight E r w - 1 else in_flight E r w
    else in_flight E r w.
Proof.
  unfold release. destruct (decide (0 < in_flight E (node_ref n) w)) as [H|H];
    (split; [done|]); cbn; rewrite ?in_flight_set; case_bool_decide; subst.
  - by rewrite !decide_True.
  - by rewrite decide_False.
  - by rewrite decide_False.
  - done.
Qed.

(** Reservations on a [Node] are safe: from a state with
    [0 <= in_flight <= capacity], any interleaving of [try_acquire] and
    [release] calls keeps it so, [try_acquire] returns [True] exactly when
    there is a free slot, and [release] never goes below zero. *)
Theorem node_reservations_bounded n w :
  0 <= in_flight E (node_ref n) w <= capacity n ->
  (try_acquire E n w).1 = Ok (bool_decide (in_flight E (node_ref n) w < capacity n)) /\
  0 <= in_flight E (node_ref n) (try_acquire E n w).2 <= capacity n /\
  0 <= in_flight E (node_ref n) (release E n w).2 <= capacity n /\
  (in_flight E (node_ref n) w < capacity n ->
    in_flight E (node_ref n) (release E n (try_acquire E n w).2).2 = in_flight E (node_ref n) w).
Proof.
  intros Hb. pose proof (try_acquire_spec n w) as [-> Ha]. unfold spare in Ha.
  split; [done|]. split; [|split].
  - rewrite Ha, (bool_decide_eq_true_2 (node_ref n = node_ref n)) by done.
    cbn [andb]. case_bool_decide; lia.
  - pose proof (release_spec n w (node_ref n)) as [_ ->].
    rewrite (bool_decide_eq_true_2 (node_ref n = node_ref n)) by done. 
    destruct (decide (0 < in_flight E (node_ref n) w)); lia.
  - intros Hlt. pose proof (release_spec n (try_acquire E n w).2 (node_ref n)) as [_ ->].
    rewrite Ha, !bool_decide_eq_true_2 by done. cbn [andb].
    destruct (decide (0 < in_flight E (node_ref n) w + 1)); lia.
Qed.

(** *** Sorting by load *)
Implicit Types (l : list (Q * F)) (x y : Q * F).

Definition le_key x y : Prop := (x.1 <= y.1)%Q.

Lemma insert_by_perm x l : insert_by x l ≡ₚ x :: l.
Proof.
  induction l as [|y l IH]; [done|]. cbn. destruct (Qle_bool _ _); [done|].
  rewrite IH. apply Permutation_swap.
Qed.

Lemma sort_by_perm l : sort_by l ≡ₚ l.
Proof. induction l as [|x l IH]; [done|]. cbn. by rewrite insert_by_perm, IH. Qed.

Lemma insert_by_sorted x l : StronglySorted le_key l -> StronglySorted le_key (insert_by x l).
Proof.
  induction 1 as [|y l Hl IH Hy]; [by repeat constructor|]. cbn.
  destruct (Qle_bool x.1 y.1) eqn:Hle.
  - apply Qle_bool_iff in Hle. constructor; [by constructor|].
    constructor; [done|]. refine (Forall_impl _ _ _ Hy _).
    intros z Hz. unfold le_key in *. by apply Qle_trans with y.1.
  - constructor; [done|]. rewrite insert_by_perm. constructor; [|done].
    unfold le_key. apply Qlt_le_weak, Qnot_le_lt. rewrite <- Qle_bool_iff. congruence.
Qed.

Lemma sort_by_sorted l : StronglySorted le_key (sort_by l).
Proof. induction l; cbn; [constructor | by apply insert_by_sorted]. Qed.

(** *** Selection among [Node]s *)
Definition node_sub (s : F) (n : Node F) : Prop := as_node E s = Some n.

Lemma loads_nodes subs w :
  (forall s, s ∈ subs -> exists n, node_sub s n) ->
  exists ls, loads E subs w = (Ok ls, w) /\ ls.*2 = subs /\
    forall q s, (q, s) ∈ ls -> exists n, node_sub s n /\ q = node_load E n w.
Proof.
  induction subs as [|s subs IH]; intros Hn.
  - exists []. split_and!; [done|done|]. by intros q s ?%not_elem_of_nil.
  - destruct IH as (ls & Hl & Hs & Hq); [intros s' ?; apply Hn; by right|].
    destruct (Hn s) as [n Hsn]; [by left|].
    exists ((node_load E n w, s) :: ls). cbn. unfold bind, load.
    unfold node_sub in Hsn. rewrite Hsn. unfold gets. rewrite Hl. split_and!; [done| |].
    + by rewrite Hs.
    + intros q s' [[= -> ->]|?]%elem_of_cons; [eauto | by apply Hq].
Qed.

Lemma node_load_full n w : spare n w = false -> (1 <= node_load E n w)%Q.
Proof.
  unfold spare, node_load. intros H%bool_decide_eq_false.
  pose proof (capacity_pos n). unfold Qle, Qdiv, Qmult, Qinv, inject_Z. cbn.
  destruct (capacity n) as [|p|p]; try lia. cbn. lia.
Qed.

Lemma node_load_spare n w : spare n w = true -> (node_load E n w <= 1)%Q.
Proof.
  unfold spare, node_load. intros H%bool_decide_eq_true.
  pose proof (capacity_pos n). unfold Qle, Qdiv, Qmult, Qinv, inject_Z. cbn.
  destruct (capacity n) as [|p|p]; try lia. cbn. lia.
Qed.
End node_facts.

Section least_loaded_facts.
Context {W F Args : Type}.
Variable E : env W F Args.
Context `{!EnvOk E}.
Implicit Types (n : Node F) (w : W) (subs : list F).

Definition all_nodes subs : Prop := forall s, s ∈ subs -> exists n, node_sub E s n.
Definition all_full subs w : Prop :=
  forall s n, s ∈ subs -> node_sub E s n -> spare E n w = false.

Lemma select_loop_nodes subs w : all_nodes subs ->
  match select_loop E subs w with
  | (Ok (s, r), w') => exists n pre post, subs = pre ++ s :: post /\ node_sub E s n /\
      r = Some n /\ spare E n w = true /\ all_full pre w /\ w' = (try_acquire E n w).2
  | (Raise e, w') => e = saturated /\ w' = w /\ all_full subs w
  end.
Proof.
  induction subs as [|s subs IH]; intros Hn.
  - cbn. split_and!; [done|done|]. by intros s n ?%not_elem_of_nil.
  - destruct (Hn s) as [n Hs]; [by left|]. cbn [select_loop].
    unfold node_sub in Hs. rewrite Hs. unfold bind.
    pose proof (try_acquire_spec E n w) as [Ha _].
    destruct (try_acquire E n w) as [r w1] eqn:Hta. cbn in Ha. subst r.
    destruct (spare E n w) eqn:Hsp.
    + exists n, [], subs. rewrite Hta. split_and!; try done. by intros s' n' ?%not_elem_of_nil.
    + assert (w1 = w) as ->.
      { unfold try_acquire in Hta. case_decide; by simplify_eq. }
      assert (forall s' n', s' = s -> node_sub E s' n' -> spare E n' w = false) as Hh.
      { intros s' n' -> Hn'. unfold node_sub in Hn'. by simplify_eq. }
      specialize (IH (fun s' Hs' => Hn s' (list_elem_of_further _ _ _ Hs'))).
      destruct (select_loop E subs w) as [[[s' r]|e] w'].
      * destruct IH as (n' & pre & post & -> & ? & ? & ? & Hf & ?).
        exists n', (s :: pre), post. split_and!; try done.
        intros s2 n2 [?|?]%elem_of_cons; eauto.
      * destruct IH as (? & ? & Hf). split_and!; try done.
        intros s2 n2 [?|?]%elem_of_cons; eauto.
Qed.

(** The whole selection, on a pool of [Node]s. *)
Lemma select_nodes subs w : all_nodes subs ->
  match select E subs w with
  | (Ok (s, r), w') => exists n, s ∈ subs /\ node_sub E s n /\ r = Some n /\
      spare E n w = true /\ w' = (try_acquire E n w).2 /\
      forall s' n', s' ∈ subs -> node_sub E s' n' -> (node_load E n w <= node_load E n' w)%Q
  | (Raise e, w') => e = saturated /\ w' = w /\ all_full subs w
  end.
Proof.
  intros Hn. unfold select, bind.
  destruct (loads_nodes E subs w Hn) as (ls & -> & Hs & Hq).
  assert ((sort_by ls).*2 ≡ₚ subs) as Hperm by by rewrite sort_by_perm, Hs.
  assert (all_nodes (sort_by ls).*2) as Hn' by (intros s; rewrite Hperm; apply Hn).
  pose proof (select_loop_nodes _ w Hn') as Hsel.
  destruct (select_loop E (sort_by ls).*2 w) as [[[s r]|e] w'].
  - destruct Hsel as (n & pre & post & Heq & Hns & -> & Hsp & Hpre & ->).
    exists n. split_and!; try done; [rewrite <- Hperm, Heq; set_solver|].
    intros s' n' Hs' Hns'.
    assert (forall q t, (q, t) ∈ sort_by ls -> exists m, node_sub E t m /\ q = node_load E m w)
      as Hkey by (intros q t; rewrite sort_by_perm; apply Hq).
    rewrite <- Hperm, Heq, elem_of_app in Hs'. destruct Hs' as [Hs'|Hs'].
    + apply Qle_trans with 1%Q; [by apply node_load_spare|].
      apply node_load_full; by eapply Hpre.
    + apply fmap_app_inv in Heq as (l1 & l2 & -> & Hl2 & Hsl).
      apply eq_sym, fmap_cons_inv in Hl2 as ([q t] & l3 & Ht & -> & ->). cbn in Ht. subst t.
      pose proof (sort_by_sorted ls) as Hsorted. rewrite Hsl in Hsorted.
      apply StronglySorted_app in Hsorted as (_ & _ & Hsorted).
      apply StronglySorted_inv in Hsorted as [_ Hfa].
      assert (q = node_load E n w) as ->.
      { destruct (Hkey q s) as (m & Hm & ->); [rewrite Hsl; set_solver|].
        unfold node_sub in *. by simplify_eq. }
      apply elem_of_cons in Hs' as [->|Hs'].
      { unfold node_sub in *. simplify_eq. apply Qle_refl. }
      apply list_elem_of_fmap in Hs' as ([q' t] & -> & Hin).
      destruct (Hkey q' t) as (m & Hm & Hqm); [rewrite Hsl; set_solver|].
      rewrite Forall_forall in Hfa. specialize (Hfa _ Hin). unfold le_key in Hfa. cbn in *.
      unfold node_sub in *. simplify_eq. exact Hfa.
  - destruct Hsel as (-> & -> & Hf). split_and!; try done.
    intros s n Hs'. apply Hf. by rewrite Hperm.
Qed.

(** [LeastLoadedDispatcher._select] on a pool of nodes: it reserves one
    slot on a node with spare capacity whose load is the least of the whole
    pool, or raises "all subscribers saturated" and changes nothing; it raises
    exactly when every node is full. *)
Theorem select_least_loaded subs w : all_nodes subs ->
  (exists s n w', select E subs w = (Ok (s, Some n), w') /\ s ∈ subs /\ node_sub E s n /\
     spare E n w = true /\ in_flight E (node_ref n) w' = in_flight E (node_ref n) w + 1 /\
     forall s' n', s' ∈ subs -> node_sub E s' n' -> (node_load E n w <= node_load E n' w)%Q) \/
  (select E subs w = (Raise saturated, w) /\ all_full subs w).
Proof.
  intros Hn. pose proof (select_nodes subs w Hn) as Hs.
  destruct (select E subs w) as [[[s r]|e] w'].
  - destruct Hs as (n & ? & ? & -> & Hsp & -> & ?). left. exists s, n, (try_acquire E n w).2.
    split_and!; try done. pose proof (try_acquire_spec E n w) as [_ ->].
    by rewrite bool_decide_eq_true_2, Hsp.
  - destruct Hs as (-> & -> & ?). by right.
Qed.

Hypothesis handlers_neutral : forall f args w r, in_flight E r (call E f args w).2 = in_flight E r w.

(** The slot that [route] reserves is given back whatever the handler does:
    when handlers do not touch the counters themselves, every node has the same
    number of jobs in flight after the call as before it, exceptions included. *)
Theorem route_releases subs (args : Args) w r : all_nodes subs ->
  0 <= in_flight E r w ->
  in_flight E r (route E subs args w).2 = in_flight E r w.
Proof.
  intros Hn Hpos. unfold route, bind at 1.
  pose proof (select_nodes subs w Hn) as Hs.
  destruct (select E subs w) as [[[s res]|e] w']; [|by destruct Hs as (_ & -> & _)].
  destruct Hs as (n & _ & _ & -> & Hsp & -> & _). cbn [fst snd].
  unfold try_finally, call_chosen, release_if.
  pose proof (try_acquire_spec E n w) as [_ Ha]. specialize (Ha r). rewrite Hsp, andb_true_r in Ha.
  set (w1 := (try_acquire E n w).2) in *.
  pose proof (handlers_neutral (handler n) args w1 r) as Hh.
  destruct (call E (handler n) args w1) as [v w2]. cbn in Hh.
  pose proof (release_spec E n w2 r) as [Hr1 Hr2].
  destruct (release E n w2) as [ru w3]. cbn in Hr1, Hr2. subst ru. cbn.
  rewrite Hr2, Hh, Ha. case_bool_decide as Hd; [|done].
  destruct (decide (0 < in_flight E r w + 1)); lia.
Qed.
End least_loaded_facts.

(** * A concrete heap

    Subscribers are functions (the odd ones raise) and nodes; the heap keeps a
    log of the calls and the cells of the counters. *)
Module Toy.
Inductive sub : Type :=
  | Fun (id : nat)
  | NodeSub (ref : nat) (ncpus : Z).

#[export] Instance sub_eq_dec : EqDecision sub.
Proof. solve_decision. Defined.

Record world : Type := mkWorld { log : list sub; cells : nat -> Z; idxs : nat -> nat }.

Definition upd {A} (r : nat) (a : A) (f : nat -> A) : nat -> A :=
  fun s => if decide (s = r) then a else f s.

Definition run (f : sub) (_ : unit) : M world val := fun w =>
  let w' := mkWorld (log w ++ [f]) (cells w) (idxs w) in
  match f with
  | Fun id => if Nat.odd id then (Raise (Exc "ValueError" "odd"), w') else (Ok VNone, w')
  | NodeSub _ _ => (Ok VNone, w')
  end.

Definition node_of (f : sub) : option (Node sub) :=
  match f with Fun _ => None | NodeSub r c => Some (mkNode r "node" c 1 [] (Fun r)) end.

(** With [nodes = false] every subscriber is called directly. *)
Definition E (nodes : bool) : env world sub unit := {|
  call := run;
  as_node f := if nodes then node_of f else None;
  other_load _ := ret 0%Q;
  in_flight r w := cells w r;
  set_in_flight r z w := mkWorld (log w) (upd r z (cells w)) (idxs w);
  rr_idx r w := idxs w r;
  set_rr_idx r n w := mkWorld (log w) (cells w) (upd r n (idxs w));
  submit _ _ _ := ret "task";
  class_subs _ _ _ := [];
|}.

#[global] Instance E_ok b : EnvOk (E b).
Proof. split; done. Qed.

Definition w0 : world := mkWorld [] (fun r => if decide (r = 0%nat) then 1 else 0) (fun _ => 0%nat).

Definition nodes : list sub := [NodeSub 0 4; NodeSub 1 8].

Lemma nodes_all : all_nodes (E true) nodes.
Proof. intros s [->|[->|[]%not_elem_of_nil]%elem_of_cons]%elem_of_cons; by eexists. Qed.

Lemma run_log f w : log (run f tt w).2 = log w ++ [f].
Proof. destruct f as [id|]; [|done]. unfold run. by destruct (Nat.odd id). Qed.

Lemma run_cells f w : cells (run f tt w).2 = cells w /\ idxs (run f tt w).2 = idxs w.
Proof. destruct f as [id|]; [|done]. unfold run. by destruct (Nat.odd id). Qed.

Lemma run_exn f w e : (run f tt w).1 = Raise e -> is_Exception e = true.
Proof. destruct f as [id|]; [|done]. unfold run. destruct (Nat.odd id); cbn; [|done]. by intros [= <-]. Qed.
End Toy.

Lemma broadcast_aborts_witness :
  (broadcast (Toy.E false) [Toy.Fun 0; Toy.Fun 1; Toy.Fun 2] tt Toy.w0).1
    = Raise (Exc "ValueError" "odd").
Proof.
  pose proof (broadcast_aborts (Toy.E false) [Toy.Fun 0] [Toy.Fun 2] (Toy.Fun 1) tt Toy.w0) as H.
  cbn [app] in H. erewrite H; reflexivity.
Defined.

Lemma round_robin_rotates_witness :
  exists w', fires (Toy.E false) 0 tt 3 [Toy.Fun 0; Toy.Fun 1] Toy.w0 = (Ok tt, w') /\
    map Some (Toy.log w') = [Some (Toy.Fun 0); Some (Toy.Fun 1); Some (Toy.Fun 0)].
Proof.
  apply (round_robin_rotates (Toy.E false) 0 tt Toy.log) with (k := 3%nat).
  - intros f w. apply Toy.run_log.
  - done.
  - intros f w. cbn. unfold invoke. cbn. by rewrite (proj2 (Toy.run_cells f w)).
  - intros f w e. apply Toy.run_exn.
  - done.
Defined.

Lemma node_reservations_bounded_witness :
  let n := mkNode 0 "node" 8 1 [] (Toy.Fun 0) in
  (try_acquire (Toy.E true) n Toy.w0).1 = Ok true.
Proof.
  apply (node_reservations_bounded (Toy.E true) (mkNode 0 "node" 8 1 [] (Toy.Fun 0)) Toy.w0).
  vm_compute. split; discriminate.
Defined.

Lemma select_least_loaded_witness :
  (exists s n w', select (Toy.E true) Toy.nodes Toy.w0 = (Ok (s, Some n), w')).
Proof.
  destruct (select_least_loaded (Toy.E true) Toy.nodes Toy.w0 Toy.nodes_all)
    as [(s & n & w' & Hs & _)|[Hs _]]; [by exists s, n, w' | discriminate Hs].
Defined.

Lemma route_releases_witness :
  in_flight (Toy.E true) 1 (route (Toy.E true) Toy.nodes tt Toy.w0).2 = 0.
Proof.
  rewrite (route_releases (Toy.E true)); [done| |apply Toy.nodes_all|done].
  intros f [] w r. cbn. by rewrite (proj1 (Toy.run_cells f w)).
Defined.
