(* ===== verification/NodeThreads.v ===== *)
(** * The slots of [Node]s under concurrent dispatchers

    Observers has [LeastLoadedDispatcher._select] as one statement.  The lock that
    it holds is the dispatcher's, while the counters are the nodes', each under a
    lock of its own: another dispatcher over the same nodes, a [release], or a
    direct call of a node may come between the tries of one selection.  Here any
    number of threads do so in any order.  In which order a selection tries the
    nodes depends on loads that it read at different times: it is arbitrary. *)
From S2P Require Import Prelude Types Observers.

Module NodeThreads.

Section threads.
Context {W F Args : Type}.
Variable E : env W F Args.
Context `{HE : !EnvOk E}.

(** Where a thread is: outside; in the loop of [_select], with the nodes it has
    still to try; past it with a slot, running the handler; past it without; in
    [Node.__call__]. *)
Inductive phase : Type :=
  | Idle
  | Selecting (rest : list (Node F))
  | Reserved (n : Node F)
  | Refused
  | InCall (n : Node F).

Abbreviation sys := (W * list phase)%type.

Inductive event : Type :=
  | Select (i : nat) (order : list (Node F))
  | Try (i : nat)
  | Release (i : nat)
  | Caught (i : nat)
  | Call (i : nat) (n : Node F)
  | Return (i : nat).

Definition exec (e : event) (y : sys) : option sys :=
  let '(w, ts) := y in
  match e with
  | Select i order =>
      match ts !! i with Some Idle => Some (w, <[i := Selecting order]> ts) | _ => None end
  | Try i =>
      match ts !! i with
      | Some (Selecting []) => Some (w, <[i := Refused]> ts)
      | Some (Selecting (n :: rest)) =>
          match try_acquire E n w with
          | (Ok true, w') => Some (w', <[i := Reserved n]> ts)
          | (_, w') => Some (w', <[i := Selecting rest]> ts)
          end
      | _ => None
      end
  | Release i =>
      match ts !! i with Some (Reserved n) => Some ((release E n w).2, <[i := Idle]> ts) | _ => None end
  | Caught i =>
      match ts !! i with Some Refused => Some (w, <[i := Idle]> ts) | _ => None end
  | Call i n =>
      match ts !! i with Some Idle => Some ((add_in_flight E n 1 w).2, <[i := InCall n]> ts) | _ => None end
  | Return i =>
      match ts !! i with Some (InCall n) => Some ((add_in_flight E n (-1) w).2, <[i := Idle]> ts) | _ => None end
  end.

Abbreviation run := (run_events exec).

(** Whose slot a thread has, by the node's counter *)
Definition reserves (r : nat) (p : phase) : bool :=
  match p with Reserved n => bool_decide (node_ref n = r) | _ => false end.
Definition occupies (r : nat) (p : phase) : bool :=
  match p with Reserved n | InCall n => bool_decide (node_ref n = r) | _ => false end.

(** The nodes that have the counter [r] have the capacity [c] (it is one object). *)
Variables (r : nat) (c : Z).
Definition node_ok (n : Node F) : Prop := node_ref n = r -> capacity n = c.
Definition event_ok (e : event) : Prop := match e with Select _ order => Forall node_ok order | _ => True end.
Definition phase_ok (p : phase) : Prop := match p with Selecting rest => Forall node_ok rest | _ => True end.

Record ok (y : sys) : Prop := {
  ok_count : in_flight E r y.1 = count_if (occupies r) y.2;
  ok_reserved : count_if (reserves r) y.2 <= c;
  ok_phases : Forall phase_ok y.2;
}.

Lemma in_flight_add n k w : in_flight E r (add_in_flight E n k w).2 = in_flight E r w + (if bool_decide (node_ref n = r) then k else 0).
Proof.
  cbn. rewrite in_flight_set. case_decide as Hr; [subst; by rewrite bool_decide_eq_true_2|].
  rewrite bool_decide_eq_false_2 by congruence. lia.
Qed.

(** One thread moves from [p] to [p'], and the counter with it. *)
Lemma node_move w w' ts i p p' : ok (w, ts) -> ts !! i = Some p -> phase_ok p' ->
  in_flight E r w' = in_flight E r w - b2z (occupies r p) + b2z (occupies r p') ->
  b2z (reserves r p') <= b2z (reserves r p) \/ count_if (reserves r) ts < c ->
  ok (w', <[i := p']> ts).
Proof.
  intros [Hc Hr Hp] Hi Hp' Hw Hres. cbn in *. split; cbn.
  - rewrite (count_if_insert _ ts i p p' Hi). lia.
  - rewrite (count_if_insert _ ts i p p' Hi). destruct Hres as [?|?]; [lia|].
    destruct (reserves r p), (reserves r p'); cbn; lia.
  - by apply Forall_insert.
Qed.

Lemma nodes_ok_exec e y y' : event_ok e -> ok y -> exec e y = Some y' -> ok y'.
Proof.
  destruct y as [w ts]. intros Hev Hok. pose proof Hok as [Hc Hr Hp]. cbn in Hc, Hr, Hp.
  assert (forall i p, ts !! i = Some p -> phase_ok p) as Hpi.
  { intros i p Hi. rewrite Forall_forall in Hp. apply Hp. by eapply list_elem_of_lookup_2. }
  destruct e as [i order|i|i|i|i n|i]; cbn [exec]; destruct (ts !! i) as [p|] eqn:Hi; try done; destruct p as [|[|n' rest]|n'| |n']; try done.
  - intros [= <-]. apply (node_move w w ts i Idle); [done|done|done|cbn; lia|by left].
  - intros [= <-]. apply (node_move w w ts i (Selecting [])); [done|done|done|cbn; lia|by left].
  - pose proof (Hpi i _ Hi) as Hn. apply Forall_cons in Hn as [Hn Hrest].
    destruct (try_acquire_spec E n' w) as [Ha Hf]. specialize (Hf r).
    destruct (try_acquire E n' w) as [res w']. cbn [fst snd] in *. subst res.
    destruct (spare E n' w) eqn:Hsp; intros [= <-]; [apply bool_decide_eq_true in Hsp|].
    + apply (node_move w w' ts i (Selecting (n' :: rest))); [done|done|done| |].
      * rewrite Hf. cbn. rewrite andb_true_r. repeat case_bool_decide; cbn; congruence || lia.
      * destruct (decide (node_ref n' = r)) as [Heq|Hne]; [right|left; cbn; rewrite bool_decide_eq_false_2 by done; cbn; lia].
        specialize (Hn Heq). rewrite Heq in Hsp.
        pose proof (count_if_le (reserves r) (occupies r) ts ltac:(by intros [])). lia.
    + apply (node_move w w' ts i (Selecting (n' :: rest))); [done|done|done| |by left].
      rewrite Hf, andb_false_r. cbn. lia.
  - intros [= <-]. apply (node_move w _ ts i (Reserved n')); [done|done|done| |left; cbn; by case_bool_decide].
    destruct (release_spec E n' w r) as [_ ->]. cbn. destruct (decide (node_ref n' = r)) as [Heq|Hne].
    + rewrite !bool_decide_eq_true_2 by done.
      pose proof (count_if_elem (occupies r) ts i _ Hi ltac:(cbn; by rewrite bool_decide_eq_true_2)).
      rewrite decide_True by lia. cbn. lia.
    + rewrite !bool_decide_eq_false_2 by congruence. cbn. lia.
  - intros [= <-]. apply (node_move w w ts i Refused); [done|done|done|cbn; lia|by left].
  - intros [= <-]. apply (node_move w (add_in_flight E n 1 w).2 ts i Idle); [done|done|done| |by left].
    rewrite in_flight_add. cbn. case_bool_decide; cbn; lia.
  - intros [= <-]. apply (node_move w (add_in_flight E n' (-1) w).2 ts i (InCall n')); [done|done|done| |by left].
    rewrite in_flight_add. cbn. case_bool_decide; cbn; lia.
Qed.

(** A thread passes a node over only when it is full at that moment. *)
Lemma try_passes i n rest w ts y : ts !! i = Some (Selecting (n :: rest)) -> exec (Try i) (w, ts) = Some y ->
  (y.2 !! i = Some (Reserved n) /\ in_flight E (node_ref n) w < capacity n) \/
  (y = (w, <[i := Selecting rest]> ts) /\ capacity n <= in_flight E (node_ref n) w).
Proof.
  intros Hi. cbn [exec]. rewrite Hi. unfold try_acquire. case_decide as Hf; intros [= <-]; [by right|left].
  split; [|lia]. apply list_lookup_insert_eq. by eapply lookup_lt_Some.
Qed.

(** C30 The slots of a node are booked exactly, however many dispatchers share it and
    however their selections, the calls they make, and direct calls of the node
    interleave: its counter is the number of threads that run its handler, so that
    it never falls below zero and [release] always has something to take; at most
    [capacity] of them were sent there by a dispatcher, none was sent while the
    node was full; and when all threads are done the counter is zero again. *)
Theorem slots_exact es w0 threads y :
  Forall event_ok es -> in_flight E r w0 = 0 -> 0 <= c ->
  run es (w0, replicate threads Idle) = Some y ->
  in_flight E r y.1 = count_if (occupies r) y.2 /\
  count_if (reserves r) y.2 <= c /\
  (forall i n rest y', y.2 !! i = Some (Selecting (n :: rest)) -> exec (Try i) y = Some y' ->
     y'.2 !! i = Some (Reserved n) -> in_flight E (node_ref n) y.1 < capacity n) /\
  ((forall p, p ∈ y.2 -> p = Idle) -> in_flight E r y.1 = 0).
Proof.
  intros Hes H0 Hc Hrun.
  assert (forall P, P Idle = false -> count_if P (replicate threads Idle) = 0) as Hz.
  { intros P HP. apply count_if_zero. intros p [-> _]%elem_of_replicate. done. }
  assert (ok (w0, replicate threads Idle)) as Hstart.
  { split; cbn; rewrite ?Hz by done; [done..|]. apply Forall_forall. by intros p [-> _]%elem_of_replicate. }
  pose proof (run_events_invariant exec ok event_ok es _ _ nodes_ok_exec Hes Hstart Hrun) as [Hco Hre _].
  split_and!; [done..| |].
  - intros i n rest y' Hi Ht Hr'. destruct y as [w ts]. destruct (try_passes i n rest w ts y' Hi Ht) as [[_ ?]|[-> _]]; [done|].
    cbn in Hr'. rewrite list_lookup_insert_eq in Hr' by (by eapply lookup_lt_Some). done.
  - intros Hidle. rewrite Hco. apply count_if_zero. by intros p ->%Hidle.
Qed.
End threads.
End NodeThreads.

Module NodeThreadsToy.
Import NodeThreads.
Abbreviation exec := (NodeThreads.exec (Toy.E true)).
Abbreviation event := (NodeThreads.event (F := Toy.sub)).
Definition A : Node Toy.sub := mkNode 1 "a" 4 1 [] (Toy.Fun 2).
Definition B : Node Toy.sub := mkNode 2 "b" 4 1 [] (Toy.Fun 4).

(** While thread 0 goes through its nodes, [B] is given back and another dispatcher
    takes [A]: it is refused, although [B] is free and never were both full. *)
Definition refusal : list event :=
  [Select 1 [B]; Try 1; Select 0 [B; A]; Try 0; Release 1; Select 2 [A]; Try 2; Try 0; Try 0].
Definition refused : Toy.world * list (phase (F := Toy.sub)) :=
  default (Toy.w0, []) (run_events exec refusal (Toy.w0, replicate 3 Idle)).

Example refused_with_room :
  refused.2 = [Refused; Idle; Reserved A] /\ in_flight (Toy.E true) 2 refused.1 = 0.
Proof. vm_compute. split; reflexivity. Qed.
End NodeThreadsToy.

Lemma slots_exact_witness :
  in_flight (Toy.E true) 1 NodeThreadsToy.refused.1 = count_if (NodeThreads.occupies 1) NodeThreadsToy.refused.2 /\
  count_if (NodeThreads.reserves (F := Toy.sub) 1) NodeThreadsToy.refused.2 <= 1.
Proof.
  destruct (NodeThreads.slots_exact (Toy.E true) 1 1 NodeThreadsToy.refusal Toy.w0 3 NodeThreadsToy.refused) as (H1 & H2 & _).
  - repeat constructor; intros ?; vm_compute in *; (reflexivity || discriminate).
  - reflexivity.
  - discriminate.
  - reflexivity.
  - split; [exact H1|exact H2].
Defined.
