(* ===== verification/Queue.v ===== *)
(** * [eventforge/queue.py]: [MessageQueue]

    The queue is written against the [Transport] class; its own attributes are
    the first half of the heap's [h_rest], the second half [U] is whatever the
    handlers own.  A topic's channel is an [Eventful] of handlers; the callback
    given to the transport is the bound method [channel.fire], named here by the
    topic ([ChannelFire]), as channels are never replaced or dropped. *)
From S2P Require Import Prelude PyDict Types Topics Transport Memory Observers.

Record qstate (H : Type) : Type := mkQ {
  q_topics : list (string * Eventful H);
  q_sub_ids : list (string * (string * H));
  q_transport_subs : list (string * string);
}.
Arguments mkQ {H} _ _ _.
Arguments q_topics {H} _.
Arguments q_sub_ids {H} _.
Arguments q_transport_subs {H} _.

Inductive chan_cb : Type := ChannelFire (name : string).

(** Positional and keyword arguments of a call. *)
Record pyargs : Type := mkArgs { pos : list val; kw : list (string * val) }.

(** [**d]: the keys must be strings. *)
Fixpoint str_keys (d : list (val * val)) : result (list (string * val)) :=
  match d with
  | [] => Ok []
  | (VStr k, v) :: d' => match str_keys d' with Ok d'' => Ok ((k, v) :: d'') | Raise e => Raise e end
  | _ => Raise (Exc "TypeError" "keywords must be strings")
  end.

(** The payload unpacking of [register_task] and of [@task]'s queue handler. *)
Definition unpack_payload (payload : val) : result pyargs :=
  match payload with
  | VDict d => match str_keys d with Ok k => Ok (mkArgs [] k) | Raise e => Raise e end
  | VList l | VTuple l => Ok (mkArgs l [])
  | v => Ok (mkArgs [v] [])
  end.

Section MessageQueue.
Context {T H U : Type} `{!EqDecision H}.
Abbreviation world := (heap T (qstate H * U)).
Context {TR : Transport world chan_cb}.
Variable clock : world -> Z.

Definition get_q : M world (qstate H) := gets (fun h => (h_rest h).1).
Definition upd_q (f : qstate H -> qstate H) : M world unit :=
  upd_rest (fun r => (f r.1, r.2)).

Definition init_q : qstate H := mkQ [] [] [].

Definition set_topic (name : string) (ev : Eventful H) (q : qstate H) : qstate H :=
  mkQ (dset (q_topics q) name ev) (q_sub_ids q) (q_transport_subs q).

(** Get-or-create the channel of a topic. *)
Definition topic (name : string) (d : option dispatcher) : M world unit :=
  let! q := get_q in
  if dmem (q_topics q) name then ret tt
  else
    upd_q (set_topic name (new_eventful d)) ;;;
    let! sub_id := t_subscribe name (ChannelFire name) in
    upd_q (fun q => mkQ (q_topics q) (q_sub_ids q) (dset (q_transport_subs q) name sub_id)).

(** [channel.subscribe(fn)] on a topic's channel *)
Definition channel_subscribe (name : string) (fn : H) : M world unit :=
  upd_q (fun q => match dget (q_topics q) name with
                  | Some ev => set_topic name (ev_subscribe fn ev) q
                  | None => q
                  end).

Definition subscribe (name : string) (fn : H) : M world string :=
  topic name None ;;;
  channel_subscribe name fn ;;;
  let! handler_id := new_uuid in
  upd_q (fun q => mkQ (q_topics q) (dset (q_sub_ids q) handler_id (name, fn)) (q_transport_subs q)) ;;;
  ret handler_id.

(** [on(topic, fn)], and the decorator form, which subscribes and returns [fn] *)
Definition on (name : string) (fn : H) : M world string := subscribe name fn.
Definition on_decorator (name : string) (fn : H) : M world H := subscribe name fn ;;; ret fn.

(** [Message(topic=..., ...)] with its default factories *)
Definition new_message (name : string) (p : val) (hd : hdrs) (rt cid : option string)
    : M world Message :=
  let! i := new_uuid in
  let! now := gets clock in
  ret (mkMessage i name p hd now rt cid).

Definition publish (name : string) (p : val) (hd : hdrs) : M world string :=
  let! message := new_message name p hd None None in
  t_send message ;;;
  ret (msg_id message).

(** [publish_async] delegates; [fire] takes the first positional argument as payload. *)
Definition publish_async := publish.
Definition fire_topic (name : string) (a : pyargs) : M world string :=
  publish name (match pos a with v :: _ => v | [] => VNone end) (kw a).

Definition unsubscribe (handler_id : string) : M world bool :=
  let! q := get_q in
  upd_q (fun q => mkQ (q_topics q) (ddel (q_sub_ids q) handler_id) (q_transport_subs q)) ;;;
  match dget (q_sub_ids q) handler_id with
  | None => ret false
  | Some (name, fn) =>
      match dget (q_topics q) name with
      | None => ret false
      | Some ev =>
          let '(removed, ev') := ev_unsubscribe fn ev in
          upd_q (set_topic name ev') ;;;
          ret removed
      end
  end.

Definition receive (name : string) (timeout : option Z) : M world (wait (option Message)) :=
  t_receive name timeout.

Definition request (name : string) (p : val) (timeout : Z) (hd : hdrs)
    : M world (wait (option Message)) :=
  let! r := new_uuid in
  let reply_topic := "_reply." +:+ r in
  let! correlation := new_uuid in
  let! message := new_message name p hd (Some reply_topic) (Some correlation) in
  t_send message ;;;
  t_receive reply_topic (Some timeout).

Definition receive_async (name : string) (timeout : option Z) : M world (wait (option Message)) :=
  t_receive_async name timeout.

Definition request_async (name : string) (p : val) (timeout : Z) (hd : hdrs)
    : M world (wait (option Message)) :=
  let! r := new_uuid in
  let reply_topic := "_reply." +:+ r in
  let! correlation := new_uuid in
  let! message := new_message name p hd (Some reply_topic) (Some correlation) in
  t_send message ;;;
  t_receive_async reply_topic (Some timeout).

Definition no_reply_to : exn := Exc "ValueError" "Original message has no reply_to".

Definition reply (original : Message) (p : val) (hd : hdrs) : M world string :=
  match reply_to original with
  | None => throw no_reply_to
  | Some rt =>
      if decide (rt = "") then throw no_reply_to
      else
        let! r := new_message rt p hd None (correlation_id original) in
        t_send r ;;;
        ret (msg_id r)
  end.

(** The handler closure of [register_task], and its subscription: [h] is the
    handler that runs [task_handler task_func]. *)
Definition task_handler (task_func : pyargs -> M world val) (msg : Message) : M world val :=
  match unpack_payload (payload msg) with
  | Ok a => task_func a
  | Raise e => throw e
  end.

Definition register_task (name : string) (h : H) : M world string := subscribe name h.

Definition close : M world unit := t_close.

(** [with queue: body] *)
Definition with_queue {A} (body : M world A) : M world A := try_finally body close.

Definition topics : M world (list string) :=
  let! q := get_q in ret (dkeys (q_topics q)).
End MessageQueue.

(** The callback that the transport holds for a topic: [channel.fire]. *)
Definition channel_fire {T H U} (E : env (heap T (qstate H * U)) H Message)
    (cb : chan_cb) (msg : Message) : M (heap T (qstate H * U)) unit :=
  let '(ChannelFire name) := cb in
  let! q := get_q in
  match dget (q_topics q) name with
  | Some ev => fire E ev msg
  | None => ret tt
  end.

(** ** In process: a queue over a [MemoryTransport] *)
Module Local.
Section local.
Context {H U : Type} `{!EqDecision H}.
Abbreviation world := (heap (MemoryTransport.state chan_cb) (qstate H * U)).
Abbreviation qenv := (env world H Message).

#[export] Instance local_transport (E : qenv) : Transport world chan_cb :=
  MemoryTransport.memory_transport (channel_fire E).

(** [MessageQueue()] *)
Definition init (n : nat) (size : Z) (u : U) : world :=
  mkHeap n (MemoryTransport.init size) (init_q, u).

(** One transport subscription per topic, on the topic's own name, firing the
    topic's channel; nothing else is subscribed. *)
Record linked (h : world) : Prop := {
  linked_topics : dkeys (q_topics (h_rest h).1) = dkeys (q_transport_subs (h_rest h).1);
  linked_subs : MemoryTransport.subscribers (h_tr h) =
    map (fun p => (p.2, ChannelFire p.1)) (q_transport_subs (h_rest h).1);
  linked_pats : MemoryTransport.sub_topic (h_tr h) =
    map (fun p => (p.2, p.1)) (q_transport_subs (h_rest h).1);
  linked_dict : dict_ok (q_transport_subs (h_rest h).1);
  linked_wf : MemoryTransport.wf h;
}.

Definition names_plain (h : world) : Prop := Forall plain (dkeys (q_topics (h_rest h).1)).

(** While the transport is open the queue and the transport agree. *)
Definition mq_ok (h : world) : Prop :=
  MemoryTransport.closed (h_tr h) = false -> linked h.

Lemma mq_ok_init n size u : mq_ok (init n size u).
Proof. intros _. split; try done; [apply dict_ok_nil | apply MemoryTransport.wf_init]. Qed.

(** [mq_ok] sees the topics' names and the transport's tables only. *)
Lemma mq_ok_rest h q u :
  mq_ok h -> dkeys (q_topics q) = dkeys (q_topics (h_rest h).1) ->
  q_transport_subs q = q_transport_subs (h_rest h).1 -> mq_ok (set_rest (q, u) h).
Proof.
  intros Hok Hk Ht Hc. destruct (Hok Hc). split; cbn in *; rewrite ?Ht; try done. congruence.
Qed.

Lemma keeps_upd_q f :
  (forall q, dkeys (q_topics (f q)) = dkeys (q_topics q) /\
             q_transport_subs (f q) = q_transport_subs q) ->
  keeps mq_ok (upd_q f).
Proof.
  intros Hf. apply keeps_modify. intros h Hok. destruct (Hf (h_rest h).1). by apply mq_ok_rest.
Qed.

Lemma keeps_new_uuid : keeps mq_ok new_uuid.
Proof.
  intros h Hok Hc. destruct (Hok Hc) as [? ? ? ? Hwf]. split; try done.
  refine (MemoryTransport.wf_mono _ _ _ _ Hwf). cbn. lia.
Qed.

Lemma set_topic_keys name ev (q : qstate H) :
  dmem (q_topics q) name = true -> dkeys (q_topics (set_topic name ev q)) = dkeys (q_topics q).
Proof. intros Hm%dmem_true. unfold set_topic. cbn. by rewrite dkeys_dset, decide_True. Qed.

Lemma linked_topic name d (E : qenv) h :
  linked h -> MemoryTransport.closed (h_tr h) = false ->
  exists h', topic (TR := local_transport E) name d h = (Ok tt, h') /\ linked h' /\
    MemoryTransport.closed (h_tr h') = false /\ (h_rest h').2 = (h_rest h).2 /\
    q_sub_ids (h_rest h').1 = q_sub_ids (h_rest h).1 /\
    q_topics (h_rest h').1 =
      if dmem (q_topics (h_rest h).1) name then q_topics (h_rest h).1
      else dset (q_topics (h_rest h).1) name (new_eventful d).
Proof.
  intros Hl Hc. unfold topic, get_q, bind at 1, gets.
  destruct (dmem (q_topics (h_rest h).1) name) eqn:Hm; [by exists h|].
  apply dmem_false, dget_None in Hm.
  cbn. unfold MemoryTransport.subscribe, get_tr, bind, gets. cbn. rewrite Hc. cbn.
  eexists. split; [done|]. split; [|done].
  pose proof (MemoryTransport.wf_subscribe name (ChannelFire name) h (linked_wf _ Hl)) as Hwf.
  unfold MemoryTransport.subscribe, get_tr, gets, bind in Hwf. rewrite Hc in Hwf. cbn in Hwf.
  destruct Hl as [Ht Hs Hp Hd Hw].
  pose proof (MemoryTransport.fresh_uuid h Hw) as Hfr.
  assert (uuid4 (h_uuid h) ∉ dkeys (MemoryTransport.sub_topic (h_tr h))) as Hfr'
    by by rewrite <- (MemoryTransport.wf_keys _ _ Hw).
  rewrite Ht in Hm. apply dget_None in Hfr, Hfr', Hm.
  split; cbn; rewrite ?(dset_fresh (q_transport_subs _)) by done.
  - rewrite dkeys_dset, decide_False by by rewrite Ht; apply dget_None.
    unfold dkeys in *. by rewrite Ht, fmap_app.
  - rewrite dset_fresh, Hs by done. by rewrite map_app.
  - rewrite dset_fresh, Hp by done. by rewrite map_app.
  - rewrite <- dset_fresh by done. by apply dict_ok_dset.
  - exact Hwf.
Qed.

Lemma keeps_topic name d (E : qenv) : keeps mq_ok (topic (TR := local_transport E) name d).
Proof.
  intros h Hok. destruct (MemoryTransport.closed (h_tr h)) eqn:Hc.
  - unfold topic, get_q, bind at 1, gets. case_match; [done|]. cbn.
    unfold MemoryTransport.subscribe, get_tr, bind, gets. cbn. rewrite Hc. cbn.
    intros Hc'. cbn in Hc'. congruence.
  - destruct (linked_topic name d E h (Hok Hc) Hc) as (h' & -> & ? & _). by intros _.
Qed.

Lemma keeps_channel_subscribe name f : keeps mq_ok (channel_subscribe (T := MemoryTransport.state chan_cb) (U := U) name f).
Proof.
  apply keeps_upd_q. intros q. destruct (dget (q_topics q) name) eqn:Hg; [|done].
  split; [|done]. apply set_topic_keys. unfold dmem. by rewrite Hg.
Qed.

Lemma keeps_subscribe name f (E : qenv) : keeps mq_ok (subscribe (TR := local_transport E) name f).
Proof.
  pose proof keeps_new_uuid. unfold subscribe. apply keeps_bind; [apply keeps_topic|intros _].
  apply keeps_bind; [apply keeps_channel_subscribe|intros _].
  apply keeps_bind; [done|intros i].
  apply keeps_bind; [by apply keeps_upd_q | intros _; apply keeps_ret].
Qed.

Lemma keeps_unsubscribe id : keeps mq_ok (unsubscribe (T := MemoryTransport.state chan_cb) (U := U) id).
Proof.
  intros h Hok. unfold unsubscribe, get_q, gets, bind. cbn.
  destruct (dget (q_sub_ids (h_rest h).1) id) as [[name f]|]; [|by apply mq_ok_rest].
  destruct (dget (q_topics (h_rest h).1) name) as [ev|] eqn:Hg; [|by apply mq_ok_rest].
  destruct (ev_unsubscribe f ev) as [b ev']. cbn. apply (mq_ok_rest h); try done. cbn.
  rewrite dkeys_dset, decide_True; [done|]. apply dmem_true. unfold dmem. by rewrite Hg.
Qed.

Lemma keeps_put_nowait msg : keeps mq_ok (MemoryTransport.put_nowait msg).
Proof.
  intros h Hok Hc.
  pose proof (MemoryTransport.wf_put_nowait msg h) as Hwf.
  unfold MemoryTransport.put_nowait in *. cbn in *.
  destruct (q_full _ _); cbn in *; destruct (Hok Hc); by split; auto.
Qed.

Lemma keeps_channel_fire (E : qenv) cb msg : env_keeps E mq_ok -> keeps mq_ok (channel_fire E cb msg).
Proof.
  intros HE. destruct cb as [name]. unfold channel_fire, get_q.
  pose proof (keeps_fire E mq_ok HE). eauto 6 with py.
Qed.

Lemma keeps_send (E : qenv) msg :
  env_keeps E mq_ok -> keeps mq_ok (t_send (Transport := local_transport E) msg).
Proof.
  intros HE. apply MemoryTransport.keeps_memory_send; [|apply keeps_put_nowait].
  intros cb. by apply keeps_channel_fire.
Qed.

Lemma keeps_receive (E : qenv) t tm :
  keeps mq_ok (t_receive (Transport := local_transport E) t tm).
Proof.
  intros h Hok Hc. pose proof (MemoryTransport.wf_receive t tm h) as Hwf.
  cbn in *. unfold MemoryTransport.receive in *.
  destruct (MemoryTransport.closed (h_tr h)) eqn:Hcl; [cbn in Hc; congruence|].
  destruct (q_get _ _) as [r q]. cbn in *. destruct (Hok Hcl). by split; auto.
Qed.

Lemma keeps_receive_async (E : qenv) t tm :
  keeps mq_ok (t_receive_async (Transport := local_transport E) t tm).
Proof.
  intros h Hok Hc. pose proof (MemoryTransport.wf_receive_async t tm h) as Hwf.
  cbn in *. unfold MemoryTransport.receive_async in *.
  destruct (MemoryTransport.closed (h_tr h)) eqn:Hcl; [cbn in Hc; congruence|].
  destruct (q_get_async _ _) as [r q]. cbn in *. destruct (Hok Hcl). by split; auto.
Qed.

Variable clock : world -> Z.

Lemma keeps_new_message t p hd rt cid : keeps mq_ok (new_message clock t p hd rt cid).
Proof. pose proof keeps_new_uuid. unfold new_message. eauto 6 with py. Qed.

(** C20 A queue and its transport never drift apart: as long as the transport
    is open there is exactly one transport subscription per topic, on that
    topic's name and firing that topic's channel.  Every operation keeps it so,
    [publish], [request] and [reply] for all handlers that keep it themselves
    (handlers may call any of these operations). *)
Theorem queue_operations_linked (E : qenv) t p hd f id tm msg d :
  env_keeps E mq_ok ->
  keeps mq_ok (topic (TR := local_transport E) t d) /\
  keeps mq_ok (subscribe (TR := local_transport E) t f) /\
  keeps mq_ok (unsubscribe (T := MemoryTransport.state chan_cb) (U := U) id) /\
  keeps mq_ok (publish (TR := local_transport E) clock t p hd) /\
  keeps mq_ok (receive (TR := local_transport E) t tm) /\
  keeps mq_ok (receive_async (TR := local_transport E) t tm) /\
  keeps mq_ok (request (TR := local_transport E) clock t p (default 0 tm) hd) /\
  keeps mq_ok (request_async (TR := local_transport E) clock t p (default 0 tm) hd) /\
  keeps mq_ok (reply (TR := local_transport E) clock msg p hd) /\
  keeps mq_ok (close (TR := local_transport E)).
Proof.
  intros HE. pose proof keeps_new_uuid. pose proof keeps_new_message.
  pose proof (fun m => keeps_send E m HE). pose proof (keeps_receive E).
  pose proof (keeps_receive_async E).
  split_and!.
  - apply keeps_topic.
  - apply keeps_subscribe.
  - apply keeps_unsubscribe.
  - unfold publish. eauto 8 with py.
  - unfold receive. eauto 8 with py.
  - unfold receive_async. eauto 8 with py.
  - unfold request. eauto 12 with py.
  - unfold request_async. eauto 12 with py.
  - unfold reply. eauto 12 with py.
  - intros h Hok Hc. cbn in Hc. done.
Qed.

(** After the [with] block the transport is closed, however it ends. *)
Lemma with_queue_closes E {A} (body : M world A) h :
  MemoryTransport.closed (h_tr (with_queue (TR := local_transport E) body h).2) = true.
Proof.
  unfold with_queue, try_finally. by destruct (body h) as [r h1].
Qed.

(** ** Delivery on a queue whose topics are plain names *)

Lemma receivers_linked msg h :
  linked h -> names_plain h ->
  receivers MemoryTransport.pattern_of memory_matches msg (MemoryTransport.subscribers (h_tr h)) h =
    if dmem (q_topics (h_rest h).1) (Types.topic msg) then [ChannelFire (Types.topic msg)] else [].
Proof.
  intros [Ht Hs Hp Hd Hwf] Hpl. unfold receivers. rewrite Hs. unfold names_plain in Hpl.
  rewrite Ht in Hpl. set (ts := q_transport_subs (h_rest h).1) in *.
  transitivity (map (fun p => ChannelFire p.1)
    (List.filter (fun p => bool_decide (Types.topic msg = p.1)) ts)).
  - assert (forall p, p ∈ ts -> dget (MemoryTransport.sub_topic (h_tr h)) p.2 = Some p.1) as Hg.
    { intros [n i] Hin. apply elem_dget.
      - unfold dict_ok. rewrite <- (MemoryTransport.wf_keys _ _ Hwf). apply Hwf.
      - rewrite Hp. apply list_elem_of_fmap. by exists (n, i). }
    rewrite Forall_forall in Hpl.
    rewrite (filter_map _ (fun p => bool_decide (Types.topic msg = p.1))); [by rewrite map_map|].
    intros [n i] Hin. unfold wants, MemoryTransport.pattern_of.
    pose proof (Hg (n, i) Hin) as Hgi. cbn in *. rewrite Hgi.
    apply memory_matches_plain, Hpl, list_elem_of_fmap. by exists (n, i).
  - rewrite filter_key by done.
    assert (dmem (q_topics (h_rest h).1) (Types.topic msg) = dmem ts (Types.topic msg)) as ->
      by (apply Bool.eq_iff_eq_true; by rewrite !dmem_true, Ht).
    unfold dmem. by destruct (dget ts (Types.topic msg)).
Qed.

(** Channels as [subscribe] makes them: broadcast, no class-level subscribers. *)
Definition simple_channels (q : qstate H) : Prop :=
  forall t ev, dget (q_topics q) t = Some ev -> ev_dispatcher ev = Broadcast /\ ev_owner_mro ev = None.

Lemma simple_channels_all q :
  Forall (fun p => ev_dispatcher p.2 = Broadcast /\ ev_owner_mro p.2 = None) (q_topics q) ->
  simple_channels q.
Proof. intros Hf t ev Hg%dget_elem. rewrite Forall_forall in Hf. by apply (Hf (t, ev)). Qed.

(** Handlers that work on their own part of the heap. *)
Record own_state (E : qenv) : Prop := {
  own_tr : forall f msg h, h_tr (invoke E f msg h).2 = h_tr h;
  own_q : forall f msg h, (h_rest (invoke E f msg h).2).1 = (h_rest h).1;
  own_exn : forall f msg h e, (invoke E f msg h).1 = Raise e -> is_Exception e = true;
}.

Lemma fire_simple (E : qenv) ev msg h :
  ev_dispatcher ev = Broadcast -> ev_owner_mro ev = None ->
  fire E ev msg h = broadcast E (ev_subscribers ev) msg h.
Proof. apply fire_plain. Qed.

Lemma broadcast_own (E : qenv) subs msg :
  own_state E -> forall s q, keeps (fun h => h_tr h = s /\ (h_rest h).1 = q) (broadcast E subs msg).
Proof.
  intros HO s q. unfold broadcast. apply keeps_for_each. intros f.
  apply keeps_bind; [|eauto with py].
  intros h [<- <-]. split; [apply (own_tr E HO) | apply (own_q E HO)].
Qed.

Lemma broadcast_tame (E : qenv) subs msg I : own_state E -> tame I (broadcast E subs msg).
Proof.
  intros HO h e _. revert h. unfold broadcast.
  induction subs as [|f subs IH]; intros h; [done|]. cbn [for_each]. unfold bind at 1 2.
  pose proof (own_exn E HO f msg h) as Hx.
  destruct (invoke E f msg h) as [[v|e'] h']; [apply IH|]. cbn. intros [= <-]. by apply Hx.
Qed.

Definition own_inv (s : MemoryTransport.state chan_cb) (q : qstate H) (h : world) : Prop :=
  h_tr h = s /\ (h_rest h).1 = q.

Lemma channel_fire_quiet (E : qenv) s q :
  own_state E -> simple_channels q ->
  quiet MemoryTransport.pattern_of (channel_fire E) (own_inv s q).
Proof.
  intros HO Hsc.
  assert (forall name msg h, own_inv s q h ->
    channel_fire E (ChannelFire name) msg h =
      match dget (q_topics q) name with
      | Some ev => broadcast E (ev_subscribers ev) msg h | None => (Ok tt, h) end) as Hcf.
  { intros name msg h [_ <-]. unfold channel_fire, get_q, bind, gets.
    destruct (dget _ name) as [ev|] eqn:Hg; [|done]. destruct (Hsc _ _ Hg). by apply fire_simple. }
  split.
  - intros [name] msg h e HI. rewrite Hcf by done. destruct (dget _ name); [|done].
    by apply (broadcast_tame E _ _ (own_inv s q)).
  - intros [name] msg h HI. rewrite Hcf by done. destruct (dget _ name); [|done].
    by apply broadcast_own.
  - intros [name] msg h id HI. rewrite Hcf by done. destruct (dget _ name) as [ev|]; [|done].
    unfold MemoryTransport.pattern_of.
    pose proof (broadcast_own E (ev_subscribers ev) msg HO s q h HI) as [-> _].
    by destruct HI as [-> _].
Qed.

(** The handlers of a topic. *)
Definition handlers_of (t : string) (h : world) : list H :=
  match dget (q_topics (h_rest h).1) t with Some ev => ev_subscribers ev | None => [] end.

(** The heap in which the message of a [publish] exists. *)
Definition after_uuid (h : world) : world := mkHeap (S (h_uuid h)) (h_tr h) (h_rest h).

Lemma send_local (E : qenv) msg h :
  linked h -> names_plain h -> MemoryTransport.closed (h_tr h) = false ->
  own_state E -> simple_channels (h_rest h).1 ->
  t_send (Transport := local_transport E) msg h =
    MemoryTransport.put_nowait msg (broadcast E (handlers_of (Types.topic msg) h) msg h).2.
Proof.
  intros Hl Hpl Hc HO Hsc. cbn. unfold MemoryTransport.send, get_tr, gets, bind at 1. rewrite Hc.
  unfold bind.
  rewrite (notify_quiet _ _ _ (own_inv (h_tr h) (h_rest h).1))
    by (done || by apply channel_fire_quiet).
  f_equal. rewrite receivers_linked by done. unfold dmem, handlers_of.
  destruct (dget (q_topics (h_rest h).1) (Types.topic msg)) as [ev|] eqn:Hg; [|done].
  unfold run_all. cbn [fold_left]. f_equal. unfold channel_fire, get_q, bind, gets. rewrite Hg.
  by apply fire_simple; apply (Hsc _ _ Hg).
Qed.

(** C21 [publish] reaches exactly the handlers subscribed to the topic: on a
    queue whose topics are plain names it runs the handlers of that topic and
    no others, in subscription order, each once, as a broadcast that stops at
    the first handler that raises; the exception itself never reaches the
    publisher, who gets the message id, or [TransportFullError] when nobody has
    been draining the topic. *)
Theorem publish_delivers (E : qenv) t p hd h :
  linked h -> names_plain h -> MemoryTransport.closed (h_tr h) = false ->
  own_state E -> simple_channels (h_rest h).1 ->
  let h1 := after_uuid h in
  let msg := mkMessage (uuid4 (h_uuid h)) t p hd (clock h1) None None in
  let h' := (publish (TR := local_transport E) clock t p hd h).2 in
  (publish (TR := local_transport E) clock t p hd h).1 =
    (if MemoryTransport.full (h_tr h) t then Raise (TransportFullError t (MemoryTransport.max_queue_size (h_tr h))) else Ok (msg_id msg)) /\
  h_rest h' = h_rest (broadcast E (handlers_of t h) msg h1).2.
Proof.
  intros Hl Hpl Hc HO Hsc. cbv zeta.
  unfold publish, new_message, new_uuid, gets, ret, bind. fold (after_uuid h).
  set (msg := mkMessage _ _ _ _ _ _ _).
  assert (linked (after_uuid h)) as Hl1.
  { destruct Hl as [? ? ? ? Hwf]. split; try done.
    refine (MemoryTransport.wf_mono _ _ _ _ Hwf). cbn. lia. }
  rewrite send_local by done. change (handlers_of (Types.topic msg) (after_uuid h)) with (handlers_of t h).
  pose proof (broadcast_own E (handlers_of t h) msg HO (h_tr h) (h_rest h).1 (after_uuid h)
    ltac:(done)) as [Htr _].
  set (h2 := (broadcast _ _ _ _).2) in *.
  pose proof (MemoryTransport.put_nowait_spec msg h2 t) as (Hr & Hrest & _).
  rewrite Htr in Hr. change (Types.topic msg) with t in Hr.
  destruct (MemoryTransport.put_nowait msg h2) as [r h3]. cbn in Hr, Hrest. subst r.
  by destruct (MemoryTransport.full (h_tr h) t).
Qed.

(** ** Subscriptions *)

Lemma handlers_set_topic name ev t h :
  handlers_of t (set_rest (set_topic name ev (h_rest h).1, (h_rest h).2) h) =
    if decide (t = name) then ev_subscribers ev else handlers_of t h.
Proof. unfold handlers_of. cbn. rewrite dget_dset. by destruct (decide (t = name)). Qed.

Lemma list_remove_perm (f : H) l : f ∈ l -> exists l', list_remove f l = Some l' /\ l ≡ₚ f :: l'.
Proof.
  induction l as [|x l IH]; [by intros ?%not_elem_of_nil|].
  intros Hin. cbn. destruct (decide (x = f)) as [->|Hne]; [eauto|].
  apply elem_of_cons in Hin as [?|Hin]; [congruence|].
  destruct (IH Hin) as (l' & -> & Hl). exists (x :: l'). split; [done|].
  rewrite Hl. apply Permutation_swap.
Qed.

Lemma subscribe_spec (E : qenv) t f h :
  linked h -> MemoryTransport.closed (h_tr h) = false ->
  exists id h1 ev, subscribe (TR := local_transport E) t f h = (Ok id, h1) /\
    (h_rest h1).2 = (h_rest h).2 /\
    dget (q_sub_ids (h_rest h1).1) id = Some (t, f) /\
    dget (q_topics (h_rest h1).1) t = Some ev /\
    ev_subscribers ev = handlers_of t h ++ [f] /\
    forall t', t' <> t -> handlers_of t' h1 = handlers_of t' h.
Proof.
  intros Hl Hc. unfold subscribe, bind at 1.
  destruct (linked_topic t None E h Hl Hc) as (h1 & -> & _ & _ & Hrest & _ & Htop).
  assert (exists ev, dget (q_topics (h_rest h1).1) t = Some ev /\
    ev_subscribers ev = handlers_of t h /\
    forall t', t' <> t -> handlers_of t' h1 = handlers_of t' h) as (ev & Hg & Hs & Ho).
  { unfold handlers_of. rewrite Htop. unfold dmem.
    destruct (dget (q_topics (h_rest h).1) t) as [ev|] eqn:Hg; [by exists ev|].
    exists (new_eventful None). rewrite dget_dset_eq. split_and!; [done..|].
    intros t' Ht'. by rewrite dget_dset_ne. }
  unfold bind, channel_subscribe, upd_q, upd_rest, modify, new_uuid, ret. cbn. rewrite Hg.
  eexists _, _, (ev_subscribe f ev). split; [done|]. cbn.
  rewrite !dget_dset_eq, Hs. split_and!; [done..|].
  intros t' Ht'. rewrite <- (Ho t' Ht'). unfold handlers_of. cbn. by rewrite dget_dset_ne.
Qed.

Lemma unsubscribe_spec id t f ev l h :
  dget (q_sub_ids (h_rest h).1) id = Some (t, f) -> dget (q_topics (h_rest h).1) t = Some ev ->
  list_remove f (ev_subscribers ev) = Some l ->
  exists h', unsubscribe id h = (Ok true, h') /\ dget (q_sub_ids (h_rest h').1) id = None /\
    (h_rest h').2 = (h_rest h).2 /\
    forall t', handlers_of t' h' = if decide (t' = t) then l else handlers_of t' h.
Proof.
  intros Hid Hg Hrm. unfold unsubscribe, get_q, upd_q, upd_rest, modify, gets, bind, ret.
  rewrite Hid. cbn. rewrite Hg. unfold ev_unsubscribe. rewrite Hrm.
  eexists. split; [done|]. split; [apply dget_ddel_eq|]. split; [done|].
  intros t'. unfold handlers_of. cbn. rewrite dget_dset. by destruct (decide (t' = t)).
Qed.

(** Taking the last of a topic's handlers out again *)
Lemma unsubscribe_last id t f ev l h :
  dget (q_sub_ids (h_rest h).1) id = Some (t, f) -> dget (q_topics (h_rest h).1) t = Some ev ->
  ev_subscribers ev = l ++ [f] ->
  exists h', unsubscribe id h = (Ok true, h') /\ dget (q_sub_ids (h_rest h').1) id = None /\
    (h_rest h').2 = (h_rest h).2 /\ handlers_of t h' ≡ₚ l /\
    forall t', t' <> t -> handlers_of t' h' = handlers_of t' h.
Proof.
  intros Hid Hg Hl. destruct (list_remove_perm f (ev_subscribers ev)) as (l' & Hrm & Hp).
  { rewrite Hl, elem_of_app. right. apply list_elem_of_here. }
  destruct (unsubscribe_spec id t f ev l' h Hid Hg Hrm) as (h' & Hu & Hi & Hr & Hh).
  exists h'. split_and!; [done..| |].
  - rewrite Hh, decide_True by done. rewrite Hl in Hp. apply (Permutation_cons_inv (a := f)).
    by rewrite <- Hp, <- Permutation_cons_append.
  - intros t' Ht. by rewrite Hh, decide_False.
Qed.

(** [subscribe] then [unsubscribe]: the handler is added as the last of
    its topic's and of no other's; its id takes one registration of it out again
    (all topics then have the handlers they had before, up to the order when the
    same handler was registered twice), and works only once. *)
Theorem subscribe_unsubscribe (E : qenv) t f h :
  linked h -> MemoryTransport.closed (h_tr h) = false ->
  exists id h1 h2 h3,
    subscribe (TR := local_transport E) t f h = (Ok id, h1) /\
    handlers_of t h1 = handlers_of t h ++ [f] /\
    unsubscribe id h1 = (Ok true, h2) /\
    (forall t', handlers_of t' h2 ≡ₚ handlers_of t' h) /\
    unsubscribe id h2 = (Ok false, h3).
Proof.
  intros Hl Hc. destruct (subscribe_spec E t f h Hl Hc) as (id & h1 & ev & -> & _ & Hid & Hg & Hs & Ho).
  destruct (unsubscribe_last id t f ev _ h1 Hid Hg Hs) as (h2 & Hu & Hi & _ & Ht & Hot).
  exists id, h1, h2. eexists. split; [done|]. split; [unfold handlers_of at 1; by rewrite Hg|]. split; [done|]. split.
  - intros t'. destruct (decide (t' = t)) as [->|Hne]; [done|]. by rewrite Hot, Ho.
  - unfold unsubscribe, get_q, upd_q, upd_rest, modify, gets, bind, ret. by rewrite Hi.
Qed.

(** ** Request and reply *)

Lemma linked_same h h' :
  linked h -> h_tr h' = h_tr h -> (h_rest h').1 = (h_rest h).1 -> (h_uuid h <= h_uuid h')%nat -> linked h'.
Proof.
  intros [? ? ? ? Hwf] Ht Hr Hu. split; rewrite ?Ht, ?Hr; try done.
  unfold MemoryTransport.wf. rewrite Ht. exact (MemoryTransport.wf_mono _ _ _ Hu Hwf).
Qed.

Lemma linked_mono n h : (h_uuid h <= n)%nat -> linked h -> linked (mkHeap n (h_tr h) (h_rest h)).
Proof. intros Hn Hl. by apply (linked_same h). Qed.

Lemma wants_pats msg (h h' : world) :
  MemoryTransport.sub_topic (h_tr h') = MemoryTransport.sub_topic (h_tr h) ->
  forall sub : string * chan_cb, wants MemoryTransport.pattern_of memory_matches h' msg sub =
    wants MemoryTransport.pattern_of memory_matches h msg sub.
Proof. intros Hs sub. unfold wants, MemoryTransport.pattern_of. by rewrite Hs. Qed.

(** A message to a topic without channel goes to the receive queue only. *)
Lemma send_untopiced (E : qenv) msg h :
  linked h -> names_plain h -> MemoryTransport.closed (h_tr h) = false ->
  dmem (q_topics (h_rest h).1) (Types.topic msg) = false ->
  t_send (Transport := local_transport E) msg h = MemoryTransport.put_nowait msg h.
Proof.
  intros Hl Hp Hc Hm. pose proof (receivers_linked msg h Hl Hp) as Hr. rewrite Hm in Hr.
  apply fmap_nil_inv, filter_nil_inv in Hr.
  cbn. unfold MemoryTransport.send, get_tr, gets, bind. rewrite Hc. by rewrite notify_unwanted.
Qed.

(** A message to a topic whose channel leaves the subscriptions alone; what the
    channel raises is dropped. *)
Lemma send_fired (E : qenv) msg h h' r :
  linked h -> names_plain h -> MemoryTransport.closed (h_tr h) = false ->
  dmem (q_topics (h_rest h).1) (Types.topic msg) = true ->
  channel_fire E (ChannelFire (Types.topic msg)) msg h = (r, h') ->
  (forall e, r = Raise e -> is_Exception e = true) ->
  MemoryTransport.sub_topic (h_tr h') = MemoryTransport.sub_topic (h_tr h) ->
  t_send (Transport := local_transport E) msg h = MemoryTransport.put_nowait msg h'.
Proof.
  intros Hl Hp Hc Hm Hf He Hs. pose proof (receivers_linked msg h Hl Hp) as Hr. rewrite Hm in Hr.
  apply fmap_cons_inv in Hr as (sub & l & Hsub & Hnil & Hr).
  apply eq_sym, fmap_nil_inv in Hnil as ->.
  apply filter_one_inv in Hr as (pre & post & Heq & Hw & Hpre & Hpost).
  cbn. unfold MemoryTransport.send, get_tr, gets, bind. rewrite Hc, Heq.
  rewrite (notify_single _ _ _ msg pre sub post h h' r); [done..|by rewrite <- Hsub|done|].
  refine (Forall_impl _ _ _ Hpost _). intros x. by rewrite (wants_pats msg h h').
Qed.

Lemma send_topiced (E : qenv) msg h h' :
  linked h -> names_plain h -> MemoryTransport.closed (h_tr h) = false ->
  dmem (q_topics (h_rest h).1) (Types.topic msg) = true ->
  channel_fire E (ChannelFire (Types.topic msg)) msg h = (Ok tt, h') ->
  MemoryTransport.sub_topic (h_tr h') = MemoryTransport.sub_topic (h_tr h) ->
  t_send (Transport := local_transport E) msg h = MemoryTransport.put_nowait msg h'.
Proof. intros. by apply (send_fired E msg h h' (Ok tt)). Qed.

Lemma put_nowait_pats msg (h : world) :
  MemoryTransport.sub_topic (h_tr (MemoryTransport.put_nowait msg h).2) =
    MemoryTransport.sub_topic (h_tr h).
Proof. unfold MemoryTransport.put_nowait. by destruct (q_full _ _). Qed.

Lemma full_empty s t : MemoryTransport.queue_of (CB := chan_cb) s t = [] ->
  MemoryTransport.full s t = false.
Proof.
  intros Hq. unfold MemoryTransport.full, q_full. rewrite Hq. cbn.
  apply andb_false_iff. rewrite !bool_decide_eq_false. lia.
Qed.

(** A message to a topic whose channel answers it with [r], sent from [h4] on a
    reply topic that is free, and the receive that takes the answer. *)
Lemma exchange (E : qenv) msg r h h4 tm :
  linked h -> names_plain h -> MemoryTransport.closed (h_tr h) = false ->
  dmem (q_topics (h_rest h).1) (Types.topic msg) = true ->
  MemoryTransport.full (h_tr h) (Types.topic msg) = false ->
  Types.topic msg <> Types.topic r -> h_tr h4 = h_tr h ->
  MemoryTransport.queue_of (h_tr h) (Types.topic r) = [] -> 0 <= tm ->
  (forall h5, MemoryTransport.put_nowait r h4 = (Ok tt, h5) ->
     channel_fire E (ChannelFire (Types.topic msg)) msg h = (Ok tt, h5)) ->
  exists h6 h', t_send (Transport := local_transport E) msg h = (Ok tt, h6) /\
    t_receive (Transport := local_transport E) (Types.topic r) (Some tm) h6 = (Ok (Done (Some r)), h') /\
    MemoryTransport.queue_of (h_tr h') (Types.topic r) = [] /\ h_rest h' = h_rest h4.
Proof.
  intros Hl Hpl Hc Hm Hfull Hne Htr Hq Htm Hfire. set (t := Types.topic msg) in *. set (rt := Types.topic r) in *.
  pose proof (fun t => MemoryTransport.put_nowait_spec r h4 t) as Hput.
  destruct (MemoryTransport.put_nowait r h4) as [res h5] eqn:Hp5.
  assert (res = Ok tt) as ->.
  { destruct (Hput t) as (Hr & _). fold rt in Hr. by rewrite Htr, full_empty in Hr. }
  assert (MemoryTransport.sub_topic (h_tr h5) = MemoryTransport.sub_topic (h_tr h)) as Hst.
  { pose proof (put_nowait_pats r h4) as Hst. by rewrite Hp5, Htr in Hst. }
  rewrite (send_topiced E msg h h5) by auto.
  destruct (Hput t) as (_ & Hrest & _ & Hmax & Hcl & Hqt). destruct (Hput rt) as (_ & _ & _ & _ & _ & Hqr).
  cbn [snd] in *. fold rt in Hqr, Hqt. rewrite decide_False, app_nil_r in Hqt by naive_solver.
  rewrite decide_True in Hqr by (by rewrite Htr, full_empty).
  pose proof (MemoryTransport.put_nowait_spec msg h5 rt) as (Hok & Hrest6 & _ & _ & Hcl6 & Hq6).
  fold t in Hok, Hq6. rewrite Htr in *.
  assert (MemoryTransport.full (h_tr h5) t = false) as Hf5
    by (unfold MemoryTransport.full in *; by rewrite Hqt, Hmax).
  rewrite Hf5 in Hok. rewrite decide_False, app_nil_r in Hq6 by naive_solver.
  destruct (MemoryTransport.put_nowait msg h5) as [res h6]. cbn [fst snd] in *. subst res.
  rewrite Hqr, Hq in Hq6.
  destruct (MemoryTransport.receive_head rt tm h6 Htm) as (h7 & Hrecv & _ & Hr7 & Hq7); [by rewrite Hcl6, Hcl|].
  rewrite Hq6 in Hrecv, Hq7. exists h6, h7. split; [done|]. split; [exact Hrecv|]. split; [exact Hq7|]. congruence.
Qed.

Lemma request_async_timeout (E : qenv) t p tm hd h : 0 < tm ->
  request_async (TR := local_transport E) clock t p tm hd h = request (TR := local_transport E) clock t p tm hd h.
Proof.
  intros Htm. unfold request_async, request, new_message, new_uuid, gets, ret. unfold bind. cbn [h_uuid h_tr h_rest fst snd].
  destruct (t_send _ _) as [[] h']; [|done]. by apply MemoryTransport.receive_async_timeout.
Qed.

(** C22 A request is answered: when the handler of topic [t] replies with
    [g] of the payload, [request] returns that reply, on the request's own reply
    topic and under its correlation id, and leaves no message behind there.  So
    does [request_async], if its timeout is positive.
    ([E'] runs the callbacks of the handler's own send, of which there are none.) *)
Theorem request_reply (E E' : qenv) (g : val -> val) t f p tm hd h :
  linked h -> names_plain h -> MemoryTransport.closed (h_tr h) = false ->
  simple_channels (h_rest h).1 -> handlers_of t h = [f] ->
  (forall msg h', invoke E f msg h' =
     (reply (TR := local_transport E') clock msg (g (payload msg)) [] ;;; ret VNone) h') ->
  MemoryTransport.full (h_tr h) t = false -> 0 <= tm ->
  let rt := "_reply." +:+ uuid4 (h_uuid h) in
  dmem (q_topics (h_rest h).1) rt = false ->
  MemoryTransport.queue_of (h_tr h) rt = [] ->
  exists h' r, request (TR := local_transport E) clock t p tm hd h = (Ok (Done (Some r)), h') /\
    payload r = g p /\ Types.topic r = rt /\ correlation_id r = Some (uuid4 (S (h_uuid h))) /\
    MemoryTransport.queue_of (h_tr h') rt = [] /\
    (0 < tm -> request_async (TR := local_transport E) clock t p tm hd h = (Ok (Done (Some r)), h')).
Proof.
  intros Hl Hpl Hc Hsc Hh Hf Hfull Htm rt Hrt Hq.
  enough (exists h' r, request (TR := local_transport E) clock t p tm hd h = (Ok (Done (Some r)), h') /\
    payload r = g p /\ Types.topic r = rt /\ correlation_id r = Some (uuid4 (S (h_uuid h))) /\
    MemoryTransport.queue_of (h_tr h') rt = []) as (h' & r & Hr & ? & ? & ? & ?).
  { exists h', r. split_and!; [done..|]. intros Hpos. by rewrite request_async_timeout. }
  unfold request, new_message, new_uuid, gets, ret. unfold bind. cbn [h_uuid h_tr h_rest fst snd]. fold rt.
  set (cid := uuid4 (S (h_uuid h))). set (h3 := mkHeap _ _ _). set (msg := mkMessage _ _ _ _ _ _ _).
  assert (linked h3) as Hl3 by (apply linked_mono; [lia|done]).
  set (h4 := after_uuid h3). set (r := mkMessage (uuid4 (h_uuid h3)) rt (g p) [] (clock h4) None (Some cid)).
  assert (linked h4) as Hl4 by (apply (linked_mono _ h3); [cbn; lia|done]).
  assert (t <> rt) as Htne.
  { intros ->. unfold handlers_of in Hh. unfold dmem in Hrt. by destruct (dget (q_topics (h_rest h).1) rt). }
  assert (dmem (q_topics (h_rest h3).1) t = true) as Hmt.
  { unfold handlers_of in Hh. cbn. unfold dmem. by destruct (dget (q_topics (h_rest h).1) t). }
  destruct (exchange E msg r h3 h4 tm) as (h6 & h' & Hsend & Hrecv & Hq' & _); try done.
  - intros h5 Hp5. unfold channel_fire, get_q, gets, bind. unfold handlers_of in Hh. cbn.
    destruct (dget (q_topics (h_rest h).1) t) as [ev|] eqn:Hg; [|done].
    destruct (Hsc _ _ Hg). rewrite fire_simple, Hh by done.
    unfold broadcast. cbn [for_each]. unfold bind at 1 2. rewrite Hf.
    unfold reply. cbn [reply_to msg]. rewrite decide_False by done.
    unfold new_message, new_uuid, gets, ret, bind. cbn [h_uuid h_tr h_rest].
    change (mkHeap _ _ _) with h4. cbn [payload correlation_id msg]. fold r.
    rewrite send_untopiced, Hp5 by done. done.
  - exists h', r. rewrite Hsend. by split; [exact Hrecv|].
Qed.
End local.

(** ** A concrete queue: handlers are numbers, the odd ones raise, the even
    ones record the message *)
Module Toy.
Abbreviation world := (heap (MemoryTransport.state chan_cb) (qstate nat * list (nat * string))).

Definition env_of (call : nat -> Message -> M world val) : env world nat Message := plain_env call.

Definition run (f : nat) (msg : Message) : M world val :=
  if Nat.odd f then throw (Exc "ValueError" "odd")
  else upd_rest (fun r => (r.1, r.2 ++ [(f, msg_id msg)])) ;;; ret VNone.

Definition E : env world nat Message := env_of run.

(** An echo server: every handler replies with its payload. *)
Definition echo : env world nat Message :=
  env_of (fun _ msg => reply (TR := local_transport E) (fun _ => 0) msg (payload msg) [] ;;; ret VNone).

Definition subs (fs : list nat) : world :=
  (for_each fs (fun f => subscribe (TR := local_transport E) "t" f ;;; ret tt)
    (init 0 10 [])).2.

Lemma keeps_subs fs : keeps mq_ok
  (for_each fs (fun f => subscribe (H := nat) (U := list (nat * string)) (TR := local_transport E) "t" f ;;; ret tt)).
Proof.
  apply keeps_for_each. intros f. apply keeps_bind; [|intros _; apply keeps_ret].
  apply keeps_subscribe.
Qed.

Lemma subs_linked fs : MemoryTransport.closed (h_tr (subs fs)) = false -> linked (subs fs).
Proof. apply keeps_subs, mq_ok_init. Qed.

Lemma run_own : own_state E.
Proof.
  split; intros f msg h; cbn; unfold run; destruct (Nat.odd f); try done.
  by intros e [= <-].
Qed.

Lemma run_keeps : env_keeps E mq_ok.
Proof.
  split; try done; cbn; intros; try apply keeps_ret.
  unfold run. destruct (Nat.odd f); [apply keeps_throw|]. apply keeps_bind; [|intros; apply keeps_ret].
  intros h Hh. by apply mq_ok_rest.
Qed.
End Toy.

Lemma queue_operations_linked_witness :
  linked (publish (TR := local_transport Toy.E) (fun _ => 0) "t" VNone [] (Toy.subs [2%nat; 1%nat])).2.
Proof.
  destruct (queue_operations_linked (fun _ => 0) Toy.E "t" VNone [] 2%nat "" None
    (mkMessage "" "" VNone [] 0 None None) None Toy.run_keeps) as (_ & _ & _ & Hp & _).
  apply (Hp (Toy.subs [2%nat; 1%nat])); [|reflexivity]. intros _. apply Toy.subs_linked. reflexivity.
Defined.

(** Handlers 2, 1, 4: handler 1 raises, so handler 4 does not run, and the
    publisher still gets its message id. *)
Lemma publish_delivers_witness :
  let h := Toy.subs [2%nat; 1%nat; 4%nat] in
  let h' := (publish (TR := local_transport Toy.E) (fun _ => 0) "t" VNone [] h).2 in
  is_Ok (publish (TR := local_transport Toy.E) (fun _ => 0) "t" VNone [] h).1 = true /\
  map fst (h_rest h').2 = [2%nat].
Proof.
  destruct (publish_delivers (fun _ => 0) Toy.E "t" VNone [] (Toy.subs [2%nat; 1%nat; 4%nat]))
    as [Hr Hh].
  - apply Toy.subs_linked. reflexivity.
  - unfold names_plain. apply (bool_decide_eq_true_1 _). vm_compute. reflexivity.
  - reflexivity.
  - apply Toy.run_own.
  - apply simple_channels_all. vm_compute. by repeat constructor.
  - split; [rewrite Hr; reflexivity | rewrite Hh; reflexivity].
Defined.

Lemma subscribe_unsubscribe_witness :
  exists id h1 h2 h3, subscribe (TR := local_transport Toy.E) "t" 7%nat (Toy.subs [7%nat; 8%nat]) = (Ok id, h1) /\
    unsubscribe id h1 = (Ok true, h2) /\ unsubscribe id h2 = (Ok false, h3).
Proof.
  destruct (subscribe_unsubscribe Toy.E "t" 7%nat (Toy.subs [7%nat; 8%nat]))
    as (id & h1 & h2 & h3 & ? & _ & ? & _ & ?); [apply Toy.subs_linked; reflexivity|reflexivity|].
  by exists id, h1, h2, h3.
Defined.

Lemma request_reply_witness :
  exists h' r, request (TR := local_transport Toy.echo) (fun _ => 0) "t" (VInt 42) 5 [] (Toy.subs [0%nat])
    = (Ok (Done (Some r)), h') /\ payload r = VInt 42.
Proof.
  destruct (request_reply (fun _ => 0) Toy.echo Toy.E (fun v => v) "t" 0%nat (VInt 42) 5 [] (Toy.subs [0%nat]))
    as (h' & r & Hr & Hp & _); try reflexivity.
  - apply Toy.subs_linked. reflexivity.
  - unfold names_plain. apply (bool_decide_eq_true_1 _). vm_compute. reflexivity.
  - apply simple_channels_all. vm_compute. by repeat constructor.
  - lia.
  - by exists h', r.
Defined.
End Local.
