(* ===== verification/WorkQueue.v ===== *)
(** * [eventforge/work_queue.py]: [WorkQueue]

    The attributes of the object, one record field each; [spawned] holds the
    handler threads that have been started and have not ended, [now] the reading
    of the clocks.  An operation is one statement per critical section of the
    lock: where a method leaves the lock and enters it again ([enqueue], then
    [_try_dispatch]) the two parts are definitions of their own, and the step
    relation of the second half of the file interleaves them. *)
From S2P Require Import Prelude PyDict PyFloat Queue Transport Types.

Module WorkQueue.

Record InFlightEntry : Type := mkEntry {
  message : Message;
  delivery_id : string;
  e_topic : string;
  consumer_group : string;
  delivered_at : Z;
  visibility_timeout : val;
  retry_count : val;
}.

(** The constructor's arguments. *)
Record config : Type := mkConfig {
  max_work_queue_size : Z;
  default_visibility_timeout : val;
  max_retries : Z;
}.

Abbreviation gkey := (string * string)%type.

(** [_invoke_handler(handler, delivered, delivery_id)] in a thread of its own *)
Record invocation (H : Type) : Type := mkInv { i_handler : H; i_message : Message; i_id : string }.
Arguments mkInv {H} _ _ _.
Arguments i_handler {H} _.
Arguments i_message {H} _.
Arguments i_id {H} _.

Record wq (H : Type) : Type := mkWQ {
  cfg : config;
  pending : list (string * list Message);
  in_flight : list (string * InFlightEntry);
  consumer_groups : list (gkey * list (string * H));
  rr_index : list (gkey * nat);
  consumer_registry : list (string * gkey);
  closed_wq : bool;
  reaper_running : bool;
  spawned : list (invocation H);
  now : Z;
}.
Arguments mkWQ {H} _ _ _ _ _ _ _ _ _ _.
Arguments cfg {H} _.
Arguments pending {H} _.
Arguments in_flight {H} _.
Arguments consumer_groups {H} _.
Arguments rr_index {H} _.
Arguments consumer_registry {H} _.
Arguments closed_wq {H} _.
Arguments reaper_running {H} _.
Arguments spawned {H} _.
Arguments now {H} _.

(** [d >= vt] for a duration [d] and a header value [vt]: a number, or TypeError *)
Definition duration_ge (d : Z) (vt : val) : result bool :=
  match vt with
  | VInt z => Ok (bool_decide (z <= d))
  | VBool b => Ok (bool_decide (Z.b2z b <= d))
  | VFloat f => Ok (float_le_int f d)
  | _ => Raise (Exc "TypeError" "'>=' not supported")
  end.

Definition h_retry : string := "_wq_retry_count".
Definition h_topic : string := "_wq_original_topic".
Definition h_enqueued : string := "_wq_enqueued_at".
Definition h_vt : string := "_wq_visibility_timeout".
Definition h_delivery : string := "_wq_delivery_id".
Definition h_dead_at : string := "_wq_dead_lettered_at".
Definition h_reason : string := "_wq_dead_letter_reason".

Section ops.
Context {T H : Type} `{!EqDecision H}.
Abbreviation wq := (wq H).
Abbreviation world := (heap T (qstate H * wq)).
Context {TR : Transport world chan_cb}.
(** [datetime.isoformat()] *)
Variable isoformat : Z -> string.

(** [WorkQueue(...)], next to the [MessageQueue] part *)
Definition init (c : config) (t : Z) : wq := mkWQ c [] [] [] [] [] false false [] t.

Definition set_pending (p : list (string * list Message)) (w : wq) : wq :=
  mkWQ (cfg w) p (in_flight w) (consumer_groups w) (rr_index w) (consumer_registry w)
       (closed_wq w) (reaper_running w) (spawned w) (now w).
Definition set_in_flight (f : list (string * InFlightEntry)) (w : wq) : wq :=
  mkWQ (cfg w) (pending w) f (consumer_groups w) (rr_index w) (consumer_registry w)
       (closed_wq w) (reaper_running w) (spawned w) (now w).
Definition set_consumers (g : list (gkey * list (string * H))) (r : list (gkey * nat))
    (c : list (string * gkey)) (w : wq) : wq :=
  mkWQ (cfg w) (pending w) (in_flight w) g r c
       (closed_wq w) (reaper_running w) (spawned w) (now w).
Definition set_flags (cl re : bool) (w : wq) : wq :=
  mkWQ (cfg w) (pending w) (in_flight w) (consumer_groups w) (rr_index w) (consumer_registry w)
       cl re (spawned w) (now w).
Definition set_spawned (l : list (invocation H)) (w : wq) : wq :=
  mkWQ (cfg w) (pending w) (in_flight w) (consumer_groups w) (rr_index w) (consumer_registry w)
       (closed_wq w) (reaper_running w) l (now w).
Definition set_now (t : Z) (w : wq) : wq :=
  mkWQ (cfg w) (pending w) (in_flight w) (consumer_groups w) (rr_index w) (consumer_registry w)
       (closed_wq w) (reaper_running w) (spawned w) t.

Definition the_wq (h : world) : wq := (h_rest h).2.
Definition get_wq : M world wq := gets the_wq.
Definition upd_wq (f : wq -> wq) : M world unit := upd_rest (fun r => (r.1, f r.2)).

(** [self._pending[topic]] *)
Definition pending_of (t : string) (w : wq) : list Message := dget_or [] (pending w) t.
Definition put_pending (t : string) (q : list Message) : M world unit :=
  upd_wq (fun w => set_pending (dset (pending w) t q) w).
Definition append_pending (t : string) (m : Message) : M world unit :=
  upd_wq (fun w => set_pending (dset (pending w) t (pending_of t w ++ [m])) w).
Definition appendleft_pending (t : string) (m : Message) : M world unit :=
  upd_wq (fun w => set_pending (dset (pending w) t (m :: pending_of t w)) w).

(** *** Delivery *)
Definition start_reaper_if_needed : M world unit :=
  upd_wq (fun w => if reaper_running w then w else set_flags (closed_wq w) true w).

Definition make_in_flight (msg : Message) (t group : string) : M world Message :=
  let! did := new_uuid in
  let! w := get_wq in
  let vt := default (default_visibility_timeout (cfg w)) (dget (headers msg) h_vt) in
  let rc := default (VInt 0) (dget (headers msg) h_retry) in
  let delivered := with_headers msg (dset (headers msg) h_delivery (VStr did)) in
  let entry := mkEntry msg did t group (now w) vt rc in
  upd_wq (fun w => set_in_flight (dset (in_flight w) did entry) w) ;;;
  start_reaper_if_needed ;;;
  ret delivered.

(** The groups of a topic, in the order their first consumers came. *)
Definition groups_of (t : string) (w : wq) : list gkey :=
  List.filter (fun k => bool_decide (k.1 = t)) (dkeys (consumer_groups w)).

Definition set_rr (key : gkey) (n : nat) (w : wq) : wq :=
  set_consumers (consumer_groups w) (dset (rr_index w) key n) (consumer_registry w) w.

(** The body of [for key in groups:] *)
Definition dispatch_one (t : string) (several : bool) (msg : Message) (key : gkey)
    : M world (list (invocation H)) :=
  let! w := get_wq in
  match dget (consumer_groups w) key with
  | None | Some [] => ret []
  | Some entries =>
      let! msg_copy := (if several then let! i := new_uuid in ret (with_id msg i) else ret msg) in
      let! delivered := make_in_flight msg_copy t key.2 in
      let idx := (dget_or 0 (rr_index w) key mod length entries)%nat in
      match entries !! idx, dget (headers delivered) h_delivery with
      | Some (_, handler), Some (VStr did) =>
          upd_wq (set_rr key (S idx)) ;;;
          ret [mkInv handler delivered did]
      | None, _ => throw (Exc "IndexError" "list index out of range")
      | _, _ => throw (Exc "KeyError" h_delivery)
      end
  end.

Fixpoint dispatch_groups (t : string) (several : bool) (msg : Message) (keys : list gkey)
    : M world (list (invocation H)) :=
  match keys with
  | [] => ret []
  | key :: keys' =>
      let! i := dispatch_one t several msg key in
      let! rest := dispatch_groups t several msg keys' in
      ret (i ++ rest)
  end.

(** [while self._pending[topic]:], by recursion on the queue, which only this
    loop changes while it holds the lock *)
Fixpoint dispatch_loop (t : string) (groups : list gkey) (q : list Message)
    : M world (list (invocation H)) :=
  match q with
  | [] => ret []
  | msg :: q' =>
      put_pending t q' ;;;
      let! invs := dispatch_groups t (1 <? length groups)%nat msg groups in
      match invs with
      | [] => put_pending t (msg :: q') ;;; ret []
      | _ => let! rest := dispatch_loop t groups q' in ret (invs ++ rest)
      end
  end.

Definition try_dispatch (t : string) : M world unit :=
  let! w := get_wq in
  match groups_of t w with
  | [] => ret tt
  | groups =>
      let! to_invoke := dispatch_loop t groups (pending_of t w) in
      upd_wq (fun w => set_spawned (spawned w ++ to_invoke) w)
  end.

(** *** The public operations *)
Definition QueueFullError (t : string) (n : Z) : exn :=
  Exc "QueueFullError"
    ("Work queue for topic '" +:+ t +:+ "' is full (" +:+ pretty n +:+ " messages)").

Definition clock_now (h : world) : Z := now (the_wq h).

(** [enqueue] up to the end of its [with] block *)
Definition enqueue_locked (t : string) (p : val) (vt : option val) (hd : hdrs) : M world string :=
  let! w := get_wq in
  let defaults := [(h_retry, VInt 0); (h_topic, VStr t); (h_enqueued, VStr (isoformat (now w)));
                   (h_vt, default (default_visibility_timeout (cfg w)) vt)] in
  let! m := new_message clock_now t p (dmerge defaults hd) None None in
  if bool_decide (0 < max_work_queue_size (cfg w)) &&
     bool_decide (max_work_queue_size (cfg w) <= Z.of_nat (length (pending_of t w)))
  then throw (QueueFullError t (max_work_queue_size (cfg w)))
  else append_pending t m ;;; ret (msg_id m).

Definition enqueue (t : string) (p : val) (vt : option val) (hd : hdrs) : M world string :=
  let! i := enqueue_locked t p vt hd in
  try_dispatch t ;;;
  ret i.

Definition consume_locked (t : string) (handler : H) (group : option string) : M world string :=
  let key := (t, match group with
                 | Some g => if opt_truthy group then g else t +:+ ".default"
                 | None => t +:+ ".default"
                 end) in
  let! cid := new_uuid in
  upd_wq (fun w =>
    set_consumers (dset (consumer_groups w) key
                        (dget_or [] (consumer_groups w) key ++ [(cid, handler)]))
                  (rr_index w) (dset (consumer_registry w) cid key) w) ;;;
  ret cid.

Definition consume (t : string) (handler : H) (group : option string) : M world string :=
  let! cid := consume_locked t handler group in
  try_dispatch t ;;;
  ret cid.

(** One pass of the loop of [dequeue]; [Waiting] when it goes on to wait. *)
Definition dequeue_pass (t : string) (deadline : option Z) : M world (wait (option Message)) :=
  let! w := get_wq in
  if closed_wq w then ret (Done None)
  else match pending_of t w with
       | msg :: q =>
           put_pending t q ;;;
           let! m := make_in_flight msg t (t +:+ "._pull") in
           ret (Done (Some m))
       | [] =>
           match deadline with
           | Some d => if decide (d - now w <= 0) then ret (Done None) else ret Waiting
           | None => ret Waiting
           end
       end.

Definition dequeue (t : string) (timeout : option Z) : M world (wait (option Message)) :=
  let! start := gets clock_now in
  dequeue_pass t (option_map (Z.add start) timeout).

Definition ack (did : string) : M world bool :=
  let! w := get_wq in
  if dmem (in_flight w) did
  then upd_wq (fun w => set_in_flight (ddel (in_flight w) did) w) ;;; ret true
  else ret false.

Definition dead_letter (m : Message) (t reason : string) : M world unit :=
  let dl_topic := t +:+ ".dead_letter" in
  let! w := get_wq in
  let new_headers :=
    dset (dset (dset (headers m) h_dead_at (VStr (isoformat (now w))))
               h_reason (VStr reason))
         h_topic (default (VStr t) (dget (headers m) h_topic)) in
  let! i := new_uuid in
  append_pending dl_topic (with_id (with_topic (with_headers m new_headers) dl_topic) i).

(** The message of an entry with its new retry count *)
Definition requeued (m : Message) (n : Z) : Message :=
  with_headers m (dset (headers m) h_retry (VInt n)).

(** [nack] up to the end of its [with] block: what it returns and the topic to dispatch *)
Definition nack_locked (did : string) (requeue : bool) : M world (bool * option string) :=
  let! w := get_wq in
  match dget (in_flight w) did with
  | None => ret (false, None)
  | Some entry =>
      upd_wq (fun w => set_in_flight (ddel (in_flight w) did) w) ;;;
      let! new_retry := lift (py_succ (retry_count entry)) in
      if requeue && bool_decide (new_retry < max_retries (cfg w)) then
        appendleft_pending (e_topic entry) (requeued (message entry) new_retry) ;;;
        ret (true, Some (e_topic entry))
      else
        dead_letter (message entry) (e_topic entry)
          (if bool_decide (max_retries (cfg w) <= new_retry)
           then "max_retries_exceeded" else "nack_no_requeue") ;;;
        ret (true, None)
  end.

Definition nack (did : string) (requeue : bool) : M world bool :=
  let! r := nack_locked did requeue in
  match r.2 with Some t => try_dispatch t | None => ret tt end ;;;
  ret r.1.

(** [for i, (cid, _) in enumerate(entries): if cid == consumer_id: entries.pop(i); break] *)
Fixpoint remove_entry (cid : string) (l : list (string * H)) : list (string * H) :=
  match l with
  | [] => []
  | e :: l' => if decide (e.1 = cid) then l' else e :: remove_entry cid l'
  end.

Definition remove_consumer (cid : string) : M world bool :=
  let! w := get_wq in
  match dget (consumer_registry w) cid with
  | None => ret false
  | Some key =>
      let reg := ddel (consumer_registry w) cid in
      match dget (consumer_groups w) key with
      | None | Some [] => upd_wq (set_consumers (consumer_groups w) (rr_index w) reg) ;;; ret true
      | Some entries =>
          match remove_entry cid entries with
          | [] => upd_wq (set_consumers (ddel (consumer_groups w) key) (ddel (rr_index w) key) reg)
          | entries' => upd_wq (set_consumers (dset (consumer_groups w) key entries') (rr_index w) reg)
          end ;;;
          ret true
      end
  end.

Definition pending_count (t : string) : M world nat :=
  gets (fun h => length (pending_of t (the_wq h))).

Definition in_flight_count (t : option string) : M world nat :=
  gets (fun h => match t with
    | None => length (in_flight (the_wq h))
    | Some t => length (List.filter (fun e => bool_decide (e_topic e = t)) (dvalues (in_flight (the_wq h))))
    end).

(** *** The reaper *)
Fixpoint expire_loop (t : Z) (snapshot : list (string * InFlightEntry))
    : M world (list InFlightEntry) :=
  match snapshot with
  | [] => ret []
  | (did, entry) :: rest =>
      let! late := lift (duration_ge (t - delivered_at entry) (visibility_timeout entry)) in
      if late then
        upd_wq (fun w => set_in_flight (ddel (in_flight w) did) w) ;;;
        let! es := expire_loop t rest in
        ret (entry :: es)
      else expire_loop t rest
  end.

(** The topics of what was requeued, a set in the code *)
Fixpoint requeue_loop (expired : list InFlightEntry) : M world (list string) :=
  match expired with
  | [] => ret []
  | entry :: rest =>
      let! new_retry := lift (py_succ (retry_count entry)) in
      let! w := get_wq in
      if bool_decide (new_retry < max_retries (cfg w)) then
        appendleft_pending (e_topic entry) (requeued (message entry) new_retry) ;;;
        let! ts := requeue_loop rest in
        ret (if bool_decide (e_topic entry ∈ ts) then ts else e_topic entry :: ts)
      else
        dead_letter (message entry) (e_topic entry) "visibility_timeout_exceeded" ;;;
        requeue_loop rest
  end.

(** The [with] block of one round of [_reaper_loop]; [t] is the [monotonic()]
    read before it *)
Definition reap_locked (t : Z) : M world (list string) :=
  let! w := get_wq in
  let! expired := expire_loop t (in_flight w) in
  requeue_loop expired.

Definition reaper_round (t : Z) : M world unit :=
  let! w := get_wq in
  if reaper_running w then
    let! topics := reap_locked t in
    for_each topics try_dispatch
  else ret tt.

(** *** Shutting down: the two flags, then (the reaper joined) the tables *)
Definition close_flags : M world unit := upd_wq (set_flags true false).

Definition close_tables : M world unit :=
  upd_wq (fun w => set_in_flight [] (set_pending [] (set_consumers [] (rr_index w) [] w))).

Definition close : M world unit := close_flags ;;; close_tables ;;; t_close.

(** *** A handler thread *)
Definition invoke_handler (call : H -> Message -> M world val) (i : invocation H) : M world unit :=
  try_except (call (i_handler i) (i_message i) ;;; ret tt)
             (fun _ => nack (i_id i) true ;;; ret tt).
End ops.

Arguments try_dispatch : simpl never.
Arguments make_in_flight : simpl never.
Arguments dispatch_one : simpl never.
Arguments dead_letter : simpl never.

(** * Invariants of the tables *)
Section invariant.
Context {T H : Type}.
Abbreviation world := (heap T (qstate H * wq H)).
Implicit Types (h : world) (w : wq H).
Variable isoformat : Z -> string.

(** The [WorkQueue] part of the heap and the supply of ids change; the rest does not. *)
Definition with_wq (n : nat) (w : wq H) h : world := mkHeap n (h_tr h) ((h_rest h).1, w).

Lemma upd_wq_run f h : upd_wq f h = (Ok tt, with_wq (h_uuid h) (f (the_wq h)) h).
Proof. done. Qed.

(** Properties of the tables, with the ids drawn so far. *)
Definition on_wq (I : nat -> wq H -> Prop) h : Prop := I (h_uuid h) (the_wq h).

Lemma keeps_upd_wq I (f : wq H -> wq H) :
  (forall n w, I n w -> I n (f w)) -> keeps (on_wq I) (upd_wq (T := T) f).
Proof. intros Hf. apply keeps_modify. intros h Hh. by apply Hf. Qed.

Lemma keeps_uuid I :
  (forall n w, I n w -> I (S n) w) -> keeps (on_wq I) (new_uuid (T := T)).
Proof. intros Hs h Hh. by apply Hs. Qed.

End invariant.

(** What the tables owe a property [I] (of the ids drawn so far and the tables)
    for every operation to keep it; [P] is what [I] says of single messages. *)
Record table_inv {H : Type} (P : Message -> Prop) (I : nat -> wq H -> Prop) : Prop := {
  ti_pending_P : forall n w t m, I n w -> m ∈ pending_of t w -> P m;
  ti_flight_P : forall n w e, I n w -> e ∈ dvalues (in_flight w) -> P (message e);
  ti_id_P : forall m i, P m -> P (with_id m i);
  ti_requeued_P : forall m k, P m -> P (requeued m k);
  ti_dead_P : forall m t a r o i, P m ->
    P (with_id (with_topic (with_headers m (dset (dset (dset (headers m) h_dead_at (VStr a))
        h_reason (VStr r)) h_topic (default (VStr o) (dget (headers m) h_topic)))) t) i);
  ti_uuid : forall n w, I n w -> I (S n) w;
  ti_pending : forall n w t q, I n w -> Forall P q -> I n (set_pending (dset (pending w) t q) w);
  ti_flight : forall n w m e, I n w -> P m -> message e = m -> delivery_id e = uuid4 n ->
    retry_count e = default (VInt 0) (dget (headers m) h_retry) ->
    visibility_timeout e = default (default_visibility_timeout (cfg w)) (dget (headers m) h_vt) ->
    I (S n) (set_in_flight (dset (in_flight w) (uuid4 n) e) w);
  ti_del : forall n w d, I n w -> I n (set_in_flight (ddel (in_flight w) d) w);
  ti_consumer : forall n w key f, I n w ->
    I (S n) (set_consumers (dset (consumer_groups w) key
                 (dget_or [] (consumer_groups w) key ++ [(uuid4 n, f)]))
               (rr_index w) (dset (consumer_registry w) (uuid4 n) key) w);
  ti_remove : forall n w cid key entries, I n w ->
    dget (consumer_registry w) cid = Some key -> dget (consumer_groups w) key = Some entries ->
    I n (match remove_entry cid entries with
         | [] => set_consumers (ddel (consumer_groups w) key) (ddel (rr_index w) key)
                   (ddel (consumer_registry w) cid) w
         | entries' => set_consumers (dset (consumer_groups w) key entries') (rr_index w)
                         (ddel (consumer_registry w) cid) w
         end);
  ti_unregister : forall n w cid key, I n w ->
    dget (consumer_registry w) cid = Some key -> dget_or [] (consumer_groups w) key = [] ->
    I n (set_consumers (consumer_groups w) (rr_index w) (ddel (consumer_registry w) cid) w);
  ti_rr : forall n w key k, I n w -> I n (set_rr key k w);
  ti_flags : forall n w a b, I n w -> I n (set_flags a b w);
  ti_spawned : forall n w l, I n w -> I n (set_spawned l w);
  ti_now : forall n w t, I n w -> I n (set_now t w);
  ti_clear : forall n w, I n w ->
    I n (set_in_flight [] (set_pending [] (set_consumers [] (rr_index w) [] w)));
}.

Section keeps_ops.
Context {T H : Type} (P : Message -> Prop) (I : nat -> wq H -> Prop).
Hypothesis TI : table_inv P I.
Abbreviation world := (heap T (qstate H * wq H)).
Implicit Types (h : world) (w : wq H).
Variable isoformat : Z -> string.
Abbreviation J := (on_wq (T := T) I).

Lemma keeps_get_wq {A} (k : wq H -> M world A) :
  (forall n w, I n w -> keeps J (k w)) -> keeps J (bind get_wq k).
Proof. intros Hk h Hh. exact (Hk _ _ Hh h Hh). Qed.

Lemma keeps_put_pending t q : Forall P q -> keeps J (put_pending t q).
Proof. intros Hq. apply keeps_upd_wq. intros n w Hw. by apply (ti_pending P I TI). Qed.

Lemma pending_all n w t : I n w -> Forall P (pending_of t w).
Proof. intros Hw. apply Forall_forall. intros m. by apply (ti_pending_P P I TI n w). Qed.

Lemma keeps_append_pending t m : P m -> keeps J (append_pending t m).
Proof.
  intros Hm. apply keeps_upd_wq. intros n w Hw. apply (ti_pending P I TI); [done|].
  apply Forall_app. split; [by eapply pending_all | by constructor].
Qed.

Lemma keeps_appendleft_pending t m : P m -> keeps J (appendleft_pending t m).
Proof.
  intros Hm. apply keeps_upd_wq. intros n w Hw. apply (ti_pending P I TI); [done|].
  constructor; [done | by eapply pending_all].
Qed.

Lemma keeps_start_reaper : keeps J start_reaper_if_needed.
Proof.
  apply keeps_upd_wq. intros n w Hw. destruct (reaper_running w); [done|]. by apply (ti_flags P I TI).
Qed.

Lemma keeps_make_in_flight msg t g : P msg -> keeps J (make_in_flight msg t g).
Proof.
  intros Hm h Hh. unfold make_in_flight.
  set (e := mkEntry msg (uuid4 (h_uuid h)) t g (now (the_wq h))
    (default (default_visibility_timeout (cfg (the_wq h))) (dget (headers msg) h_vt))
    (default (VInt 0) (dget (headers msg) h_retry))).
  pose proof (ti_flight P I TI _ _ msg e Hh Hm eq_refl eq_refl eq_refl eq_refl) as Hs.
  exact (keeps_start_reaper
    (with_wq (S (h_uuid h)) (set_in_flight (dset (in_flight (the_wq h)) (uuid4 (h_uuid h)) e) (the_wq h)) h) Hs).
Qed.

Lemma keeps_dispatch_one t several msg key : P msg -> keeps J (dispatch_one t several msg key).
Proof.
  intros Hm. apply keeps_get_wq. intros n w Hw.
  destruct (dget (consumer_groups w) key) as [[|en entries]|]; try apply keeps_ret.
  apply (keeps_bind_gives _ _ _ P).
  - pose proof (keeps_uuid (T := T) I (ti_uuid P I TI)). eauto with py.
  - destruct several; [|by apply gives_ret].
    intros h m _ [= <-]. by apply (ti_id_P P I TI).
  - intros m HPm. apply keeps_bind; [by apply keeps_make_in_flight|]. intros d.
    assert (forall k, keeps J (upd_wq (set_rr key k))) as Hrr
      by (intros k; apply keeps_upd_wq; intros; by apply (ti_rr P I TI)).
    cbv zeta. repeat case_match; eauto with py.
Qed.

Lemma keeps_dispatch_groups t several msg keys :
  P msg -> keeps J (dispatch_groups t several msg keys).
Proof.
  intros Hm. pose proof (keeps_dispatch_one t several msg).
  induction keys as [|key keys IH]; cbn; eauto 8 with py.
Qed.

Lemma keeps_dispatch_loop t groups q : Forall P q -> keeps J (dispatch_loop t groups q).
Proof.
  induction q as [|m q IH]; intros Hq; [apply keeps_ret|]. cbn.
  pose proof (keeps_put_pending t (m :: q) Hq). apply Forall_cons in Hq as [Hm Hq].
  pose proof (keeps_put_pending t q Hq). specialize (IH Hq).
  pose proof (keeps_dispatch_groups t (1 <? length groups)%nat m groups Hm). eauto 8 with py.
Qed.

Lemma keeps_try_dispatch t : keeps J (try_dispatch t).
Proof.
  apply keeps_get_wq. intros n w Hw. destruct (groups_of t w); [apply keeps_ret|].
  apply keeps_bind; [apply keeps_dispatch_loop; by eapply pending_all|]. intros l'.
  apply keeps_upd_wq. intros. by apply (ti_spawned P I TI).
Qed.

Lemma keeps_enqueue_locked t p vt hd :
  (forall m w, headers m = dmerge [(h_retry, VInt 0); (h_topic, VStr t);
     (h_enqueued, VStr (isoformat (now w)));
     (h_vt, default (default_visibility_timeout (cfg (w : WorkQueue.wq H))) vt)] hd -> (exists n, I n w) -> P m) ->
  keeps J (enqueue_locked isoformat t p vt hd).
Proof.
  intros HP. apply keeps_get_wq. intros n w Hw.
  pose proof (keeps_uuid (T := T) I (ti_uuid P I TI)).
  apply (keeps_bind_gives _ _ _ P).
  - unfold new_message. eauto 6 with py.
  - intros h m _ [= <-]. apply (HP _ w); [done | by exists n].
  - intros m Hm. pose proof (keeps_append_pending t m Hm). eauto with py.
Qed.

Lemma keeps_consume_locked t f g : keeps J (consume_locked t f g).
Proof. intros h Hh. cbn. by apply (ti_consumer P I TI). Qed.

Lemma keeps_dequeue_pass t d : keeps J (dequeue_pass t d).
Proof.
  apply keeps_get_wq. intros n w Hw. destruct (closed_wq w); [apply keeps_ret|].
  pose proof (pending_all n w t Hw) as Hq.
  destruct (pending_of t w) as [|m q]; [eauto with py|]. apply Forall_cons in Hq as [Hm Hq].
  pose proof (keeps_put_pending t q Hq). pose proof (keeps_make_in_flight m t (t +:+ "._pull") Hm).
  eauto 8 with py.
Qed.

Lemma keeps_del d : keeps J (upd_wq (fun w => set_in_flight (ddel (in_flight w) d) w)).
Proof. apply keeps_upd_wq. intros. by apply (ti_del P I TI). Qed.

Lemma keeps_ack d : keeps J (ack d).
Proof. pose proof (keeps_del d). apply keeps_get_wq. eauto with py. Qed.

Lemma keeps_dead_letter m t r : P m -> keeps J (dead_letter isoformat m t r).
Proof.
  intros Hm. apply keeps_get_wq. intros n w Hw.
  apply keeps_bind; [apply keeps_uuid, (ti_uuid P I TI)|]. intros i.
  by apply keeps_append_pending, (ti_dead_P P I TI).
Qed.

Lemma keeps_nack_locked d rq : keeps J (nack_locked isoformat d rq).
Proof.
  apply keeps_get_wq. intros n w Hw. destruct (dget (in_flight w) d) as [e|] eqn:Hg; [|apply keeps_ret].
  pose proof (ti_flight_P P I TI _ _ _ Hw (elem_dvalues _ _ _ Hg)) as HP.
  pose proof (keeps_del d). pose proof (fun r => keeps_dead_letter (message e) (e_topic e) r HP).
  assert (forall k, keeps J (appendleft_pending (e_topic e) (requeued (message e) k)))
    by (intros k; by apply keeps_appendleft_pending, (ti_requeued_P P I TI)).
  eauto 10 with py.
Qed.

Lemma keeps_nack d rq : keeps J (nack isoformat d rq).
Proof.
  pose proof keeps_try_dispatch. pose proof (keeps_nack_locked d rq). unfold nack. eauto 8 with py.
Qed.

Lemma keeps_remove_consumer cid : keeps J (remove_consumer cid).
Proof.
  intros h Hh. unfold remove_consumer, bind at 1, get_wq, gets.
  destruct (dget (consumer_registry (the_wq h)) cid) as [key|] eqn:Hr; [|done].
  assert (dget_or [] (consumer_groups (the_wq h)) key = [] ->
    J (with_wq (h_uuid h) (set_consumers (consumer_groups (the_wq h)) (rr_index (the_wq h))
         (ddel (consumer_registry (the_wq h)) cid) (the_wq h)) h)) as Hu.
  { intros Hg. by apply (ti_unregister P I TI _ _ cid key). }
  unfold dget_or in Hu.
  destruct (dget (consumer_groups (the_wq h)) key) as [[|en l]|] eqn:Hg; [by apply Hu| |by apply Hu].
  pose proof (ti_remove P I TI _ _ cid key (en :: l) Hh Hr Hg) as Hrm.
  by destruct (remove_entry cid (en :: l)).
Qed.

Lemma expire_loop_incl t l (Q : InFlightEntry -> Prop) :
  Forall Q l.*2 -> gives J (expire_loop t l) (Forall Q).
Proof.
  pose proof keeps_del. induction l as [|[d e] l IH]; cbn; [intros _; by apply gives_ret|].
  intros [He Hl]%Forall_cons.
  apply gives_bind with (Q := fun _ => True); [eauto with py|done|]. intros [] _; [|by apply IH].
  apply gives_bind with (Q := fun _ => True); [eauto with py|done|]. intros [] _.
  apply gives_bind with (Q := Forall Q).
  - clear - TI H0. induction l as [|[d' e'] l IH]; cbn; eauto 10 with py.
  - by apply IH.
  - intros es Hes. apply gives_ret. by constructor.
Qed.

Lemma keeps_expire_loop t l : keeps J (expire_loop t l).
Proof. pose proof keeps_del. induction l as [|[d e] l IH]; cbn; eauto 10 with py. Qed.

Lemma keeps_requeue_loop es : Forall (fun e => P (message e)) es -> keeps J (requeue_loop isoformat es).
Proof.
  induction es as [|e es IH]; cbn; [intros _; apply keeps_ret|]. intros [He Hes]%Forall_cons.
  specialize (IH Hes). apply keeps_bind; [apply keeps_lift|]. intros k.
  apply keeps_get_wq. intros n w Hw.
  pose proof (keeps_dead_letter (message e) (e_topic e) "visibility_timeout_exceeded" He).
  pose proof (keeps_appendleft_pending (e_topic e) (requeued (message e) k) (ti_requeued_P P I TI _ k He)).
  eauto 10 with py.
Qed.

Lemma keeps_reap_locked t : keeps J (reap_locked isoformat t).
Proof.
  apply keeps_get_wq. intros n w Hw.
  apply (keeps_bind_gives _ _ _ (Forall (fun e => P (message e)))); [apply keeps_expire_loop| |].
  - apply expire_loop_incl, Forall_forall. intros e. by apply (ti_flight_P P I TI n).
  - apply keeps_requeue_loop.
Qed.

Lemma keeps_spawned l : keeps J (upd_wq (set_spawned l)).
Proof. apply keeps_upd_wq. intros. by apply (ti_spawned P I TI). Qed.

Lemma keeps_set_now t : keeps J (upd_wq (set_now t)).
Proof. apply keeps_upd_wq. intros. by apply (ti_now P I TI). Qed.

Lemma keeps_close_flags : keeps J close_flags.
Proof. apply keeps_upd_wq. intros. by apply (ti_flags P I TI). Qed.

Lemma keeps_close_tables : keeps J close_tables.
Proof. apply keeps_upd_wq. intros. by apply (ti_clear P I TI). Qed.
End keeps_ops.

(** * The representation invariant *)
Section wf.
Context {H : Type}.
Implicit Types (w : wq H).

(** Deliveries are filed under their own ids, drawn from the supply; a group in
    the table has a consumer; every consumer is in the group the registry names,
    once, and in no other. *)
Record wf_tables (n : nat) w : Prop := {
  wf_pending : dict_ok (pending w);
  wf_flight : dict_ok (in_flight w);
  wf_groups : dict_ok (consumer_groups w);
  wf_registry : dict_ok (consumer_registry w);
  wf_ids : forall d e, dget (in_flight w) d = Some e ->
    delivery_id e = d /\ exists k, (k < n)%nat /\ d = uuid4 k;
  wf_nonempty : forall key l, dget (consumer_groups w) key = Some l -> l <> [];
  wf_members : forall cid key, dget (consumer_registry w) cid = Some key <->
    cid ∈ (dget_or [] (consumer_groups w) key).*1;
  wf_once : forall key, NoDup (dget_or [] (consumer_groups w) key).*1;
  wf_cids : forall cid key, dget (consumer_registry w) cid = Some key ->
    exists k, (k < n)%nat /\ cid = uuid4 k;
}.

Lemma wf_tables_mono n m w : (n <= m)%nat -> wf_tables n w -> wf_tables m w.
Proof.
  intros Hle []. split; try done.
  - intros d e He. destruct (wf_ids0 d e He) as (? & k & ? & ?). split; [done|]. exists k. split; [lia|done].
  - intros cid key Hc. destruct (wf_cids0 cid key Hc) as (k & ? & ?). exists k. split; [lia|done].
Qed.

Lemma wf_tables_init c t : wf_tables 0 (init (H := H) c t).
Proof.
  split; cbn; try apply NoDup_nil_2; try done.
  - intros cid key. split; [done | by intros ?%not_elem_of_nil].
  - intros key. apply NoDup_nil_2.
Qed.

(** Only the consumer tables matter to the last five fields. *)
Lemma wf_same_consumers n w w' :
  wf_tables n w -> consumer_groups w' = consumer_groups w ->
  consumer_registry w' = consumer_registry w -> dict_ok (pending w') -> dict_ok (in_flight w') ->
  (forall d e, dget (in_flight w') d = Some e ->
    delivery_id e = d /\ exists k, (k < n)%nat /\ d = uuid4 k) ->
  wf_tables n w'.
Proof. intros [] Hg Hr. split; rewrite ?Hg, ?Hr; done. Qed.

Lemma wf_add_flight n w e :
  wf_tables n w -> delivery_id e = uuid4 n ->
  wf_tables (S n) (set_in_flight (dset (in_flight w) (uuid4 n) e) w).
Proof.
  intros Hw He. apply (wf_same_consumers _ w); cbn; try done; try apply Hw.
  - apply (wf_tables_mono n); [lia|done].
  - apply dict_ok_dset, Hw.
  - intros d e'. rewrite dget_dset. case_decide.
    + intros [= <-]. subst. split; [done|]. exists n. split; [lia|done].
    + intros Hd. destruct (wf_ids _ _ Hw _ _ Hd) as (? & k & ? & ?).
      split; [done|]. exists k. split; [lia|done].
Qed.

Lemma wf_fresh_cid n w : wf_tables n w -> dget (consumer_registry w) (uuid4 n) = None.
Proof.
  intros Hw. destruct (dget _ (uuid4 n)) as [key|] eqn:Hd; [|done].
  destruct (wf_cids _ _ Hw _ _ Hd) as (k & Hk & Heq%(inj uuid4)). lia.
Qed.

Lemma wf_add_consumer n w key (f : H) :
  wf_tables n w ->
  wf_tables (S n) (set_consumers (dset (consumer_groups w) key
                 (dget_or [] (consumer_groups w) key ++ [(uuid4 n, f)]))
               (rr_index w) (dset (consumer_registry w) (uuid4 n) key) w).
Proof.
  intros Hw. pose proof (wf_fresh_cid n w Hw) as Hfr.
  assert (forall k, uuid4 n ∉ (dget_or [] (consumer_groups w) k).*1) as Hnew.
  { intros k Hin. apply (wf_members _ _ Hw) in Hin. congruence. }
  apply (wf_tables_mono n (S n)) in Hw; [|lia]. destruct Hw. split; cbn; try done.
  - by apply dict_ok_dset.
  - by apply dict_ok_dset.
  - intros k l. rewrite dget_dset. case_decide; [|by apply wf_nonempty0].
    intros [= <-]. by destruct (dget_or _ _ _).
  - intros cid k. rewrite dget_or_dset, dget_dset. destruct (decide (k = key)) as [->|Hk].
    + rewrite fmap_app, elem_of_app, <- wf_members0. cbn. rewrite list_elem_of_singleton.
      destruct (decide (cid = uuid4 n)) as [->|]; naive_solver.
    + rewrite <- wf_members0. destruct (decide (cid = uuid4 n)) as [->|]; [|done].
      rewrite Hfr. naive_solver.
  - intros k. rewrite dget_or_dset. case_decide; [|done]. rewrite fmap_app. apply NoDup_app.
    split_and!; [done| |apply NoDup_singleton]. intros x Hx ->%list_elem_of_singleton.
    by apply (Hnew key).
  - intros cid k. rewrite dget_dset. case_decide; [|apply wf_cids0].
    intros _. exists n. split; [lia|done].
Qed.

Lemma remove_entry_keys cid (l : list (string * H)) :
  NoDup l.*1 -> NoDup (remove_entry cid l).*1 /\
  forall c, c ∈ (remove_entry cid l).*1 <-> c <> cid /\ c ∈ l.*1.
Proof.
  induction l as [|[c f] l IH]; cbn; [set_solver|]. intros [Hc Hl]%NoDup_cons.
  destruct (IH Hl) as [Hnd Hin]. destruct (decide (c = cid)) as [->|Hne]; cbn.
  - split; [done|]. set_solver.
  - split; [constructor; [rewrite Hin; naive_solver|done]|].
    intros c'. rewrite !elem_of_cons, Hin. naive_solver.
Qed.

Lemma wf_remove n w cid key entries :
  wf_tables n w -> dget (consumer_registry w) cid = Some key ->
  dget (consumer_groups w) key = Some entries ->
  wf_tables n (match remove_entry cid entries with
    | [] => set_consumers (ddel (consumer_groups w) key) (ddel (rr_index w) key)
              (ddel (consumer_registry w) cid) w
    | entries' => set_consumers (dset (consumer_groups w) key entries') (rr_index w)
                    (ddel (consumer_registry w) cid) w
    end).
Proof.
  intros Hw Hr Hg. pose proof (wf_once _ _ Hw key) as Hnd. unfold dget_or in Hnd. rewrite Hg in Hnd.
  destruct (remove_entry_keys cid entries Hnd) as [Hnd' Hin].
  assert (forall c k, dget (ddel (consumer_registry w) cid) c = Some k <->
    c ∈ (if decide (k = key) then remove_entry cid entries else dget_or [] (consumer_groups w) k).*1)
    as Hmem.
  { intros c k. rewrite dget_ddel. pose proof (wf_members _ _ Hw c k) as Hm.
    destruct (decide (k = key)) as [->|Hk].
    - unfold dget_or in Hm. rewrite Hg in Hm. cbn in Hm. rewrite Hin, <- Hm.
      case_decide; naive_solver.
    - rewrite <- Hm. case_decide; [subst|done]. naive_solver. }
  assert (forall c k, dget (ddel (consumer_registry w) cid) c = Some k ->
    exists j, (j < n)%nat /\ c = uuid4 j) as Hcid.
  { intros c k. rewrite dget_ddel. case_decide; [done|]. apply (wf_cids _ _ Hw). }
  destruct Hw. destruct (remove_entry cid entries) as [|e' l'] eqn:Hrm;
    split; cbn; try done; try by apply dict_ok_ddel.
  - intros k l. rewrite dget_ddel. case_decide; [done|apply wf_nonempty0].
  - intros c k. rewrite Hmem. unfold dget_or at 2. rewrite dget_ddel. by case_decide.
  - intros k. unfold dget_or. rewrite dget_ddel. case_decide; [apply NoDup_nil_2|apply wf_once0].
  - by apply dict_ok_dset.
  - intros k l. rewrite dget_dset. case_decide; [by intros [= <-]|apply wf_nonempty0].
  - intros c k. by rewrite Hmem, dget_or_dset.
  - intros k. rewrite dget_or_dset. by case_decide.
Qed.

Lemma wf_table_inv : table_inv (H := H) (fun _ => True) wf_tables.
Proof.
  split; try done.
  - intros n w. by apply wf_tables_mono; lia.
  - intros n w t q Hw _. apply (wf_same_consumers n w); try done; cbn; try apply Hw.
    apply dict_ok_dset, Hw.
  - intros n w m e Hw _ _ He _ _. by apply wf_add_flight.
  - intros n w d Hw. apply (wf_same_consumers n w); try done; cbn; try apply Hw.
    + apply dict_ok_ddel, Hw.
    + intros d' e. rewrite dget_ddel. case_decide; [done|]. apply (wf_ids _ _ Hw).
  - intros n w key f. apply wf_add_consumer.
  - intros n w cid key entries. apply wf_remove.
  - intros n w cid key Hw Hr Hg. apply (wf_members _ _ Hw) in Hr. rewrite Hg in Hr.
    by apply not_elem_of_nil in Hr.
  - intros n w key k Hw. by apply (wf_same_consumers n w); try done; apply Hw.
  - intros n w a b Hw. by apply (wf_same_consumers n w); try done; apply Hw.
  - intros n w l Hw. by apply (wf_same_consumers n w); try done; apply Hw.
  - intros n w t Hw. by apply (wf_same_consumers n w); try done; apply Hw.
  - intros n w Hw. split; cbn; try apply NoDup_nil_2; try done.
    + intros cid key. split; [done | by intros ?%not_elem_of_nil].
    + intros key. apply NoDup_nil_2.
Qed.

(** ** Settled deliveries: an id that was handed out and is in flight no more *)
Definition settled (d : string) (n : nat) w : Prop :=
  (exists k, (k < n)%nat /\ d = uuid4 k) /\ dget (in_flight w) d = None.

Lemma settled_table_inv d : table_inv (H := H) (fun _ => True) (settled d).
Proof.
  split; try done.
  - intros n w [(k & Hk & ->) Hd]. split; [|done]. exists k. split; [lia|done].
  - intros n w m e [(k & Hk & ->) Hd] _ _ _ _ _. split; [exists k; split; [lia|done]|].
    cbn. rewrite dget_dset_ne; [done|]. intros Heq%(inj uuid4). lia.
  - intros n w d' [? Hd]. split; [done|]. cbn. rewrite dget_ddel. by case_decide.
  - intros n w key f [(k & Hk & ->) Hd]. split; [|done]. exists k. split; [lia|done].
  - intros n w cid key es [? ?] _ _. by destruct (remove_entry cid es).
  - by intros n w [? ?].
Qed.

(** ** Well-typed bookkeeping headers *)
Definition is_num (v : val) : Prop :=
  match v with VInt _ | VBool _ | VFloat _ => True | _ => False end.
Definition is_count (v : val) : Prop := match v with VInt _ | VBool _ => True | _ => False end.

Definition typed_headers (hd : hdrs) : Prop :=
  is_count (default (VInt 0) (dget hd h_retry)) /\ is_num (default (VInt 0) (dget hd h_vt)).
Definition typed_msg (m : Message) : Prop := typed_headers (headers m).
Definition typed_entry (e : InFlightEntry) : Prop :=
  typed_msg (message e) /\ is_count (retry_count e) /\ is_num (visibility_timeout e).

(** The retry counts and timeouts that the program computes with are numbers. *)
Record typed (n : nat) w : Prop := {
  ty_wf : wf_tables n w;
  ty_default : is_num (default_visibility_timeout (cfg w));
  ty_pending : forall t, Forall typed_msg (pending_of t w);
  ty_flight : forall e, e ∈ dvalues (in_flight w) -> typed_entry e;
}.

Lemma typed_init c t : is_num (default_visibility_timeout c) -> typed 0 (init (H := H) c t).
Proof.
  split; [apply wf_tables_init|done| |].
  - intros t'. by apply Forall_nil.
  - by intros e ?%not_elem_of_nil.
Qed.

Lemma typed_headers_dset (hd : hdrs) k v :
  typed_headers hd -> k <> h_retry -> k <> h_vt -> typed_headers (dset hd k v).
Proof. intros Ht Hr Hv. unfold typed_headers. by rewrite !dget_dset_ne by done. Qed.

Lemma typed_dead m t a r o i : typed_msg m ->
  typed_msg (with_id (with_topic (with_headers m (dset (dset (dset (headers m) h_dead_at (VStr a))
      h_reason (VStr r)) h_topic (default (VStr o) (dget (headers m) h_topic)))) t) i).
Proof. intros Hm. unfold typed_msg. cbn. by repeat apply typed_headers_dset. Qed.

Lemma typed_requeued m k : typed_msg m -> typed_msg (requeued m k).
Proof.
  intros [_ Hv]. split; cbn.
  - by rewrite dget_dset_eq.
  - by rewrite dget_dset_ne.
Qed.

Lemma typed_same n w w' :
  typed n w -> wf_tables n w' -> cfg w' = cfg w -> pending w' = pending w ->
  (forall e, e ∈ dvalues (in_flight w') -> e ∈ dvalues (in_flight w)) -> typed n w'.
Proof.
  intros [] Hwf Hc Hp Hf. split; [done|by rewrite Hc| |auto].
  intros t. unfold pending_of in *. by rewrite Hp.
Qed.

Lemma elem_dvalues_dset {K V} `{!EqDecision K} (d : list (K * V)) k v e :
  e ∈ dvalues (dset d k v) -> e = v \/ e ∈ dvalues d.
Proof.
  unfold dvalues. intros ([k' u] & -> & [[-> ->]|?]%elem_dset)%list_elem_of_fmap; [by left|].
  right. apply list_elem_of_fmap. by exists (k', u).
Qed.

Lemma elem_dvalues_ddel {K V} `{!EqDecision K} (d : list (K * V)) k e :
  e ∈ dvalues (ddel d k) -> e ∈ dvalues d.
Proof.
  unfold dvalues. intros ([k' u] & -> & [_ ?]%elem_ddel)%list_elem_of_fmap.
  apply list_elem_of_fmap. by exists (k', u).
Qed.

Lemma typed_table_inv : table_inv (H := H) typed_msg typed.
Proof.
  pose proof wf_table_inv as WI. split.
  - intros n w t m Hw Hm. pose proof (ty_pending _ _ Hw t) as Hf. rewrite Forall_forall in Hf. by apply Hf.
  - intros n w e Hw He. by apply (ty_flight _ _ Hw).
  - by intros m i.
  - apply typed_requeued.
  - apply typed_dead.
  - intros n w []. split; try done. by apply (wf_tables_mono n); [lia|].
  - intros n w t q Hw Hq. split; [by apply (ti_pending _ _ WI), Forall_true; [apply Hw|] | apply Hw | |apply Hw].
    intros t'. unfold pending_of. cbn. rewrite dget_or_dset. case_decide; [done|]. apply (ty_pending _ _ Hw).
  - intros n w m e Hw Hm <- He Hr Hv. split; [by apply wf_add_flight; [apply Hw|] | apply Hw |apply Hw|].
    intros e' [->|?]%elem_dvalues_dset; [|by apply (ty_flight _ _ Hw)].
    split; [done|]. destruct Hm as [Hm1 Hm2]. rewrite Hr, Hv. split; [done|].
    pose proof (ty_default _ _ Hw). by destruct (dget (headers (message e)) h_vt).
  - intros n w d Hw. apply (typed_same n w); try done; [by apply (ti_del _ _ WI), Hw|].
    intros e. apply elem_dvalues_ddel.
  - intros n w key f Hw. apply (typed_same (S n) w); try done; [|by apply wf_add_consumer, Hw].
    destruct Hw. split; try done. by apply (wf_tables_mono n); [lia|].
  - intros n w cid key es Hw Hr Hg. pose proof (wf_remove n w cid key es (ty_wf _ _ Hw) Hr Hg).
    by destruct (remove_entry cid es); apply (typed_same n w).
  - intros n w cid key Hw Hr Hg. apply (typed_same n w); try done.
    by apply (ti_unregister _ _ WI _ _ _ key); [apply Hw|..].
  - intros n w key k Hw. apply (typed_same n w); try done. by apply (ti_rr _ _ WI), Hw.
  - intros n w a b Hw. apply (typed_same n w); try done. by apply (ti_flags _ _ WI), Hw.
  - intros n w l Hw. apply (typed_same n w); try done. by apply (ti_spawned _ _ WI), Hw.
  - intros n w t Hw. apply (typed_same n w); try done. by apply (ti_now _ _ WI), Hw.
  - intros n w Hw. split; [by apply (ti_clear _ _ WI), Hw | apply Hw | |].
    + intros t. by apply Forall_nil.
    + by intros e ?%not_elem_of_nil.
Qed.
End wf.
End WorkQueue.
