(* ===== verification/WorkDispatch.v ===== *)
(** * What [_try_dispatch] and the other sections of [WorkQueue] do

    [_try_dispatch] hands every pending message to one consumer of each group of
    the topic, in rotation; the sections that move messages between the pending
    queues and the in-flight table neither lose nor duplicate any. *)
From S2P Require Import Prelude PyDict Queue Transport Types WorkQueue.
Import WorkQueue.
#[local] Arguments Nat.modulo : simpl never.

Section dispatch.
Context {T H : Type}.
Abbreviation world := (heap T (qstate H * wq H)).
Implicit Types (h : world) (w : wq H) (key : gkey).

Definition entry_of (msg : Message) (t g : string) h : InFlightEntry :=
  mkEntry msg (uuid4 (h_uuid h)) t g (now (the_wq h))
    (default (default_visibility_timeout (cfg (the_wq h))) (dget (headers msg) h_vt))
    (default (VInt 0) (dget (headers msg) h_retry)).

Definition delivered_of (msg : Message) h : Message :=
  with_headers msg (dset (headers msg) h_delivery (VStr (uuid4 (h_uuid h)))).

Definition flight_with (e : InFlightEntry) w : wq H :=
  set_flags (closed_wq w) true (set_in_flight (dset (in_flight w) (delivery_id e) e) w).

Lemma make_in_flight_run msg t g h :
  make_in_flight msg t g h =
    (Ok (delivered_of msg h),
     with_wq (S (h_uuid h)) (flight_with (entry_of msg t g h) (the_wq h)) h).
Proof.
  destruct h as [n tr [q [? ? ? ? ? ? ? re ? ?]]]. by destruct re.
Qed.

(** The consumers of a group, and the one whose turn it is [i] messages ahead. *)
Definition entries_of key w : list (string * H) := dget_or [] (consumer_groups w) key.

Definition pick key w (i : nat) : option H :=
  snd <$> entries_of key w !! ((dget_or 0 (rr_index w) key + i) mod length (entries_of key w))%nat.

(** Two messages with the same payload and the same number of retries *)
Definition same_job (m m' : Message) : Prop :=
  payload m = payload m' /\ dget (headers m) h_retry = dget (headers m') h_retry.

(** What a dispatch adds: one in-flight entry per invocation, in order. *)
Record dispatched (t : string) h h' (invs : list (invocation H)) : Prop := {
  dp_flight : exists new, in_flight (the_wq h') = in_flight (the_wq h) ++ new /\
    map fst new = map i_id invs /\
    Forall2 (fun p i => same_job (message p.2) (i_message i) /\ e_topic p.2 = t /\
      retry_count p.2 = default (VInt 0) (dget (headers (message p.2)) h_retry)) new invs;
  dp_groups : consumer_groups (the_wq h') = consumer_groups (the_wq h);
  dp_registry : consumer_registry (the_wq h') = consumer_registry (the_wq h);
  dp_cfg : cfg (the_wq h') = cfg (the_wq h);
  dp_closed : closed_wq (the_wq h') = closed_wq (the_wq h);
  dp_spawned : spawned (the_wq h') = spawned (the_wq h);
  dp_now : now (the_wq h') = now (the_wq h);
}.

Lemma dispatched_nil t h h' :
  in_flight (the_wq h') = in_flight (the_wq h) ->
  consumer_groups (the_wq h') = consumer_groups (the_wq h) ->
  consumer_registry (the_wq h') = consumer_registry (the_wq h) ->
  cfg (the_wq h') = cfg (the_wq h) -> closed_wq (the_wq h') = closed_wq (the_wq h) ->
  spawned (the_wq h') = spawned (the_wq h) -> now (the_wq h') = now (the_wq h) ->
  dispatched t h h' [].
Proof. intros Hf. split; try done. exists []. by rewrite app_nil_r. Qed.

Lemma dispatched_app t h1 h2 h3 i1 i2 :
  dispatched t h1 h2 i1 -> dispatched t h2 h3 i2 -> dispatched t h1 h3 (i1 ++ i2).
Proof.
  intros [(n1 & Hf1 & Hi1 & Ha1) ? ? ? ? ? ?] [(n2 & Hf2 & Hi2 & Ha2) ? ? ? ? ? ?].
  split; try congruence. exists (n1 ++ n2).
  by rewrite Hf2, Hf1, app_assoc, !map_app, Hi1, Hi2; split_and!; [..|apply Forall2_app].
Qed.

Lemma fresh_flight h : on_wq wf_tables h -> dget (in_flight (the_wq h)) (uuid4 (h_uuid h)) = None.
Proof.
  intros Hw. destruct (dget _ _) as [e|] eqn:Hd; [|done].
  destruct (wf_ids _ _ Hw _ _ Hd) as (_ & k & Hk & Heq%(inj uuid4)). lia.
Qed.

(** One group: the consumer whose turn it is gets the message. *)
Lemma dispatch_one_spec t several msg key h :
  on_wq wf_tables h -> entries_of key (the_wq h) <> [] ->
  exists i h', dispatch_one t several msg key h = (Ok [i], h') /\ dispatched t h h' [i] /\
    pending (the_wq h') = pending (the_wq h) /\ Some (i_handler i) = pick key (the_wq h) 0 /\
    same_job (i_message i) msg /\
    rr_index (the_wq h') = dset (rr_index (the_wq h)) key
      (S (dget_or 0 (rr_index (the_wq h)) key mod length (entries_of key (the_wq h))))%nat.
Proof.
  intros Hw Hne. unfold dispatch_one, pick. unfold bind at 1, get_wq, gets.
  unfold entries_of, dget_or in *.
  destruct (dget (consumer_groups (the_wq h)) key) as [entries|] eqn:Hg; [|done]. cbn [default] in *.
  set (rr := dget (rr_index (the_wq h)) key).
  assert (exists cid f, entries !! (default 0%nat rr mod length entries)%nat = Some (cid, f)) as (cid & f & Hl).
  { assert (default 0%nat rr mod length entries < length entries)%nat as Hlt
      by (apply Nat.mod_upper_bound; by destruct entries).
    apply lookup_lt_is_Some_2 in Hlt as [[cid f] Hl]. eauto. }
  destruct entries as [|en entries']; [done|]. set (entries := en :: entries') in *.
  set (h1 := if several then with_wq (S (h_uuid h)) (the_wq h) h else h).
  set (m1 := if several then with_id msg (uuid4 (h_uuid h)) else msg).
  assert ((if several then let! i := new_uuid in ret (with_id msg i) else ret msg) h = (Ok m1, h1)) as Hm1
    by by destruct several; [unfold new_uuid, h1, with_wq, the_wq, bind, ret; destruct h as [? ? []]|].
  assert (the_wq h1 = the_wq h) as Hh1 by by unfold h1; destruct several.
  assert (on_wq wf_tables h1) as Hw1.
  { unfold h1. destruct several; [|done]. by apply (wf_tables_mono (h_uuid h)); [cbn; lia|]. }
  unfold bind at 1. rewrite Hm1. unfold bind at 1. rewrite make_in_flight_run.
  pose proof (fresh_flight h1 Hw1) as Hfr. rewrite Hh1 in *. cbn. cbn in Hl. rewrite Hl, dget_dset_eq.
  do 2 eexists. split; [done|]. split_and!; try done.
  - split; try done. cbn. rewrite dset_fresh by done. eexists. split_and!; [done|done|].
    repeat constructor. cbn. by rewrite dget_dset_ne.
  - cbn. by rewrite Nat.add_0_r, Hl.
  - split; cbn; rewrite ?dget_dset_ne by done; unfold m1; by destruct several.
Qed.

(** The round-robin position is only ever used modulo the size of the group. *)
Lemma pick_next w w' key i :
  consumer_groups w' = consumer_groups w ->
  dget_or 0%nat (rr_index w') key =
    S (dget_or 0 (rr_index w) key mod length (entries_of key w))%nat ->
  pick key w' i = pick key w (S i).
Proof.
  intros Hg Hr. unfold pick, entries_of in *. rewrite Hg, Hr.
  do 2 f_equal.
  rewrite Nat.add_succ_comm. apply Nat.Div0.add_mod_idemp_l.
Qed.

Lemma pick_same w w' key i :
  consumer_groups w' = consumer_groups w ->
  dget_or 0%nat (rr_index w') key = dget_or 0%nat (rr_index w) key ->
  pick key w' i = pick key w i.
Proof. intros Hg Hr. unfold pick, entries_of. by rewrite Hg, Hr. Qed.

(** One message: every group of [keys] gets it once. *)
Lemma dispatch_groups_spec t several msg keys h :
  on_wq wf_tables h -> NoDup keys -> (forall key, key ∈ keys -> entries_of key (the_wq h) <> []) ->
  exists invs h', dispatch_groups t several msg keys h = (Ok invs, h') /\ dispatched t h h' invs /\
    pending (the_wq h') = pending (the_wq h) /\
    map (fun i => Some (i_handler i)) invs = map (fun key => pick key (the_wq h) 0) keys /\
    Forall (fun i => same_job (i_message i) msg) invs /\
    (forall key i, key ∈ keys -> pick key (the_wq h') i = pick key (the_wq h) (S i)) /\
    (forall key, key ∉ keys -> dget_or 0%nat (rr_index (the_wq h')) key =
      dget_or 0%nat (rr_index (the_wq h)) key).
Proof.
  revert h. induction keys as [|key keys IH]; intros h Hw Hnd Hne.
  - exists [], h. cbn. split_and!; try done; [by apply dispatched_nil|].
    by intros key i ?%not_elem_of_nil.
  - apply NoDup_cons in Hnd as [Hni Hnd]. cbn [dispatch_groups].
    destruct (dispatch_one_spec t several msg key h Hw) as (i & h1 & H1 & D1 & P1 & Hp1 & Hm1 & R1);
      [apply Hne; by left|].
    assert (on_wq wf_tables h1) as Hw1.
    { pose proof (keeps_dispatch_one (T := T) _ _ wf_table_inv t several msg key I h Hw) as Hk.
      by rewrite H1 in Hk. }
    assert (forall k, entries_of k (the_wq h1) = entries_of k (the_wq h)) as He
      by (intros k; unfold entries_of; by rewrite (dp_groups _ _ _ _ D1)).
    assert (forall k, k <> key -> dget_or 0%nat (rr_index (the_wq h1)) k =
      dget_or 0%nat (rr_index (the_wq h)) k) as Hro.
    { intros k Hk. by rewrite R1, dget_or_dset, decide_False. }
    destruct (IH h1 Hw1 Hnd) as (invs & h' & H2 & D2 & P2 & Hp2 & Hm2 & Hk2 & R2).
    { intros k Hk. rewrite He. apply Hne. by right. }
    exists (i :: invs), h'. unfold bind. rewrite H1, H2. split_and!; [done| |congruence| | | |].
    + by apply (dispatched_app t h h1 h' [i] invs).
    + cbn. rewrite Hp1, Hp2. f_equal. apply map_ext_in. intros k Hk%list_elem_of_In.
      apply pick_same; [apply (dp_groups _ _ _ _ D1) | apply Hro; congruence].
    + by constructor.
    + intros k j [->|Hk]%elem_of_cons.
      * transitivity (pick key (the_wq h1) j).
        { apply pick_same; [apply (dp_groups _ _ _ _ D2) | by apply R2]. }
        apply pick_next; [apply (dp_groups _ _ _ _ D1) | by rewrite R1, dget_or_dset, decide_True].
      * rewrite Hk2 by done. apply pick_same; [apply (dp_groups _ _ _ _ D1) | apply Hro; congruence].
    + intros k [Hk1 Hk]%not_elem_of_cons. rewrite R2 by done. by apply Hro.
Qed.

(** The whole loop: a queue is emptied, one invocation per message and group. *)
Definition handlers_for (keys : list gkey) w (n : nat) : list (option H) :=
  concat (map (fun i => map (fun key => pick key w i) keys) (seq 0 n)).

Lemma dispatch_loop_spec t keys q h :
  on_wq wf_tables h -> NoDup keys -> keys <> [] ->
  (forall key, key ∈ keys -> entries_of key (the_wq h) <> []) ->
  exists invs h', dispatch_loop t keys q h = (Ok invs, h') /\ dispatched t h h' invs /\
    (pending_of t (the_wq h) = q -> pending_of t (the_wq h') = []) /\
    (forall t', t' <> t -> dget (pending (the_wq h')) t' = dget (pending (the_wq h)) t') /\
    map (fun i => Some (i_handler i)) invs = handlers_for keys (the_wq h) (length q) /\
    map (fun i => payload (i_message i)) invs =
      concat (map (fun m => replicate (length keys) (payload m)) q).
Proof.
  intros Hw Hnd Hk. revert h Hw. induction q as [|msg q IH]; intros h Hw Hne.
  - exists [], h. cbn. split_and!; try done. by apply dispatched_nil.
  - cbn [dispatch_loop]. unfold bind at 1. unfold put_pending at 1. rewrite upd_wq_run.
    set (h1 := with_wq _ _ _).
    assert (on_wq wf_tables h1) as Hw1 by (apply (ti_pending _ _ wf_table_inv _ _ t q Hw); by apply Forall_true).
    destruct (dispatch_groups_spec t (1 <? length keys)%nat msg keys h1 Hw1 Hnd Hne)
      as (i1 & h2 & H1 & D1 & P1 & Hp1 & Hm1 & Hk1 & _).
    assert (on_wq wf_tables h2) as Hw2.
    { pose proof (keeps_dispatch_groups (T := T) _ _ wf_table_inv t (1 <? length keys)%nat msg keys I h1 Hw1) as Hkp.
      by rewrite H1 in Hkp. }
    destruct (IH h2 Hw2) as (i2 & h3 & H2 & D2 & P2 & Po2 & Hp2 & Hm2).
    { intros key Hin. unfold entries_of. rewrite (dp_groups _ _ _ _ D1). by apply Hne. }
    assert (length i1 = length keys) as Hlen.
    { apply (f_equal length) in Hp1. by rewrite !length_map in Hp1. }
    exists (i1 ++ i2), h3. unfold bind. rewrite H1.
    destruct i1 as [|i i1]; [by destruct keys|]. rewrite H2. split_and!; [done| | | | |].
    + apply (dispatched_app t h h2); [|done]. destruct D1. by split.
    + intros _. apply P2. unfold pending_of. rewrite P1. cbn. by rewrite dget_or_dset, decide_True.
    + intros t' Ht. rewrite Po2 by done. rewrite P1. cbn. by rewrite dget_dset_ne.
    + rewrite map_app, Hp1, Hp2. unfold handlers_for. cbn [length seq map concat]. f_equal.
      rewrite <- (seq_shift _ 0), map_map. f_equal. apply map_ext. intros j.
      apply map_ext_in. intros key Hin%list_elem_of_In. by rewrite Hk1.
    + rewrite map_app, Hm2. cbn [map concat]. f_equal. rewrite <- Hlen.
      change (map (fun i => payload (i_message i)) (i :: i1) = replicate (length (i :: i1)) (payload msg)).
      clear - Hm1. induction Hm1 as [|x l [Hx _] _ IH]; [done|]. cbn. by rewrite Hx, IH.
Qed.

Lemma groups_of_spec n t w :
  wf_tables n w -> NoDup (groups_of t w) /\ forall key, key ∈ groups_of t w -> entries_of key w <> [].
Proof.
  intros Hw. unfold groups_of. split.
  - apply NoDup_ListNoDup, List.NoDup_filter, NoDup_ListNoDup, Hw.
  - intros key Hin%list_elem_of_In%filter_In. destruct Hin as [Hin%list_elem_of_In _].
    apply dget_is_Some in Hin as [l Hl]. unfold entries_of, dget_or. rewrite Hl.
    by apply (wf_nonempty _ _ Hw key).
Qed.

Lemma try_dispatch_none t h : groups_of t (the_wq h) = [] -> try_dispatch t h = (Ok tt, h).
Proof. intros Hg. unfold try_dispatch, bind, get_wq, gets. by rewrite Hg. Qed.

Lemma try_dispatch_spec t h :
  on_wq wf_tables h -> groups_of t (the_wq h) <> [] ->
  exists invs h1, dispatched t h h1 invs /\
    try_dispatch t h = (Ok tt, with_wq (h_uuid h1) (set_spawned (spawned (the_wq h) ++ invs) (the_wq h1)) h1) /\
    pending_of t (the_wq h1) = [] /\
    (forall t', t' <> t -> dget (pending (the_wq h1)) t' = dget (pending (the_wq h)) t') /\
    map (fun i => Some (i_handler i)) invs =
      handlers_for (groups_of t (the_wq h)) (the_wq h) (length (pending_of t (the_wq h))) /\
    map (fun i => payload (i_message i)) invs =
      concat (map (fun m => replicate (length (groups_of t (the_wq h))) (payload m))
                  (pending_of t (the_wq h))).
Proof.
  intros Hw Hg. destruct (groups_of_spec _ t _ Hw) as [Hnd Hne].
  destruct (dispatch_loop_spec t (groups_of t (the_wq h)) (pending_of t (the_wq h)) h Hw Hnd Hg Hne)
    as (invs & h1 & Hd & D & P & Po & Hp & Hm).
  exists invs, h1. split_and!; try done; [|by apply P].
  unfold try_dispatch, bind at 1, get_wq, gets.
  destruct (groups_of t (the_wq h)) as [|k ks]; [done|].
  unfold bind. rewrite Hd, upd_wq_run. by rewrite (dp_spawned _ _ _ _ D).
Qed.

(** C14 Competing consumers: when a topic has consumer groups, [_try_dispatch]
    empties its queue; every pending message goes, in order, to exactly one
    consumer of each group, the [i]-th to the [i]-th from the group's rotation
    (registration order); one handler thread is started and one in-flight entry
    made for each, and no other topic's queue is touched. *)
Theorem competing_consumers t h :
  on_wq wf_tables h -> groups_of t (the_wq h) <> [] ->
  exists h' invs new, try_dispatch t h = (Ok tt, h') /\
    pending_of t (the_wq h') = [] /\
    (forall t', t' <> t -> pending_of t' (the_wq h') = pending_of t' (the_wq h)) /\
    spawned (the_wq h') = spawned (the_wq h) ++ invs /\
    map (fun i => Some (i_handler i)) invs =
      handlers_for (groups_of t (the_wq h)) (the_wq h) (length (pending_of t (the_wq h))) /\
    map (fun i => payload (i_message i)) invs =
      concat (map (fun m => replicate (length (groups_of t (the_wq h))) (payload m))
                  (pending_of t (the_wq h))) /\
    in_flight (the_wq h') = in_flight (the_wq h) ++ new /\ map fst new = map i_id invs.
Proof.
  intros Hw Hg. destruct (try_dispatch_spec t h Hw Hg) as (invs & h1 & D & Ht & P & Po & Hp & Hm).
  destruct (dp_flight _ _ _ _ D) as (new & Hf & Hi & _).
  exists (with_wq (h_uuid h1) (set_spawned (spawned (the_wq h) ++ invs) (the_wq h1)) h1), invs, new.
  split_and!; try done. intros t' Ht'. unfold pending_of, dget_or. cbn. by rewrite Po.
Qed.

(** ** Where the messages are *)

(** The payloads of everything that waits or is in flight *)
Definition waiting w : list val := dtotal (map payload) (pending w).
Definition underway w : list val := dtotal (fun e => [payload (message e)]) (in_flight w).
Definition contents w : list val := waiting w ++ underway w.

Lemma waiting_dset n t q w :
  wf_tables n w -> waiting (set_pending (dset (pending w) t q) w) ≡ₚ
    map payload q ++ dtotal (map payload) (ddel (pending w) t).
Proof. intros Hw. apply dtotal_dset, Hw. Qed.

Lemma waiting_get n t w :
  wf_tables n w -> waiting w ≡ₚ map payload (pending_of t w) ++ dtotal (map payload) (ddel (pending w) t).
Proof. intros Hw. apply dtotal_get_or; [apply Hw | done]. Qed.

(** A queue that grows by [new] *)
Lemma waiting_add n t q new w :
  wf_tables n w -> q ≡ₚ new ++ pending_of t w ->
  waiting (set_pending (dset (pending w) t q) w) ≡ₚ map payload new ++ waiting w.
Proof.
  intros Hw Hq. rewrite (waiting_dset n), (waiting_get n t w) by done.
  rewrite Hq, map_app. by rewrite app_assoc.
Qed.

Lemma underway_add n d e w :
  wf_tables n w -> dget (in_flight w) d = None ->
  underway (set_in_flight (dset (in_flight w) d e) w) ≡ₚ payload (message e) :: underway w.
Proof.
  intros Hw Hd. unfold underway. cbn [in_flight set_in_flight]. rewrite dset_fresh, dtotal_app by done. cbn.
  symmetry. apply Permutation_cons_append.
Qed.

Lemma underway_del n d e w :
  wf_tables n w -> dget (in_flight w) d = Some e ->
  underway w ≡ₚ payload (message e) :: underway (set_in_flight (ddel (in_flight w) d) w).
Proof. intros Hw Hd. apply (dtotal_get (fun e => [payload (message e)])); [apply Hw|done]. Qed.

(** Dispatching replaces each pending message by one entry per group. *)
Lemma try_dispatch_contents t h :
  on_wq wf_tables h -> groups_of t (the_wq h) <> [] ->
  exists rest, contents (the_wq h) ≡ₚ map payload (pending_of t (the_wq h)) ++ rest /\
    contents (the_wq (try_dispatch t h).2) ≡ₚ
      concat (map (fun m => replicate (length (groups_of t (the_wq h))) (payload m))
                  (pending_of t (the_wq h))) ++ rest.
Proof.
  intros Hw Hg. destruct (try_dispatch_spec t h Hw Hg) as (invs & h1 & D & Ht & P & Po & Hp & Hm).
  exists (dtotal (map payload) (ddel (pending (the_wq h)) t) ++ underway (the_wq h)). split.
  - unfold contents. by rewrite (waiting_get _ t _ Hw), <- app_assoc.
  - pose proof (keeps_try_dispatch (T := T) _ _ wf_table_inv t h Hw) as Hw'.
    rewrite Ht in *. cbn [snd] in *. set (w' := set_spawned (spawned (the_wq h) ++ invs) (the_wq h1)) in *.
    change (wf_tables (h_uuid h1) w') in Hw'. change (the_wq _) with w' at 1. unfold contents.
    rewrite (waiting_get _ t w' Hw'). change (pending_of t w') with (pending_of t (the_wq h1)).
    rewrite P. cbn [map app].
    destruct (dp_flight _ _ _ _ D) as (new & Hf & _ & Hnew).
    assert (underway w' =
      underway (the_wq h) ++ map (fun i => payload (i_message i)) invs) as ->.
    { unfold underway. change (in_flight w') with (in_flight (the_wq h1)). rewrite Hf, dtotal_app. f_equal.
      clear - Hnew. induction Hnew as [|p i new invs [[Hp _] _] _ IH]; [done|].
      cbn. rewrite Hp. f_equal. exact IH. }
    rewrite Hm, (dtotal_perm _ (ddel (pending w') t) (ddel (pending (the_wq h)) t)).
    + rewrite app_assoc. apply Permutation_app_comm.
    + apply dict_perm; [apply dict_ok_ddel, Hw'|apply dict_ok_ddel, Hw|].
      intros k. rewrite !dget_ddel. case_decide; [done|]. by apply Po.
Qed.

(** *** Filing one message *)
Variable isoformat : Z -> string.

Lemma contents_add n t q m w :
  wf_tables n w -> q ≡ₚ m :: pending_of t w ->
  contents (set_pending (dset (pending w) t q) w) ≡ₚ payload m :: contents w.
Proof. intros Hw Hq. unfold contents. by rewrite (waiting_add n t q [m]). Qed.

Definition dead_of (m : Message) (t r : string) h : Message :=
  with_id (with_topic (with_headers m
    (dset (dset (dset (headers m) h_dead_at (VStr (isoformat (now (the_wq h))))) h_reason (VStr r))
       h_topic (default (VStr t) (dget (headers m) h_topic)))) (t +:+ ".dead_letter"))
    (uuid4 (h_uuid h)).

Definition filed_last (t : string) (m : Message) w : wq H :=
  set_pending (dset (pending w) t (pending_of t w ++ [m])) w.
Definition filed_first (t : string) (m : Message) w : wq H :=
  set_pending (dset (pending w) t (m :: pending_of t w)) w.

Lemma dead_letter_run m t r h :
  dead_letter isoformat m t r h =
    (Ok tt, with_wq (S (h_uuid h)) (filed_last (t +:+ ".dead_letter") (dead_of m t r h) (the_wq h)) h).
Proof. done. Qed.

Lemma appendleft_run t m h :
  appendleft_pending t m h = (Ok tt, with_wq (h_uuid h) (filed_first t m (the_wq h)) h).
Proof. done. Qed.

Lemma pending_of_put t t' q w :
  pending_of t' (set_pending (dset (pending w) t q) w) = if decide (t' = t) then q else pending_of t' w.
Proof. unfold pending_of. cbn. apply dget_or_dset. Qed.

(** Topics that dead letters are filed under *)
Definition is_dl (t : string) : Prop := exists x, t = x +:+ ".dead_letter".

(** ** Rejecting *)
Definition retry_of (e : InFlightEntry) : Z :=
  match py_succ (retry_count e) with Ok k => k | Raise _ => 0 end.

Lemma typed_retry e : typed_entry e -> py_succ (retry_count e) = Ok (retry_of e).
Proof. intros (_ & Hc & _). unfold retry_of. by destruct (retry_count e). Qed.

Definition retried (w : wq H) (e : InFlightEntry) : bool := bool_decide (retry_of e < max_retries (cfg w)).

(** Where an entry goes when it comes back, with what happened to it *)
Definition returned (w : wq H) (r : string) (retry : bool) (e : InFlightEntry) h : wq H :=
  if retry then filed_first (e_topic e) (requeued (message e) (retry_of e)) w
  else filed_last (e_topic e +:+ ".dead_letter") (dead_of (message e) (e_topic e) r h) w.

Lemma returned_contents n w r b e h :
  wf_tables n w -> contents (returned w r b e h) ≡ₚ payload (message e) :: contents w.
Proof.
  intros Hw. unfold returned, filed_first, filed_last. destruct b.
  - by rewrite (contents_add n _ _ (requeued (message e) (retry_of e))).
  - rewrite (contents_add n _ _ (dead_of (message e) (e_topic e) r h)); [done|done|].
    symmetry. apply Permutation_cons_append.
Qed.

Lemma nack_locked_spec d rq h e :
  on_wq typed h -> dget (in_flight (the_wq h)) d = Some e ->
  let w := set_in_flight (ddel (in_flight (the_wq h)) d) (the_wq h) in
  let b := rq && retried (the_wq h) e in
  let r := if retried (the_wq h) e then "nack_no_requeue" else "max_retries_exceeded" in
  nack_locked isoformat d rq h =
    (Ok (true, if b then Some (e_topic e) else None),
     with_wq (if b then h_uuid h else S (h_uuid h)) (returned w r b e h) h).
Proof.
  intros Hty Hd. cbv zeta. unfold nack_locked, bind at 1, get_wq, gets. rewrite Hd.
  unfold bind at 1. rewrite upd_wq_run. unfold bind at 1, lift.
  rewrite (typed_retry e) by by apply (ty_flight _ _ Hty), (elem_dvalues _ d).
  fold (retried (the_wq h) e).
  assert (bool_decide (max_retries (cfg (the_wq h)) <= retry_of e) = negb (retried (the_wq h) e)) as ->.
  { unfold retried. repeat case_bool_decide; cbn; lia || done. }
  destruct rq, (retried (the_wq h) e); done.
Qed.

Lemma nack_locked_contents d rq h :
  on_wq typed h -> contents (the_wq (nack_locked isoformat d rq h).2) ≡ₚ contents (the_wq h).
Proof.
  intros Hty. destruct (dget (in_flight (the_wq h)) d) as [e|] eqn:Hd.
  - rewrite (nack_locked_spec d rq h e Hty Hd). cbn [snd the_wq with_wq h_rest].
    rewrite (returned_contents (h_uuid h)) by by apply (ti_del _ _ wf_table_inv), Hty.
    unfold contents. rewrite (underway_del (h_uuid h) d e (the_wq h)) by (done || apply Hty).
    apply Permutation_middle.
  - unfold nack_locked, bind, get_wq, gets. by rewrite Hd.
Qed.

(** ** The reaper *)
Definition is_late (t : Z) (e : InFlightEntry) : bool :=
  match duration_ge (t - delivered_at e) (visibility_timeout e) with Ok b => b | Raise _ => false end.

Lemma typed_late t e : typed_entry e ->
  duration_ge (t - delivered_at e) (visibility_timeout e) = Ok (is_late t e).
Proof. intros (_ & _ & Hv). unfold is_late. by destruct (visibility_timeout e). Qed.

Lemma with_wq_same h : with_wq (h_uuid h) (the_wq h) h = h.
Proof. by destruct h as [n tr [q w]]. Qed.

Lemma set_in_flight_same w : set_in_flight (in_flight w) w = w.
Proof. by destruct w. Qed.

Lemma ddel_mid (pre l : list (string * InFlightEntry)) d e :
  dict_ok (pre ++ (d, e) :: l) -> ddel (pre ++ (d, e) :: l) d = pre ++ l.
Proof.
  unfold dict_ok, dkeys. rewrite fmap_app. cbn. intros (_ & Hpre & Hl)%NoDup_app.
  apply NoDup_cons in Hl as [Hni _]. unfold ddel.
  rewrite filter_app, filter_cons. cbn. rewrite decide_False by naive_solver.
  rewrite !filter_all; [done| |].
  - apply Forall_forall. intros [d' e'] Hin; cbn; intros ->. apply Hni, list_elem_of_fmap. by exists (d, e').
  - apply Forall_forall. intros [d' e'] Hin; cbn; intros ->.
    apply (Hpre d); [apply list_elem_of_fmap; by exists (d, e') | by left].
Qed.

Definition late_of (t : Z) (l : list (string * InFlightEntry)) : list InFlightEntry :=
  List.filter (is_late t) (map snd l).
Definition in_time (t : Z) (l : list (string * InFlightEntry)) : list (string * InFlightEntry) :=
  List.filter (fun p => negb (is_late t p.2)) l.

Lemma expire_loop_spec t pre l h :
  Forall typed_entry (map snd l) -> in_flight (the_wq h) = pre ++ l -> dict_ok (pre ++ l) ->
  expire_loop t l h =
    (Ok (late_of t l), with_wq (h_uuid h) (set_in_flight (pre ++ in_time t l) (the_wq h)) h).
Proof.
  revert pre h. induction l as [|[d e] l IH]; intros pre h Hty Hf Hok.
  - cbn. rewrite <- Hf, set_in_flight_same. by rewrite with_wq_same.
  - cbn in Hty. apply Forall_cons in Hty as [He Hty].
    cbn [expire_loop]. unfold bind at 1, lift. rewrite (typed_late t e He).
    unfold late_of, in_time. cbn [map snd List.filter]. destruct (is_late t e) eqn:Hlate; cbn [negb].
    + unfold bind at 1. rewrite upd_wq_run. unfold bind.
      rewrite (IH pre); [done|done| |].
      * cbn. by rewrite Hf, ddel_mid.
      * unfold dict_ok, dkeys in *. rewrite fmap_app in *. cbn in Hok.
        apply NoDup_app in Hok as (H1 & H2 & [_ H3]%NoDup_cons). apply NoDup_app. split_and!; [done| |done].
        intros x Hx Hxl. apply (H2 x Hx). by right.
    + rewrite (IH (pre ++ [(d, e)])); rewrite <- ?app_assoc; done.
Qed.

(** The entries of a list that go back to topic [t]'s queue *)
Definition back_to (t : string) w (es : list InFlightEntry) : list InFlightEntry :=
  List.filter (fun e => bool_decide (e_topic e = t) && retried w e) es.
Definition requeued_of (e : InFlightEntry) : Message := requeued (message e) (retry_of e).

Lemma pending_of_returned w w0 r e h t :
  ~ is_dl t ->
  pending_of t (returned w r (retried w0 e) e h) =
    map requeued_of (rev (back_to t w0 [e])) ++ pending_of t w.
Proof.
  intros Hdl. unfold returned, back_to. cbn. destruct (retried w0 e); unfold filed_first, filed_last;
    rewrite pending_of_put.
  - case_bool_decide; case_decide; subst; done.
  - rewrite andb_false_r. case_decide as Heq; [|done]. destruct Hdl. by exists (e_topic e).
Qed.

Lemma back_to_cons t w e es : rev (back_to t w (e :: es)) = rev (back_to t w es) ++ rev (back_to t w [e]).
Proof. unfold back_to. cbn. destruct (_ && _); [done|]. by rewrite app_nil_r. Qed.

Lemma wf_returned n w r (b : bool) e h : wf_tables n w -> wf_tables (if b then n else S n) (returned w r b e h).
Proof.
  intros Hw. destruct b; unfold returned, filed_first, filed_last.
  - apply (ti_pending _ _ wf_table_inv); [done|]. by apply Forall_true.
  - apply (ti_pending _ _ wf_table_inv); [by apply (wf_tables_mono n); [lia|]|]. by apply Forall_true.
Qed.

Lemma returned_same w r b e h :
  in_flight (returned w r b e h) = in_flight w /\ consumer_groups (returned w r b e h) = consumer_groups w /\
  cfg (returned w r b e h) = cfg w.
Proof. by destruct b. Qed.

Lemma requeue_loop_spec es h :
  on_wq wf_tables h -> Forall typed_entry es ->
  exists ts h', requeue_loop isoformat es h = (Ok ts, h') /\
    in_flight (the_wq h') = in_flight (the_wq h) /\
    consumer_groups (the_wq h') = consumer_groups (the_wq h) /\
    (forall t, ~ is_dl t -> pending_of t (the_wq h') =
       map requeued_of (rev (back_to t (the_wq h) es)) ++ pending_of t (the_wq h)) /\
    (forall e, e ∈ es -> retried (the_wq h) e = true -> e_topic e ∈ ts) /\
    contents (the_wq h') ≡ₚ map (fun e => payload (message e)) es ++ contents (the_wq h).
Proof.
  revert h. induction es as [|e es IH]; intros h Hw Hty.
  - exists [], h. split_and!; try done. by intros e ?%not_elem_of_nil.
  - apply Forall_cons in Hty as [He Hty].
    set (b := retried (the_wq h) e). set (w1 := returned (the_wq h) "visibility_timeout_exceeded" b e h).
    set (h1 := with_wq (if b then h_uuid h else S (h_uuid h)) w1 h).
    pose proof (wf_returned _ _ "visibility_timeout_exceeded" b e h Hw) as Hw1.
    pose proof (returned_same (the_wq h) "visibility_timeout_exceeded" b e h) as (Hf1 & Hg1 & Hc1).
    fold w1 in Hw1, Hf1, Hg1, Hc1.
    assert (forall e, retried w1 e = retried (the_wq h) e) as Hrt by (intros; unfold retried; by rewrite Hc1).
    destruct (IH h1 Hw1 Hty) as (ts & h' & Hr & Hf & Hg & Hp & Ht & Hcn).
    exists (if b then (if bool_decide (e_topic e ∈ ts) then ts else e_topic e :: ts) else ts), h'.
    split_and!.
    + cbn [requeue_loop]. unfold bind at 1, lift. rewrite (typed_retry e He).
      unfold bind at 1, get_wq, gets. fold (retried (the_wq h) e). fold b.
      destruct b eqn:Hb; unfold bind; [rewrite appendleft_run|rewrite dead_letter_run];
        unfold h1, w1 in Hr; cbn [returned] in Hr; rewrite Hr; done.
    + by rewrite Hf.
    + by rewrite Hg.
    + intros t Hdl. rewrite Hp by done. change (the_wq h1) with w1.
      assert (back_to t w1 es = back_to t (the_wq h) es) as ->.
      { unfold back_to. apply List.filter_ext. intros e'. by rewrite <- Hrt. }
      unfold w1, b. rewrite pending_of_returned by done.
      by rewrite (back_to_cons t (the_wq h) e es), map_app, <- app_assoc.
    + intros e' [->|Hin]%elem_of_cons Hb'.
      * unfold b. rewrite Hb'. case_bool_decide; [done|by left].
      * assert (e_topic e' ∈ ts) as Hin' by (apply Ht; [done|]; by rewrite <- Hb', <- Hrt).
        destruct b; [|done]. case_bool_decide; [done|by right].
    + rewrite Hcn. change (the_wq h1) with w1. unfold w1.
      rewrite (returned_contents (h_uuid h)) by done. symmetry. apply Permutation_middle.
Qed.

Lemma reap_locked_spec t h :
  on_wq typed h ->
  exists ts h', reap_locked isoformat t h = (Ok ts, h') /\
    in_flight (the_wq h') = in_time t (in_flight (the_wq h)) /\
    consumer_groups (the_wq h') = consumer_groups (the_wq h) /\
    (forall t', ~ is_dl t' -> pending_of t' (the_wq h') =
       map requeued_of (rev (back_to t' (the_wq h) (late_of t (in_flight (the_wq h))))) ++
         pending_of t' (the_wq h)) /\
    (forall e, e ∈ late_of t (in_flight (the_wq h)) -> retried (the_wq h) e = true -> e_topic e ∈ ts) /\
    contents (the_wq h') ≡ₚ contents (the_wq h).
Proof.
  intros Hty. unfold reap_locked, bind at 1, get_wq, gets.
  assert (Forall typed_entry (map snd (in_flight (the_wq h)))) as Hall.
  { apply Forall_forall. intros e. apply (ty_flight _ _ Hty). }
  assert (dict_ok (in_flight (the_wq h))) as Hok by apply Hty.
  unfold bind. rewrite (expire_loop_spec t [] (in_flight (the_wq h))) by done.
  set (h1 := with_wq _ _ _).
  assert (on_wq wf_tables h1) as Hw1.
  { pose proof (keeps_expire_loop (T := T) _ _ wf_table_inv t (in_flight (the_wq h)) h (ty_wf _ _ Hty)) as Hk.
    by rewrite (expire_loop_spec t [] (in_flight (the_wq h))) in Hk. }
  destruct (requeue_loop_spec (late_of t (in_flight (the_wq h))) h1 Hw1) as (ts & h' & Hr & Hf & Hg & Hp & Ht & Hcn).
  { rewrite Forall_forall in *. intros e Hin%list_elem_of_In%filter_In.
    apply Hall, list_elem_of_In, Hin. }
  exists ts, h'. split_and!; try done.
  rewrite Hcn. change (the_wq h1) with (set_in_flight (in_time t (in_flight (the_wq h))) (the_wq h)).
  unfold contents. rewrite Permutation_app_swap_app. apply Permutation_app_head.
  unfold underway. cbn [in_flight set_in_flight]. unfold late_of, in_time.
  clear. induction (in_flight (the_wq h)) as [|[d e] l IH]; [done|]. unfold dtotal in *. cbn.
  destruct (is_late t e); cbn; [by rewrite IH|]. rewrite <- IH. symmetry. apply Permutation_middle.
Qed.
End dispatch.
