(* ===== verification/WorkSteps.v ===== *)
(** * [WorkQueue] under concurrency

    Threads interleave at the critical sections of the lock.  A state is the heap
    with the list of topics that threads which have left a critical section are
    about to call [_try_dispatch] on; a step is one critical section of
    [WorkQueue], run whole, or one such call.  The steps cover every public
    operation, the reaper, the end of handler threads and the clock. *)
From S2P Require Import Prelude PyDict Queue Transport Types WorkQueue WorkDispatch.
Import WorkQueue.

Section steps.
Context {T H : Type}.
Abbreviation world := (heap T (qstate H * wq H)).
Variable isoformat : Z -> string.
(** What callers pass to [enqueue] as timeout and headers *)
Variable allowed : option val -> hdrs -> Prop.

(** The [k]-th handler thread ends, and is no longer among the spawned ones. *)
Definition thread_ends (k : nat) : M world (option (invocation H)) :=
  let! w := get_wq in
  upd_wq (set_spawned (delete k (spawned w))) ;;;
  ret (spawned w !! k).

Definition obligation (o : option string) : list string :=
  match o with Some t => [t] | None => [] end.

(** The critical sections, each returning the topics its thread goes on to
    dispatch. *)
Inductive section : M world (list string) -> Prop :=
  | sec_enqueue t p vt hd : allowed vt hd ->
      section (enqueue_locked isoformat t p vt hd ;;; ret [t])
  | sec_consume t f g : section (consume_locked t f g ;;; ret [t])
  | sec_dequeue t d : section (dequeue_pass t d ;;; ret [])
  | sec_ack d : section (ack d ;;; ret [])
  | sec_nack d rq : section (let! r := nack_locked isoformat d rq in ret (obligation r.2))
  | sec_remove cid : section (remove_consumer cid ;;; ret [])
  | sec_reap t : section (reap_locked isoformat t)
  | sec_handler_returns k : section (thread_ends k ;;; ret [])
  | sec_handler_raises k :
      section (let! i := thread_ends k in
               match i with
               | Some i => let! r := nack_locked isoformat (i_id i) true in ret (obligation r.2)
               | None => ret []
               end)
  | sec_tick t : section (upd_wq (set_now t) ;;; ret [])
  | sec_close_flags : section (close_flags ;;; ret [])
  | sec_close_tables : section (close_tables ;;; ret []).

Abbreviation sys := (world * list string)%type.

Inductive step : sys -> sys -> Prop :=
  | step_section m h h' ts ds :
      section m -> m h = (Ok ts, h') -> step (h, ds) (h', ts ++ ds)
  | step_raise m h h' e ds :
      section m -> m h = (Raise e, h') -> step (h, ds) (h', ds)
  | step_dispatch t h h' r ds1 ds2 :
      try_dispatch t h = (r, h') -> step (h, ds1 ++ t :: ds2) (h', ds1 ++ ds2).

(** The operations of the class are these sections followed by their dispatches. *)
Lemma enqueue_sections t p vt hd :
  m_equiv (enqueue (T := T) (H := H) isoformat t p vt hd)
    (let! i := enqueue_locked isoformat t p vt hd in for_each [t] try_dispatch ;;; ret i).
Proof. unfold enqueue. apply bind_proper; [done|]. intros i w. cbn. by rewrite bind_assoc. Qed.

Lemma nack_sections d rq :
  m_equiv (nack (T := T) (H := H) isoformat d rq)
    (let! r := nack_locked isoformat d rq in for_each (obligation r.2) try_dispatch ;;; ret r.1).
Proof.
  unfold nack. apply bind_proper; [done|]. intros [b [t|]] w; cbn; [|done]. by rewrite bind_assoc.
Qed.

Section inv.
Variables (P : Message -> Prop) (I : nat -> wq H -> Prop).
Hypothesis TI : table_inv P I.
Hypothesis enqueued_P : forall m (w : wq H) t vt hd, allowed vt hd ->
  headers m = dmerge [(h_retry, VInt 0); (h_topic, VStr t); (h_enqueued, VStr (isoformat (now w)));
     (h_vt, default (default_visibility_timeout (cfg w)) vt)] hd ->
  (exists n, I n w) -> P m.

Lemma keeps_section m : section m -> keeps (on_wq I) m.
Proof.
  assert (forall k, keeps (on_wq I) (thread_ends k)) as Hte.
  { intros k. pose proof (keeps_spawned (T := T) P I TI). apply (keeps_get_wq I). eauto with py. }
  pose proof (keeps_nack_locked (T := T) P I TI isoformat).
  destruct 1; try (apply keeps_bind; [|intros; apply keeps_ret]).
  - apply (keeps_enqueue_locked P I TI). intros m w Hm. by eapply enqueued_P.
  - by apply (keeps_consume_locked P).
  - by apply (keeps_dequeue_pass P).
  - by apply (keeps_ack P).
  - done.
  - by apply (keeps_remove_consumer P).
  - by apply (keeps_reap_locked P).
  - done.
  - apply keeps_bind; [done|]. intros [i|]; eauto with py.
  - by apply (keeps_set_now P).
  - by apply (keeps_close_flags P).
  - by apply (keeps_close_tables P).
Qed.

(** Rule induction: a property of the tables that [table_inv] covers holds in
    every later state. *)
Lemma steps_keep s s' : rtc step s s' -> on_wq I s.1 -> on_wq I s'.1.
Proof.
  induction 1 as [|s s1 s2 Hs _ IH]; [done|]. intros HI. apply IH.
  destruct Hs as [m h h' ts ds Hm Hr|m h h' e ds Hm Hr|t h h' r ds1 ds2 Hr]; cbn in *.
  - pose proof (keeps_section m Hm h HI) as Hk. by rewrite Hr in Hk.
  - pose proof (keeps_section m Hm h HI) as Hk. by rewrite Hr in Hk.
  - pose proof (keeps_try_dispatch P I TI t h HI) as Hk. by rewrite Hr in Hk.
Qed.
End inv.

(** C6 The tables of a [WorkQueue] stay consistent under every interleaving:
    deliveries are filed under their own ids, ids are never reused, every group
    in the table has a consumer, and the registry and the groups list the same
    consumers, each once. *)
Theorem tables_consistent s s' :
  on_wq wf_tables s.1 -> rtc step s s' -> on_wq wf_tables s'.1.
Proof. intros Hw Hs. by apply (steps_keep (fun _ => True) wf_tables wf_table_inv) with s. Qed.

Definition was_delivered (d : string) (h : world) : Prop :=
  is_Some (dget (in_flight (the_wq h)) d).

(** C4 A delivery is settled at most once.  Once a delivered id is no longer in
    flight, be it by [ack], [nack], expiry or [close], it never is again, whatever
    the other threads do: every later [ack] and [nack] of it returns [False] and
    changes nothing. *)
Theorem settled_once d s1 s2 s3 rq :
  on_wq wf_tables s1.1 -> was_delivered d s1.1 -> rtc step s1 s2 ->
  dget (in_flight (the_wq s2.1)) d = None -> rtc step s2 s3 ->
  ack d s3.1 = (Ok false, s3.1) /\ nack isoformat d rq s3.1 = (Ok false, s3.1).
Proof.
  intros Hw [e He] H12 Hd H23.
  destruct (wf_ids _ _ Hw d e He) as (_ & k & Hk & ->).
  assert (on_wq (settled (uuid4 k)) s2.1) as Hs2.
  { split; [|done]. exists k. split; [|done].
    enough (on_wq (fun n _ => (k < n)%nat) s2.1) as Hlt by exact Hlt.
    apply (steps_keep (fun _ => True) (fun n _ => (k < n)%nat)) with s1; [|done|done|exact Hk].
    split; try done; intros; lia. }
  apply (steps_keep (fun _ => True) _ (settled_table_inv (uuid4 k))) with (s' := s3) in Hs2 as [_ Hs3];
    [|done|done].
  unfold ack, nack, nack_locked, bind, get_wq, gets. by rewrite (proj2 (dmem_false _ _) Hs3), Hs3.
Qed.

(** ** No lost wakeup *)

(** Topics whose queue or groups came to life are among [ts]. *)
Definition woken (ts : list string) (h h' : world) : Prop :=
  forall t, ~ is_dl t -> t ∈ ts \/
    ((pending_of t (the_wq h) = [] -> pending_of t (the_wq h') = []) /\
     (groups_of t (the_wq h) = [] -> groups_of t (the_wq h') = [])).

Definition woken_by (m : M world (list string)) (h : world) : Prop :=
  match m h with (Ok ts, h') => woken ts h h' | (Raise _, h') => woken [] h h' end.

Lemma woken_same ts h h' :
  pending (the_wq h') = pending (the_wq h) -> consumer_groups (the_wq h') = consumer_groups (the_wq h) ->
  woken ts h h'.
Proof. intros Hp Hg t _. right. unfold pending_of, groups_of. by rewrite Hp, Hg. Qed.

Lemma woken_one t h h' :
  (forall t', t' <> t -> pending_of t' (the_wq h') = pending_of t' (the_wq h)) ->
  (forall t', t' <> t -> groups_of t' (the_wq h') = groups_of t' (the_wq h)) -> woken [t] h h'.
Proof.
  intros Hp Hg t' _. destruct (decide (t' = t)) as [->|Hne]; [left; by left|].
  right. by rewrite Hp, Hg.
Qed.

Lemma groups_of_dset t key (l : list (string * H)) (w : wq H) r c :
  key.1 <> t -> groups_of t (set_consumers (dset (consumer_groups w) key l) r c w) = groups_of t w.
Proof.
  intros Hk. unfold groups_of. cbn. rewrite dkeys_dset. case_decide; [done|].
  rewrite List.filter_app. cbn. rewrite bool_decide_eq_false_2 by done. by rewrite app_nil_r.
Qed.

Lemma woken_enqueue t p vt hd h :
  woken_by (enqueue_locked isoformat t p vt hd ;;; ret [t]) h.
Proof.
  unfold woken_by, enqueue_locked, new_message, new_uuid, get_wq, gets, bind, ret. cbn.
  destruct (_ && _); cbn; [by apply woken_same|].
  apply woken_one; intros t' Ht; [|done].
  change (pending_of t' (filed_last t (mkMessage (uuid4 (h_uuid h)) t p
    (dmerge [(h_retry, VInt 0); (h_topic, VStr t); (h_enqueued, VStr (isoformat (now (the_wq h))));
       (h_vt, default (default_visibility_timeout (cfg (the_wq h))) vt)] hd) (now (the_wq h)) None None) (the_wq h))
    = pending_of t' (the_wq h)).
  unfold filed_last. by rewrite pending_of_put, decide_False.
Qed.

Lemma woken_consume t f g h : woken_by (consume_locked t f g ;;; ret [t]) h.
Proof.
  apply woken_one; intros t' Ht; [done|]. cbn. apply groups_of_dset. cbn. congruence.
Qed.

Lemma woken_dequeue t d h : woken_by (dequeue_pass t d ;;; ret []) h.
Proof.
  unfold woken_by, dequeue_pass, bind, get_wq, gets. destruct (closed_wq (the_wq h)); [by apply woken_same|].
  destruct (pending_of t (the_wq h)) as [|m q] eqn:Hp.
  - destruct d as [d|]; [destruct (decide _)|]; by apply woken_same.
  - unfold put_pending. rewrite upd_wq_run, make_in_flight_run. cbn. intros t' _. right. split; [|done].
    change (pending_of t' (the_wq h) = [] ->
      pending_of t' (set_pending (dset (pending (the_wq h)) t q) (the_wq h)) = []).
    rewrite pending_of_put. case_decide; [|done]. subst. by rewrite Hp.
Qed.

Lemma woken_nack d rq h :
  on_wq typed h ->
  woken_by (let! r := nack_locked isoformat d rq in ret (obligation r.2)) h.
Proof.
  intros Hty. unfold woken_by, bind. destruct (dget (in_flight (the_wq h)) d) as [e|] eqn:Hd.
  - rewrite (nack_locked_spec isoformat d rq h e Hty Hd). cbv zeta. cbn [fst snd].
    set (w := set_in_flight _ _). set (b := rq && _). set (r := if retried _ _ then _ else _).
    intros t Hdl. unfold returned. destruct b; cbn [ret obligation].
    + destruct (decide (t = e_topic e)) as [->|Hne]; [left; by left|]. right. split; [|done].
      cbn [the_wq with_wq h_rest snd]. unfold filed_first. by rewrite pending_of_put, decide_False.
    + right. split; [|done]. cbn [the_wq with_wq h_rest snd]. unfold filed_last.
      rewrite pending_of_put, decide_False; [done|]. intros ->. apply Hdl. by eexists.
  - unfold nack_locked, bind, get_wq, gets. rewrite Hd. by apply woken_same.
Qed.

Lemma woken_remove cid h : woken_by (remove_consumer cid ;;; ret []) h.
Proof.
  unfold woken_by, remove_consumer, bind, get_wq, gets.
  destruct (dget (consumer_registry (the_wq h)) cid) as [key|]; [|by apply woken_same].
  destruct (dget (consumer_groups (the_wq h)) key) as [[|en l]|] eqn:Hg; try by apply woken_same.
  destruct (remove_entry cid (en :: l)) as [|en' l']; cbn; intros t _; right; (split; [done|]).
  - unfold groups_of. cbn. rewrite dkeys_ddel. intros Hn%filter_nil_inv.
    apply filter_none_b. rewrite Forall_forall in *. intros k [_ Hk]%list_elem_of_filter. by apply Hn.
  - unfold groups_of. cbn. rewrite dkeys_dset, decide_True; [done|].
    apply dget_is_Some. by rewrite Hg.
Qed.

Lemma woken_reap t h : on_wq typed h -> woken_by (reap_locked isoformat t) h.
Proof.
  intros Hty. unfold woken_by.
  destruct (reap_locked_spec isoformat t h Hty) as (ts & h' & -> & _ & Hg & Hp & Ht & _).
  cbn. intros t' Hdl. rewrite Hp by done.
  destruct (back_to t' (the_wq h) (late_of t (in_flight (the_wq h)))) as [|e es] eqn:Hb.
  - right. split; [done|]. unfold groups_of. by rewrite Hg.
  - left. assert (e ∈ back_to t' (the_wq h) (late_of t (in_flight (the_wq h)))) as Hin
      by (rewrite Hb; by left).
    apply list_elem_of_In, filter_In in Hin as [Hin [Htop%bool_decide_eq_true Hr]%andb_true_iff].
    rewrite <- Htop. apply Ht; [by apply list_elem_of_In | done].
Qed.

Definition typed_allowed : Prop := forall vt hd t (w : wq H), allowed vt hd ->
  is_num (default_visibility_timeout (cfg w)) ->
  typed_headers (dmerge [(h_retry, VInt 0); (h_topic, VStr t); (h_enqueued, VStr (isoformat (now w)));
     (h_vt, default (default_visibility_timeout (cfg w)) vt)] hd).

Lemma enqueued_typed : typed_allowed -> forall m (w : wq H) t vt hd, allowed vt hd ->
  headers m = dmerge [(h_retry, VInt 0); (h_topic, VStr t); (h_enqueued, VStr (isoformat (now w)));
     (h_vt, default (default_visibility_timeout (cfg w)) vt)] hd ->
  (exists n, typed n w) -> typed_msg m.
Proof. intros Ha m w t vt hd Hal Hm [n Hw]. unfold typed_msg. rewrite Hm. by apply Ha, Hw. Qed.

Lemma thread_ends_run k h :
  thread_ends k h = (Ok (spawned (the_wq h) !! k),
    with_wq (h_uuid h) (set_spawned (delete k (spawned (the_wq h))) (the_wq h)) h).
Proof. done. Qed.

Lemma woken_section m h : section m -> on_wq typed h -> woken_by m h.
Proof.
  intros Hm Hty. destruct Hm as [t p vt hd _|t f g|t d|d|d rq|cid|t|k|k|t| |].
  - apply woken_enqueue.
  - apply woken_consume.
  - apply woken_dequeue.
  - unfold woken_by, ack, bind, get_wq, gets. by destruct (dmem _ _); apply woken_same.
  - by apply woken_nack.
  - apply woken_remove.
  - by apply woken_reap.
  - by apply woken_same.
  - unfold woken_by, bind at 1. rewrite thread_ends_run.
    destruct (spawned (the_wq h) !! k) as [i|]; [|by apply woken_same].
    set (h1 := with_wq _ _ _).
    assert (on_wq typed h1) as Hty1 by by apply (ti_spawned _ _ typed_table_inv).
    exact (woken_nack (i_id i) true h1 Hty1).
  - by apply woken_same.
  - by apply woken_same.
  - intros t _. by right.
Qed.

Definition no_lost (s : sys) : Prop := forall t, ~ is_dl t ->
  groups_of t (the_wq s.1) <> [] -> pending_of t (the_wq s.1) <> [] -> t ∈ s.2.

Lemma no_lost_woken ts ds h h' : no_lost (h, ds) -> woken ts h h' -> no_lost (h', ts ++ ds).
Proof.
  intros Hn Hw t Hdl Hg Hp. apply elem_of_app. destruct (Hw t Hdl) as [?|[Hwp Hwg]]; [by left|].
  right. apply Hn; cbn; auto.
Qed.

Lemma step_no_lost s s' : step s s' -> on_wq typed s.1 -> no_lost s -> no_lost s'.
Proof.
  intros [m h h' ts ds Hm Hr|m h h' e ds Hm Hr|t h h' r ds1 ds2 Hr] Hty Hn.
  - pose proof (woken_section m h Hm Hty) as Hw. unfold woken_by in Hw. rewrite Hr in Hw.
    by apply (no_lost_woken ts ds h).
  - pose proof (woken_section m h Hm Hty) as Hw. unfold woken_by in Hw. rewrite Hr in Hw.
    by apply (no_lost_woken [] ds h).
  - destruct (decide (groups_of t (the_wq h) = [])) as [Hg|Hg].
    + rewrite (try_dispatch_none t h Hg) in Hr. simplify_eq.
      intros t' Hdl Hg' Hp. specialize (Hn t' Hdl Hg' Hp). cbn in *.
      rewrite elem_of_app, elem_of_cons in Hn. rewrite elem_of_app. naive_solver.
    + destruct (try_dispatch_spec t h (ty_wf _ _ Hty) Hg) as (invs & h1 & D & Ht & P & Po & _).
      rewrite Ht in Hr. simplify_eq. intros t' Hdl Hg' Hp'. cbn in *.
      destruct (decide (t' = t)) as [->|Hne].
      { unfold pending_of in *. cbn in Hp'. congruence. }
      assert (t' ∈ ds1 ++ t :: ds2) as Hin.
      { apply (Hn t' Hdl); cbn.
        - unfold groups_of in *. cbn in Hg'. by rewrite (dp_groups _ _ _ _ D) in Hg'.
        - unfold pending_of, dget_or in *. cbn in Hp'. by rewrite Po in Hp' by done. }
      rewrite elem_of_app, elem_of_cons in Hin. rewrite elem_of_app. naive_solver.
Qed.

(** C2 No lost wakeup.  Under every interleaving, a topic with push consumers
    and pending messages always has a [_try_dispatch] on its way, so that no
    message waits while a consumer for it is registered.  (Callers do not put
    non-numbers into the bookkeeping headers; dead-letter topics are the exception,
    see [dead_letters_starve].) *)
Theorem no_lost_wakeup s s' :
  typed_allowed -> on_wq typed s.1 -> no_lost s -> rtc step s s' -> no_lost s'.
Proof.
  intros Ha Hty Hn Hs. induction Hs as [|s1 s2 s3 H12 _ IH]; [done|]. apply IH.
  - apply (steps_keep typed_msg typed typed_table_inv (enqueued_typed Ha) s1); [|done].
    by apply rtc_once.
  - by apply (step_no_lost s1).
Qed.

(** ** Messages leave by [ack] only *)

Definition kept (h h' : world) : Prop := contents (the_wq h) ⊆+ contents (the_wq h').

Lemma kept_same h h' : pending (the_wq h') = pending (the_wq h) ->
  in_flight (the_wq h') = in_flight (the_wq h) -> kept h h'.
Proof. intros Hp Hf. unfold kept, contents, waiting, underway. by rewrite Hp, Hf. Qed.

Lemma kept_perm h h' : contents (the_wq h') ≡ₚ contents (the_wq h) -> kept h h'.
Proof. intros Hp. unfold kept. by rewrite Hp. Qed.

Lemma kept_enqueue t p vt hd h :
  on_wq wf_tables h -> kept h (enqueue_locked isoformat t p vt hd h).2.
Proof.
  intros Hw. unfold enqueue_locked, new_message, new_uuid, get_wq, gets, bind, ret. cbn.
  destruct (_ && _); cbn; [by apply kept_same|]. set (m := mkMessage _ _ _ _ _ _ _).
  change (contents (the_wq h) ⊆+ contents (filed_last t m (the_wq h))).
  unfold filed_last. rewrite (contents_add (h_uuid h) t _ m) by
    (done || symmetry; apply Permutation_cons_append).
  by apply submseteq_cons.
Qed.

Lemma kept_dequeue t d h : on_wq wf_tables h -> kept h (dequeue_pass t d h).2.
Proof.
  intros Hw. unfold dequeue_pass, bind, get_wq, gets. destruct (closed_wq (the_wq h)); [by apply kept_same|].
  destruct (pending_of t (the_wq h)) as [|m q] eqn:Hp.
  - destruct d as [d|]; [destruct (decide _)|]; by apply kept_same.
  - unfold put_pending. rewrite upd_wq_run, make_in_flight_run. set (h1 := with_wq _ _ _). cbn [snd].
    apply kept_perm. set (w1 := set_pending (dset (pending (the_wq h)) t q) (the_wq h)).
    set (e := entry_of m t (t +:+ "._pull") h1).
    change (contents (set_in_flight (dset (in_flight w1) (delivery_id e) e) w1) ≡ₚ contents (the_wq h)).
    assert (wf_tables (h_uuid h) w1) as Hw1 by (apply (ti_pending _ _ wf_table_inv); [done|by apply Forall_true]).
    unfold contents. rewrite (underway_add (h_uuid h)) by (done || apply (fresh_flight h1 Hw1)).
    change (waiting _) with (waiting w1) at 1. unfold w1.
    rewrite (waiting_dset (h_uuid h)), (waiting_get (h_uuid h) t (the_wq h)), Hp by done. cbn.
    symmetry. by rewrite Permutation_middle.
Qed.

(** The steps of the other kinds than [ack] and [close] *)
Lemma kept_section m h : section m -> on_wq typed h ->
  kept h (m h).2 \/
  (exists d e, dget (in_flight (the_wq h)) d = Some e /\ ack d h = (Ok true, (m h).2) /\
     contents (the_wq h) ≡ₚ payload (message e) :: contents (the_wq (m h).2)) \/
  (m h).2 = (close_tables h).2.
Proof.
  intros Hm Hty. pose proof (ty_wf _ _ Hty) as Hw.
  assert (forall A (m : M world A) B (f : A -> B), ((let! a := m in ret (f a)) h).2 = (m h).2) as Hret
    by (intros A m' B f; unfold bind; by destruct (m' h) as [[]]).
  destruct Hm as [t p vt hd _|t f g|t d|d|d rq|cid|t|k|k|t| |]; rewrite ?Hret; try (left; by apply kept_same).
  - left. by apply kept_enqueue.
  - left. by apply kept_dequeue.
  - destruct (dget (in_flight (the_wq h)) d) as [e|] eqn:Hd.
    + right. left. exists d, e. unfold ack, bind, get_wq, gets, dmem. rewrite Hd. cbn.
      split_and!; [done..|]. unfold contents. rewrite (underway_del (h_uuid h) d e (the_wq h)) by done.
      symmetry. apply Permutation_middle.
    + left. unfold ack, bind, get_wq, gets, dmem. rewrite Hd. by apply kept_same.
  - left. apply kept_perm. by apply nack_locked_contents.
  - left. unfold remove_consumer, bind, get_wq, gets.
    destruct (dget (consumer_registry (the_wq h)) cid) as [key|]; [|by apply kept_same].
    destruct (dget (consumer_groups (the_wq h)) key) as [[|en l]|]; try by apply kept_same.
    by destruct (remove_entry cid (en :: l)); apply kept_same.
  - left. destruct (reap_locked_spec isoformat t h Hty) as (ts & h' & -> & _ & _ & _ & _ & Hc).
    by apply kept_perm.
  - left. unfold bind. rewrite thread_ends_run.
    destruct (spawned (the_wq h) !! k) as [i|]; [|by apply kept_same].
    set (h1 := with_wq _ _ _).
    assert (on_wq typed h1) as Hty1 by by apply (ti_spawned _ _ typed_table_inv).
    change (kept h ((let! r := nack_locked isoformat (i_id i) true in ret (obligation r.2)) h1).2).
    unfold bind. pose proof (nack_locked_contents isoformat (i_id i) true h1 Hty1) as Hc.
    destruct (nack_locked isoformat (i_id i) true h1) as [[r|e] h2]; by apply kept_perm.
  - by right; right.
Qed.

Lemma kept_dispatch t h : on_wq wf_tables h -> kept h (try_dispatch t h).2.
Proof.
  intros Hw. destruct (decide (groups_of t (the_wq h) = [])) as [Hg|Hg].
  { rewrite try_dispatch_none by done. by apply kept_same. }
  destruct (try_dispatch_contents t h Hw Hg) as (rest & Hc & Hc'). unfold kept.
  rewrite Hc, Hc'. apply submseteq_app; [|done].
  destruct (groups_of t (the_wq h)) as [|k ks]; [done|]. cbn [length].
  clear. induction (pending_of t (the_wq h)) as [|m q IH]; [done|]. cbn.
  apply submseteq_skip. by apply submseteq_inserts_l.
Qed.

(** C3 At-least-once: no step loses a message.  Over every step the multiset of
    the payloads that wait in a queue (dead letters included) or are in flight can
    only grow, unless the step is a successful [ack] of one entry, which takes
    exactly that entry's payload away, or the clearing of the tables by [close].
    (The bookkeeping headers of the queue hold numbers, as the queue leaves them:
    a caller that puts something else there can make a step raise halfway.) *)
Theorem messages_kept s s' :
  step s s' -> on_wq typed s.1 ->
  contents (the_wq s.1) ⊆+ contents (the_wq s'.1) \/
  (exists d e, dget (in_flight (the_wq s.1)) d = Some e /\ ack d s.1 = (Ok true, s'.1) /\
     contents (the_wq s.1) ≡ₚ payload (message e) :: contents (the_wq s'.1)) \/
  s'.1 = (close_tables s.1).2.
Proof.
  intros [m h h' ts ds Hm Hr|m h h' e ds Hm Hr|t h h' r ds1 ds2 Hr] Hty; cbn in *.
  - pose proof (kept_section m h Hm Hty) as Hk. by rewrite Hr in Hk.
  - pose proof (kept_section m h Hm Hty) as Hk. by rewrite Hr in Hk.
  - left. pose proof (kept_dispatch t h (ty_wf _ _ Hty)) as Hk. by rewrite Hr in Hk.
Qed.
End steps.
