(* ===== verification/WorkFlow.v ===== *)
(** * The life of a message in a [WorkQueue]

    Backpressure, first-in-first-out order, the visibility timeout, and the
    retry limit: what happens to one message from [enqueue] to [ack] or to the
    dead-letter topic. *)
From S2P Require Import Prelude PyDict Queue Transport Types WorkQueue WorkDispatch WorkSteps.
Import WorkQueue.

Section flow.
Context {T H : Type}.
Abbreviation world := (heap T (qstate H * wq H)).
Implicit Types (h : world) (w : wq H).
Variable isoformat : Z -> string.

(** ** Backpressure *)

Definition at_capacity (t : string) w : bool :=
  bool_decide (0 < max_work_queue_size (cfg w)) &&
  bool_decide (max_work_queue_size (cfg w) <= Z.of_nat (length (pending_of t w))).

Definition enqueue_headers (t : string) (vt : option val) (hd : hdrs) w : hdrs :=
  dmerge [(h_retry, VInt 0); (h_topic, VStr t); (h_enqueued, VStr (isoformat (now w)));
    (h_vt, default (default_visibility_timeout (cfg w)) vt)] hd.

Definition enqueued_msg (t : string) (p : val) (vt : option val) (hd : hdrs) h : Message :=
  mkMessage (uuid4 (h_uuid h)) t p (enqueue_headers t vt hd (the_wq h)) (now (the_wq h)) None None.

Lemma enqueue_locked_run t p vt hd h :
  enqueue_locked isoformat t p vt hd h =
    if at_capacity t (the_wq h)
    then (Raise (QueueFullError t (max_work_queue_size (cfg (the_wq h)))),
          with_wq (S (h_uuid h)) (the_wq h) h)
    else (Ok (uuid4 (h_uuid h)),
          with_wq (S (h_uuid h)) (filed_last t (enqueued_msg t p vt hd h) (the_wq h)) h).
Proof.
  destruct h as [n tr [q w]]. unfold enqueue_locked, new_message, new_uuid, get_wq, gets, bind, ret. cbn.
  unfold at_capacity. cbn. by destruct (_ && _).
Qed.

(** Backpressure: [enqueue] raises [QueueFullError] exactly when the queue is
    bounded and the topic already has that many pending messages, and then leaves
    every table as it was; otherwise the message is the last of its topic's queue
    when the lock is released, and its id is returned. *)
Theorem enqueue_backpressure t p vt hd h :
  let r := enqueue_locked isoformat t p vt hd h in
  if decide (0 < max_work_queue_size (cfg (the_wq h)) <= Z.of_nat (length (pending_of t (the_wq h))))
  then enqueue isoformat t p vt hd h = (Raise (QueueFullError t (max_work_queue_size (cfg (the_wq h)))), r.2) /\
       the_wq r.2 = the_wq h
  else exists m, r.1 = Ok (msg_id m) /\ payload m = p /\
       pending_of t (the_wq r.2) = pending_of t (the_wq h) ++ [m] /\
       forall t', t' <> t -> pending_of t' (the_wq r.2) = pending_of t' (the_wq h).
Proof.
  cbv zeta. unfold enqueue, bind. rewrite enqueue_locked_run.
  destruct (at_capacity t (the_wq h)) eqn:Hc; unfold at_capacity in Hc.
  - apply andb_true_iff in Hc as [?%bool_decide_eq_true ?%bool_decide_eq_true].
    by rewrite decide_True by lia.
  - apply andb_false_iff in Hc. rewrite !bool_decide_eq_false in Hc.
    rewrite decide_False by lia. exists (enqueued_msg t p vt hd h).
    split_and!; [done|done| |].
    + change (pending_of t (filed_last t (enqueued_msg t p vt hd h) (the_wq h)) =
        pending_of t (the_wq h) ++ [enqueued_msg t p vt hd h]).
      unfold filed_last. by rewrite pending_of_put, decide_True.
    + intros t' Ht.
      change (pending_of t' (filed_last t (enqueued_msg t p vt hd h) (the_wq h)) = pending_of t' (the_wq h)).
      unfold filed_last. by rewrite pending_of_put, decide_False.
Qed.

(** ** Order *)
Lemma dequeue_run t tm m q h :
  closed_wq (the_wq h) = false -> pending_of t (the_wq h) = m :: q ->
  let h1 := with_wq (h_uuid h) (set_pending (dset (pending (the_wq h)) t q) (the_wq h)) h in
  dequeue t tm h = (Ok (Done (Some (delivered_of m h))),
    with_wq (S (h_uuid h)) (flight_with (entry_of m t (t +:+ "._pull") h1) (the_wq h1)) h).
Proof.
  intros Hc Hp. cbv zeta. unfold dequeue, dequeue_pass, bind, get_wq, gets. rewrite Hc, Hp.
  unfold put_pending. by rewrite upd_wq_run, make_in_flight_run.
Qed.

(** [n] non-blocking [dequeue]s *)
Fixpoint dequeue_n (n : nat) (t : string) : M world (list Message) :=
  match n with
  | O => ret []
  | S n =>
      let! r := dequeue t (Some 0) in
      match r with
      | Done (Some m) => let! ms := dequeue_n n t in ret (m :: ms)
      | _ => ret []
      end
  end.

Lemma dequeue_n_spec t h :
  closed_wq (the_wq h) = false ->
  exists ms h', dequeue_n (length (pending_of t (the_wq h))) t h = (Ok ms, h') /\
    map payload ms = map payload (pending_of t (the_wq h)) /\ pending_of t (the_wq h') = [].
Proof.
  remember (pending_of t (the_wq h)) as q eqn:Hq. revert h Hq.
  induction q as [|m q IH]; intros h Hq Hc; [by exists [], h|].
  cbn [length dequeue_n]. unfold bind at 1. rewrite (dequeue_run t (Some 0) m q h Hc (eq_sym Hq)).
  set (h1 := with_wq (S (h_uuid h)) _ h).
  destruct (IH h1) as (ms & h2 & Hd & Hm & Hp).
  - symmetry. change (pending_of t (set_pending (dset (pending (the_wq h)) t q) (the_wq h)) = q).
    by rewrite pending_of_put, decide_True.
  - done.
  - exists (delivered_of m h :: ms), h2. unfold bind. rewrite Hd. split_and!; [done| |done].
    cbn. by rewrite Hm.
Qed.

Lemma enqueue_all_spec t ps h :
  groups_of t (the_wq h) = [] ->
  (max_work_queue_size (cfg (the_wq h)) <= 0 \/
   Z.of_nat (length (pending_of t (the_wq h)) + length ps) <= max_work_queue_size (cfg (the_wq h))) ->
  exists h', for_each ps (fun p => enqueue isoformat t p None [] ;;; ret tt) h = (Ok tt, h') /\
    closed_wq (the_wq h') = closed_wq (the_wq h) /\
    map payload (pending_of t (the_wq h')) = map payload (pending_of t (the_wq h)) ++ ps.
Proof.
  revert h. induction ps as [|p ps IH]; intros h Hg Hb.
  - exists h. by rewrite app_nil_r.
  - cbn [for_each]. unfold bind at 1 2, enqueue. unfold bind at 1. rewrite enqueue_locked_run.
    assert (at_capacity t (the_wq h) = false) as ->.
    { unfold at_capacity. apply andb_false_iff. rewrite !bool_decide_eq_false. cbn in Hb. lia. }
    set (w1 := filed_last t (enqueued_msg t p None [] h) (the_wq h)).
    set (h1 := with_wq (S (h_uuid h)) w1 h).
    assert (pending_of t w1 = pending_of t (the_wq h) ++ [enqueued_msg t p None [] h]) as Hp1.
    { unfold w1, filed_last. by rewrite pending_of_put, decide_True. }
    unfold bind. rewrite try_dispatch_none by done.
    destruct (IH h1) as (h' & Hf & Hcl & Hp); [done| |].
    { change (the_wq h1) with w1. rewrite Hp1, length_app. cbn in *. lia. }
    exists h'. split_and!; [done|by rewrite Hcl|].
    rewrite Hp. change (the_wq h1) with w1. by rewrite Hp1, map_app, <- app_assoc.
Qed.

(** First in, first out: what is enqueued on a topic without push consumers
    (within the bound) is what [dequeue] then hands out, in the same order, each
    once. *)
Theorem enqueue_dequeue_fifo t ps h :
  groups_of t (the_wq h) = [] -> pending_of t (the_wq h) = [] -> closed_wq (the_wq h) = false ->
  (max_work_queue_size (cfg (the_wq h)) <= 0 \/
   Z.of_nat (length ps) <= max_work_queue_size (cfg (the_wq h))) ->
  exists h1 ms h2,
    for_each ps (fun p => enqueue isoformat t p None [] ;;; ret tt) h = (Ok tt, h1) /\
    dequeue_n (length ps) t h1 = (Ok ms, h2) /\ map payload ms = ps /\ pending_of t (the_wq h2) = [].
Proof.
  intros Hg Hp Hc Hb. destruct (enqueue_all_spec t ps h Hg) as (h1 & He & Hc1 & Hp1); [by rewrite Hp|].
  rewrite Hp in Hp1. cbn in Hp1. destruct (dequeue_n_spec t h1) as (ms & h2 & Hd & Hm & Hp2); [congruence|].
  exists h1, ms, h2. rewrite <- Hp1, length_map. split_and!; try done. by rewrite Hp1.
Qed.

(** ** The visibility timeout *)

(** C16 The reaper takes out of flight exactly the deliveries whose visibility
    timeout has passed.  Each of them whose retries are not used up is again at the
    front of its topic's queue, with its retry count increased (they come back in
    the reverse of the order in which they were delivered), and its topic is going
    to be dispatched; nothing is lost and no other queue changes but the
    dead-letter topics. *)
Theorem visibility_timeout_requeues now h :
  on_wq typed h ->
  exists ts h', reap_locked isoformat now h = (Ok ts, h') /\
    (forall d e, dget (in_flight (the_wq h')) d = Some e <->
       dget (in_flight (the_wq h)) d = Some e /\ is_late now e = false) /\
    (forall t, ~ is_dl t -> pending_of t (the_wq h') =
       map requeued_of (rev (back_to t (the_wq h) (late_of now (in_flight (the_wq h))))) ++
         pending_of t (the_wq h)) /\
    (forall e, e ∈ late_of now (in_flight (the_wq h)) -> retried (the_wq h) e = true -> e_topic e ∈ ts) /\
    contents (the_wq h') ≡ₚ contents (the_wq h).
Proof.
  intros Hty. destruct (reap_locked_spec isoformat now h Hty) as (ts & h' & Hr & Hf & _ & Hp & Ht & Hc).
  exists ts, h'. split_and!; try done.
  assert (dict_ok (in_flight (the_wq h))) as Hok by apply Hty. rewrite Hf. clear - Hok.
  intros d e. unfold in_time. rewrite (dget_filter (fun e => negb (is_late now e))) by done.
  by rewrite negb_true_iff.
Qed.

(** ** The retry limit *)

(** A consumer that takes the next message and rejects it *)
Definition fail_once (t : string) : M world unit :=
  let! r := dequeue t (Some 0) in
  match r with
  | Done (Some m) =>
      match dget (headers m) h_delivery with
      | Some (VStr d) => nack isoformat d true ;;; ret tt
      | _ => ret tt
      end
  | _ => ret tt
  end.

Fixpoint fail_times (n : nat) (t : string) : M world unit :=
  match n with O => ret tt | S n => fail_times n t ;;; fail_once t end.

(** A pull-only topic of an open queue *)
Record pull_only (t : string) h : Prop := {
  po_typed : on_wq typed h;
  po_open : closed_wq (the_wq h) = false;
  po_groups : groups_of t (the_wq h) = [];
}.

Lemma dl_ne t : t +:+ ".dead_letter" <> t.
Proof.
  intros Heq. apply (f_equal String.length) in Heq.
  enough (String.length (t +:+ ".dead_letter") = String.length t + 12)%nat by lia.
  clear. induction t as [|c t IH]; [done|].
  change (S (String.length (t +:+ ".dead_letter")) = S (String.length t) + 12)%nat. by rewrite IH.
Qed.

Lemma fail_once_spec t m q r h :
  pull_only t h -> pending_of t (the_wq h) = m :: q -> dget (headers m) h_retry = Some (VInt r) ->
  exists h', fail_once t h = (Ok tt, h') /\ pull_only t h' /\ cfg (the_wq h') = cfg (the_wq h) /\
    if decide (r + 1 < max_retries (cfg (the_wq h))) then
      pending_of t (the_wq h') = requeued m (r + 1) :: q /\
      pending_of (t +:+ ".dead_letter") (the_wq h') = pending_of (t +:+ ".dead_letter") (the_wq h)
    else pending_of t (the_wq h') = q /\ exists h1,
      pending_of (t +:+ ".dead_letter") (the_wq h') =
        pending_of (t +:+ ".dead_letter") (the_wq h) ++ [dead_of isoformat m t "max_retries_exceeded" h1].
Proof.
  intros [Hty Hop Hg] Hp Hr. unfold fail_once, bind at 1.
  pose proof (dequeue_run t (Some 0) m q h Hop Hp) as Hd. cbv zeta in Hd. rewrite Hd.
  set (e := entry_of m t (t +:+ "._pull") _) in *. set (h1 := with_wq (S (h_uuid h)) _ h) in *.
  assert (on_wq typed h1) as Hty1.
  { pose proof (keeps_dequeue_pass (T := T) _ _ typed_table_inv t (Some (now (the_wq h) + 0)) h Hty) as Hk.
    change (dequeue_pass t (Some (now (the_wq h) + 0)) h) with (dequeue t (Some 0) h) in Hk.
    by rewrite Hd in Hk. }
  set (w0 := set_pending (dset (pending (the_wq h)) t q) (the_wq h)) in *.
  cbn [delivered_of with_headers headers]. rewrite dget_dset_eq.
  assert (dget (in_flight (the_wq h1)) (uuid4 (h_uuid h)) = Some e) as He by (cbn; apply dget_dset_eq).
  unfold nack, bind. rewrite (nack_locked_spec isoformat _ true h1 e Hty1 He). cbv zeta. cbn [fst snd andb].
  assert (retry_of e = r + 1) as Hre.
  { unfold retry_of, e, entry_of. cbn. by rewrite Hr. }
  assert (retried (the_wq h1) e = bool_decide (r + 1 < max_retries (cfg (the_wq h)))) as Hrt
    by (unfold retried; by rewrite Hre).
  rewrite Hrt.
  set (w2 := set_in_flight _ _). set (b := bool_decide _).
  set (rs := if b then "nack_no_requeue" else "max_retries_exceeded").
  set (h2 := with_wq _ (returned isoformat w2 rs b e h1) h1).
  assert (on_wq typed h2) as Hty2.
  { pose proof (keeps_nack_locked (T := T) _ _ typed_table_inv isoformat (uuid4 (h_uuid h)) true h1 Hty1) as Hk.
    rewrite (nack_locked_spec isoformat _ true h1 e Hty1 He) in Hk. cbv zeta in Hk. rewrite Hrt in Hk. exact Hk. }
  assert (groups_of t (the_wq h2) = [] /\ closed_wq (the_wq h2) = false /\ cfg (the_wq h2) = cfg (the_wq h))
    as (Hg2 & Hc2 & Hcf2) by by unfold h2, returned; destruct b.
  exists h2. split_and!; [|by split|done|].
  - destruct b; [|done]. change (e_topic e) with t. by rewrite (try_dispatch_none t h2 Hg2).
  - assert (forall t', pending_of t' w2 = if decide (t' = t) then q else pending_of t' (the_wq h)) as Hp2
      by (intros t'; change (pending_of t' w2) with (pending_of t' w0); apply pending_of_put).
    pose proof (dl_ne t) as Hne. unfold h2, rs, b. cbn [the_wq with_wq h_rest snd]. unfold returned.
    change (e_topic e) with t. change (message e) with m. rewrite Hre.
    destruct (decide (r + 1 < max_retries (cfg (the_wq h)))) as [Hlt|Hge].
    + rewrite (bool_decide_eq_true_2 _ Hlt). unfold filed_first. rewrite !pending_of_put, !Hp2.
      by rewrite !(decide_True (P := t = t)), !(decide_False (P := t +:+ ".dead_letter" = t)) by done.
    + rewrite (bool_decide_eq_false_2 _ Hge). unfold filed_last. rewrite !pending_of_put, !Hp2.
      rewrite !(decide_True (P := t = t)), !(decide_False (P := t +:+ ".dead_letter" = t)) by done.
      rewrite (decide_False (P := t = t +:+ ".dead_letter")) by done.
      rewrite (decide_True (P := t +:+ ".dead_letter" = t +:+ ".dead_letter")) by done. eauto.
Qed.

(** C15 The retry limit, on a topic without push consumers whose messages are taken
    with [dequeue]: a message that is taken and given back with [nack] every time is
    handed out [max_retries] times, at the head of its queue each time, as the same
    message with its retry count stepped up by one; after that it is gone from
    the topic and the last of the topic's dead letters, with the same payload, the
    topic it was enqueued on and the reason "max_retries_exceeded".  (For push
    consumers in one group [deliveries_bounded] gives the bound; with several groups
    a rejected copy goes back to all of them.) *)
Theorem poison_message_dead_lettered t m q n h :
  pull_only t h -> pending_of t (the_wq h) = m :: q -> dget (headers m) h_retry = Some (VInt 0) ->
  max_retries (cfg (the_wq h)) = Z.of_nat n -> (0 < n)%nat ->
  (forall k, (k < n)%nat -> exists hk mk, fail_times k t h = (Ok tt, hk) /\
     pending_of t (the_wq hk) = mk :: q /\ msg_id mk = msg_id m /\ payload mk = payload m /\
     dget (headers mk) h_retry = Some (VInt (Z.of_nat k))) /\
  exists h' dead, fail_times n t h = (Ok tt, h') /\ pending_of t (the_wq h') = q /\
    pending_of (t +:+ ".dead_letter") (the_wq h') =
      pending_of (t +:+ ".dead_letter") (the_wq h) ++ [dead] /\
    payload dead = payload m /\
    dget (headers dead) h_topic = Some (default (VStr t) (dget (headers m) h_topic)) /\
    dget (headers dead) h_reason = Some (VStr "max_retries_exceeded").
Proof.
  intros Hpo Hp Hr Hmax Hn.
  assert (forall k, (k < n)%nat -> exists hk mk, fail_times k t h = (Ok tt, hk) /\ pull_only t hk /\
     cfg (the_wq hk) = cfg (the_wq h) /\
     pending_of (t +:+ ".dead_letter") (the_wq hk) = pending_of (t +:+ ".dead_letter") (the_wq h) /\
     pending_of t (the_wq hk) = mk :: q /\ msg_id mk = msg_id m /\ payload mk = payload m /\
     dget (headers mk) h_topic = dget (headers m) h_topic /\
     dget (headers mk) h_retry = Some (VInt (Z.of_nat k))) as Hk.
  { induction k as [|k IH]; intros Hlt; [by exists h, m|].
    destruct IH as (hk & mk & Hf & Hpk & Hck & Hdk & Hqk & Hik & Hyk & Htk & Hrk); [lia|].
    destruct (fail_once_spec t mk q _ hk Hpk Hqk Hrk) as (h' & Hf' & Hp' & Hc' & Hd').
    rewrite Hck, Hmax, decide_True in Hd' by lia. destruct Hd' as [Hq' Hd'].
    exists h', (requeued mk (Z.of_nat k + 1)). cbn [fail_times]. unfold bind. rewrite Hf, Hf'. cbn.
    rewrite dget_dset_ne, dget_dset_eq by done. split_and!; try congruence.
    do 2 f_equal. lia. }
  split.
  { intros k Hlt. destruct (Hk k Hlt) as (hk & mk & ? & _ & _ & _ & ? & ? & ? & _ & ?). by exists hk, mk. }
  destruct n as [|n]; [lia|].
  destruct (Hk n) as (hk & mk & Hf & Hpk & Hck & Hdk & Hqk & _ & Hyk & Htk & Hrk); [lia|].
  destruct (fail_once_spec t mk q _ hk Hpk Hqk Hrk) as (h' & Hf' & _ & _ & Hd').
  rewrite Hck, Hmax, decide_False in Hd' by lia. destruct Hd' as [Hq' [h1 Hd']].
  exists h', (dead_of isoformat mk t "max_retries_exceeded" h1). split_and!.
  - cbn [fail_times]. unfold bind. by rewrite Hf, Hf'.
  - done.
  - by rewrite Hd', Hdk.
  - done.
  - cbn. by rewrite dget_dset_eq, Htk.
  - cbn. by rewrite dget_dset_ne, dget_dset_eq.
Qed.
End flow.

(** * A concrete queue: handlers are numbers, at most 3 deliveries *)
Module WorkToy.
Abbreviation world := (heap unit (qstate nat * wq nat)).

Definition iso (_ : Z) : string := "2024-01-01".
Definition anything (_ : option val) (_ : hdrs) : Prop := True.
Definition plain_call (vt : option val) (hd : hdrs) : Prop := vt = None /\ hd = [].

Definition w0 (size : Z) : world := mkHeap 0 tt (init_q, init (mkConfig size (VInt 30) 3) 0).
Abbreviation after := (fun (A : Type) (m : M world A) h => (m h).2).

Definition put (t : string) (p : Z) (h : world) : world := (enqueue_locked iso t (VInt p) None [] h).2.
Definition join (t : string) (f : nat) (h : world) : world := (consume_locked t f None h).2.
Definition take (t : string) (h : world) : world := (dequeue t (Some 0) h).2.

Lemma w0_typed size : on_wq typed (w0 size).
Proof. by apply typed_init. Qed.

Lemma plain_typed : typed_allowed (H := nat) iso plain_call.
Proof. intros vt hd t w [-> ->] Hn. split; cbn; [done|]. by destruct (default_visibility_timeout (cfg w)). Qed.

Lemma put_typed t p h : on_wq typed h -> on_wq typed (put t p h).
Proof.
  apply (keeps_enqueue_locked _ _ typed_table_inv iso). intros m w Hm [n Hw]. unfold typed_msg. rewrite Hm.
  apply (plain_typed None [] t w); [done | apply Hw].
Qed.

Lemma take_typed t h : on_wq typed h -> on_wq typed (take t h).
Proof. intros Hh. exact (keeps_dequeue_pass _ _ typed_table_inv t (Some (clock_now h + 0)) h Hh). Qed.

Lemma join_typed t f h : on_wq typed h -> on_wq typed (join t f h).
Proof. apply (keeps_consume_locked _ _ typed_table_inv). Qed.

(** One step that runs a critical section *)
Lemma step_run allowed m (h : world) ts ds :
  section iso allowed m -> (m h).1 = Ok ts -> step iso allowed (h, ds) ((m h).2, ts ++ ds).
Proof. intros Hm Hr. apply (step_section iso allowed m); [done|]. destruct (m h). cbn in *. by subst. Qed.

(** A push consumer of the dead letters of [t]; a message is taken and rejected. *)
Definition dl_sections : list (M world (list string)) :=
  [ consume_locked "t.dead_letter" 1%nat None ;;; ret ["t.dead_letter"];
    enqueue_locked iso "t" (VInt 7) None [] ;;; ret ["t"];
    dequeue_pass "t" (Some 0) ;;; ret [];
    (let! r := nack_locked iso (uuid4 2) false in ret (obligation r.2)) ].
End WorkToy.

(** Dead letters do not wake their consumers: a push consumer of
    "t.dead_letter" can be registered, a message be dead-lettered there, and no
    dispatch be on its way; the message waits until something else touches that
    topic. *)
Theorem dead_letters_starve :
  exists h, rtc (step WorkToy.iso WorkToy.plain_call) (WorkToy.w0 0, []) (h, []) /\
    groups_of "t.dead_letter" (the_wq h) = [("t.dead_letter", "t.dead_letter.default")] /\
    map payload (pending_of "t.dead_letter" (the_wq h)) = [VInt 7] /\ spawned (the_wq h) = [].
Proof.
  eexists. split.
  - eapply rtc_l; [apply WorkToy.step_run; [apply (sec_consume _ _ "t.dead_letter" 1%nat None)|reflexivity]|].
    eapply rtc_l; [refine (step_dispatch _ _ "t.dead_letter" _ _ (Ok tt) [] [] _); reflexivity|].
    eapply rtc_l; [apply WorkToy.step_run; [by apply (sec_enqueue _ _ "t" (VInt 7) None [])|reflexivity]|].
    eapply rtc_l; [refine (step_dispatch _ _ "t" _ _ (Ok tt) [] [] _); reflexivity|].
    eapply rtc_l; [apply WorkToy.step_run; [apply (sec_dequeue _ _ "t" (Some 0))|reflexivity]|].
    eapply rtc_l; [apply WorkToy.step_run; [apply (sec_nack _ _ (uuid4 2) false)|reflexivity]|].
    apply rtc_refl.
  - vm_compute. done.
Qed.

Lemma enqueue_dequeue_fifo_witness :
  exists h1 ms h2,
    for_each [VInt 1; VInt 2; VInt 3] (fun p => enqueue WorkToy.iso "t" p None [] ;;; ret tt) (WorkToy.w0 3) = (Ok tt, h1) /\
    dequeue_n 3 "t" h1 = (Ok ms, h2) /\ map payload ms = [VInt 1; VInt 2; VInt 3].
Proof.
  destruct (enqueue_dequeue_fifo WorkToy.iso "t" [VInt 1; VInt 2; VInt 3] (WorkToy.w0 3))
    as (h1 & ms & h2 & ? & ? & ? & _); [reflexivity..|cbn; lia|].
  by exists h1, ms, h2.
Defined.

Lemma visibility_timeout_requeues_witness :
  let h := WorkToy.take "t" (WorkToy.put "t" 5 (WorkToy.w0 0)) in
  exists ts h', reap_locked WorkToy.iso 30 h = (Ok ts, h') /\ "t" ∈ ts /\
    contents (the_wq h') ≡ₚ [VInt 5].
Proof.
  destruct (visibility_timeout_requeues WorkToy.iso 30 (WorkToy.take "t" (WorkToy.put "t" 5 (WorkToy.w0 0))))
    as (ts & h' & Hr & _ & _ & Ht & Hc).
  - apply WorkToy.take_typed, WorkToy.put_typed, WorkToy.w0_typed.
  - exists ts, h'. split; [exact Hr|]. split; [|rewrite Hc; reflexivity].
    set (l := late_of _ _) in Ht. assert (exists e, head l = Some e) as [e He] by (eexists; reflexivity).
    assert (e ∈ l) as Hin by (destruct l; [done|]; cbn in He; simplify_eq; left).
    assert (e_topic e = "t") as <- by (vm_compute in He; by simplify_eq).
    apply Ht; [exact Hin|]. vm_compute in He. by simplify_eq.
Defined.

Lemma poison_message_dead_lettered_witness :
  exists h' dead, fail_times WorkToy.iso 3 "t" (WorkToy.put "t" 5 (WorkToy.w0 0)) = (Ok tt, h') /\
    pending_of ("t" +:+ ".dead_letter") (the_wq h') = [dead] /\ payload dead = VInt 5.
Proof.
  set (h := WorkToy.put "t" 5 (WorkToy.w0 0)).
  assert (exists m, pending_of "t" (the_wq h) = [m] /\
    dget (headers m) h_retry = Some (VInt 0) /\ payload m = VInt 5) as (m & Hm & Hr & Hp)
    by (eexists; split; [reflexivity|split; reflexivity]).
  assert (pull_only "t" h) as Hpo
    by (split; [apply WorkToy.put_typed, WorkToy.w0_typed|reflexivity|reflexivity]).
  destruct (poison_message_dead_lettered WorkToy.iso "t" m [] 3 h Hpo Hm Hr eq_refl ltac:(lia))
    as [_ (h' & dead & Hf & _ & Hd & Hpd & _)].
  exists h', dead. rewrite Hpd. split; [exact Hf|]. split; [exact Hd|exact Hp].
Defined.

Lemma competing_consumers_witness :
  let h := WorkToy.put "t" 3 (WorkToy.put "t" 2 (WorkToy.put "t" 1
             (WorkToy.join "t" 20 (WorkToy.join "t" 10 (WorkToy.w0 0))))) in
  exists h' invs, try_dispatch "t" h = (Ok tt, h') /\ spawned (the_wq h') = invs /\
    map (fun i => Some (i_handler i)) invs = [Some 10; Some 20; Some 10]%nat /\
    map (fun i => payload (i_message i)) invs = [VInt 1; VInt 2; VInt 3].
Proof.
  destruct (competing_consumers "t" (WorkToy.put "t" 3 (WorkToy.put "t" 2 (WorkToy.put "t" 1
    (WorkToy.join "t" 20 (WorkToy.join "t" 10 (WorkToy.w0 0)))))))
    as (h' & invs & new & Ht & _ & _ & Hs & Hh & Hp & _).
  - apply ty_wf. by repeat apply WorkToy.put_typed; repeat apply WorkToy.join_typed; apply WorkToy.w0_typed.
  - done.
  - exists h', invs. split; [exact Ht|]. split; [rewrite Hs; reflexivity|].
    split; [rewrite Hh; reflexivity | rewrite Hp; reflexivity].
Defined.

Lemma tables_consistent_witness :
  on_wq wf_tables (WorkToy.put "t" 1 (WorkToy.w0 0)).
Proof.
  apply (tables_consistent WorkToy.iso WorkToy.plain_call (WorkToy.w0 0, [])
    (WorkToy.put "t" 1 (WorkToy.w0 0), ["t"])).
  - apply ty_wf, WorkToy.w0_typed.
  - apply rtc_once. apply (WorkToy.step_run _ _ (WorkToy.w0 0) ["t"] []
      (sec_enqueue _ _ "t" (VInt 1) None [] (conj eq_refl eq_refl)) eq_refl).
Defined.

Lemma settled_once_witness :
  let h := WorkToy.take "t" (WorkToy.put "t" 1 (WorkToy.w0 0)) in
  (ack (uuid4 1) h).1 = Ok true /\ ack (uuid4 1) (ack (uuid4 1) h).2 = (Ok false, (ack (uuid4 1) h).2).
Proof.
  set (h := WorkToy.take "t" (WorkToy.put "t" 1 (WorkToy.w0 0))). split; [reflexivity|].
  refine (proj1 (settled_once WorkToy.iso WorkToy.plain_call (uuid4 1) (h, [])
    ((ack (uuid4 1) h).2, []) ((ack (uuid4 1) h).2, []) true _ _ _ _ _)).
  - apply ty_wf, WorkToy.take_typed, WorkToy.put_typed, WorkToy.w0_typed.
  - eexists. reflexivity.
  - apply rtc_once. exact (WorkToy.step_run _ _ h [] [] (sec_ack _ _ (uuid4 1)) eq_refl).
  - reflexivity.
  - apply rtc_refl.
Defined.

Lemma no_lost_wakeup_witness :
  no_lost (WorkToy.put "t" 1 (WorkToy.join "t" 10 (WorkToy.w0 0)), ["t"; "t"]).
Proof.
  apply (no_lost_wakeup WorkToy.iso WorkToy.plain_call (WorkToy.w0 0, [])).
  - apply WorkToy.plain_typed.
  - apply WorkToy.w0_typed.
  - intros t _ Hg. by destruct Hg.
  - eapply rtc_l; [apply WorkToy.step_run; [apply (sec_consume _ _ "t" 10%nat None)|reflexivity]|].
    apply rtc_once. exact (WorkToy.step_run _ _ (WorkToy.join "t" 10 (WorkToy.w0 0)) ["t"] ["t"]
      (sec_enqueue _ _ "t" (VInt 1) None [] (conj eq_refl eq_refl)) eq_refl).
Defined.

Lemma messages_kept_witness :
  let h := WorkToy.take "t" (WorkToy.put "t" 1 (WorkToy.w0 0)) in
  exists h', step WorkToy.iso WorkToy.plain_call (h, []) (h', []) /\
    (contents (the_wq h) ⊆+ contents (the_wq h') \/
     (exists d e, dget (in_flight (the_wq h)) d = Some e /\ ack d h = (Ok true, h') /\
        contents (the_wq h) ≡ₚ payload (message e) :: contents (the_wq h')) \/
     h' = (close_tables h).2).
Proof.
  set (h := WorkToy.take "t" (WorkToy.put "t" 1 (WorkToy.w0 0))).
  exists (ack (uuid4 1) h).2.
  assert (step WorkToy.iso WorkToy.plain_call (h, []) ((ack (uuid4 1) h).2, [])) as Hs
    by exact (WorkToy.step_run _ _ h [] [] (sec_ack _ _ (uuid4 1)) eq_refl).
  split; [exact Hs|].
  apply (messages_kept WorkToy.iso WorkToy.plain_call _ _ Hs).
  apply WorkToy.take_typed, WorkToy.put_typed, WorkToy.w0_typed.
Defined.
