(* ===== verification/LeaseQueue.v ===== *)
(** * What a [WorkQueue] promises: the leasing queue

    An abstract queue without consumers, groups, rotation, threads, clocks or
    dispatches on their way.  Each topic has a queue of jobs; a job can be leased,
    and a lease ends when it is done, when the job goes back to the front of its
    queue with one more failure, or when it is buried with the dead letters.  An
    event says what a caller of the queue sees: what it put, which deliveries with
    which jobs it was handed, which delivery it settled and how.  A state and an
    event determine the next state ([lsteps_functional]).  That [WorkQueue] refines
    the leasing queue, event by event, is shown in WorkRefines; here is what
    follows from the abstract queue alone. *)
From S2P Require Import Prelude PyDict Types.
#[local] Open Scope Z_scope.

Record job : Type := mkJob { body : val; fails : Z }.

Record lq : Type := mkLq {
  waiting : gmap string (list job);
  leased : gmap string (string * job);   (** by the id of the delivery *)
}.

Definition jobs_of (t : string) (s : lq) : list job := default [] (waiting s !! t).

(** The deliveries of a [Lease], by their ids, each with the job that was handed out *)
Inductive event : Type :=
  | Put (t : string) (j : job)
  | Lease (t : string) (l : list (string * job))
  | Done (d : string)
  | Nack (d : string) (requeue : bool)
  | Clear.

Definition leases (t : string) (j : job) (ds : list string) : gmap string (string * job) :=
  list_to_map (map (fun d => (d, (t, j))) ds).

Definition dead_topic (t : string) : string := t +:+ ".dead_letter".

Definition buried (d t : string) (j : job) (s : lq) : lq :=
  mkLq (<[dead_topic t := jobs_of (dead_topic t) s ++ [j]]> (waiting s)) (delete d (leased s)).

(** [limit] is the number of failures at which a job is buried. *)
Inductive lstep (limit : Z) (s : lq) : event -> lq -> Prop :=
  | l_put t j :
      lstep limit s (Put t j) (mkLq (<[t := jobs_of t s ++ [j]]> (waiting s)) (leased s))
  | l_lease t j q l :
      jobs_of t s = j :: q -> l <> [] -> Forall (fun x => x.2 = j) l -> NoDup (map fst l) ->
      (forall d, d ∈ map fst l -> leased s !! d = None) ->
      lstep limit s (Lease t l) (mkLq (<[t := q]> (waiting s)) (leases t j (map fst l) ∪ leased s))
  | l_done d x :
      leased s !! d = Some x -> lstep limit s (Done d) (mkLq (waiting s) (delete d (leased s)))
  | l_retry d t j :
      leased s !! d = Some (t, j) -> fails j + 1 < limit ->
      lstep limit s (Nack d true)
        (mkLq (<[t := mkJob (body j) (fails j + 1) :: jobs_of t s]> (waiting s)) (delete d (leased s)))
  | l_bury d requeue t j :
      leased s !! d = Some (t, j) -> requeue = false \/ limit <= fails j + 1 ->
      lstep limit s (Nack d requeue) (buried d t j s)
  | l_clear : lstep limit s Clear (mkLq ∅ ∅).

Inductive lsteps (limit : Z) : lq -> list event -> lq -> Prop :=
  | ls_nil s : lsteps limit s [] s
  | ls_cons s s1 s2 e es : lstep limit s e s1 -> lsteps limit s1 es s2 -> lsteps limit s (e :: es) s2.

Lemma ls_one limit s e s' : lstep limit s e s' -> lsteps limit s [e] s'.
Proof. intros Hs. eapply ls_cons; [done|constructor]. Qed.

Lemma ls_app limit s s1 s2 es1 es2 :
  lsteps limit s es1 s1 -> lsteps limit s1 es2 s2 -> lsteps limit s (es1 ++ es2) s2.
Proof. induction 1; [done|]. intros H2. eapply ls_cons; [done|]. by apply IHlsteps. Qed.

Lemma lstep_functional limit s e s1 s2 : lstep limit s e s1 -> lstep limit s e s2 -> s1 = s2.
Proof.
  intros H1 H2. destruct H1 as [t j|t j q l Hq _ _ _ _|d x _|d t j Hd Hlt|d rq t j Hd Hb|]; inversion H2; simplify_eq; try congruence.
  - exfalso. destruct_or?; [done|lia].
  - exfalso. destruct_or?; [done|lia].
Qed.

(** The events of a run determine where it ends. *)
Lemma lsteps_functional limit s es s1 s2 : lsteps limit s es s1 -> lsteps limit s es s2 -> s1 = s2.
Proof.
  intros Hs. revert s2. induction Hs as [s|s s1 s1' e es He _ IH]; intros s2 H2; inversion H2 as [|? s3 ? ? ? He3 Hs3]; subst; [done|].
  apply IH. by rewrite (lstep_functional limit s e s1 s3).
Qed.

(** ** How often a topic's jobs are delivered

    [budget t s] bounds the deliveries that the jobs of topic [t] still have before
    them: a waiting job has one for each failure left to it, and at least one; a
    leased one has had one of them. *)
Section budget.
Variable limit : Z.
Variable t : string.

Definition due (j : job) : Z := Z.max 1 (limit - fails j).

Fixpoint due_all (q : list job) : Z :=
  match q with [] => 0 | j :: q => due j + due_all q end.

Definition owed (x : string * job) : Z := if decide (x.1 = t) then due x.2 - 1 else 0.

Definition owed_all (l : gmap string (string * job)) : Z := map_fold (fun _ x n => owed x + n) 0 l.

Definition budget (s : lq) : Z := due_all (jobs_of t s) + owed_all (leased s).

(** What was put on the topic, and the deliveries made for it *)
Fixpoint credit (es : list event) : Z :=
  match es with
  | [] => 0
  | Put t' j :: es => (if decide (t' = t) then due j else 0) + credit es
  | _ :: es => credit es
  end.

Fixpoint deliveries (es : list event) : Z :=
  match es with
  | [] => 0
  | Lease t' l :: es => (if decide (t' = t) then Z.of_nat (length l) else 0) + deliveries es
  | _ :: es => deliveries es
  end.

(** Each job of the topic is handed to one consumer at a time: at most one group
    consumes it. *)
Definition one_group (e : event) : Prop :=
  match e with Lease t' l => t' = t -> length l = 1%nat | _ => True end.

Lemma due_pos j : 1 <= due j.
Proof. unfold due. lia. Qed.

Lemma due_all_nonneg q : 0 <= due_all q.
Proof. induction q as [|j q IH]; cbn [due_all]; [done|]. pose proof (due_pos j). lia. Qed.

Lemma owed_nonneg x : 0 <= owed x.
Proof. unfold owed. pose proof (due_pos x.2). case_decide; lia. Qed.

Lemma owed_all_insert d x l : l !! d = None -> owed_all (<[d := x]> l) = owed x + owed_all l.
Proof. intros Hd. unfold owed_all. apply (map_fold_insert_L (fun _ x n => owed x + n)); [|done]. intros; cbn; lia. Qed.

Lemma owed_all_delete d x l : l !! d = Some x -> owed_all l = owed x + owed_all (delete d l).
Proof.
  intros Hd. rewrite <- (insert_delete_id l d x Hd) at 1. apply owed_all_insert, lookup_delete_eq.
Qed.

Lemma owed_all_nonneg l : 0 <= owed_all l.
Proof.
  induction l as [|d x l Hd IH] using map_ind; [done|].
  rewrite owed_all_insert by done. pose proof (owed_nonneg x). lia.
Qed.

Lemma owed_all_leases t' j ds l : NoDup ds -> (forall d, d ∈ ds -> l !! d = None) ->
  owed_all (leases t' j ds ∪ l) = Z.of_nat (length ds) * owed (t', j) + owed_all l.
Proof.
  unfold leases. induction ds as [|d ds IH]; intros Hnd Hl.
  - cbn. by rewrite map_empty_union.
  - apply NoDup_cons in Hnd as [Hd Hnd]. cbn [map list_to_map foldr length].
    change (foldr _ _ _) with (list_to_map (M := gmap string (string * job)) (map (fun d => (d, (t', j))) ds)).
    rewrite <- insert_union_l, owed_all_insert.
    + rewrite IH by (done || intros; apply Hl; by right). rewrite Nat2Z.inj_succ. cbn [snd]. ring.
    + apply lookup_union_None. split; [|apply Hl; by left]. apply not_elem_of_list_to_map_1.
      intros Hin%list_elem_of_In%in_map_iff. destruct Hin as ([d' x] & Heq & Hin%in_map_iff).
      destruct Hin as (d2 & [= <- _] & Hin). cbn in Heq. subst. by apply Hd, list_elem_of_In.
Qed.

Lemma due_all_app q1 q2 : due_all (q1 ++ q2) = due_all q1 + due_all q2.
Proof. induction q1 as [|j q1 IH]; [done|]. cbn [due_all app]. rewrite IH. lia. Qed.

Lemma jobs_of_put t' q m l : jobs_of t (mkLq (<[t' := q]> m) l) = if decide (t' = t) then q else default [] (m !! t).
Proof. unfold jobs_of. cbn. rewrite lookup_insert. by case_decide. Qed.

Lemma budget_buried d t' j s : (forall x, t <> dead_topic x) ->
  leased s !! d = Some (t', j) -> budget (buried d t' j s) <= budget s.
Proof.
  intros Ht Hd. unfold budget, buried. rewrite jobs_of_put, decide_False by (intros Heq; by apply (Ht t')).
  cbn [leased]. change (default [] _) with (jobs_of t s).
  rewrite (owed_all_delete d _ (leased s) Hd). pose proof (owed_nonneg (t', j)). lia.
Qed.

Lemma budget_nonneg s : 0 <= budget s.
Proof. unfold budget. pose proof (due_all_nonneg (jobs_of t s)). pose proof (owed_all_nonneg (leased s)). lia. Qed.

Lemma budget_empty : budget (mkLq ∅ ∅) = 0.
Proof. done. Qed.

Lemma budget_step s e s' : (forall x, t <> dead_topic x) -> one_group e -> lstep limit s e s' ->
  deliveries [e] + budget s' <= budget s + credit [e].
Proof.
  intros Ht Hone Hs. revert Hone.
  destruct Hs as [t' j|t' j q l Hq Hne _ Hnd Hfr|d x Hd|d t' j Hd Hlt|d rq t' j Hd Hb|];
    intros Hone; cbn [deliveries credit one_group] in *.
  - unfold budget. rewrite jobs_of_put. cbn [leased]. case_decide; [subst; rewrite due_all_app; cbn [due_all]; lia|].
    unfold jobs_of. lia.
  - unfold budget. rewrite jobs_of_put. cbn [leased]. rewrite owed_all_leases, length_map by done. unfold owed. cbn [fst snd].
    case_decide as Heq; [subst t'|].
    + rewrite Hq. cbn [due_all]. rewrite (Hone eq_refl). lia.
    + unfold jobs_of. lia.
  - unfold budget. cbn [leased]. rewrite (owed_all_delete d x (leased s) Hd). pose proof (owed_nonneg x).
    change (jobs_of t _) with (jobs_of t s). lia.
  - unfold budget. rewrite jobs_of_put. cbn [leased]. rewrite (owed_all_delete d _ (leased s) Hd).
    unfold owed. cbn [fst snd]. case_decide as Heq; [subst t'|unfold jobs_of; lia].
    cbn [due_all]. unfold due. cbn [fails]. lia.
  - pose proof (budget_buried d t' j s Ht Hd). lia.
  - rewrite budget_empty. pose proof (budget_nonneg s). lia.
Qed.

(** In any run, the deliveries of a topic's jobs are at most those that were due
    at its start and those that came with what was put on it. *)
Lemma budget_steps s es s' : (forall x, t <> dead_topic x) -> Forall one_group es ->
  lsteps limit s es s' -> deliveries es + budget s' <= budget s + credit es.
Proof.
  intros Ht Hone Hs. induction Hs as [s|s s1 s2 e es He _ IH]; [cbn; lia|].
  apply Forall_cons in Hone as [H1 Hone]. specialize (IH Hone). pose proof (budget_step s e s1 Ht H1 He) as Hstep.
  assert (deliveries (e :: es) = deliveries [e] + deliveries es /\ credit (e :: es) = credit [e] + credit es) as [-> ->]
    by (destruct e; cbn; lia).
  lia.
Qed.
End budget.
