(* ===== verification/WorkRefines.v ===== *)
(** * [WorkQueue] refines the leasing queue

    The abstraction forgets consumers, groups, rotation, threads, clocks, flags and
    the dispatches on their way, and of a message all but its payload and its retry
    count.  A run is traced: every critical section and every dispatch has the
    events that its caller can see, from its arguments, what it answered and the
    invocations that it started ([emitted], [handed_out]).  The leasing queue makes
    exactly these events, so every interleaving refines it. *)
From S2P Require Import Prelude PyDict Queue Transport Types WorkQueue WorkDispatch WorkSteps WorkFlow LeaseQueue.
Import WorkQueue.
#[local] Open Scope Z_scope.

(** ** The abstraction *)
Definition to_map {V B} (g : V -> B) (d : list (string * V)) : gmap string B := list_to_map (dmap g d).

Definition count_of (v : val) : Z := match py_succ v with Ok k => k - 1 | Raise _ => 0 end.

Arguments count_of : simpl never.

Definition job_of (m : Message) : job :=
  mkJob (payload m) (count_of (default (VInt 0) (dget (headers m) h_retry))).

Definition lease_of (e : InFlightEntry) : string * job :=
  (e_topic e, mkJob (payload (message e)) (count_of (retry_count e))).

Definition abs {H} (w : wq H) : lq := mkLq (to_map (map job_of) (pending w)) (to_map lease_of (in_flight w)).

Section maps.
Context {V B : Type} (g : V -> B).
Implicit Types (d : list (string * V)).

Lemma lookup_to_map d k : to_map g d !! k = g <$> dget d k.
Proof.
  unfold to_map. induction d as [|[k' v] d IH]; cbn; [done|]. rewrite lookup_insert. by case_decide.
Qed.

Lemma to_map_dset d k v : to_map g (dset d k v) = <[k := g v]> (to_map g d).
Proof.
  apply map_eq. intros j. rewrite lookup_to_map, dget_dset, lookup_insert, lookup_to_map.
  repeat case_decide; subst; done || congruence.
Qed.

Lemma to_map_ddel d k : to_map g (ddel d k) = delete k (to_map g d).
Proof.
  apply map_eq. intros j. rewrite lookup_to_map, dget_ddel, lookup_delete, lookup_to_map.
  repeat case_decide; subst; done || congruence.
Qed.

Lemma to_map_app d1 d2 : to_map g (d1 ++ d2) = to_map g d1 ∪ to_map g d2.
Proof. unfold to_map, dmap. rewrite map_app. apply list_to_map_app. Qed.
End maps.
Arguments to_map : simpl never.

Section abs.
Context {T H : Type}.
Abbreviation world := (heap T (qstate H * wq H)).
Implicit Types (h : world) (w : wq H).

Lemma jobs_abs t w : jobs_of t (abs w) = map job_of (pending_of t w).
Proof. unfold jobs_of, pending_of, dget_or. cbn. rewrite lookup_to_map. by destruct (dget _ t). Qed.

Lemma leased_abs d w : leased (abs w) !! d = lease_of <$> dget (in_flight w) d.
Proof. apply lookup_to_map. Qed.

Lemma abs_put t q w : abs (set_pending (dset (pending w) t q) w) =
  mkLq (<[t := map job_of q]> (waiting (abs w))) (leased (abs w)).
Proof. unfold abs. cbn. by rewrite to_map_dset. Qed.

Lemma abs_del d w : abs (set_in_flight (ddel (in_flight w) d) w) =
  mkLq (waiting (abs w)) (delete d (leased (abs w))).
Proof. unfold abs. cbn. by rewrite to_map_ddel. Qed.

Lemma abs_flight e w : abs (flight_with e w) =
  mkLq (waiting (abs w)) (<[delivery_id e := lease_of e]> (leased (abs w))).
Proof. unfold abs. cbn. by rewrite to_map_dset. Qed.

Lemma abs_same w w' : pending w' = pending w -> in_flight w' = in_flight w -> abs w' = abs w.
Proof. unfold abs. by intros -> ->. Qed.

Lemma count_int k : count_of (VInt k) = k.
Proof. unfold count_of. cbn. lia. Qed.

Lemma lease_fails e : typed_entry e -> fails (lease_of e).2 + 1 = retry_of e.
Proof. intros He. cbn. unfold count_of. rewrite (typed_retry e He). lia. Qed.

(** ** An entry has the retry count of its message *)
Definition counted_entry (e : InFlightEntry) : Prop :=
  retry_count e = default (VInt 0) (dget (headers (message e)) h_retry).

Definition counted (n : nat) w : Prop := forall e, e ∈ dvalues (in_flight w) -> counted_entry e.

Lemma counted_table_inv : table_inv (H := H) (fun _ => True) counted.
Proof.
  split; try done.
  - intros n w m e Hw _ <- _ Hr _ e' [->|?]%elem_dvalues_dset; [done|by apply Hw].
  - intros n w d Hw e He%elem_dvalues_ddel. by apply Hw.
  - intros n w cid key es Hw _ _. by destruct (remove_entry cid es).
  - intros n w _ e He. by apply not_elem_of_nil in He.
Qed.

(** The constructor's arguments do not change. *)
Lemma cfg_table_inv c : table_inv (H := H) (fun _ => True) (fun _ w => cfg w = c).
Proof. split; try done. intros n w cid key es Hw _ _. by destruct (remove_entry cid es). Qed.

(** ** Traced runs *)
Variable isoformat : Z -> string.

(** The critical sections of WorkSteps, with what they are called with *)
Inductive op : Type :=
  | OEnqueue (t : string) (p : val) (vt : option val) (hd : hdrs)
  | OConsume (t : string) (f : H) (g : option string)
  | ODequeue (t : string) (deadline : option Z)
  | OAck (d : string)
  | ONack (d : string) (requeue : bool)
  | ORemove (cid : string)
  | OReap (t : Z)
  | OReturns (k : nat)
  | ORaises (k : nat)
  | OTick (t : Z)
  | OCloseFlags
  | OCloseTables.

(** What it answers *)
Inductive answer : Type :=
  | Nothing
  | Id (i : string)
  | Got (r : wait (option Message))
  | Settled (b : bool).

(** A section with its answer and the topics that its thread goes on to dispatch *)
Definition run_op (o : op) : M world (answer * list string) :=
  match o with
  | OEnqueue t p vt hd => let! i := enqueue_locked isoformat t p vt hd in ret (Id i, [t])
  | OConsume t f g => consume_locked t f g ;;; ret (Nothing, [t])
  | ODequeue t d => let! m := dequeue_pass t d in ret (Got m, [])
  | OAck d => let! b := ack d in ret (Settled b, [])
  | ONack d rq => let! r := nack_locked isoformat d rq in ret (Settled r.1, obligation r.2)
  | ORemove cid => remove_consumer cid ;;; ret (Nothing, [])
  | OReap t => let! ts := reap_locked isoformat t in ret (Nothing, ts)
  | OReturns k => thread_ends k ;;; ret (Nothing, [])
  | ORaises k =>
      let! i := thread_ends k in
      match i with
      | Some i => let! r := nack_locked isoformat (i_id i) true in ret (Settled r.1, obligation r.2)
      | None => ret (Nothing, [])
      end
  | OTick t => upd_wq (set_now t) ;;; ret (Nothing, [])
  | OCloseFlags => close_flags ;;; ret (Nothing, [])
  | OCloseTables => close_tables ;;; ret (Nothing, [])
  end.

(** The delivery id that [ack] and [nack] take from a message *)
Definition delivery_of (m : Message) : string :=
  match dget (headers m) h_delivery with Some (VStr d) => d | _ => "" end.

(** The events of a section that starts in [h] and answers [a] *)
Definition emitted (o : op) (a : answer) h : list event :=
  match o, a with
  | OEnqueue t p _ hd, Id _ => [Put t (mkJob p (count_of (default (VInt 0) (dget (dmerge [(h_retry, VInt 0)] hd) h_retry))))]
  | ODequeue t _, Got (Transport.Done (Some m)) => [Lease t [(delivery_of m, job_of m)]]
  | OAck d, Settled true => [Done d]
  | ONack d rq, Settled true => [Nack d rq]
  | OReap t, _ => map (fun e => Nack (delivery_id e) true) (late_of t (in_flight (the_wq h)))
  | ORaises k, Settled true =>
      match spawned (the_wq h) !! k with Some i => [Nack (i_id i) true] | None => [] end
  | OCloseTables, _ => [Clear]
  | _, _ => []
  end.

(** The first [n] elements, the next [n], and so on, [k] times *)
Fixpoint bundles {A} (n k : nat) (l : list A) : list (list A) :=
  match k with O => [] | S k => take n l :: bundles n k (drop n l) end.

Definition lease_event (t : string) (c : list (invocation H)) : event :=
  Lease t (map (fun i => (i_id i, job_of (i_message i))) c).

(** The events of a dispatch: every pending message of the topic is handed out, by
    one of the invocations that it started for each group. *)
Definition handed_out (t : string) h h' : list event :=
  match groups_of t (the_wq h) with
  | [] => []
  | groups => map (lease_event t) (bundles (length groups) (length (pending_of t (the_wq h)))
                (drop (length (spawned (the_wq h))) (spawned (the_wq h'))))
  end.

(** The calls that WorkSteps admits *)
Variable allowed : option val -> hdrs -> Prop.

Definition admissible (o : op) : Prop := match o with OEnqueue _ _ vt hd => allowed vt hd | _ => True end.

Inductive performs : world * list string -> list event -> world * list string -> Prop :=
  | pf_section o h a ts h' ds :
      admissible o -> run_op o h = (Ok (a, ts), h') -> performs (h, ds) (emitted o a h) (h', ts ++ ds)
  | pf_raise o h e h' ds :
      admissible o -> run_op o h = (Raise e, h') -> performs (h, ds) [] (h', ds)
  | pf_dispatch t h r h' ds1 ds2 :
      try_dispatch t h = (r, h') -> performs (h, ds1 ++ t :: ds2) (handed_out t h h') (h', ds1 ++ ds2).

Inductive traced : world * list string -> list event -> world * list string -> Prop :=
  | tr_nil s : traced s [] s
  | tr_cons s s1 s2 es1 es2 : performs s es1 s1 -> traced s1 es2 s2 -> traced s (es1 ++ es2) s2.

(** The traced runs are the interleavings of WorkSteps. *)
Definition op_topics (o : op) : M world (list string) :=
  match o with
  | OEnqueue t p vt hd => enqueue_locked isoformat t p vt hd ;;; ret [t]
  | OConsume t f g => consume_locked t f g ;;; ret [t]
  | ODequeue t d => dequeue_pass t d ;;; ret []
  | OAck d => ack d ;;; ret []
  | ONack d rq => let! r := nack_locked isoformat d rq in ret (obligation r.2)
  | ORemove cid => remove_consumer cid ;;; ret []
  | OReap t => reap_locked isoformat t
  | OReturns k => thread_ends k ;;; ret []
  | ORaises k =>
      let! i := thread_ends k in
      match i with
      | Some i => let! r := nack_locked isoformat (i_id i) true in ret (obligation r.2)
      | None => ret []
      end
  | OTick t => upd_wq (set_now t) ;;; ret []
  | OCloseFlags => close_flags ;;; ret []
  | OCloseTables => close_tables ;;; ret []
  end.

Lemma run_op_topics o : m_equiv (op_topics o) (let! r := run_op o in ret r.2).
Proof.
  destruct o; cbn [run_op op_topics]; rewrite bind_assoc.
  7: symmetry; apply bind_ret_r.
  8: apply bind_proper; [done|]; intros [i|] h; [by rewrite bind_assoc|done].
  all: by apply bind_proper.
Qed.

Lemma section_topics m : section isoformat allowed m -> exists o, admissible o /\ m = op_topics o.
Proof.
  destruct 1 as [t p vt hd Ha|t f g|t d|d|d rq|cid|t|k|k|t| |];
    [exists (OEnqueue t p vt hd)|exists (OConsume t f g)|exists (ODequeue t d)|exists (OAck d)|exists (ONack d rq)
    |exists (ORemove cid)|exists (OReap t)|exists (OReturns k)|exists (ORaises k)|exists (OTick t)
    |exists OCloseFlags|exists OCloseTables]; done.
Qed.

Lemma section_op m : section isoformat allowed m ->
  exists o, admissible o /\ m_equiv m (let! r := run_op o in ret r.2).
Proof. intros (o & Ha & ->)%section_topics. exists o. split; [done|apply run_op_topics]. Qed.

Lemma op_section o : admissible o ->
  exists m, section isoformat allowed m /\ m_equiv m (let! r := run_op o in ret r.2).
Proof.
  intros Ha. exists (op_topics o). split; [|apply run_op_topics]. by destruct o; constructor.
Qed.

Lemma step_performs s s' : step isoformat allowed s s' -> exists es, performs s es s'.
Proof.
  destruct 1 as [m h h' ts ds Hm Hr|m h h' e ds Hm Hr|t h h' r ds1 ds2 Hr];
    [| |exists (handed_out t h h'); exact (pf_dispatch t h r h' ds1 ds2 Hr)];
    destruct (section_op m Hm) as (o & Ha & Heq); rewrite Heq in Hr; unfold bind in Hr;
    destruct (run_op o h) as [[[a ts']|e'] h1] eqn:Ho; unfold ret in Hr; simplify_eq; eexists;
    [exact (pf_section o h a _ _ _ Ha Ho)|exact (pf_raise o h _ _ _ Ha Ho)].
Qed.

Lemma performs_step s es s' : performs s es s' -> step isoformat allowed s s'.
Proof.
  destruct 1 as [o h a ts h' ds Ha Hr|o h e h' ds Ha Hr|t h r h' ds1 ds2 Hr]; [| |by eapply step_dispatch];
    destruct (op_section o Ha) as (m & Hm & Heq); specialize (Heq h); unfold bind in Heq; rewrite Hr in Heq;
    [by eapply step_section|by eapply step_raise].
Qed.

Lemma steps_traced s s' : rtc (step isoformat allowed) s s' <-> exists es, traced s es s'.
Proof.
  split.
  - induction 1 as [s|s s1 s2 H1 _ (es2 & IH)]; [exists []; constructor|].
    destruct (step_performs s s1 H1) as (es1 & Hp). exists (es1 ++ es2). by eapply tr_cons.
  - intros (es & Ht). induction Ht as [s|s s1 s2 es1 es2 Hp _ IH]; [done|].
    eapply rtc_l; [by eapply performs_step|done].
Qed.

(** ** Runs of the leasing queue *)
Variable limit : Z.

Definition sim (es : list event) h h' : Prop := lsteps limit (abs (the_wq h)) es (abs (the_wq h')).

Lemma sim_same h h' : abs (the_wq h') = abs (the_wq h) -> sim [] h h'.
Proof. unfold sim. intros ->. constructor. Qed.

Lemma sim_one e h h' : lstep limit (abs (the_wq h)) e (abs (the_wq h')) -> sim [e] h h'.
Proof. apply ls_one. Qed.

(** *** Coming back *)

Lemma waiting_returned r b e h w : counted_entry e ->
  waiting (abs (returned isoformat w r b e h)) =
  if b then <[e_topic e := mkJob (payload (message e)) (retry_of e) :: jobs_of (e_topic e) (abs w)]> (waiting (abs w))
  else <[dead_topic (e_topic e) := jobs_of (dead_topic (e_topic e)) (abs w) ++ [(lease_of e).2]]> (waiting (abs w)).
Proof.
  intros He. unfold returned. destruct b; unfold filed_first, filed_last; rewrite abs_put; cbn [waiting].
  - rewrite jobs_abs. cbn [map]. unfold job_of at 1, requeued. cbn. rewrite dget_dset_eq. cbn. by rewrite count_int.
  - unfold dead_topic. rewrite jobs_abs, map_app. do 3 f_equal. unfold dead_of, lease_of, job_of. cbn.
    rewrite !dget_dset_ne by done. by rewrite He.
Qed.

Lemma abs_returned r (b : bool) e h w : abs (returned isoformat w r b e h) =
  mkLq (waiting (abs (returned isoformat w r b e h))) (leased (abs w)).
Proof. by destruct b. Qed.

Lemma return_step r (b rq : bool) e h w m d :
  typed_entry e -> counted_entry e -> b = rq && bool_decide (retry_of e < limit) -> m !! d = Some (lease_of e) ->
  lstep limit (mkLq (waiting (abs w)) m) (Nack d rq)
    (mkLq (waiting (abs (returned isoformat w r b e h))) (delete d m)).
Proof.
  intros Hty Hco Hb Hm. pose proof (lease_fails e Hty) as Hf. rewrite (waiting_returned r b e h w Hco).
  set (s := mkLq (waiting (abs w)) m). destruct b.
  - symmetry in Hb. apply andb_true_iff in Hb as [-> Hlt%bool_decide_eq_true]. rewrite <- Hf.
    apply (l_retry limit s d (e_topic e) (lease_of e).2); [done|]. by rewrite Hf.
  - apply (l_bury limit s d rq (e_topic e) (lease_of e).2); [done|]. rewrite Hf.
    symmetry in Hb. apply andb_false_iff in Hb as [?|?%bool_decide_eq_false]; [by left|right; lia].
Qed.

(** ** The critical sections *)
Record ok h : Prop := {
  ok_typed : on_wq typed h;
  ok_counted : on_wq counted h;
  ok_limit : max_retries (cfg (the_wq h)) = limit;
}.

Lemma ok_wf h : ok h -> on_wq wf_tables h.
Proof. intros Hok. apply ty_wf, Hok. Qed.

Lemma ok_entry h d e : ok h -> dget (in_flight (the_wq h)) d = Some e -> typed_entry e /\ counted_entry e.
Proof.
  intros Hok He%elem_dvalues. split; [by apply (ty_flight _ _ (ok_typed h Hok))|by apply (ok_counted h Hok)].
Qed.

(** What a section does, the leasing queue does on the events that it emits. *)
Definition refined (o : op) h : Prop :=
  match run_op o h with
  | (Ok (a, _), h') => sim (emitted o a h) h h'
  | (Raise _, h') => sim [] h h'
  end.

Lemma refined_enqueue t p vt hd h : refined (OEnqueue t p vt hd) h.
Proof.
  unfold refined. cbn [run_op]. unfold bind. rewrite enqueue_locked_run.
  destruct (at_capacity t (the_wq h)); [by apply sim_same|]. apply sim_one.
  change (lstep limit (abs (the_wq h)) (Put t (mkJob p (count_of (default (VInt 0) (dget (dmerge [(h_retry, VInt 0)] hd) h_retry)))))
    (abs (filed_last t (enqueued_msg isoformat t p vt hd h) (the_wq h)))).
  unfold filed_last. rewrite abs_put, map_app, <- jobs_abs. cbn [map].
  assert (job_of (enqueued_msg isoformat t p vt hd h) = mkJob p (count_of (default (VInt 0) (dget (dmerge [(h_retry, VInt 0)] hd) h_retry)))) as ->.
  { unfold job_of, enqueued_msg. cbn [payload headers]. do 3 f_equal. by apply dget_dmerge_same. }
  constructor.
Qed.

Lemma refined_dequeue t dl h : on_wq wf_tables h -> refined (ODequeue t dl) h.
Proof.
  intros Hw. unfold refined. cbn [run_op]. unfold dequeue_pass, bind, get_wq, gets.
  destruct (closed_wq (the_wq h)); [by apply sim_same|].
  destruct (pending_of t (the_wq h)) as [|m q] eqn:Hp.
  - destruct dl as [d|]; [destruct (decide _)|]; by apply sim_same.
  - unfold put_pending. rewrite upd_wq_run. set (h1 := with_wq _ _ h). rewrite make_in_flight_run. cbn [ret].
    apply sim_one. cbn [emitted].
    set (m' := delivered_of m h1). set (e := entry_of m t (t +:+ "._pull") h1).
    assert (delivery_of m' = uuid4 (h_uuid h)) as ->
      by (unfold delivery_of, m', delivered_of; cbn [headers with_headers]; by rewrite dget_dset_eq).
    change (lstep limit (abs (the_wq h)) (Lease t [(uuid4 (h_uuid h), job_of m')])
      (abs (flight_with e (set_pending (dset (pending (the_wq h)) t q) (the_wq h))))).
    rewrite abs_flight, abs_put. cbn [waiting leased].
    assert (leased (abs (the_wq h)) !! uuid4 (h_uuid h) = None) as Hfr
      by by rewrite leased_abs, (fresh_flight h Hw).
    assert (job_of m' = job_of m) as ->
      by (unfold job_of, m', delivered_of; cbn [payload headers with_headers]; by rewrite dget_dset_ne).
    replace (<[delivery_id e := lease_of e]> _) with (leases t (job_of m) [uuid4 (h_uuid h)] ∪ leased (abs (the_wq h)))
      by (unfold leases; cbn; rewrite <- insert_union_l; by rewrite map_empty_union).
    apply (l_lease limit (abs (the_wq h)) t (job_of m) (map job_of q) [(uuid4 (h_uuid h), job_of m)]);
      [by rewrite jobs_abs, Hp|done|by repeat constructor|apply NoDup_singleton|].
    by intros d ->%list_elem_of_singleton.
Qed.

Lemma refined_ack d h : refined (OAck d) h.
Proof.
  unfold refined. cbn [run_op]. unfold ack, bind, get_wq, gets, dmem.
  destruct (dget (in_flight (the_wq h)) d) as [e|] eqn:Hd; [|by apply sim_same]. apply sim_one.
  change (lstep limit (abs (the_wq h)) (Done d) (abs (set_in_flight (ddel (in_flight (the_wq h)) d) (the_wq h)))).
  rewrite abs_del. apply (l_done _ _ d (lease_of e)). by rewrite leased_abs, Hd.
Qed.

Lemma refined_nack d rq h : ok h -> refined (ONack d rq) h.
Proof.
  intros Hok. unfold refined. cbn [run_op]. unfold bind.
  destruct (dget (in_flight (the_wq h)) d) as [e|] eqn:Hd.
  - rewrite (nack_locked_spec isoformat d rq h e (ok_typed h Hok) Hd). cbv zeta.
    set (w := set_in_flight _ _). set (r := if retried _ _ then _ else _). set (b := rq && _).
    destruct (ok_entry h d e Hok Hd) as [Hty Hco]. cbn [ret fst snd emitted]. apply sim_one.
    change (lstep limit (abs (the_wq h)) (Nack d rq) (abs (returned isoformat w r b e h))). rewrite abs_returned.
    unfold w at 2. rewrite abs_del. apply (return_step r b rq e h w (leased (abs (the_wq h))) d Hty Hco).
    + unfold b, retried. by rewrite (ok_limit h Hok).
    + by rewrite leased_abs, Hd.
  - unfold nack_locked, bind, get_wq, gets. rewrite Hd. by apply sim_same.
Qed.

(** *** A dispatch: each message is leased to every group at once *)
Lemma map_leases (new : list (string * InFlightEntry)) t j :
  Forall (fun p => lease_of p.2 = (t, j)) new -> to_map lease_of new = leases t j (map fst new).
Proof.
  intros Hn. unfold to_map, leases, dmap. f_equal. rewrite map_map.
  induction Hn as [|p new Hp _ IH]; [done|]. cbn. by rewrite Hp, IH.
Qed.

Lemma dispatch_groups_lease t several msg keys h :
  on_wq wf_tables h -> NoDup keys -> keys <> [] -> (forall key, key ∈ keys -> entries_of key (the_wq h) <> []) ->
  exists invs h', dispatch_groups t several msg keys h = (Ok invs, h') /\ dispatched t h h' invs /\
    invs <> [] /\ length invs = length keys /\ pending (the_wq h') = pending (the_wq h) /\ on_wq wf_tables h' /\
    Forall (fun i => job_of (i_message i) = job_of msg) invs /\ NoDup (map i_id invs) /\
    (forall d, d ∈ map i_id invs -> leased (abs (the_wq h)) !! d = None) /\
    leased (abs (the_wq h')) = leases t (job_of msg) (map i_id invs) ∪ leased (abs (the_wq h)).
Proof.
  intros Hw Hnd Hk Hne.
  destruct (dispatch_groups_spec t several msg keys h Hw Hnd Hne) as (invs & h' & Hr & D & P & Hp & Hm & _).
  pose proof (keeps_dispatch_groups (T := T) _ _ wf_table_inv t several msg keys I h Hw) as Hw'. rewrite Hr in Hw'.
  destruct (dp_flight _ _ _ _ D) as (new & Hf & Hi & Hall).
  assert (length invs = length keys) as Hlen by (apply (f_equal length) in Hp; by rewrite !length_map in Hp).
  pose proof (wf_flight _ _ Hw') as Hok. cbn [snd] in Hok. rewrite Hf in Hok.
  unfold dict_ok, dkeys in Hok. rewrite fmap_app in Hok. apply NoDup_app in Hok as (_ & Hdis & Hnew).
  change (fst <$> new) with (map fst new) in *. rewrite Hi in Hnew, Hdis.
  exists invs, h'. split_and!; try done.
  - by destruct invs, keys.
  - eapply Forall_impl; [exact Hm|]. intros i [Hb Hh]. unfold job_of. by rewrite Hb, Hh.
  - intros d Hd. rewrite leased_abs. destruct (dget _ d) as [e|] eqn:He; [|done]. exfalso.
    apply (Hdis d); [|exact Hd]. apply dget_is_Some. by rewrite He.
  - cbn [leased abs]. rewrite Hf, to_map_app, <- Hi, (map_leases new t (job_of msg)).
    + apply map_union_comm, map_disjoint_spec. intros d x y Hx Hy. rewrite lookup_to_map in Hx.
      destruct (dget _ d) as [e|] eqn:He; [|done]. apply (Hdis d); [apply dget_is_Some; by rewrite He|].
      apply elem_of_list_to_map_2 in Hy. apply list_elem_of_In, in_map_iff in Hy as (d' & [= -> _] & Hin).
      apply list_elem_of_In. by rewrite <- Hi.
    + clear - Hall Hm. induction Hall as [|p i new invs [[Hb Hh] [Ht Hc]] _ IH]; [constructor|].
      apply Forall_cons in Hm as [[Hb' Hh'] Hm]. constructor; [|by apply IH].
      unfold lease_of, job_of. by rewrite Ht, Hc, Hb, Hh, Hb', Hh'.
Qed.

Lemma sim_dispatch_loop t keys q h :
  on_wq wf_tables h -> NoDup keys -> keys <> [] -> (forall key, key ∈ keys -> entries_of key (the_wq h) <> []) ->
  pending_of t (the_wq h) = q ->
  exists invs h', dispatch_loop t keys q h = (Ok invs, h') /\ spawned (the_wq h') = spawned (the_wq h) /\
    sim (map (lease_event t) (bundles (length keys) (length q) invs)) h h'.
Proof.
  intros Hw Hnd Hk. revert h Hw. induction q as [|msg q IH]; intros h Hw Hne Hp.
  { exists [], h. split_and!; [done..|by apply sim_same]. }
  cbn [dispatch_loop]. unfold bind at 1. unfold put_pending at 1. rewrite upd_wq_run. set (h1 := with_wq _ _ _).
  assert (on_wq wf_tables h1) as Hw1 by (apply (ti_pending _ _ wf_table_inv _ _ t q Hw); by apply Forall_true).
  destruct (dispatch_groups_lease t (1 <? length keys)%nat msg keys h1 Hw1 Hnd Hk Hne)
    as (invs & h2 & Hr & D & Hi & Hlen & P & Hw2 & Hjob & Hids & Hfr & Hl).
  unfold bind at 1. rewrite Hr. destruct invs as [|i invs]; [done|]. set (c := i :: invs) in *.
  destruct (IH h2 Hw2) as (rest & h' & Hloop & Hsp & Hsim).
  { intros key Hin. unfold entries_of. rewrite (dp_groups _ _ _ _ D). by apply Hne. }
  { unfold pending_of. rewrite P. cbn. by rewrite dget_or_dset, decide_True. }
  exists (c ++ rest), h'. unfold bind. rewrite Hloop.
  split_and!; [done|by rewrite Hsp, (dp_spawned _ _ _ _ D)|].
  cbn [length bundles map]. rewrite take_app_length', drop_app_length' by done.
  apply (ls_cons _ _ (abs (the_wq h2))); [|exact Hsim].
  replace (abs (the_wq h2)) with (mkLq (waiting (abs (the_wq h1))) (leased (abs (the_wq h2))))
    by by cbn [waiting abs]; rewrite <- P.
  rewrite Hl. change (the_wq h1) with (set_pending (dset (pending (the_wq h)) t q) (the_wq h)). rewrite abs_put.
  cbn [waiting leased]. unfold lease_event. set (l := map _ c).
  assert (map fst l = map i_id c) as Hfst by (unfold l; by rewrite map_map).
  rewrite <- Hfst. apply l_lease; rewrite ?Hfst; [by rewrite jobs_abs, Hp|done| |done|exact Hfr].
  unfold l. by apply Forall_map.
Qed.

Lemma sim_dispatch t h : on_wq wf_tables h -> sim (handed_out t h (try_dispatch t h).2) h (try_dispatch t h).2.
Proof.
  intros Hw. unfold handed_out. destruct (groups_of t (the_wq h)) as [|k ks] eqn:Hg.
  { rewrite try_dispatch_none by done. by apply sim_same. }
  destruct (groups_of_spec _ t _ Hw) as [Hnd Hne]. rewrite Hg in Hnd, Hne.
  destruct (sim_dispatch_loop t (k :: ks) (pending_of t (the_wq h)) h Hw Hnd ltac:(done) Hne eq_refl)
    as (invs & h' & Hloop & Hsp & Hsim).
  assert (try_dispatch t h = (Ok tt, with_wq (h_uuid h') (set_spawned (spawned (the_wq h') ++ invs) (the_wq h')) h')) as ->.
  { unfold try_dispatch, bind at 1, get_wq, gets. rewrite Hg. unfold bind. by rewrite Hloop, upd_wq_run. }
  cbn [snd]. change (spawned (the_wq (with_wq _ (set_spawned ?l _) _))) with l. rewrite Hsp, drop_app_length. exact Hsim.
Qed.
(** *** The reaper: the leases that it has taken out but not yet returned *)
Definition taken (es : list InFlightEntry) : gmap string (string * job) :=
  list_to_map (map (fun e => (delivery_id e, lease_of e)) es).

Lemma taken_None d es : d ∉ map delivery_id es -> taken es !! d = None.
Proof.
  intros Hd. apply not_elem_of_list_to_map_1. unfold taken. intros Hin. apply Hd.
  apply list_elem_of_In in Hin. apply list_elem_of_In. by rewrite map_map in Hin.
Qed.

(** Requeueing from a state in which the leases [es] are still counted *)
Definition between (es : list InFlightEntry) h : lq :=
  mkLq (waiting (abs (the_wq h))) (taken es ∪ leased (abs (the_wq h))).

Lemma requeue_step e es h : typed_entry e ->
  let b := retried (the_wq h) e in
  (requeue_loop isoformat (e :: es) h).2 = (requeue_loop isoformat es
     (with_wq (if b then h_uuid h else S (h_uuid h))
        (returned isoformat (the_wq h) "visibility_timeout_exceeded" b e h) h)).2.
Proof.
  intros He. cbv zeta. cbn [requeue_loop]. unfold bind at 1, lift. rewrite (typed_retry e He).
  unfold bind at 1, get_wq, gets. fold (retried (the_wq h) e).
  destruct (retried (the_wq h) e); unfold bind; [rewrite appendleft_run|rewrite dead_letter_run]; cbn [returned].
  - by destruct (requeue_loop isoformat es _) as [[] ?].
  - done.
Qed.

Lemma sim_requeue_loop es h :
  max_retries (cfg (the_wq h)) = limit -> Forall typed_entry es -> Forall counted_entry es ->
  NoDup (map delivery_id es) -> (forall e, e ∈ es -> dget (in_flight (the_wq h)) (delivery_id e) = None) ->
  lsteps limit (between es h) (map (fun e => Nack (delivery_id e) true) es)
    (abs (the_wq (requeue_loop isoformat es h).2)).
Proof.
  revert h. induction es as [|e es IH]; intros h Hlim Hty Hco Hnd Hfr.
  - unfold between, taken. cbn. rewrite map_empty_union. constructor.
  - apply Forall_cons in Hty as [Het Hty], Hco as [Hec Hco]. apply NoDup_cons in Hnd as [Hd Hnd].
    rewrite (requeue_step e es h Het). cbv zeta. set (b := retried (the_wq h) e).
    set (w1 := returned isoformat (the_wq h) "visibility_timeout_exceeded" b e h). set (h1 := with_wq _ w1 h).
    pose proof (returned_same isoformat (the_wq h) "visibility_timeout_exceeded" b e h) as (Hf1 & _ & Hc1).
    apply (ls_cons _ _ (between es h1)).
    + assert (between es h1 = mkLq (waiting (abs w1)) (delete (delivery_id e) (taken (e :: es) ∪ leased (abs (the_wq h)))))
        as ->; [|apply (return_step "visibility_timeout_exceeded" b true e h (the_wq h) _ _ Het Hec)].
      * unfold between. change (the_wq h1) with w1. f_equal.
        change (taken (e :: es)) with (<[delivery_id e := lease_of e]> (taken es)). rewrite <- insert_union_l.
        unfold w1. rewrite abs_returned. cbn [leased]. symmetry. apply delete_insert_id.
        apply lookup_union_None. split; [by apply taken_None|]. rewrite leased_abs, Hfr; [done|by left].
      * unfold b, retried. by rewrite Hlim.
      * apply lookup_union_Some_l. apply lookup_insert_eq.
    + apply IH; [by rewrite <- Hlim; apply (f_equal max_retries)|done|done|done|].
      intros e' He'. change (the_wq h1) with w1. unfold w1. rewrite Hf1. apply Hfr. by right.
Qed.

(** Deliveries are filed under their own ids. *)
Definition ids_ok (l : list (string * InFlightEntry)) : Prop := forall d e, (d, e) ∈ l -> delivery_id e = d.

Lemma late_elem t l e : ids_ok l -> e ∈ late_of t l -> (delivery_id e, e) ∈ l /\ is_late t e = true.
Proof.
  intros Hid [Hin Hl]%list_elem_of_In%filter_In. split; [|done].
  apply in_map_iff in Hin as ([d e'] & Hs & Hin). cbn in Hs. subst e'. apply list_elem_of_In in Hin.
  by rewrite (Hid d e Hin).
Qed.

Lemma late_fresh t l d : ids_ok l -> d ∉ dkeys l -> d ∉ map delivery_id (late_of t l).
Proof.
  intros Hid Hd (e & -> & He)%list_elem_of_fmap. apply Hd, list_elem_of_fmap.
  exists (delivery_id e, e). split; [done|]. by apply (late_elem t).
Qed.

Lemma late_nodup t l : ids_ok l -> dict_ok l -> NoDup (map delivery_id (late_of t l)).
Proof.
  induction l as [|[d e] l IH]; intros Hid Hok; [constructor|]. unfold dict_ok, dkeys in Hok. cbn in Hok.
  apply NoDup_cons in Hok as [Hd Hok]. assert (ids_ok l) as Hidl by (intros d' e' Hin; apply Hid; by right).
  specialize (IH Hidl Hok). unfold late_of. cbn [map snd List.filter]. destruct (is_late t e); [|done].
  cbn. constructor; [|done]. rewrite (Hid d e) by by left. by apply late_fresh.
Qed.

Lemma between_expired t (l : list (string * InFlightEntry)) : dict_ok l -> ids_ok l ->
  taken (late_of t l) ∪ to_map lease_of (in_time t l) = to_map lease_of l.
Proof.
  induction l as [|[d e] l IH]; intros Hok Hid; [done|]. unfold late_of, in_time. cbn [map snd List.filter].
  unfold dict_ok, dkeys in Hok. cbn in Hok. apply NoDup_cons in Hok as [Hd Hok].
  assert (ids_ok l) as Hidl by (intros d' e' Hin; apply Hid; by right).
  specialize (IH Hok Hidl). fold (late_of t l) (in_time t l).
  change (to_map lease_of ((d, e) :: l)) with (<[d := lease_of e]> (to_map lease_of l)). rewrite <- IH.
  destruct (is_late t e); cbn [negb].
  - change (taken (e :: late_of t l)) with (<[delivery_id e := lease_of e]> (taken (late_of t l))).
    rewrite (Hid d e) by by left. by rewrite insert_union_l.
  - change (to_map lease_of ((d, e) :: in_time t l)) with (<[d := lease_of e]> (to_map lease_of (in_time t l))).
    symmetry. by apply insert_union_r, taken_None, late_fresh.
Qed.

Lemma refined_reap t h : ok h -> refined (OReap t) h.
Proof.
  intros Hok. pose proof (ok_wf h Hok) as Hw.
  set (fl := in_flight (the_wq h)). assert (dict_ok fl) as Hdok by apply Hw.
  assert (ids_ok fl) as Hid by (intros d e Hin%elem_dget; [by apply (wf_ids _ _ Hw d e)|done]).
  assert (forall e, e ∈ map snd fl -> typed_entry e) as Hty by (intros e; apply (ty_flight _ _ (ok_typed h Hok))).
  assert (forall e, e ∈ late_of t fl -> e ∈ map snd fl) as Hin.
  { intros e [? _]%(late_elem t fl e Hid). apply list_elem_of_fmap. by exists (delivery_id e, e). }
  destruct (reap_locked_spec isoformat t h (ok_typed h Hok)) as (ts & h' & Hr & _).
  unfold refined. cbn [run_op]. unfold bind. rewrite Hr. cbn [ret emitted]. fold fl.
  replace h' with (reap_locked isoformat t h).2 by by rewrite Hr. clear Hr.
  unfold reap_locked, bind at 1, get_wq, gets. unfold bind. fold fl.
  rewrite (expire_loop_spec t [] fl h) by (done || by apply Forall_forall). cbn [app]. set (h1 := with_wq _ _ _).
  unfold sim. replace (abs (the_wq h)) with (between (late_of t fl) h1)
    by exact (f_equal (mkLq (waiting (abs (the_wq h)))) (between_expired t fl Hdok Hid)).
  apply sim_requeue_loop.
  - exact (ok_limit h Hok).
  - apply Forall_forall. auto.
  - apply Forall_forall. intros e He. by apply (ok_counted h Hok), Hin.
  - by apply late_nodup.
  - intros e He. destruct (late_elem t fl e Hid He) as [Hfl Hl]. change (in_flight (the_wq h1)) with (in_time t fl).
    destruct (dget (in_time t fl) (delivery_id e)) as [e'|] eqn:Hd; [|done]. exfalso.
    unfold in_time in Hd. apply (dget_filter (fun e => negb (is_late t e))) in Hd as [Hd Hn]; [|done].
    rewrite (elem_dget fl _ e Hdok Hfl) in Hd. injection Hd as ->. by rewrite Hl in Hn.
Qed.

Lemma refined_remove cid h : refined (ORemove cid) h.
Proof.
  unfold refined. cbn [run_op]. unfold remove_consumer, bind, get_wq, gets.
  destruct (dget (consumer_registry (the_wq h)) cid) as [key|]; [|by apply sim_same].
  destruct (dget (consumer_groups (the_wq h)) key) as [[|en l]|]; try by apply sim_same.
  by destruct (remove_entry cid (en :: l)); apply sim_same.
Qed.

(** ** Every interleaving *)
Lemma refined_op o h : ok h -> refined o h.
Proof.
  intros Hok. pose proof (ok_wf h Hok) as Hw.
  destruct o as [t p vt hd|t f g|t d|d|d rq|cid|t|k|k|t| |]; try by apply sim_same.
  - apply refined_enqueue.
  - by apply refined_dequeue.
  - apply refined_ack.
  - by apply refined_nack.
  - apply refined_remove.
  - by apply refined_reap.
  - unfold refined. cbn [run_op]. unfold bind at 1. rewrite thread_ends_run.
    destruct (spawned (the_wq h) !! k) as [i|] eqn:Hk; [|by apply sim_same].
    set (h1 := with_wq _ _ _). assert (ok h1) as Hok1.
    { split; [by apply (ti_spawned _ _ typed_table_inv), Hok|apply (ok_counted h Hok)|apply Hok]. }
    pose proof (refined_nack (i_id i) true h1 Hok1) as Hs. unfold refined in Hs. cbn [run_op] in Hs.
    destruct (bind _ _ h1) as [[[a ts]|e] h'] in Hs |- *; [|exact Hs].
    cbn [emitted] in *. rewrite Hk. by destruct a.
  - apply sim_one, l_clear.
Qed.

Lemma sim_performs s es s' : performs s es s' -> ok s.1 -> sim es s.1 s'.1.
Proof.
  intros [o h a ts h' ds _ Hr|o h e h' ds _ Hr|t h r h' ds1 ds2 Hr] Hok; cbn in *.
  - pose proof (refined_op o h Hok) as Hs. unfold refined in Hs. by rewrite Hr in Hs.
  - pose proof (refined_op o h Hok) as Hs. unfold refined in Hs. by rewrite Hr in Hs.
  - pose proof (sim_dispatch t h (ok_wf h Hok)) as Hs. by rewrite Hr in Hs.
Qed.

Hypothesis typed_calls : typed_allowed (H := H) isoformat allowed.

Lemma ok_step s s' : step isoformat allowed s s' -> ok s.1 -> ok s'.1.
Proof.
  intros Hs Hok. apply rtc_once in Hs. destruct Hok as [Hty Hco Hl]. split.
  - by apply (steps_keep isoformat allowed typed_msg typed typed_table_inv (enqueued_typed isoformat allowed typed_calls) s).
  - by apply (steps_keep isoformat allowed (fun _ => True) counted counted_table_inv ltac:(done) s).
  - rewrite <- Hl. f_equal. by apply (steps_keep isoformat allowed (fun _ => True)
      (fun _ w => cfg w = cfg (the_wq s.1)) (cfg_table_inv _) ltac:(done) s).
Qed.

Lemma sim_traced s es s' : traced s es s' -> ok s.1 -> sim es s.1 s'.1.
Proof.
  induction 1 as [s|s s1 s2 es1 es2 H1 _ IH]; intros Hok; [constructor|].
  eapply ls_app; [by apply sim_performs|]. apply IH. by eapply ok_step, Hok; eapply performs_step.
Qed.
End abs.

Section refinement.
Context {T H : Type}.
Abbreviation world := (heap T (qstate H * wq H)).
Variable isoformat : Z -> string.
Variable allowed : option val -> hdrs -> Prop.
Hypothesis typed_calls : typed_allowed (H := H) isoformat allowed.

(** C1 [WorkQueue] refines the leasing queue, event by event.  The interleavings
    of public operations, dispatches, handler threads and reaper rounds are exactly
    the traced runs, whose events are what the callers see: a message put with its
    payload, when [enqueue] returned; the deliveries handed out, with their ids and
    jobs, by [dequeue] and to the invocations that a dispatch started; the
    deliveries that [ack] and [nack] reported as settled, those whose handler
    raised, and those that the reaper found late; [close].  The leasing queue can
    make these events, and then holds what the tables hold.  (Callers do not put
    non-numbers into the bookkeeping headers.) *)
Theorem work_queue_refines (s s' : world * list string) :
  on_wq typed s.1 -> on_wq counted s.1 ->
  (rtc (step isoformat allowed) s s' <-> exists es, traced isoformat allowed s es s') /\
  forall es, traced isoformat allowed s es s' ->
    lsteps (max_retries (cfg (the_wq s.1))) (abs (the_wq s.1)) es (abs (the_wq s'.1)).
Proof.
  intros Hty Hco. split; [apply steps_traced|]. intros es Hs. by eapply sim_traced; [exact typed_calls|exact Hs|].
Qed.

(** C5 Redelivery ends.  When at most one group consumes a topic (not one of
    dead letters), the deliveries that are handed out for it in a run, by [dequeue]
    and to handlers, are at most those still due at its start and, for every message
    that was put on it, [max_retries], and at least one (fewer when it was put with
    a retry count); whatever consumers, handlers, reaper and timeouts do. *)
Theorem deliveries_bounded t (s s' : world * list string) es :
  on_wq typed s.1 -> on_wq counted s.1 -> ~ is_dl t -> traced isoformat allowed s es s' -> Forall (one_group t) es ->
  let limit := max_retries (cfg (the_wq s.1)) in
  deliveries t es <= budget limit t (abs (the_wq s.1)) + credit limit t es.
Proof.
  intros Hty Hco Hdl Hs Ho limit.
  assert (lsteps limit (abs (the_wq s.1)) es (abs (the_wq s'.1))) as Hl
    by by eapply sim_traced; [exact typed_calls|exact Hs|].
  assert (forall x, t <> dead_topic x) as Ht by (intros x ->; apply Hdl; by exists x).
  pose proof (budget_steps limit t _ es _ Ht Ho Hl). pose proof (budget_nonneg limit t (abs (the_wq s'.1))). lia.
Qed.
End refinement.

(** * Concrete runs *)
Module RefineToy.
(** A message is put, taken and rejected. *)
Definition h1 : WorkToy.world := WorkToy.put "t" 5 (WorkToy.w0 0).
Definition h2 : WorkToy.world := WorkToy.take "t" h1.
Definition h3 : WorkToy.world := (nack_locked WorkToy.iso (uuid4 1) true h2).2.

Definition events : list event :=
  [Put "t" (mkJob (VInt 5) 0); Lease "t" [(uuid4 1, mkJob (VInt 5) 0)]; Nack (uuid4 1) true].

Definition taken_answer : answer :=
  match run_op WorkToy.iso (ODequeue "t" (Some 0)) h1 with (Ok (a, _), _) => a | _ => Nothing end.

Lemma run_traced : traced WorkToy.iso WorkToy.plain_call (WorkToy.w0 0, []) events (h3, ["t"; "t"]).
Proof.
  apply (tr_cons _ _ _ (h1, ["t"]) _ [_] [_; _]).
  { exact (pf_section WorkToy.iso WorkToy.plain_call (OEnqueue "t" (VInt 5) None []) (WorkToy.w0 0) (Id (uuid4 0)) ["t"] h1 []
      (conj eq_refl eq_refl) eq_refl). }
  apply (tr_cons _ _ _ (h2, ["t"]) _ [_] [_]).
  { exact (pf_section WorkToy.iso WorkToy.plain_call (ODequeue "t" (Some 0)) h1 taken_answer [] h2 ["t"] I eq_refl). }
  apply (tr_cons _ _ _ (h3, ["t"; "t"]) _ [_] []).
  { exact (pf_section WorkToy.iso WorkToy.plain_call (ONack (uuid4 1) true) h2 (Settled true) ["t"] h3 ["t"] I eq_refl). }
  constructor.
Qed.

Lemma t_not_dead : ~ is_dl "t".
Proof. intros [[|a x] Hx]; [discriminate|]. injection Hx as _ Hx. by destruct x. Qed.

Definition join (t : string) (f : nat) (g : string) (h : WorkToy.world) : WorkToy.world :=
  (consume_locked t f (Some g) h).2.
Definition dispatch (t : string) (h : WorkToy.world) : WorkToy.world := (try_dispatch t h).2.
Definition settle (ok : bool) (d : string) (h : WorkToy.world) : WorkToy.world :=
  if ok then (ack d h).2 else (nack_locked WorkToy.iso d true h).2.
End RefineToy.

(** The message is again the first of its queue, with one failure. *)
Lemma work_queue_refines_witness :
  lsteps 3 (mkLq ∅ ∅) RefineToy.events (mkLq {[ "t" := [mkJob (VInt 5) 1] ]} ∅).
Proof.
  destruct (work_queue_refines WorkToy.iso WorkToy.plain_call (WorkToy.plain_typed) (WorkToy.w0 0, []) (RefineToy.h3, ["t"; "t"]))
    as [_ Hs].
  - apply WorkToy.w0_typed.
  - intros e He. by apply not_elem_of_nil in He.
  - exact (Hs _ RefineToy.run_traced).
Defined.

(** One delivery so far; the message may have two more. *)
Lemma deliveries_bounded_witness :
  deliveries "t" RefineToy.events <= 0 + credit 3 "t" RefineToy.events /\ deliveries "t" RefineToy.events = 1 /\
  credit 3 "t" RefineToy.events = 3.
Proof.
  split; [|split; reflexivity].
  apply (deliveries_bounded WorkToy.iso WorkToy.plain_call WorkToy.plain_typed "t" (WorkToy.w0 0, [])
    (RefineToy.h3, ["t"; "t"]) RefineToy.events).
  - apply WorkToy.w0_typed.
  - intros e He. by apply not_elem_of_nil in He.
  - apply RefineToy.t_not_dead.
  - apply RefineToy.run_traced.
  - repeat constructor.
Defined.

(** Two groups: each gets its copy.  The second acknowledges, the first rejects;
    what goes back to the queue is dispatched to both, and the handler of the second
    group (20) gets a message again that it has acknowledged. *)
Example retry_reaches_every_group :
  let h := RefineToy.dispatch "t" (WorkToy.put "t" 5 (RefineToy.join "t" 20 "gb" (RefineToy.join "t" 10 "ga" (WorkToy.w0 0)))) in
  map i_handler (spawned (the_wq h)) = [10; 20]%nat /\
  let ids := map i_id (spawned (the_wq h)) in
  let h' := RefineToy.dispatch "t" (RefineToy.settle false (nth 0 ids "") (RefineToy.settle true (nth 1 ids "") h)) in
  map i_handler (spawned (the_wq h')) = [10; 20; 10; 20]%nat.
Proof. vm_compute. done. Qed.
