(* ===== verification/TaskPool.v ===== *)
(** * [eventforge/task.py]: [TaskPool]

    The counters of the pool and its semaphore.  [acquire] is three critical
    sections (count the caller as queued, take from the semaphore, count it as
    active) and [release] two; threads interleave between them, and the step
    relation below runs any number of threads through them. *)
From S2P Require Import Prelude Types Transport.

Module TaskPool.

Record state : Type := mkPool {
  max_instances : Z;
  semaphore : Z;
  active : Z;
  total_processed : Z;
  queued : Z;
}.

(** [TaskPool(max_instances)] *)
Definition init (n : Z) : result state :=
  if decide (n < 1) then Raise (Exc "ValueError" "max_instances must be at least 1")
  else Ok (mkPool n n 0 0 0).

(** *** The critical sections *)
Definition enter_queue : M state unit :=
  modify (fun s => mkPool (max_instances s) (semaphore s) (active s) (total_processed s) (queued s + 1)).

(** [Semaphore.acquire(blocking, timeout)]: what it returns when it returns; with
    no timeout a blocking call on an empty semaphore goes on waiting *)
Definition sem_acquire (blocking : bool) (timeout : option Z) : M state (wait bool) := fun s =>
  if negb blocking && bool_decide (timeout <> None)
  then (Raise (Exc "ValueError" "can't specify timeout for non-blocking acquire"), s)
  else if decide (0 < semaphore s)
  then (Ok (Done true),
        mkPool (max_instances s) (semaphore s - 1) (active s) (total_processed s) (queued s))
  else if blocking && bool_decide (timeout = None) then (Ok Waiting, s)
  else (Ok (Done false), s).

Definition leave_queue (acquired : bool) : M state unit :=
  modify (fun s => mkPool (max_instances s) (semaphore s) (if acquired then active s + 1 else active s)
                          (total_processed s) (queued s - 1)).

Definition leave_active : M state unit :=
  modify (fun s => mkPool (max_instances s) (semaphore s) (active s - 1) (total_processed s + 1) (queued s)).

Definition sem_release : M state unit :=
  modify (fun s => mkPool (max_instances s) (semaphore s + 1) (active s) (total_processed s) (queued s)).

(** *** The methods *)
Definition acquire (blocking : bool) (timeout : option Z) : M state (wait bool) :=
  enter_queue ;;;
  let! acquired := sem_acquire blocking timeout in
  match acquired with
  | Done b => leave_queue b ;;; ret (Done b)
  | Waiting => ret Waiting
  end.

Definition release : M state unit := leave_active ;;; sem_release.

Definition available (s : state) : Z := max_instances s - active s.

Definition stats (s : state) : list (string * val) :=
  [("active", VInt (active s)); ("queued", VInt (queued s)); ("available", VInt (available s));
   ("max", VInt (max_instances s)); ("total_processed", VInt (total_processed s))].

(** [with pool.slot(blocking, timeout) as acquired: body] *)
Definition with_slot {A} (blocking : bool) (timeout : option Z) (body : bool -> M state A)
    : M state (wait A) :=
  let! acquired := acquire blocking timeout in
  match acquired with
  | Done b =>
      let! a := try_finally (body b) (if b then release else ret tt) in
      ret (Done a)
  | Waiting => ret Waiting
  end.

(** * Threads *)

(** Where a thread is: outside, counted as queued, past the semaphore with the
    answer it got, holding a slot, between the two sections of [release], or thrown
    out by the semaphore, which refuses a timeout without blocking.  (What a thread
    that was thrown out does later another thread of the list stands for.) *)
Inductive phase : Type := Outside | Queued | Answered (b : bool) | Holding | Leaving | Raised.

Inductive move : phase -> M state unit -> phase -> Prop :=
  | mv_enter : move Outside enter_queue Queued
  | mv_acquire blocking timeout b : move Queued
      (let! r := sem_acquire blocking timeout in
       match r with
       | Done b' => if Bool.eqb b b' then ret tt else throw (Exc "AssertionError" "")
       | Waiting => throw (Exc "Blocked" "")
       end) (Answered b)
  | mv_hold : move (Answered true) (leave_queue true) Holding
  | mv_fail : move (Answered false) (leave_queue false) Outside
  | mv_leave : move Holding leave_active Leaving
  | mv_release : move Leaving sem_release Outside.

Abbreviation sys := (state * list phase)%type.

(** Thread [i] runs its next critical section. *)
Inductive step : sys -> sys -> Prop :=
  | step_move s s' ts i p p' m :
      ts !! i = Some p -> move p m p' -> m s = (Ok tt, s') -> step (s, ts) (s', <[i := p']> ts)
  | step_raise s s' ts i blocking timeout e :
      ts !! i = Some Queued -> sem_acquire blocking timeout s = (Raise e, s') ->
      step (s, ts) (s', <[i := Raised]> ts).

Definition is_queued (p : phase) : bool := match p with Queued | Answered _ => true | _ => false end.
Definition is_raised (p : phase) : bool := match p with Raised => true | _ => false end.
Definition is_active (p : phase) : bool := match p with Holding => true | _ => false end.
Definition has_slot (p : phase) : bool :=
  match p with Answered true | Holding | Leaving => true | _ => false end.

(** What the counters mean *)
Record pool_ok (n : Z) (y : sys) : Prop := {
  ok_max : max_instances y.1 = n;
  ok_sem : semaphore y.1 = n - count_if has_slot y.2;
  ok_sem_nonneg : 0 <= semaphore y.1;
  ok_active : active y.1 = count_if is_active y.2;
  ok_queued : queued y.1 = count_if is_queued y.2 + count_if is_raised y.2;
}.

(** What a thread finds out at the semaphore *)
Lemma answered blocking tm b s s' :
  (let! r := sem_acquire blocking tm in
   match r with
   | Done b' => if Bool.eqb b b' then ret tt else throw (Exc "AssertionError" "")
   | Waiting => throw (Exc "Blocked" "")
   end) s = (Ok tt, s') ->
  (b = true /\ 0 < semaphore s /\
     s' = mkPool (max_instances s) (semaphore s - 1) (active s) (total_processed s) (queued s)) \/
  (b = false /\ s' = s).
Proof.
  unfold bind, sem_acquire. destruct (negb blocking && _); [done|].
  destruct (decide (0 < semaphore s)) as [Hs|_]; [|destruct (blocking && _); [done|]];
    destruct b; cbn; intros [= <-]; auto.
Qed.

Lemma pool_ok_step n y y' : step y y' -> pool_ok n y -> pool_ok n y'.
Proof.
  intros [s s' ts i p p' m Hi Hm Hr|s s' ts i blocking tm e Hi Hr] [Hmax Hsem Hpos Hact Hq]; cbn in *.
  2: { assert (s' = s) as ->.
       { unfold sem_acquire in Hr. by repeat (case_match || case_decide); simplify_eq. }
       split; cbn; rewrite ?(count_if_insert _ ts i _ _ Hi); cbn; lia. }
  destruct Hm as [|blocking tm b| | | |];
    try (injection Hr as <-; split; cbn; rewrite ?(count_if_insert _ ts i _ _ Hi); cbn; lia).
  apply answered in Hr as [(-> & Hs & ->)|[-> ->]];
    split; cbn; rewrite ?(count_if_insert _ ts i _ _ Hi); cbn; lia.
Qed.

Definition start (n : Z) (threads : nat) : sys := (mkPool n n 0 0 0, replicate threads Outside).

Lemma start_ok n threads : 1 <= n -> pool_ok n (start n threads).
Proof.
  intros Hn. assert (forall P, P Outside = false -> count_if P (replicate threads Outside) = 0) as Hc.
  { intros P HP. apply count_if_zero. intros p Hp%elem_of_replicate. destruct Hp as [-> _]. done. }
  split; cbn; rewrite ?Hc; done || lia.
Qed.

(** C38 Mutual exclusion up to [max_instances], and no slot is ever lost: whatever
    threads call [acquire] (blocking, with a timeout or not) and [release], and
    however their critical sections interleave, at most [max_instances] threads
    are past the semaphore, the reported [active] is the number of threads that
    hold a slot, the semaphore has exactly the slots nobody has, and once all
    threads are outside the pool is as it began.  The reported [queued] is the
    number of threads that wait for a slot and of those whose [acquire] raised,
    which nobody ever takes off again: a call that neither blocks nor can wait,
    [acquire(blocking=False, timeout=t)], is counted as queued for good. *)
Theorem pool_bounds n threads y :
  1 <= n -> rtc step (start n threads) y ->
  count_if has_slot y.2 <= n /\
  active y.1 = count_if is_active y.2 /\ 0 <= available y.1 /\
  queued y.1 = count_if is_queued y.2 + count_if is_raised y.2 /\
  semaphore y.1 = n - count_if has_slot y.2 /\
  ((forall p, p ∈ y.2 -> p = Outside) -> semaphore y.1 = n /\ active y.1 = 0 /\ queued y.1 = 0).
Proof.
  intros Hn Hs. assert (pool_ok n y) as [Hmax Hsem Hpos Hact Hq].
  { pose proof (start_ok n threads Hn) as H0. induction Hs as [|y1 y2 y3 H12 _ IH]; [done|].
    by apply IH, (pool_ok_step n y1). }
  pose proof (count_if_le is_active has_slot y.2 ltac:(by intros [])) as Hle.
  unfold available. split_and!; try lia.
  intros Hout. rewrite Hsem, Hact, Hq, !count_if_zero by (by intros p ->%Hout). lia.
Qed.

(** ** One caller *)

(** A slot goes back: [with pool.slot() as ok: body] leaves the semaphore and
    the numbers of active and queued callers as they were, whether the slot was
    obtained or not and whatever the body does, exceptions included (for a body
    that leaves the pool alone itself). *)
Theorem slot_given_back {A} blocking timeout (body : bool -> M state A) s :
  (forall b s, (body b s).2 = s) ->
  negb blocking && bool_decide (timeout <> None) = false ->
  (0 < semaphore s \/ ~ (blocking = true /\ timeout = None)) ->
  let s' := (with_slot blocking timeout body s).2 in
  semaphore s' = semaphore s /\ active s' = active s /\ queued s' = queued s /\
  max_instances s' = max_instances s.
Proof.
  intros Hb Hv Hw. cbv zeta.
  unfold with_slot, acquire, sem_acquire, release, bind, try_finally, enter_queue, leave_queue, modify, ret.
  rewrite Hv. cbn. destruct (decide (0 < semaphore s)) as [Hs|Hs].
  - cbn. set (s1 := mkPool _ _ _ _ _). specialize (Hb true s1).
    destruct (body true s1) as [r s2]. cbn in Hb. subst s2. destruct r; cbn; lia.
  - destruct (blocking && bool_decide (timeout = None)) eqn:Hbt.
    { apply andb_true_iff in Hbt as [-> Ht%bool_decide_eq_true]. naive_solver lia. }
    cbn. set (s1 := mkPool _ _ _ _ _). specialize (Hb false s1).
    destruct (body false s1) as [r s2]. cbn in Hb. subst s2. destruct r; cbn; lia.
Qed.

(** A non-blocking [acquire] with a timeout raises and leaves its caller counted
    as queued for good. *)
Lemma acquire_nonblocking_timeout t s :
  (acquire false (Some t) s).1 = Raise (Exc "ValueError" "can't specify timeout for non-blocking acquire") /\
  queued (acquire false (Some t) s).2 = queued s + 1.
Proof. done. Qed.
End TaskPool.

Lemma pool_bounds_witness :
  exists y, rtc TaskPool.step (TaskPool.start 1 3) y /\ count_if TaskPool.has_slot y.2 <= 1 /\
    y.2 = [TaskPool.Holding; TaskPool.Queued; TaskPool.Raised] /\ TaskPool.queued y.1 = 2.
Proof.
  assert (exists y, rtc TaskPool.step (TaskPool.start 1 3) y /\ y.2 = [TaskPool.Holding; TaskPool.Queued; TaskPool.Raised])
    as (y & Hs & Hy).
  { eexists. split; [|shelve].
    eapply rtc_l; [eapply (TaskPool.step_move _ _ _ 0); [reflexivity|apply TaskPool.mv_enter|reflexivity]|].
    eapply rtc_l; [eapply (TaskPool.step_move _ _ _ 1); [reflexivity|apply TaskPool.mv_enter|reflexivity]|].
    eapply rtc_l; [eapply (TaskPool.step_move _ _ _ 0);
      [reflexivity|apply (TaskPool.mv_acquire true None true)|reflexivity]|].
    eapply rtc_l; [eapply (TaskPool.step_move _ _ _ 0); [reflexivity|apply TaskPool.mv_hold|reflexivity]|].
    eapply rtc_l; [eapply (TaskPool.step_move _ _ _ 2); [reflexivity|apply TaskPool.mv_enter|reflexivity]|].
    eapply rtc_l; [eapply (TaskPool.step_raise _ _ _ 2 false (Some 1)); reflexivity|].
    apply rtc_refl.
    Unshelve. reflexivity. }
  destruct (TaskPool.pool_bounds 1 3 y ltac:(lia) Hs) as (Hle & _ & _ & Hq & _).
  exists y. split; [exact Hs|]. split; [exact Hle|]. split; [exact Hy|]. rewrite Hq, Hy. reflexivity.
Defined.

Lemma slot_given_back_witness :
  let s := TaskPool.mkPool 2 1 1 0 0 in
  TaskPool.semaphore (TaskPool.with_slot true None (fun _ => throw (A := unit) (Exc "E" "")) s).2 = 1.
Proof.
  apply (TaskPool.slot_given_back true None (fun _ => throw (A := unit) (Exc "E" "")) (TaskPool.mkPool 2 1 1 0 0));
    [done|reflexivity|left; reflexivity].
Defined.
