(* ===== verification/Executor.v ===== *)
(** * [eventforge/executor.py]: [Executor]

    The executor's tables live in the heap's [h_tr]; a submitted function is a
    statement over the whole heap.  A [Future] is a cell, named by its task, that
    a worker fills ([work]); the done-callback [_on_complete] then moves the result
    into the results table.  A worker process runs on a copy of the heap, of which
    only the outcome comes back. *)
From S2P Require Import Prelude PyDict Types Transport Queue.

Inductive ExecutionMode : Type := SEQUENTIAL | THREAD | PROCESS.

#[global] Instance ExecutionMode_eq_dec : EqDecision ExecutionMode.
Proof. solve_decision. Defined.

Module Executor.

(** The dict that [_run_with_timing] returns; [d_error_type] is absent on success. *)
Record timing_dict : Type := mkDict {
  d_task_id : string; d_status : string; d_value : val; d_error : option string;
  d_error_type : option string; d_execution_time : Z; d_worker_id : string;
}.

Inductive raw : Type := RTask (r : TaskResult) | RDict (d : timing_dict).

(** What crosses to a worker process and back: a call, and the value in the dict
    that answers it *)
Inductive pickled (F : Type) : Type := TheCall (f : F) (a : pyargs) | TheAnswer (v : val).
Arguments TheCall {F} f a.
Arguments TheAnswer {F} v.

Inductive future (F : Type) : Type :=
  | Pending (f : F) (a : pyargs)
  | Finished (r : result raw).
Arguments Pending {F} f a.
Arguments Finished {F} r.

Record state (F : Type) : Type := mkEx {
  mode : ExecutionMode;
  results : list (string * TaskResult);
  futures : list string;                      (** the keys of [_futures] *)
  cells : list (string * future F);           (** the [Future] objects *)
  pool : bool;                                (** [_pool] is not [None] *)
  running : bool;
}.
Arguments mkEx {F} _ _ _ _ _ _.
Arguments mode {F} _.
Arguments results {F} _.
Arguments futures {F} _.
Arguments cells {F} _.
Arguments pool {F} _.
Arguments running {F} _.

Section ops.
Context {F R : Type}.
Abbreviation world := (heap (state F) R).
Variable call : F -> pyargs -> M world val.
Variable clock : world -> Z.
(** Names of threads and processes *)
Variables thread_name process_name : world -> string.
(** What pickling raises *)
Variable pickle : pickled F -> option exn.

Definition init (m : ExecutionMode) : state F := mkEx m [] [] [] false false.

Definition start : M world unit := upd_tr (fun s =>
  if running s then s
  else mkEx (mode s) (results s) (futures s) (cells s)
            (match mode s with SEQUENTIAL => pool s | _ => true end) true).

Definition stop : M world unit := upd_tr (fun s =>
  if running s then mkEx (mode s) (results s) (futures s) (cells s) false false else s).

Definition failed (tid : string) (e : exn) (t : Z) (w : string) : TaskResult :=
  mkTaskResult tid FAILED VNone (Some (exn_str e)) (Some (exn_type e)) t w.

Definition execute_sync (tid : string) (f : F) (a : pyargs) : M world TaskResult :=
  let! t0 := gets clock in
  let! w := gets thread_name in
  try_except
    (let! v := call f a in
     let! t1 := gets clock in
     ret (mkTaskResult tid COMPLETED v None None (t1 - t0) ("thread-" +:+ w)))
    (fun e => let! t1 := gets clock in ret (failed tid e (t1 - t0) ("thread-" +:+ w))).

Definition run_with_timing (tid : string) (f : F) (a : pyargs) : M world timing_dict :=
  let! t0 := gets clock in
  let! w := gets process_name in
  try_except
    (let! v := call f a in
     let! t1 := gets clock in
     ret (mkDict tid "completed" v None None (t1 - t0) ("process-" +:+ w)))
    (fun e => let! t1 := gets clock in
       ret (mkDict tid "failed" VNone (Some (exn_str e)) (Some (exn_type e)) (t1 - t0) ("process-" +:+ w))).

(** [TaskResult(task_id=raw["task_id"], status=TaskStatus(raw["status"]), ...)] *)
Definition of_raw (r : raw) : result TaskResult :=
  match r with
  | RTask t => Ok t
  | RDict d =>
      match status_of (d_status d) with
      | Ok s => Ok (mkTaskResult (d_task_id d) s (d_value d) (d_error d) (d_error_type d)
                      (d_execution_time d) (d_worker_id d))
      | Raise e => Raise e
      end
  end.

Definition store_result (tid : string) (r : TaskResult) : M world unit := upd_tr (fun s =>
  mkEx (mode s) (dset (results s) tid r) (futures s) (cells s) (pool s) (running s)).

Definition set_cell (tid : string) (c : future F) : M world unit := upd_tr (fun s =>
  mkEx (mode s) (results s) (futures s) (dset (cells s) tid c) (pool s) (running s)).

(** [submit]; the done-callback is attached to the cell *)
Definition submit (f : F) (a : pyargs) : M world string :=
  let! tid := new_uuid in
  let! s := get_tr in
  match mode s with
  | SEQUENTIAL =>
      let! r := execute_sync tid f a in
      store_result tid r ;;;
      ret tid
  | _ =>
      start ;;;
      set_cell tid (Pending f a) ;;;
      upd_tr (fun s => mkEx (mode s) (results s) (futures s ++ [tid]) (cells s) (pool s) (running s)) ;;;
      ret tid
  end.

(** A worker process: the statement runs on a copy of the heap. *)
Definition in_child {A} (m : M world A) : M world A := fun h => ((m h).1, h).

(** What the future is finished with, whatever the body raises *)
Definition outcome {A} (m : M world A) : M world (result A) := fun h => (Ok (m h).1, (m h).2).

Definition lift_raw {A} (c : A -> raw) (r : result A) : result raw :=
  match r with Ok a => Ok (c a) | Raise e => Raise e end.

Definition run_job (m : ExecutionMode) (tid : string) (f : F) (a : pyargs) : M world (result raw) :=
  match m with
  | PROCESS =>
      match pickle (TheCall f a) with
      | Some e => ret (Raise e)
      | None =>
          let! r := outcome (in_child (run_with_timing tid f a)) in
          ret (match r with
               | Ok d => match pickle (TheAnswer (d_value d)) with
                         | Some e => Raise e
                         | None => Ok (RDict d)
                         end
               | Raise e => Raise e
               end)
      end
  | _ => let! r := outcome (execute_sync tid f a) in ret (lift_raw RTask r)
  end.

(** [_on_complete], on a finished future *)
Definition completed (tid : string) (r : result raw) : result TaskResult :=
  match (match r with Ok raw => of_raw raw | Raise e => Raise e end) with
  | Ok t => Ok t
  | Raise e => if is_Exception e then Ok (mkTaskResult tid FAILED VNone (Some (exn_str e)) (Some (exn_type e)) 0 "")
               else Raise e
  end.

Definition on_complete (tid : string) (r : result raw) : M world unit :=
  let! t := lift (completed tid r) in
  upd_tr (fun s => mkEx (mode s) (dset (results s) tid t) (filter (fun i => i <> tid) (futures s))
                        (cells s) (pool s) (running s)).

(** A worker takes a pending job, runs it, finishes its future and calls back. *)
Definition work (tid : string) : M world unit :=
  let! s := get_tr in
  match dget (cells s) tid with
  | Some (Pending f a) =>
      let! r := run_job (mode s) tid f a in
      set_cell tid (Finished r) ;;;
      on_complete tid r
  | _ => ret tt
  end.

Definition timed_out (tid what : string) : exn := Exc "TimeoutError" ("Task " +:+ tid +:+ what).

(** [future.result()] inside [result], with its [except] clauses *)
Definition future_result (tid : string) (r : result raw) : result TaskResult :=
  match (match r with Ok raw => of_raw raw | Raise e => Raise e end) with
  | Ok t => Ok t
  | Raise e =>
      if bool_decide (exn_type e = "TimeoutError") then Raise (timed_out tid " timed out")
      else completed tid (Raise e)
  end.

Definition passed (deadline : option Z) (now : Z) : bool :=
  match deadline with Some d => bool_decide (d <= now) | None => false end.

(** One pass of the loop of [result]; [Waiting] when it blocks or sleeps. *)
Definition result_pass (tid : string) (deadline : option Z) : M world (wait TaskResult) :=
  let! s := get_tr in
  let! now := gets clock in
  match dget (results s) tid with
  | Some r => ret (Done r)
  | None =>
      if bool_decide (tid ∈ futures s) then
        if passed deadline now then throw (timed_out tid " timed out")
        else match dget (cells s) tid with
             | Some (Finished r) => let! t := lift (future_result tid r) in ret (Done t)
             | _ => ret Waiting
             end
      else if passed deadline now then throw (timed_out tid " not found")
      else ret Waiting
  end.

(** [time.time() + timeout if timeout else None]: a timeout of 0 is none *)
Definition result (tid : string) (timeout : option Z) : M world (wait TaskResult) :=
  let! now := gets clock in
  result_pass tid (match timeout with
                   | Some t => if decide (t = 0) then None else Some (now + t)
                   | None => None
                   end).

Fixpoint submit_all (f : F) (items : list val) : M world (list string) :=
  match items with
  | [] => ret []
  | x :: rest =>
      let! t := submit f (mkArgs [x] []) in
      let! ts := submit_all f rest in
      ret (t :: ts)
  end.

Fixpoint result_all (tids : list string) (timeout : option Z) : M world (wait (list TaskResult)) :=
  match tids with
  | [] => ret (Done [])
  | t :: rest =>
      let! r := result t timeout in
      match r with
      | Done r =>
          let! rs := result_all rest timeout in
          match rs with Done rs => ret (Done (r :: rs)) | Waiting => ret Waiting end
      | Waiting => ret Waiting
      end
  end.

Definition map_ (f : F) (items : list val) (timeout : option Z) : M world (wait (list TaskResult)) :=
  let! tids := submit_all f items in
  result_all tids timeout.

(** The asynchronous variants run the same methods in threads of the loop's
    executor, one after the other. *)
Definition submit_async (f : F) (a : pyargs) : M world string := submit f a.
Definition result_async (tid : string) (timeout : option Z) : M world (wait TaskResult) := result tid timeout.
Definition map_async (f : F) (items : list val) (timeout : option Z) : M world (wait (list TaskResult)) :=
  let! tids := submit_all f items in
  result_all tids timeout.

(** [with executor: body] *)
Definition with_executor {A} (body : M world A) : M world A := start ;;; try_finally body stop.

(** * Facts *)

(** How a task that ends with [r] is reported *)
Definition reported (tid : string) (r : Prelude.result val) (t : TaskResult) : Prop :=
  task_id t = tid /\
  match r with
  | Ok v => status t = COMPLETED /\ value t = v /\ error t = None /\ error_type t = None
  | Raise e => status t = FAILED /\ value t = VNone /\ error t = Some (exn_str e) /\
      error_type t = Some (exn_type e)
  end.

Definition tame_result (r : Prelude.result val) : Prop :=
  match r with Ok _ => True | Raise e => is_Exception e = true end.

Lemma execute_sync_spec tid f a h :
  tame_result (call f a h).1 ->
  exists t, execute_sync tid f a h = (Ok t, (call f a h).2) /\ reported tid (call f a h).1 t.
Proof.
  intros Ht. unfold execute_sync, bind, gets, try_except, ret.
  destruct (call f a h) as [[v|e] h']; cbn in *; [|rewrite Ht]; eexists; split; done.
Qed.

Lemma run_with_timing_spec tid f a h :
  tame_result (call f a h).1 ->
  exists d t, run_with_timing tid f a h = (Ok d, (call f a h).2) /\
    d_value d = (match (call f a h).1 with Ok v => v | Raise _ => VNone end) /\
    of_raw (RDict d) = Ok t /\ reported tid (call f a h).1 t.
Proof.
  intros Ht. unfold run_with_timing, bind, gets, try_except, ret.
  destruct (call f a h) as [[v|e] h']; cbn in *; [|rewrite Ht]; do 2 eexists; split_and!; done.
Qed.

(** An outcome as it reaches the caller: a worker process can only answer with a
    value that pickles. *)
Definition crossed (m : ExecutionMode) (r : Prelude.result val) : Prelude.result val :=
  match m, r with
  | PROCESS, Ok v => match pickle (TheAnswer v) with Some e => Raise e | None => Ok v end
  | _, _ => r
  end.

(** The answer of a function that failed, which holds [None], can be pickled;
    pickling raises no more than [Exception]s. *)
Definition pickle_ok : Prop :=
  pickle (TheAnswer VNone) = None /\ forall x e, pickle x = Some e -> is_Exception e = true.

(** A call that reaches its worker *)
Definition crosses (m : ExecutionMode) (f : F) (a : pyargs) : Prop :=
  m = PROCESS -> pickle (TheCall f a) = None /\ pickle_ok.

(** A job that raises at most [Exception]s: how it is reported *)
Lemma run_job_spec m tid f a h :
  tame_result (call f a h).1 -> crosses m f a ->
  exists r t, run_job m tid f a h = (Ok r, if decide (m = PROCESS) then h else (call f a h).2) /\
    completed tid r = Ok t /\ reported tid (crossed m (call f a h).1) t.
Proof.
  intros Ht Hcr. unfold run_job, outcome, in_child, bind, completed.
  destruct (execute_sync_spec tid f a h Ht) as (t & He & Hr).
  destruct (run_with_timing_spec tid f a h Ht) as (d & t' & Hd & Hv & Ho & Hr').
  destruct m.
  - exists (Ok (RTask t)), t. by rewrite He.
  - exists (Ok (RTask t)), t. by rewrite He.
  - destruct (Hcr eq_refl) as (Hp & Hnone & Hexn). rewrite Hp, Hd. cbn [fst snd ret]. rewrite Hv. destruct (call f a h).1 as [v|e]; cbn.
    + destruct (pickle (TheAnswer v)) as [e|] eqn:Hpv; do 2 eexists; (split; [done|]); cbn beta iota.
      * by rewrite (Hexn _ _ Hpv).
      * by rewrite Ho.
    + rewrite Hnone. do 2 eexists. split; [done|]. cbn beta iota. by rewrite Ho.
Qed.

(** After the [with] block the pool is gone, however it ends. *)
Lemma with_executor_stops {A} (body : M world A) h :
  running (h_tr (with_executor body h).2) = false.
Proof.
  unfold with_executor. rewrite (bind_run _ _ h tt (start h).2) by done. unfold try_finally.
  destruct (body (start h).2) as [r h1]. unfold stop, upd_tr, modify. cbn. by destruct (running (h_tr h1)) eqn:Hr.
Qed.

(** Reading a result that is there *)
Lemma result_stored tid tm h t :
  dget (results (h_tr h)) tid = Some t -> result tid tm h = (Ok (Done t), h).
Proof. intros Hr. unfold result, result_pass, get_tr, gets, bind. by rewrite Hr. Qed.

(** A job given to a pool: the heap in which its worker starts *)
Definition job_heap (f : F) (a : pyargs) (h : world) : world :=
  let s := h_tr h in let tid := uuid4 (h_uuid h) in
  mkHeap (S (h_uuid h))
    (mkEx (mode s) (results s) (futures s ++ [tid]) (dset (cells s) tid (Pending f a))
          (if running s then pool s else true) true) (h_rest h).

Lemma submit_pooled f a h :
  mode (h_tr h) <> SEQUENTIAL -> submit f a h = (Ok (uuid4 (h_uuid h)), job_heap f a h).
Proof.
  intros Hm. destruct h as [n [m rs fs cs po ru] r]. cbn in Hm.
  unfold submit, new_uuid, get_tr, gets, bind. cbn.
  destruct m; [by destruct Hm|by destruct ru..].
Qed.

(** Submitted, run by a worker, and asked for *)
Lemma pooled_result f a tm h :
  mode (h_tr h) <> SEQUENTIAL -> crosses (mode (h_tr h)) f a ->
  tame_result (call f a (job_heap f a h)).1 -> h_tr (call f a (job_heap f a h)).2 = h_tr (job_heap f a h) ->
  exists h2 t, work (uuid4 (h_uuid h)) (job_heap f a h) = (Ok tt, h2) /\
    result (uuid4 (h_uuid h)) tm h2 = (Ok (Done t), h2) /\
    reported (uuid4 (h_uuid h)) (crossed (mode (h_tr h)) (call f a (job_heap f a h)).1) t /\
    h_rest h2 = if decide (mode (h_tr h) = PROCESS) then h_rest h
                else h_rest (call f a (job_heap f a h)).2.
Proof.
  intros Hm Hp Ht Hown. set (tid := uuid4 (h_uuid h)). set (h1 := job_heap f a h) in *.
  destruct (run_job_spec (mode (h_tr h)) tid f a h1 Ht Hp) as (r & t & Hj & Ho & Hr).
  set (hw := if decide (mode (h_tr h) = PROCESS) then h1 else (call f a h1).2) in *.
  exists (set_tr (mkEx (mode (h_tr hw)) (dset (results (h_tr hw)) tid t)
      (filter (fun i => i <> tid) (futures (h_tr hw)))
      (dset (cells (h_tr hw)) tid (Finished r)) (pool (h_tr hw)) (running (h_tr hw))) hw), t.
  split; [|split; [|split; [done|]]].
  - unfold work, get_tr, gets, bind at 1.
    change (cells (h_tr h1)) with (dset (cells (h_tr h)) tid (Pending f a)). rewrite dget_dset_eq.
    change (mode (h_tr h1)) with (mode (h_tr h)). unfold bind at 1. rewrite Hj.
    unfold on_complete. by rewrite Ho.
  - apply result_stored. cbn. apply dget_dset_eq.
  - cbn. unfold hw. by destruct (decide (mode (h_tr h) = PROCESS)).
Qed.

(** The statement that runs the task to its end: nothing more in SEQUENTIAL mode *)
Definition finish (m : ExecutionMode) (tid : string) : M world unit :=
  match m with SEQUENTIAL => ret tt | _ => work tid end.

(** C36 All three modes report a task alike: once it has run, [result] of the id
    that [submit] returned is COMPLETED with the value the function returned, or
    FAILED with the text and the type of the exception it raised (or, where the
    value it returned cannot be pickled in a worker process, of the exception
    that the pickling raised); a worker process leaves the caller's memory as it
    was, and asking again gives the same again. *)
Theorem result_is_outcome m f a tm h :
  mode (h_tr h) = m -> crosses m f a ->
  (forall h, tame_result (call f a h).1) ->
  (forall h, h_tr (call f a h).2 = h_tr h) ->
  exists tid h1 h2 t hb,
    submit f a h = (Ok tid, h1) /\ finish m tid h1 = (Ok tt, h2) /\
    result tid tm h2 = (Ok (Done t), h2) /\ reported tid (crossed m (call f a hb).1) t /\
    h_rest hb = h_rest h /\
    h_rest h2 = (if decide (m = PROCESS) then h_rest h else h_rest (call f a hb).2).
Proof.
  intros Hm Hp Ht Hown. destruct (decide (m = SEQUENTIAL)) as [->|Hseq].
  - set (tid := uuid4 (h_uuid h)). set (h0 := mkHeap (S (h_uuid h)) (h_tr h) (h_rest h)).
    destruct (execute_sync_spec tid f a h0 (Ht h0)) as (t & He & Hr).
    unfold submit, new_uuid, get_tr, gets, bind at 1 2. fold tid. fold h0.
    change (mode (h_tr h0)) with (mode (h_tr h)). rewrite Hm. unfold bind. rewrite He.
    exists tid. do 2 eexists. exists t, h0. split; [done|]. split; [done|].
    split; [apply result_stored; cbn; apply dget_dset_eq|done].
  - assert (mode (h_tr h) <> SEQUENTIAL) as Hseq' by congruence.
    rewrite <- Hm in Hp. destruct (pooled_result f a tm h Hseq' Hp (Ht _) (Hown _)) as (h2 & t & Hw & Hres & Hr & Hrest).
    exists (uuid4 (h_uuid h)), (job_heap f a h), h2, t, (job_heap f a h).
    rewrite submit_pooled by done. rewrite Hm in Hr, Hrest.
    split_and!; try done. by destruct m.
Qed.

(** It does not matter when [result] looks: reading a finished future gives
    exactly the [TaskResult] that [_on_complete] files for later calls (unless the
    future failed with a [TimeoutError] of its own, which [result] reports as its
    own timeout). *)
Theorem future_and_table_agree tid (r : Prelude.result raw) :
  (forall e, r = Raise e -> exn_type e <> "TimeoutError") ->
  future_result tid r = completed tid r.
Proof.
  intros Hne. unfold future_result, completed. destruct r as [[t|d]|e]; [done| |].
  - cbn. unfold status_of. by repeat case_decide.
  - specialize (Hne e eq_refl). cbn. by rewrite bool_decide_eq_false_2.
Qed.
End ops.
(** What the functions keep and the executor's own tables do not touch, every
    operation keeps. *)
Section keeps.
Context {F R : Type}.
Abbreviation world := (heap (state F) R).
Variable call : F -> pyargs -> M world val.
Variable clock : world -> Z.
Variables thread_name process_name : world -> string.
Variable pickle : pickled F -> option exn.
Variable I : world -> Prop.
Hypothesis I_own : forall n t h, I h -> I (mkHeap n t (h_rest h)).

Lemma keeps_new_id : keeps I new_uuid.
Proof. intros h Hi. by apply (I_own _ (h_tr h)). Qed.

Lemma keeps_upd_tr f : keeps I (upd_tr f).
Proof. intros h Hi. by apply (I_own (h_uuid h)). Qed.
Hint Resolve keeps_new_id keeps_upd_tr : py.
Hint Extern 1 (keeps _ get_tr) => apply keeps_gets : py.
Hint Extern 1 (keeps _ start) => apply keeps_upd_tr : py.
Hint Extern 1 (keeps _ (store_result _ _)) => apply keeps_upd_tr : py.
Hint Extern 1 (keeps _ (set_cell _ _)) => apply keeps_upd_tr : py.

Lemma keeps_execute_sync tid f a : keeps I (call f a) -> keeps I (execute_sync call clock thread_name tid f a).
Proof. intros Hc. unfold execute_sync. eauto 8 with py. Qed.

Lemma keeps_submit f a : keeps I (call f a) -> keeps I (submit call clock thread_name f a).
Proof.
  intros Hc. unfold submit. pose proof (fun tid => keeps_execute_sync tid f a Hc). eauto 20 with py.
Qed.

Lemma keeps_outcome {A} (m : M world A) : keeps I m -> keeps I (outcome m).
Proof. intros Hm h Hi. by apply Hm. Qed.

Lemma keeps_in_child {A} (m : M world A) : keeps I (in_child m).
Proof. by intros h. Qed.
Hint Resolve keeps_outcome keeps_in_child : py.

Lemma keeps_work tid :
  (forall f a, keeps I (call f a)) -> keeps I (work call clock thread_name process_name pickle tid).
Proof.
  intros Hc. unfold work, run_job, on_complete. pose proof (fun tid f a => keeps_execute_sync tid f a (Hc f a)).
  eauto 25 with py.
Qed.

Lemma keeps_result tid timeout : keeps I (result clock tid timeout).
Proof. unfold result, result_pass. eauto 25 with py. Qed.
End keeps.

(** ** What the tables hold *)
Section typed.
Context {F R : Type}.
Abbreviation world := (heap (state F) R).
Variable call : F -> pyargs -> M world val.
Variable clock : world -> Z.
Variables thread_name process_name : world -> string.
Variable pickle : pickled F -> option exn.

(** A [TaskResult] filed under [tid]: a value and no error, or an error with its
    type and no value; never PENDING or RUNNING *)
Definition well_formed (tid : string) (t : TaskResult) : Prop :=
  task_id t = tid /\
  (status t = COMPLETED /\ error t = None /\ error_type t = None \/
   status t = FAILED /\ value t = VNone /\ is_Some (error t) /\ is_Some (error_type t)).

Lemma reported_ok tid r t : reported tid r t -> well_formed tid t.
Proof. intros [Hid Hr]. split; [done|]. destruct r; naive_solver. Qed.

Definition raw_ok (tid : string) (r : raw) : Prop := exists t, of_raw r = Ok t /\ well_formed tid t.

Record typed (s : state F) : Prop := {
  typed_results : forall tid t, dget (results s) tid = Some t -> well_formed tid t;
  typed_cells : forall tid r, dget (cells s) tid = Some (Finished (Ok r)) -> raw_ok tid r;
  typed_futures : forall tid, tid ∈ futures s -> is_Some (dget (cells s) tid);
}.
Definition tables (h : world) : Prop := typed (h_tr h).

Lemma tables_init m : typed (init m).
Proof. by split; intros tid; [..|intros ?%not_elem_of_nil]. Qed.

Lemma failed_ok tid e t w : well_formed tid (failed tid e t w).
Proof. split; [done|right]. split_and!; by try eexists. Qed.

Lemma completed_ok tid (r : Prelude.result raw) t :
  (forall x, r = Ok x -> raw_ok tid x) -> completed tid r = Ok t -> well_formed tid t.
Proof.
  intros Hr. unfold completed. destruct r as [x|e].
  - destruct (Hr x eq_refl) as (t' & -> & Hw). by intros [= <-].
  - destruct (is_Exception e); [|done]. intros [= <-]. split; [done|right]. split_and!; by try eexists.
Qed.

Lemma future_result_ok tid (r : Prelude.result raw) t :
  (forall x, r = Ok x -> raw_ok tid x) -> future_result tid r = Ok t -> well_formed tid t.
Proof.
  intros Hr. unfold future_result. destruct r as [x|e].
  - destruct (Hr x eq_refl) as (t' & -> & Hw). by intros [= <-].
  - destruct (bool_decide _); [done|]. by apply completed_ok.
Qed.

(** *** Statements that keep the tables *)
Lemma keeps_tables_upd f : (forall s, typed s -> typed (f s)) -> keeps tables (upd_tr f).
Proof. intros Hf h. apply Hf. Qed.

Lemma tables_uuid : keeps tables new_uuid.
Proof. by intros h. Qed.

Lemma tables_start : keeps tables start.
Proof. apply keeps_tables_upd. intros s Hs. destruct (running s); [done|]. by destruct Hs. Qed.

Lemma tables_stop : keeps tables stop.
Proof. apply keeps_tables_upd. intros s Hs. destruct (running s); [|done]. by destruct Hs. Qed.

Lemma tables_store tid t : well_formed tid t -> keeps tables (store_result tid t).
Proof.
  intros Ht. apply keeps_tables_upd. intros s [Hr Hc Hf]. split; cbn; try done. intros tid' t'.
  rewrite dget_dset. case_decide; [subst; by intros [= <-]|apply Hr].
Qed.

Lemma tables_cell tid c : (forall x, c = Finished (Ok x) -> raw_ok tid x) -> keeps tables (set_cell tid c).
Proof.
  intros Hc. apply keeps_tables_upd. intros s [Hr Hs Hf]. split; cbn; [done| |]; intros tid'; rewrite dget_dset.
  - intros x. case_decide; [subst; intros [= ->]; by apply Hc|apply Hs].
  - intros Hin. case_decide; [done|by apply Hf].
Qed.

Lemma tables_register tid h : tables h -> is_Some (dget (cells (h_tr h)) tid) ->
  tables (upd_tr (fun s => mkEx (mode s) (results s) (futures s ++ [tid]) (cells s) (pool s) (running s)) h).2.
Proof.
  intros [Hr Hc Hf] Hs. split; cbn; try done. intros tid' [Hin| ->%list_elem_of_singleton]%elem_of_app; [by apply Hf|done].
Qed.

Lemma tables_on_complete tid r : (forall x, r = Ok x -> raw_ok tid x) -> keeps tables (on_complete tid r).
Proof.
  intros Hr. unfold on_complete, lift. destruct (completed tid r) as [t|e] eqn:Hc; [|by intros h].
  change (keeps tables (upd_tr (fun s : state F => mkEx (mode s) (dset (results s) tid t)
    (filter (fun i => i <> tid) (futures s)) (cells s) (pool s) (running s)))).
  apply keeps_tables_upd. intros s [Hrs Hcs Hfs]. split; cbn; [|done|].
  - intros tid' t'. rewrite dget_dset. case_decide; [|apply Hrs]. subst. intros [= <-]. by eapply completed_ok.
  - intros tid' [_ Hin]%list_elem_of_filter. by apply Hfs.
Qed.
#[local] Hint Resolve tables_uuid tables_start tables_stop : py.
#[local] Hint Extern 1 (keeps _ get_tr) => apply keeps_gets : py.

(** *** The operations *)
Hypothesis call_keeps : forall f a, keeps tables (call f a).

Lemma tables_execute_sync tid f a :
  keeps tables (execute_sync call clock thread_name tid f a) /\
  gives tables (execute_sync call clock thread_name tid f a) (well_formed tid).
Proof.
  split; [unfold execute_sync; eauto 8 with py|]. intros h t _. unfold execute_sync, bind, gets, try_except, ret.
  destruct (call f a h) as [[v|e] h']; [|destruct (is_Exception e); [|done]]; intros [= <-]; [|apply failed_ok].
  split; [done|by left].
Qed.

Lemma run_with_timing_ok tid f a h d :
  (run_with_timing call clock process_name tid f a h).1 = Ok d -> raw_ok tid (RDict d).
Proof.
  unfold run_with_timing, bind, gets, try_except, ret.
  destruct (call f a h) as [[v|e] h']; [|destruct (is_Exception e); [|done]]; intros [= <-]; eexists; (split; [done|]).
  - split; [done|by left].
  - split; [done|right]. split_and!; by try eexists.
Qed.

Lemma tables_run_job m tid f a :
  keeps tables (run_job call clock thread_name process_name pickle m tid f a) /\
  gives tables (run_job call clock thread_name process_name pickle m tid f a)
    (fun r => forall x, r = Ok x -> raw_ok tid x).
Proof.
  destruct (tables_execute_sync tid f a) as [Hk Hg].
  assert (keeps tables (let! r := outcome (execute_sync call clock thread_name tid f a) in ret (lift_raw RTask r)) /\
    gives tables (let! r := outcome (execute_sync call clock thread_name tid f a) in ret (lift_raw RTask r))
      (fun r => forall x, r = Ok x -> raw_ok tid x)) as Hsync.
  { split; intros h; [intros Hh; exact (Hk h Hh)|]. intros r Hh. specialize (Hg h).
    change (Ok (lift_raw RTask (execute_sync call clock thread_name tid f a h).1) = Ok r -> forall x, r = Ok x -> raw_ok tid x).
    destruct (execute_sync call clock thread_name tid f a h).1 as [t|e]; intros [= <-] x [= <-]. exists t.
    split; [done|]. by apply Hg. }
  destruct m; [done..|]. unfold run_job. destruct (pickle (TheCall f a)) as [e|].
  - split; [by intros h|]. by intros h r _ [= <-].
  - split; [by intros h|]. intros h r _. pose proof (run_with_timing_ok tid f a h) as Hd.
    unfold bind, outcome, in_child, ret. cbn [fst snd].
    destruct (run_with_timing call clock process_name tid f a h).1 as [d|e]; [|by intros [= <-]].
    destruct (pickle (TheAnswer (d_value d))); intros [= <-] x [= <-]. by apply Hd.
Qed.

Lemma tables_submit f a : keeps tables (submit call clock thread_name f a).
Proof.
  intros h Hh. unfold submit, bind at 1 2, new_uuid, get_tr, gets. cbn. set (tid := uuid4 (h_uuid h)).
  set (h1 := mkHeap _ _ _). change (tables h) with (tables h1) in Hh.
  destruct (tables_execute_sync tid f a) as [Hk Hg].
  destruct (mode (h_tr h)).
  - apply (keeps_bind_gives tables _ _ (well_formed tid) Hk Hg); [|done]. intros t Ht.
    apply keeps_bind; [by apply tables_store|intros _; apply keeps_ret].
  - destruct (mode (h_tr h1)); unfold start, set_cell, upd_tr, modify, bind, ret; cbn [snd];
      apply tables_register; try (cbn; rewrite dget_dset_eq; by eexists); by apply tables_cell, tables_start.
  - unfold start, set_cell, upd_tr, modify, bind, ret; cbn [snd];
      apply tables_register; try (cbn; rewrite dget_dset_eq; by eexists); by apply tables_cell, tables_start.
Qed.

Lemma tables_work tid : keeps tables (work call clock thread_name process_name pickle tid).
Proof.
  intros h Hh. unfold work, bind at 1, get_tr, gets. destruct (dget (cells (h_tr h)) tid) as [[f a|r]|]; [|done..].
  destruct (tables_run_job (mode (h_tr h)) tid f a) as [Hk Hg].
  apply (keeps_bind_gives tables _ _ _ Hk Hg); [|done]. intros r Hr.
  apply keeps_bind; [|intros _; by apply tables_on_complete]. apply tables_cell. intros x [= ->]. by apply Hr.
Qed.

Lemma tables_result tid timeout :
  keeps tables (result clock tid timeout) /\
  gives tables (result clock tid timeout) (fun o => match o with Done t => well_formed tid t | Waiting => True end).
Proof.
  split; [unfold result, result_pass; eauto 25 with py|].
  intros h o [Hr Hc _]. unfold result, result_pass, bind, get_tr, gets, lift, throw, ret. cbv beta iota zeta.
  destruct (dget (results (h_tr h)) tid) as [t|] eqn:Ht; [cbn; intros [= <-]; by apply Hr|].
  destruct (bool_decide _); destruct (passed _ _); [done| |done|by intros [= <-]].
  destruct (dget (cells (h_tr h)) tid) as [[f a|r]|] eqn:Hcell; [by intros [= <-]| |by intros [= <-]].
  destruct (future_result tid r) as [t|e] eqn:Hfr; [|done]. cbn. intros [= <-]. eapply future_result_ok, Hfr.
  intros x ->. by apply Hc.
Qed.

Lemma tables_submit_all f items : keeps tables (submit_all call clock thread_name f items).
Proof.
  induction items as [|x items IH]; [apply keeps_ret|]. cbn. pose proof (tables_submit f). eauto 8 with py.
Qed.

(** The items were submitted one after the other, each as the only argument of a
    call, and this is the id that each of them was given. *)
Inductive submissions (f : F) : list val -> world -> list string -> world -> Prop :=
  | submissions_none h : submissions f [] h [] h
  | submissions_one x xs h tid h1 tids h2 :
      submit call clock thread_name f (mkArgs [x] []) h = (Ok tid, h1) ->
      submissions f xs h1 tids h2 -> submissions f (x :: xs) h (tid :: tids) h2.

Lemma submit_all_submissions f items h tids h' :
  submit_all call clock thread_name f items h = (Ok tids, h') -> submissions f items h tids h'.
Proof.
  revert h tids. induction items as [|x items IH]; intros h tids; cbn; [intros [= <- <-]; constructor|]. unfold bind.
  destruct (submit _ _ _ _ _ h) as [[i|e] h1] eqn:Hs; [|done]. specialize (IH h1).
  destruct (submit_all _ _ _ _ _ h1) as [[ts|e] h2]; [|done]. intros [= <- <-]. econstructor; [done|by apply IH].
Qed.

(** Reading results changes nothing. *)
Lemma result_reads tid timeout h : (result clock tid timeout h).2 = h.
Proof.
  unfold result, result_pass, get_tr, gets, bind, lift, throw, ret.
  repeat (case_match; simplify_eq/=); done.
Qed.

Lemma result_all_reads tids timeout h ts h' :
  result_all clock tids timeout h = (Ok (Done ts), h') ->
  h' = h /\ Forall2 (fun tid t => result clock tid timeout h = (Ok (Done t), h)) tids ts.
Proof.
  revert ts. induction tids as [|tid tids IH]; intros ts; cbn; [intros [= <- <-]; by split|]. unfold bind.
  pose proof (result_reads tid timeout h) as Hr.
  destruct (result clock tid timeout h) as [[[t|]|e] h1] eqn:He; [|done..]. cbn in Hr. subst h1.
  destruct (result_all clock tids timeout h) as [[[rs|]|e] h2]; [|done..]. intros [= <- <-].
  destruct (IH rs eq_refl) as [-> Hf]. split; [done|by constructor].
Qed.

(** A heap in which the items have been submitted, when it was sound before *)
Lemma tables_submissions f items h tids h' : submissions f items h tids h' -> tables h -> tables h'.
Proof.
  induction 1 as [|x xs h tid h1 tids h2 Hs _ IH]; [done|]. intros Hh. apply IH.
  pose proof (tables_submit f (mkArgs [x] []) h Hh) as Hk. by rewrite Hs in Hk.
Qed.

Lemma tables_result_all tids timeout :
  keeps tables (result_all clock tids timeout) /\
  gives tables (result_all clock tids timeout)
    (fun o => match o with Done ts => Forall2 well_formed tids ts | Waiting => True end).
Proof.
  induction tids as [|tid tids [IHk IHg]]; [split; [apply keeps_ret|by apply gives_ret]|]. cbn.
  destruct (tables_result tid timeout) as [Hk Hg]. split.
  - apply keeps_bind; [done|]. intros [t|]; [|apply keeps_ret]. apply keeps_bind; [done|]. intros [ts|]; apply keeps_ret.
  - apply (gives_bind tables _ _ _ _ Hk Hg). intros [t|] Ht; [|by apply gives_ret].
    apply (gives_bind tables _ _ _ _ IHk IHg). intros [ts|] Hts; apply gives_ret; [by constructor|done].
Qed.

(** C37 The executor's tables are well typed, and what it hands out is: whatever the
    submitted functions do (submit more, too), every entry of the results table and
    every finished future is a [TaskResult] of its own id, with a value and no
    error or with an error, its type and no value; every id in [_futures] has its
    future; and [result] and [map] return only such results.  [map] submits its
    items in their order, and the result at each place is the one that [result]
    gives for the id under which the item at that place was submitted. *)
Theorem operations_typed f a items tid timeout :
  keeps tables start /\ keeps tables stop /\
  keeps tables (submit call clock thread_name f a) /\
  keeps tables (work call clock thread_name process_name pickle tid) /\
  keeps tables (result clock tid timeout) /\
  gives tables (result clock tid timeout)
    (fun o => match o with Done t => well_formed tid t | Waiting => True end) /\
  keeps tables (map_ call clock thread_name f items timeout) /\
  (forall h ts h', tables h -> map_ call clock thread_name f items timeout h = (Ok (Done ts), h') ->
    exists tids, submissions f items h tids h' /\
      Forall2 (fun tid t => result clock tid timeout h' = (Ok (Done t), h') /\ well_formed tid t) tids ts).
Proof.
  pose proof (fun tids => tables_result_all tids timeout) as Hra.
  split; [apply tables_start|]. split; [apply tables_stop|]. split; [apply tables_submit|].
  split; [apply tables_work|]. split; [apply tables_result|]. split; [apply tables_result|]. unfold map_. split.
  - apply keeps_bind; [apply tables_submit_all|]. intros tids. apply Hra.
  - intros h ts h' Hh. unfold bind.
    destruct (submit_all call clock thread_name f items h) as [[tids|e] h1] eqn:Hs; [|done]. intros Hr.
    apply submit_all_submissions in Hs. pose proof (tables_submissions _ _ _ _ _ Hs Hh) as Hh1.
    destruct (result_all_reads _ _ _ _ _ Hr) as [-> Hf]. exists tids. split; [done|].
    destruct (Hra tids) as [_ Hg]. specialize (Hg h1 (Done ts) Hh1). rewrite Hr in Hg.
    specialize (Hg eq_refl). clear -Hf Hg. induction Hf; inversion Hg; subst; constructor; eauto.
Qed.
End typed.
End Executor.

Module ExecutorToy.
Abbreviation world := (heap (Executor.state nat) (list nat)).
(** Functions are numbers: record the call; the odd ones raise. *)
Definition run (f : nat) (_ : pyargs) : M world val :=
  upd_rest (fun l => l ++ [f]) ;;;
  if Nat.odd f then throw (Exc "ValueError" "odd") else ret (VInt (Z.of_nat f)).
(** The odd items raise, the even ones are returned. *)
Definition pick (_ : nat) (a : pyargs) : M world val :=
  match a with
  | mkArgs [VInt z] _ => if Z.odd z then throw (Exc "ValueError" "odd") else ret (VInt z)
  | _ => ret VNone
  end.
Definition w0 (m : ExecutionMode) : world := mkHeap 0 (Executor.init m) [].
End ExecutorToy.

Lemma result_is_outcome_witness :
  exists tid h1 h2 t,
    Executor.submit ExecutorToy.run (fun _ => 0) (fun _ => "w") 3%nat (mkArgs [] []) (ExecutorToy.w0 THREAD) = (Ok tid, h1) /\
    Executor.finish ExecutorToy.run (fun _ => 0) (fun _ => "w") (fun _ => "p") (fun _ => None) THREAD tid h1 = (Ok tt, h2) /\
    Executor.result (fun _ => 0) tid None h2 = (Ok (Done t), h2) /\
    status t = FAILED /\ error t = Some "odd".
Proof.
  destruct (Executor.result_is_outcome ExecutorToy.run (fun _ => 0) (fun _ => "w") (fun _ => "p") (fun _ => None)
    THREAD 3%nat (mkArgs [] []) None (ExecutorToy.w0 THREAD)) as (tid & h1 & h2 & t & hb & H1 & H2 & H3 & Hr & _).
  - reflexivity.
  - discriminate.
  - intros h. reflexivity.
  - intros h. reflexivity.
  - exists tid, h1, h2, t. split; [exact H1|]. split; [exact H2|]. split; [exact H3|].
    destruct Hr as (_ & Hs & _ & He & _). split; [exact Hs | exact He].
Defined.

Lemma future_and_table_agree_witness :
  Executor.future_result "t" (Raise (Exc "BrokenProcessPool" "gone")) =
    Executor.completed "t" (Raise (Exc "BrokenProcessPool" "gone")).
Proof. apply Executor.future_and_table_agree. intros e [= <-]. discriminate. Defined.

(** A failing map: two results, of which one is an error with its type *)
Lemma operations_typed_witness :
  exists h1 t1 t2,
    Executor.map_ ExecutorToy.pick (fun _ => 0) (fun _ => "w") 3%nat [VInt 1; VInt 2] None (ExecutorToy.w0 SEQUENTIAL) =
      (Ok (Done [t1; t2]), h1) /\ Executor.tables h1 /\ status t1 = FAILED /\ value t2 = VInt 2 /\
    exists i1 i2, Executor.submissions ExecutorToy.pick (fun _ => 0) (fun _ => "w") 3%nat [VInt 1; VInt 2]
      (ExecutorToy.w0 SEQUENTIAL) [i1; i2] h1 /\
      Executor.well_formed i1 t1 /\ Executor.well_formed i2 t2.
Proof.
  assert (forall f a, keeps Executor.tables (ExecutorToy.pick f a)) as Hrun.
  { intros f a h Hh. unfold ExecutorToy.pick. repeat case_match; exact Hh. }
  destruct (Executor.operations_typed ExecutorToy.pick (fun _ => 0) (fun _ => "w") (fun _ => "p") (fun _ => None)
    Hrun 3%nat (mkArgs [] []) [VInt 1; VInt 2] "" None) as (_ & _ & _ & _ & _ & _ & Hk & Hg).
  do 3 eexists. split; [vm_compute; reflexivity|].
  pose proof (Hk (ExecutorToy.w0 SEQUENTIAL) (Executor.tables_init SEQUENTIAL)) as Hh1. vm_compute in Hh1.
  split; [exact Hh1|]. split; [reflexivity|]. split; [reflexivity|].
  edestruct (Hg (ExecutorToy.w0 SEQUENTIAL)) as (tids & Hs & Hf);
    [exact (Executor.tables_init SEQUENTIAL) | vm_compute; reflexivity |].
  inversion Hf as [|i1 x1 l1 m1 [_ H1] Hf1 E1 F1]; subst. inversion Hf1 as [|i2 x2 l2 m2 [_ H2] Hf2 E2 F2]; subst.
  inversion Hf2; subst. exists i1, i2. split; [exact Hs|]. split; [exact H1|exact H2].
Defined.
