(* ===== verification/ExecutorSteps.v ===== *)
(** * The threads of an [Executor]

    Executor has [submit] and the worker as one statement each.  Here they meet as
    they do in the program: [submit] starts the pool, reads it, gives the job away,
    notes the future and only then attaches the done-callback, each under a lock of
    its own or none; a worker may have finished the job anywhere in between; [stop]
    takes the pool out and shuts it down later.  Any number of them run in any
    order.  The tables are those of Executor and so are the statements on them;
    what the function of a job does is the event's argument. *)
From S2P Require Import Prelude PyDict Types Transport Queue Executor.

Module ExecutorSteps.

(** Where the call of [submit] is that made the job *)
Inductive phase : Type :=
  | Entered
  | Started
  | HasPool (g : nat)
  | Submitted
  | Registered
  | Returned
  | Crashed (e : exn).

#[global] Instance phase_eq_dec : EqDecision phase.
Proof. solve_decision. Defined.

Record job (F : Type) : Type := mkJob { j_func : F; j_args : pyargs; j_phase : phase }.
Arguments mkJob {F} _ _ _.
Arguments j_func {F} _.
Arguments j_args {F} _.
Arguments j_phase {F} _.

Inductive event (F : Type) : Type :=
  (** a caller of [submit] *)
  | Submit (f : F) (a : pyargs)
  | Start (tid : string) | ReadPool (tid : string) | PoolSubmit (tid : string)
  | Register (tid : string) | AddCallback (tid : string)
  (** the pool: a worker runs the function, which ends with [r]; the callback *)
  | Work (tid : string) (r : result val) | Callback (tid : string)
  (** [stop] *)
  | Stop1 | Stop2 (g : nat).
Arguments Submit {F} f a.
Arguments Start {F} tid.
Arguments ReadPool {F} tid.
Arguments PoolSubmit {F} tid.
Arguments Register {F} tid.
Arguments AddCallback {F} tid.
Arguments Work {F} tid r.
Arguments Callback {F} tid.
Arguments Stop1 {F}.
Arguments Stop2 {F} g.

Section steps.
Context {F : Type}.
Abbreviation world := (heap (Executor.state F) unit).
Variable clock : world -> Z.
Variables thread_name process_name : world -> string.
Variable pickle : Executor.pickled F -> option exn.

(** Pools have numbers; [current] is which one [_pool] is. *)
Record sys : Type := mkSys {
  heap_of : world;
  made : nat;
  current : option nat;
  stopping : list nat;                   (** taken out, not yet shut down *)
  shut : list nat;
  jobs : gmap string (job F);
  callbacks : gset string;               (** attached and not yet called *)
}.

Definition new (m : ExecutionMode) : sys := mkSys (mkHeap 0 (Executor.init m) tt) 0 None [] [] ∅ ∅.

Definition set_heap (h : world) (y : sys) : sys :=
  mkSys h (made y) (current y) (stopping y) (shut y) (jobs y) (callbacks y).
Definition set_callbacks (c : gset string) (y : sys) : sys :=
  mkSys (heap_of y) (made y) (current y) (stopping y) (shut y) (jobs y) c.
Definition set_phase (tid : string) (p : phase) (y : sys) : sys :=
  mkSys (heap_of y) (made y) (current y) (stopping y) (shut y)
    (alter (fun j => mkJob (j_func j) (j_args j) p) tid (jobs y)) (callbacks y).

(** A step of the caller of [tid] *)
Definition at_phase (tid : string) (p : phase) (y : sys) (y' : job F -> sys) : option sys :=
  match jobs y !! tid with
  | Some j => if decide (j_phase j = p) then Some (y' j) else None
  | None => None
  end.

Definition no_pool : exn := Exc "AssertionError" "".
Definition pool_shut : exn := Exc "RuntimeError" "cannot schedule new futures after shutdown".

Definition exec (e : event F) (y : sys) : option sys :=
  let h := heap_of y in
  match e with
  | Submit f a =>
      match Executor.mode (h_tr h) with
      | SEQUENTIAL => None
      | _ => Some (mkSys (mkHeap (S (h_uuid h)) (h_tr h) (h_rest h)) (made y) (current y) (stopping y) (shut y)
                     (<[uuid4 (h_uuid h) := mkJob f a Entered]> (jobs y)) (callbacks y))
      end
  | Start tid => at_phase tid Entered y (fun _ =>
      let y1 := set_phase tid Started (set_heap (Executor.start h).2 y) in
      if Executor.running (h_tr h) then y1
      else mkSys (heap_of y1) (S (made y)) (Some (made y)) (stopping y) (shut y) (jobs y1) (callbacks y))
  | ReadPool tid => at_phase tid Started y (fun _ =>
      set_phase tid (match current y with Some g => HasPool g | None => Crashed no_pool end) y)
  | PoolSubmit tid =>
      match jobs y !! tid with
      | Some (mkJob f a (HasPool g)) =>
          Some (if decide (g ∈ shut y) then set_phase tid (Crashed pool_shut) y
                else set_phase tid Submitted (set_heap (Executor.set_cell tid (Executor.Pending f a) h).2 y))
      | _ => None
      end
  | Register tid => at_phase tid Submitted y (fun _ =>
      set_phase tid Registered (set_heap (upd_tr (fun s =>
        Executor.mkEx (Executor.mode s) (Executor.results s) (Executor.futures s ++ [tid]) (Executor.cells s)
          (Executor.pool s) (Executor.running s)) h).2 y))
  | AddCallback tid => at_phase tid Registered y (fun _ =>
      set_phase tid Returned
        (match dget (Executor.cells (h_tr h)) tid with
         | Some (Executor.Finished r) => set_heap (Executor.on_complete tid r h).2 y
         | _ => set_callbacks ({[tid]} ∪ callbacks y) y
         end))
  | Work tid r =>
      match dget (Executor.cells (h_tr h)) tid with
      | Some (Executor.Pending f a) =>
          match Executor.run_job (fun _ _ => lift r) clock thread_name process_name pickle
                  (Executor.mode (h_tr h)) tid f a h with
          | (Ok o, h') => Some (set_heap (Executor.set_cell tid (Executor.Finished o) h').2 y)
          | _ => None
          end
      | _ => None
      end
  | Callback tid =>
      match dget (Executor.cells (h_tr h)) tid with
      | Some (Executor.Finished r) =>
          if decide (tid ∈ callbacks y)
          then Some (set_callbacks (callbacks y ∖ {[tid]}) (set_heap (Executor.on_complete tid r h).2 y))
          else None
      | _ => None
      end
  | Stop1 =>
      if Executor.running (h_tr h)
      then Some (mkSys (Executor.stop h).2 (made y) None (stopping y ++ option_list (current y)) (shut y) (jobs y) (callbacks y))
      else Some y
  | Stop2 g =>
      if decide (g ∈ stopping y)
      then Some (mkSys h (made y) (current y) (remove_first g (stopping y)) (g :: shut y) (jobs y) (callbacks y))
      else None
  end.
Abbreviation run := (run_events exec).

(** * The invariant *)

(** What the tables have for an id *)
Record view : Type := mkView {
  v_phase : option phase;
  v_cell : option (Executor.future F);
  v_listed : bool;                          (** in [_futures] *)
  v_result : option TaskResult;
  v_callback : bool;
}.

Definition view_of (y : sys) (tid : string) : view :=
  let s := h_tr (heap_of y) in
  mkView (j_phase <$> jobs y !! tid) (dget (Executor.cells s) tid) (bool_decide (tid ∈ Executor.futures s))
    (dget (Executor.results s) tid) (bool_decide (tid ∈ callbacks y)).

(** A finished future becomes a well-formed result. *)
Definition cell_ok (tid : string) (c : Executor.future F) : Prop :=
  match c with
  | Executor.Pending _ _ => True
  | Executor.Finished r => exists t, Executor.completed tid r = Ok t /\ Executor.well_formed tid t
  end.

Definition phase_ok (v : view) : Prop :=
  match v_phase v with
  | None | Some (Entered | Started | HasPool _ | Crashed _) =>
      v_cell v = None /\ v_listed v = false /\ v_result v = None /\ v_callback v = false
  | Some Submitted => is_Some (v_cell v) /\ v_listed v = false /\ v_result v = None /\ v_callback v = false
  | Some Registered => is_Some (v_cell v) /\ v_listed v = true /\ v_result v = None /\ v_callback v = false
  | Some Returned => is_Some (v_cell v) /\
      (v_callback v = true /\ v_listed v = true /\ v_result v = None \/
       v_callback v = false /\ v_listed v = false /\ is_Some (v_result v) /\
       exists r, v_cell v = Some (Executor.Finished r))
  end.

Record view_ok (tid : string) (v : view) : Prop := {
  vo_phase : phase_ok v;
  vo_cell : forall c, v_cell v = Some c -> cell_ok tid c;
  vo_result : forall t, v_result v = Some t -> Executor.well_formed tid t;
}.

Record ok (y : sys) : Prop := {
  ok_mode : Executor.mode (h_tr (heap_of y)) <> SEQUENTIAL;
  ok_running : Executor.running (h_tr (heap_of y)) = bool_decide (is_Some (current y));
  ok_pools : option_list (current y) ++ stopping y ++ shut y ≡ₚ seq 0 (made y);
  ok_fresh : forall tid, is_Some (jobs y !! tid) -> exists n, (n < h_uuid (heap_of y))%nat /\ tid = uuid4 n;
  ok_views : forall tid, view_ok tid (view_of y tid);
}.

(** Functions, and pickling, raise [Exception]s; the answer of a function that
    failed can be pickled. *)
Definition tame_event (e : event F) : Prop :=
  match e with Work _ r => Executor.tame_result r | _ => True end.
Hypothesis pickle_tame : Executor.pickle_ok pickle.

Lemma executor_ok_new m : m <> SEQUENTIAL -> ok (new m).
Proof.
  intros Hm. split; cbn; [done|done|done|by intros tid [? ?%lookup_empty_Some]|].
  intros tid. split; [|done..]. unfold view_of. cbn. by rewrite lookup_empty.
Qed.

(** A step changes what the tables have for one id. *)
Lemma views_at tid y y' :
  (forall i, view_ok i (view_of y i)) -> (forall i, i <> tid -> view_of y' i = view_of y i) ->
  view_ok tid (view_of y' tid) -> forall i, view_ok i (view_of y' i).
Proof. intros Hv Ho Ht i. destruct (decide (i = tid)) as [->|Hne]; [done|]. by rewrite Ho. Qed.

Lemma at_phase_inv tid p y k z : at_phase tid p y k = Some z ->
  exists j, jobs y !! tid = Some j /\ j_phase j = p /\ z = k j.
Proof. unfold at_phase. destruct (jobs y !! tid) as [j|]; [|done]. case_decide; naive_solver. Qed.

Lemma fresh_alter (m : gmap string (job F)) n g tid :
  (forall i, is_Some (m !! i) -> exists k, (k < n)%nat /\ i = uuid4 k) ->
  forall i, is_Some (alter g tid m !! i) -> exists k, (k < n)%nat /\ i = uuid4 k.
Proof. intros Hf i. rewrite lookup_alter_is_Some. apply Hf. Qed.

(** What a worker finishes a future with *)
Lemma run_job_tame m tid f a r (h : world) : Executor.tame_result r -> m <> SEQUENTIAL ->
  exists o, Executor.run_job (fun _ _ => lift r) clock thread_name process_name pickle m tid f a h = (Ok o, h) /\
    cell_ok tid (Executor.Finished o).
Proof.
  intros Hr Hm.
  assert (m = PROCESS /\ is_Some (pickle (Executor.TheCall f a)) \/ Executor.crosses pickle m f a) as [[-> [e Hp]]|Hc].
  { unfold Executor.crosses. destruct m; [by right..|].
    destruct (pickle (Executor.TheCall f a)); [left; split; by try eexists|by right]. }
  - unfold Executor.run_job. rewrite Hp. exists (Raise e). split; [done|]. cbn. unfold Executor.completed.
    rewrite (proj2 pickle_tame _ e Hp). eexists. split; [done|]. apply Executor.failed_ok.
  - destruct (Executor.run_job_spec (fun _ _ => lift r) clock thread_name process_name pickle m tid f a h Hr Hc)
      as (o & t & Hj & Ho & Hrep). exists o. rewrite Hj. split; [by case_decide|]. exists t. split; [done|].
    by eapply Executor.reported_ok.
Qed.

Lemma on_complete_run tid r t (h : world) : Executor.completed tid r = Ok t ->
  (Executor.on_complete tid r h).2 = set_tr (Executor.mkEx (Executor.mode (h_tr h))
    (dset (Executor.results (h_tr h)) tid t) (filter (fun i => i <> tid) (Executor.futures (h_tr h)))
    (Executor.cells (h_tr h)) (Executor.pool (h_tr h)) (Executor.running (h_tr h))) h.
Proof. intros Hc. unfold Executor.on_complete, bind, lift. by rewrite Hc. Qed.
Ltac other := intros i Hne; unfold view_of; cbn; rewrite ?lookup_alter_ne, ?lookup_insert_ne, ?dget_dset_ne by done;
  f_equal; apply bool_decide_ext;
  rewrite ?elem_of_app, ?list_elem_of_filter, ?list_elem_of_singleton, ?elem_of_union, ?elem_of_difference,
    ?elem_of_singleton; naive_solver.

(** [view_of y tid] where the job is at [p] *)
Lemma view_at y tid j p : ok y -> jobs y !! tid = Some j -> j_phase j = p ->
  phase_ok (mkView (Some p) (v_cell (view_of y tid)) (v_listed (view_of y tid)) (v_result (view_of y tid)) (v_callback (view_of y tid))).
Proof.
  intros Hok Hj <-. pose proof (vo_phase _ _ (ok_views y Hok tid)) as Hp. unfold view_of in *. cbn in *. by rewrite Hj in Hp.
Qed.

(** Only the place of the caller changes. *)
Lemma ok_set_phase y tid p : ok y -> is_Some (jobs y !! tid) ->
  phase_ok (mkView (Some p) (v_cell (view_of y tid)) (v_listed (view_of y tid)) (v_result (view_of y tid)) (v_callback (view_of y tid))) ->
  ok (set_phase tid p y).
Proof.
  intros Hok [j Hj] Hp. destruct Hok as [Hm Hr Hpo Hf Hv]. split; [done..| |].
  - by apply fresh_alter.
  - apply (views_at tid y); [done|other|]. destruct (Hv tid) as [_ Hc Ht].
    unfold view_of in *. cbn in *. rewrite lookup_alter_eq, Hj. by split.
Qed.

(** The tables change for one id. *)
Lemma ok_tables y y' tid : ok y -> h_uuid (heap_of y') = h_uuid (heap_of y) ->
  Executor.mode (h_tr (heap_of y')) = Executor.mode (h_tr (heap_of y)) ->
  Executor.running (h_tr (heap_of y')) = Executor.running (h_tr (heap_of y)) ->
  current y' = current y -> stopping y' = stopping y -> shut y' = shut y -> made y' = made y ->
  (forall i, is_Some (jobs y' !! i) -> is_Some (jobs y !! i)) ->
  (forall i, i <> tid -> view_of y' i = view_of y i) -> view_ok tid (view_of y' tid) -> ok y'.
Proof.
  intros [Hm Hr Hpo Hf Hv] Eu Em Er Ec Es Eh Ed Hj Ho Ht. split.
  - by rewrite Em.
  - by rewrite Er, Ec.
  - by rewrite Ec, Es, Eh, Ed.
  - intros i Hi. rewrite Eu. by apply Hf, Hj.
  - by apply (views_at tid y).
Qed.

Lemma still_jobs (y : sys) g tid i : is_Some (alter g tid (jobs y) !! i) -> is_Some (jobs y !! i).
Proof. by rewrite lookup_alter_is_Some. Qed.

Lemma ok_submit f a y y' : ok y -> exec (Submit f a) y = Some y' -> ok y'.
Proof.
  intros [Hm Hr Hpo Hf Hv] He. cbn in He.
  assert (y' = mkSys (mkHeap (S (h_uuid (heap_of y))) (h_tr (heap_of y)) (h_rest (heap_of y))) (made y) (current y) (stopping y) (shut y)
                     (<[uuid4 (h_uuid (heap_of y)) := mkJob f a Entered]> (jobs y)) (callbacks y)) as ->.
  { destruct (Executor.mode _); [done|by injection He..]. }
  set (tid := uuid4 (h_uuid (heap_of y))). split; [done..| |].
  - intros i. destruct (decide (i = tid)) as [->|Hne]; [intros _; exists (h_uuid (heap_of y)); cbn; split; [lia|done]|].
    cbn. rewrite lookup_insert_ne by done. intros Hi. destruct (Hf i Hi) as (n & ? & ->). exists n. split; [lia|done].
  - apply (views_at tid y); [done|other|]. destruct (Hv tid) as [Hp Hc Ht].
    assert (jobs y !! tid = None) as Hnone.
    { apply eq_None_not_Some. intros Hs. destruct (Hf tid Hs) as (n & Hn & He'). apply (inj uuid4) in He'. lia. }
    unfold view_of, phase_ok in *. cbn in *. rewrite lookup_insert_eq. rewrite Hnone in Hp. by split.
Qed.

Lemma ok_start tid y y' : ok y -> exec (Start tid) y = Some y' -> ok y'.
Proof.
  intros Hok (j & Hj & Hp & ->)%at_phase_inv. pose proof (view_at y tid j _ Hok Hj Hp) as Hph.
  pose proof (ok_set_phase y tid Started Hok ltac:(by eexists) Hph) as [Hm Hr Hpo Hf Hv].
  unfold Executor.start, upd_tr, modify. cbn [snd].
  destruct (Executor.running (h_tr (heap_of y))) eqn:Hrun.
  - destruct y as [[n tr r] md cu st sh jb cb]. cbn in *. by split.
  - assert (current y = None) as Hc.
    { pose proof (ok_running y Hok) as H1. rewrite Hrun in H1. symmetry in H1. apply bool_decide_eq_false in H1. by apply eq_None_not_Some. }
    destruct y as [[n tr r] md cu st sh jb cb]. cbn in *. subst cu. split; cbn; try done.
    change (0%nat :: seq 1 md) with (seq 0 (S md)). rewrite seq_S. cbn. rewrite <- Hpo. by rewrite <- Permutation_cons_append.
Qed.

Lemma ok_complete y tid r cb : ok y -> dget (Executor.cells (h_tr (heap_of y))) tid = Some (Executor.Finished r) ->
  tid ∉ cb -> (forall i, i <> tid -> i ∈ cb <-> i ∈ callbacks y) ->
  j_phase <$> jobs y !! tid = Some Registered \/ j_phase <$> jobs y !! tid = Some Returned ->
  ok (set_phase tid Returned (set_callbacks cb (set_heap (Executor.on_complete tid r (heap_of y)).2 y))).
Proof.
  intros Hok Hc Hcb Ho Hph. pose proof (ok_views y Hok tid) as [_ Hcell _].
  destruct (Hcell _ Hc) as (t & Ht & Hw). rewrite (on_complete_run tid r t _ Ht).
  apply (ok_tables y _ tid); [done..|apply still_jobs|other|].
  assert (j_phase <$> alter (fun j => mkJob (j_func j) (j_args j) Returned) tid (jobs y) !! tid = Some Returned) as Hj.
  { rewrite lookup_alter_eq. destruct (jobs y !! tid); [done|]. by destruct Hph. }
  split; unfold view_of, phase_ok; cbn; rewrite ?Hj, ?dget_dset_eq.
  - split; [by rewrite Hc|]. right. rewrite !bool_decide_eq_false. split_and!; [done| |by eexists|by eexists].
    by rewrite list_elem_of_filter; intros [? _].
  - apply Hcell.
  - by intros t' [= <-].
Qed.

Lemma set_phase_same y tid p j : jobs y !! tid = Some j -> j_phase j = p -> set_phase tid p y = y.
Proof.
  intros Hj Hp. unfold set_phase. destruct y as [h md cu st sh jb cb]. cbn in *. f_equal. apply map_eq. intros i.
  destruct (decide (i = tid)) as [->|Hne]; [|by rewrite lookup_alter_ne]. rewrite lookup_alter_eq, Hj. cbn. by destruct j; subst.
Qed.
Lemma ok_pool_submit tid y y' : ok y -> exec (PoolSubmit tid) y = Some y' -> ok y'.
Proof.
  intros Hok He. cbn in He. destruct (jobs y !! tid) as [[f a [| |g| | | |]]|] eqn:Hj; try done. injection He as <-.
  pose proof (view_at y tid _ _ Hok Hj eq_refl) as Hp. cbn [j_phase] in Hp.
  case_decide; [by apply ok_set_phase|].
  apply (ok_tables y _ tid); [done..|apply still_jobs|other|]. destruct (ok_views y Hok tid) as [_ _ Ht].
  unfold phase_ok, view_of in *. cbn in *. split; cbn.
  - unfold phase_ok. cbn. rewrite lookup_alter_eq, Hj, dget_dset_eq. cbn. split; [by eexists|]. by destruct Hp as (_ & ?).
  - rewrite dget_dset_eq. by intros c [= <-].
  - done.
Qed.

Lemma ok_register tid y y' : ok y -> exec (Register tid) y = Some y' -> ok y'.
Proof.
  intros Hok (j & Hj & Hp & ->)%at_phase_inv. pose proof (view_at y tid j _ Hok Hj Hp) as Hph.
  apply (ok_tables y _ tid); [done..|apply still_jobs|other|]. destruct (ok_views y Hok tid) as [_ Hc Ht].
  unfold phase_ok, view_of in *. cbn in *. split; [|done..]. unfold phase_ok. cbn. rewrite lookup_alter_eq, Hj. cbn.
  destruct Hph as (? & _ & ? & ?). split_and!; [done| |done|done]. apply bool_decide_eq_true. rewrite elem_of_app. right. by left.
Qed.

Lemma ok_add_callback tid y y' : ok y -> exec (AddCallback tid) y = Some y' -> ok y'.
Proof.
  intros Hok (j & Hj & Hp & ->)%at_phase_inv. pose proof (view_at y tid j _ Hok Hj Hp) as Hph.
  destruct Hph as ([c Hc] & Hl & Hr & Hcb). cbn in Hc, Hl, Hr, Hcb. apply bool_decide_eq_false in Hcb.
  rewrite Hc. destruct c as [f a|r].
  - apply (ok_tables y _ tid); [done..|apply still_jobs|other|]. destruct (ok_views y Hok tid) as [_ Hcell Ht].
    unfold view_of in *. cbn in *. split; cbn; [|done..]. unfold phase_ok. cbn. rewrite lookup_alter_eq, Hj. cbn.
    split; [by rewrite Hc; eexists|]. left. split_and!; [|done..]. apply bool_decide_eq_true. set_solver.
  - replace (set_heap (Executor.on_complete tid r (heap_of y)).2 y)
      with (set_callbacks (callbacks y) (set_heap (Executor.on_complete tid r (heap_of y)).2 y)) by done.
    apply ok_complete; [done..|]. left. by rewrite Hj, <- Hp.
Qed.

Lemma ok_callback tid y y' : ok y -> exec (Callback tid) y = Some y' -> ok y'.
Proof.
  intros Hok He. cbn in He. destruct (dget (Executor.cells (h_tr (heap_of y))) tid) as [[f a|r]|] eqn:Hc; try done.
  case_decide as Hcb; [|done]. injection He as <-.
  pose proof (vo_phase _ _ (ok_views y Hok tid)) as Hp. unfold phase_ok, view_of in Hp. cbn in Hp.
  rewrite (bool_decide_eq_true_2 (tid ∈ callbacks y)) in Hp by done.
  assert (exists j, jobs y !! tid = Some j /\ j_phase j = Returned) as (j & Hj & Hph).
  { destruct (jobs y !! tid) as [j|]; cbn in Hp; [|naive_solver]. exists j. split; [done|].
    destruct (j_phase j); naive_solver. }
  rewrite <- (set_phase_same (set_callbacks (callbacks y ∖ {[tid]}) (set_heap (Executor.on_complete tid r (heap_of y)).2 y))
    tid Returned j) by done.
  apply ok_complete; [done..|set_solver|set_solver|]. right. by rewrite Hj, <- Hph.
Qed.

Lemma ok_work tid r y y' : tame_event (Work tid r) -> ok y -> exec (Work tid r) y = Some y' -> ok y'.
Proof.
  intros Htm Hok He. cbn in He. destruct (dget (Executor.cells (h_tr (heap_of y))) tid) as [[f a|]|] eqn:Hc; try done.
  destruct (run_job_tame _ tid f a r (heap_of y) Htm (ok_mode y Hok)) as (o & Hrun & Ho). rewrite Hrun in He.
  injection He as <-. apply (ok_tables y _ tid); [done..|other|]. destruct (ok_views y Hok tid) as [Hp Hcell Ht].
  unfold phase_ok, view_of in *. cbn in *. rewrite Hc in Hp. split; cbn.
  - unfold phase_ok. cbn. rewrite dget_dset_eq. destruct (j_phase <$> jobs y !! tid) as [[]|]; naive_solver.
  - rewrite dget_dset_eq. by intros c [= <-].
  - done.
Qed.

Lemma executor_ok_exec e y y' : tame_event e -> ok y -> exec e y = Some y' -> ok y'.
Proof.
  intros Htm Hok. destruct e as [f a|tid|tid|tid|tid|tid|tid r|tid| |g].
  - by apply ok_submit.
  - by apply ok_start.
  - intros (j & Hj & Hp & ->)%at_phase_inv. pose proof (view_at y tid j _ Hok Hj Hp) as Hph.
    apply ok_set_phase; [done|by eexists|]. by destruct (current y).
  - by apply ok_pool_submit.
  - by apply ok_register.
  - by apply ok_add_callback.
  - by apply ok_work.
  - by apply ok_callback.
  - cbn. pose proof Hok as [Hm Hr Hpo Hf Hv]. destruct (Executor.running (h_tr (heap_of y))) eqn:Hrun; [|by intros [= <-]].
    intros [= <-]. clear Hok. destruct y as [[n [mo rs fs cs po ru] r] md cu st sh jb cb]. cbn in *. subst ru. split; cbn; try done.
    rewrite <- Hpo. by rewrite (Permutation_app_comm st), app_assoc.
  - cbn. case_decide as Hg; [|done]. intros [= <-]. destruct Hok as [Hm Hr Hpo Hf Hv]. split; cbn; try done.
    rewrite <- Hpo. apply Permutation_app_head. rewrite <- Permutation_middle, app_comm_cons. by rewrite <- (remove_first_perm g (stopping y) Hg).
Qed.

(** C12 A job is never lost on its way through an executor: in every interleaving of
    submitters, workers, callbacks and [stop], from the moment [submit] returns its
    id, [result] finds it: it answers with a well-formed result of that id, or
    waits while the function has not ended, or times out; it never says that the
    task is unknown.  And of the pools that were ever made every one is the current
    one or has been taken out by a [stop], once. *)
Theorem submitted_found m es y tid j deadline :
  m <> SEQUENTIAL -> Forall tame_event es -> run es (new m) = Some y ->
  jobs y !! tid = Some j -> j_phase j = Returned ->
  match (Executor.result_pass clock tid deadline (heap_of y)).1 with
  | Ok (Done t) => Executor.well_formed tid t
  | Ok Waiting => exists f a, dget (Executor.cells (h_tr (heap_of y))) tid = Some (Executor.Pending f a)
  | Raise e => e = Executor.timed_out tid " timed out"
  end /\
  option_list (current y) ++ stopping y ++ shut y ≡ₚ seq 0 (made y).
Proof.
  intros Hm Hes Hrun Hj Hp.
  pose proof (run_events_invariant _ ok tame_event es _ _ executor_ok_exec Hes (executor_ok_new m Hm) Hrun) as Hok.
  split; [|apply (ok_pools y Hok)].
  destruct (view_at y tid j _ Hok Hj Hp) as ([c Hc] & Hph). destruct (ok_views y Hok tid) as [_ Hcell Ht].
  unfold view_of in *. cbn in Hc, Hph, Hcell, Ht.
  unfold Executor.result_pass, bind, get_tr, gets, lift, throw, ret.
  destruct (dget (Executor.results (h_tr (heap_of y))) tid) as [t|] eqn:Hres; [by apply Ht|].
  destruct Hph as [(_ & Hin & _)|(_ & _ & [t Hx] & _)]; [|congruence]. rewrite Hin.
  destruct (Executor.passed deadline _); [done|]. rewrite Hc. destruct c as [f a|r]; [by exists f, a|].
  destruct (Hcell _ Hc) as (t & Hcomp & Hw). unfold Executor.future_result. unfold Executor.completed in Hcomp.
  destruct (match r with Ok raw => Executor.of_raw raw | Raise e => Raise e end) as [t'|e]; [by injection Hcomp as ->|].
  destruct (bool_decide (exn_type e = "TimeoutError")); [done|]. unfold Executor.completed. destruct (is_Exception e); [|done]. by injection Hcomp as <-.
Qed.
(** What the threads of the executor, of [submit] and of [stop] still do by themselves *)
Definition own (e : event F) : bool :=
  match e with Submit _ _ | Stop1 => false | _ => true end.

Lemma enabled_at tid j p y k : jobs y !! tid = Some j -> j_phase j = p -> at_phase tid p y k <> None.
Proof. intros Hj Hp. unfold at_phase. rewrite Hj. by rewrite decide_True. Qed.

Lemma cell_settled y tid c : ok y -> (forall e, own e = true -> tame_event e -> exec e y = None) ->
  dget (Executor.cells (h_tr (heap_of y))) tid = Some c -> (exists r, c = Executor.Finished r) /\ tid ∉ callbacks y.
Proof.
  intros Hok Hq Hc. destruct c as [f a|r].
  - exfalso. pose proof (Hq (Work tid (Ok VNone)) eq_refl I) as He. cbn in He. rewrite Hc in He.
    destruct (run_job_tame _ tid f a (Ok VNone) (heap_of y) I (ok_mode y Hok)) as (o & Hrun & _). by rewrite Hrun in He.
  - split; [by exists r|]. intros Hcb. pose proof (Hq (Callback tid) eq_refl I) as He. cbn in He.
    rewrite Hc in He. by rewrite decide_True in He.
Qed.

(** ** Why a submission fails *)

(** The end of a [submit] that raised: [stop] came between its [start] and its look
    at [_pool]; or it had the pool in hand, a [stop] took that pool out, shut it
    down, and only then came its [pool.submit]. *)
Definition crash_cause (es : list (event F)) (tid : string) (e : exn) : Prop :=
  e = no_pool /\ [Start tid; Stop1; ReadPool tid] `sublist_of` es \/
  e = pool_shut /\ exists g, [ReadPool tid; Stop1; Stop2 g; PoolSubmit tid] `sublist_of` es.

(** A submission on its way, after the events [es]: where its pool is now *)
Definition on_the_way (es : list (event F)) (y : sys) (tid : string) (p : phase) : Prop :=
  match p with
  | Started => [Start tid] `sublist_of` es /\ (is_Some (current y) \/ [Start tid; Stop1] `sublist_of` es)
  | HasPool g => [ReadPool tid] `sublist_of` es /\
      (current y = Some g \/
       g ∈ stopping y /\ [ReadPool tid; Stop1] `sublist_of` es \/
       g ∈ shut y /\ [ReadPool tid; Stop1; Stop2 g] `sublist_of` es)
  | Crashed e => crash_cause es tid e
  | _ => True
  end.
Definition explained (es : list (event F)) (y : sys) : Prop :=
  forall tid j, jobs y !! tid = Some j -> on_the_way es y tid (j_phase j).

Lemma sublist_more (l es : list (event F)) e : l `sublist_of` es -> l `sublist_of` es ++ [e].
Proof. intros Hl. by apply sublist_inserts_r. Qed.

Lemma sublist_now (l es : list (event F)) e : l `sublist_of` es -> l ++ [e] `sublist_of` es ++ [e].
Proof. intros Hl. by apply sublist_app. Qed.

Lemma sublist_one (es : list (event F)) e : [e] `sublist_of` es ++ [e].
Proof. apply (sublist_now [] es e), sublist_nil_l. Qed.

(** Later events take nothing back, while the pools stay where they are. *)
Lemma on_the_way_more es e y y' tid p :
  current y' = current y -> stopping y' = stopping y -> shut y' = shut y ->
  on_the_way es y tid p -> on_the_way (es ++ [e]) y' tid p.
Proof.
  intros Ec Es Eh. unfold on_the_way, crash_cause. rewrite Ec, Es, Eh.
  destruct p; try done; naive_solver eauto using sublist_more.
Qed.

(** The caller of [tid] makes a step to [p]. *)
Lemma explained_phase es e y y' tid p :
  explained es y -> (forall i j, jobs y' !! i = Some j -> exists j0, jobs y !! i = Some j0 /\
    j_phase j = if decide (i = tid) then p else j_phase j0) ->
  current y' = current y -> stopping y' = stopping y -> shut y' = shut y ->
  on_the_way (es ++ [e]) y tid p -> explained (es ++ [e]) y'.
Proof.
  intros He Hj Ec Es Eh Hp i j Hi. destruct (Hj i j Hi) as (j0 & Hi0 & ->). case_decide as Hd.
  - subst i. unfold on_the_way in *. by rewrite Ec, Es, Eh.
  - apply (on_the_way_more es e y y'); [done..|]. by apply He.
Qed.

(** No caller makes a step, and the pools stay. *)
Lemma explained_more es e y y' : explained es y -> jobs y' = jobs y ->
  current y' = current y -> stopping y' = stopping y -> shut y' = shut y -> explained (es ++ [e]) y'.
Proof. intros He Ej Ec Es Eh i j Hi. rewrite Ej in Hi. apply (on_the_way_more es e y y'); try done. by apply He. Qed.

Lemma alter_phase (m : gmap string (job F)) tid p i j :
  alter (fun j => mkJob (j_func j) (j_args j) p) tid m !! i = Some j ->
  exists j0, m !! i = Some j0 /\ j_phase j = if decide (i = tid) then p else j_phase j0.
Proof.
  case_decide as Hd; [subst i; rewrite lookup_alter_eq|rewrite lookup_alter_ne by done; by exists j].
  destruct (m !! tid) as [j0|]; cbn; intros [= <-]. by exists j0.
Qed.

(** A pool is in one place. *)
Lemma pool_once y g : ok y -> g ∈ shut y -> current y <> Some g /\ g ∉ stopping y.
Proof.
  intros Hok Hg. pose proof (NoDup_seq 0 (made y)) as Hn. rewrite <- (ok_pools y Hok) in Hn.
  apply NoDup_app in Hn as (_ & Hc & Hn). apply NoDup_app in Hn as (_ & Hs & _). split.
  - intros He. apply (Hc g); [by rewrite He; left|]. apply elem_of_app. by right.
  - intros Hst. by apply (Hs g).
Qed.

(** The pools move, the callers stay where they are. *)
Lemma explained_pools es e y y' : explained es y -> jobs y' = jobs y ->
  (forall tid p, on_the_way es y tid p -> on_the_way (es ++ [e]) y' tid p) -> explained (es ++ [e]) y'.
Proof. intros He Ej Hw i j Hi. rewrite Ej in Hi. by apply Hw, He. Qed.

Lemma stop1_explained es y : ok y -> explained es y -> forall y', exec Stop1 y = Some y' -> explained (es ++ [Stop1]) y'.
Proof.
  intros Hok He y'. cbn. destruct (Executor.running _); intros [= <-]; [|by apply (explained_more es Stop1 y)].
  apply (explained_pools es Stop1 y); [done..|]. intros tid [| |g| | | |e]; try done; cbn.
  - intros [Hs _]. split; [by apply sublist_more|]. right. by apply (sublist_now [Start tid]).
  - intros [Hr [Hc|[[Hst Hs]|[Hsh Hs]]]]; (split; [by apply sublist_more|]); right.
    + left. split; [rewrite Hc; apply elem_of_app; right; by left|]. by apply (sublist_now [ReadPool tid]).
    + left. split; [apply elem_of_app; by left|by apply sublist_more].
    + right. split; [done|by apply sublist_more].
  - unfold crash_cause. naive_solver eauto using sublist_more.
Qed.

Lemma stop2_explained es y g : explained es y ->
  forall y', exec (Stop2 g) y = Some y' -> explained (es ++ [Stop2 g]) y'.
Proof.
  intros He y'. cbn. case_decide as Hg; intros [= <-].
  apply (explained_pools es (Stop2 g) y); [done..|]. intros tid [| |g'| | | |e]; try done; cbn.
  - naive_solver eauto using sublist_more.
  - intros [Hr [Hc|[[Hst Hs]|[Hsh Hs]]]]; (split; [by apply sublist_more|]); [by left|right..].
    + destruct (decide (g' = g)) as [->|Hne].
      * right. split; [by left|]. by apply (sublist_now [ReadPool tid; Stop1]).
      * left. split; [by apply remove_first_other|by apply sublist_more].
    + right. split; [by right|by apply sublist_more].
  - unfold crash_cause. naive_solver eauto using sublist_more.
Qed.

Lemma start_explained es y tid : ok y -> explained es y ->
  forall y', exec (Start tid) y = Some y' -> explained (es ++ [Start tid]) y'.
Proof.
  intros Hok He y' (j & Hj & Hp & ->)%at_phase_inv. pose proof (ok_running y Hok) as Hrun.
  destruct (Executor.running (h_tr (heap_of y))).
  - symmetry in Hrun. apply bool_decide_eq_true in Hrun.
    apply (explained_phase es _ y _ tid Started He); [intros ? ?; apply alter_phase|done..|].
    split; [apply sublist_one|by left].
  - symmetry in Hrun. apply bool_decide_eq_false in Hrun. rewrite <- eq_None_not_Some in Hrun.
    intros i j' (j0 & Hi & ->)%alter_phase. case_decide as Hd.
    + subst i. split; [apply sublist_one|left; by eexists].
    + specialize (He i j0 Hi). destruct (j_phase j0) as [| |g| | | |e]; try done; cbn in *.
      * destruct He as [He _]. split; [by apply sublist_more|left; by eexists].
      * rewrite Hrun in He. naive_solver eauto using sublist_more.
      * unfold crash_cause in *. naive_solver eauto using sublist_more.
Qed.

Lemma pool_submit_explained es y tid : ok y -> explained es y ->
  forall y', exec (PoolSubmit tid) y = Some y' -> explained (es ++ [PoolSubmit tid]) y'.
Proof.
  intros Hok He y'. cbn. destruct (jobs y !! tid) as [[f a [| |g| | | |]]|] eqn:Hj; try done. intros [= <-].
  pose proof (He tid _ Hj) as [_ Hg]. cbn in Hg. case_decide as Hsh.
  - destruct (pool_once y g Hok Hsh) as [? ?].
    apply (explained_phase es _ y _ tid (Crashed pool_shut)); [done|intros ? ?; apply alter_phase|done..|].
    right. split; [done|]. exists g. destruct Hg as [?|[[? _]|[_ Hs]]]; [done..|].
    by apply (sublist_now [ReadPool tid; Stop1; Stop2 g]).
  - by apply (explained_phase es _ y _ tid Submitted); [|intros ? ?; apply alter_phase|..].
Qed.

Lemma explained_step es e y y' : ok y -> explained es y -> exec e y = Some y' -> explained (es ++ [e]) y'.
Proof.
  intros Hok He Hx. destruct e as [f a|tid|tid|tid|tid|tid|tid r|tid| |g].
  - cbn in Hx. assert (exists h, y' = mkSys h (made y) (current y) (stopping y) (shut y)
      (<[uuid4 (h_uuid (heap_of y)) := mkJob f a Entered]> (jobs y)) (callbacks y)) as [h ->]
      by (destruct (Executor.mode _); [done|injection Hx as <-; by eexists..]).
    intros i j. cbn. rewrite lookup_insert. case_decide; [by intros [= <-]|]. intros Hi.
    apply (on_the_way_more es _ y); [done..|]. by apply He.
  - by eapply start_explained.
  - cbn in Hx. apply at_phase_inv in Hx as (j & Hj & Hp & ->). pose proof (He tid j Hj) as Hw. rewrite Hp in Hw.
    destruct Hw as [_ Hw].
    apply (explained_phase es _ y _ tid (match current y with Some g => HasPool g | None => Crashed no_pool end));
      [done|intros ? ?; apply alter_phase|done..|].
    destruct (current y) as [g|] eqn:Hc; cbn.
    + split; [apply sublist_one|by left].
    + left. split; [done|]. destruct Hw as [[? ?]|Hw]; [done|]. by apply (sublist_now [Start tid; Stop1]).
  - by eapply pool_submit_explained.
  - cbn in Hx. apply at_phase_inv in Hx as (j & Hj & Hp & ->).
    by apply (explained_phase es _ y _ tid Registered); [|intros ? ?; apply alter_phase|..].
  - cbn in Hx. apply at_phase_inv in Hx as (j & Hj & Hp & ->).
    destruct (dget _ tid) as [[? ?|r]|];
      by apply (explained_phase es _ y _ tid Returned); [|intros ? ?; apply alter_phase|..].
  - apply (explained_more es _ y); [done|..]; cbn in Hx;
      destruct (dget _ tid) as [[? ?|]|]; try done; destruct (Executor.run_job _ _ _ _ _ _ _ _ _ _) as [[?|] ?]; by simplify_eq.
  - apply (explained_more es _ y); [done|..]; cbn in Hx;
      destruct (dget _ tid) as [[? ?|]|]; try done; case_decide; by simplify_eq.
  - by eapply stop1_explained.
  - by eapply stop2_explained.
Qed.

Lemma explained_run m es y : m <> SEQUENTIAL -> Forall tame_event es -> run es (new m) = Some y ->
  ok y /\ explained es y.
Proof.
  intros Hm Hes. revert y. induction es as [|e es IH] using rev_ind; intros y Hrun.
  { injection Hrun as <-. split; [by apply executor_ok_new|]. intros tid j Hj. cbn in Hj. by rewrite lookup_empty in Hj. }
  apply Forall_app in Hes as [Hes [He _]%Forall_cons].
  destruct (run es (new m)) as [y1|] eqn:H1; [|by rewrite run_events_none in Hrun].
  rewrite (run_events_app _ _ _ _ _ H1) in Hrun. cbn in Hrun. destruct (exec e y1) as [y2|] eqn:Hx; [|done].
  injection Hrun as <-. destruct (IH Hes _ eq_refl) as [Hok Hex].
  split; [by eapply executor_ok_exec|by eapply explained_step].
Qed.

(** C13 An executor comes to rest only when everything is done: in a state in which
    no submitter, worker, callback or [stop] has a step left, every call of
    [submit] has returned its id, and the result is in the table, or has raised
    because of a [stop], and then one of two things happened, in this order: it
    started the executor, a [stop] came, it found no pool; or it took the pool, a
    [stop] came and shut that pool down, it handed in its job.  [_futures] is empty,
    and every pool that a [stop] took out is shut down. *)
Theorem executor_settles m es y :
  m <> SEQUENTIAL -> Forall tame_event es -> run es (new m) = Some y ->
  (forall e, own e = true -> tame_event e -> exec e y = None) ->
  Executor.futures (h_tr (heap_of y)) = [] /\ stopping y = [] /\
  forall tid j, jobs y !! tid = Some j ->
    (j_phase j = Returned /\ exists t, dget (Executor.results (h_tr (heap_of y))) tid = Some t /\ Executor.well_formed tid t) \/
    exists e, j_phase j = Crashed e /\ crash_cause es tid e.
Proof.
  intros Hm Hes Hrun Hq.
  destruct (explained_run m es y Hm Hes Hrun) as [_ Hex].
  pose proof (run_events_invariant _ ok tame_event es _ _ executor_ok_exec Hes (executor_ok_new m Hm) Hrun) as Hok.
  assert (forall tid j, jobs y !! tid = Some j -> j_phase j = Returned \/ exists e, j_phase j = Crashed e) as Hend.
  { intros tid j Hj. destruct (j_phase j) as [| |g| | | |e] eqn:Hp; [| | | | |by left|by right; exists e]; exfalso.
    - by apply (enabled_at _ _ _ _ _ Hj Hp (Hq (Start tid) eq_refl I)).
    - by apply (enabled_at _ _ _ _ _ Hj Hp (Hq (ReadPool tid) eq_refl I)).
    - pose proof (Hq (PoolSubmit tid) eq_refl I) as He. cbn in He. rewrite Hj in He. destruct j as [f a p]. cbn in Hp. by subst p.
    - by apply (enabled_at _ _ _ _ _ Hj Hp (Hq (Register tid) eq_refl I)).
    - by apply (enabled_at _ _ _ _ _ Hj Hp (Hq (AddCallback tid) eq_refl I)). }
  split; [|split].
  - destruct (Executor.futures (h_tr (heap_of y))) as [|tid l] eqn:Hfu; [done|]. exfalso.
    pose proof (vo_phase _ _ (ok_views y Hok tid)) as Hp. unfold phase_ok, view_of in Hp. cbn in Hp.
    rewrite Hfu, bool_decide_eq_true_2 in Hp by by left.
    destruct (jobs y !! tid) as [j|] eqn:Hj; cbn in Hp; [|naive_solver].
    destruct (Hend tid j Hj) as [Hr|[e Hr]]; rewrite Hr in Hp; [|naive_solver].
    destruct Hp as ([c Hc] & [(Hcb & _)|(_ & ? & _)]); [|done]. apply bool_decide_eq_true in Hcb.
    by apply (cell_settled y tid c Hok Hq Hc).
  - destruct (stopping y) as [|g l] eqn:Hs; [done|]. pose proof (Hq (Stop2 g) eq_refl I) as He. cbn in He.
    rewrite Hs, decide_True in He by by left. done.
  - intros tid j Hj. destruct (Hend tid j Hj) as [Hr|[e He]]; [left|right]; [split; [done|]|].
    2: { exists e. split; [done|]. specialize (Hex tid j Hj). by rewrite He in Hex. }
    destruct (view_at y tid j _ Hok Hj Hr) as ([c Hc] & Hph). destruct (ok_views y Hok tid) as [_ _ Ht].
    unfold view_of in *. cbn in *. destruct (cell_settled y tid c Hok Hq Hc) as [_ Hcb].
    destruct Hph as [(Hx & _)|(_ & _ & [t Hres] & _)]; [by apply bool_decide_eq_true in Hx|]. exists t. auto.
Qed.
End steps.
End ExecutorSteps.

Module ExecutorStepsToy.
Import ExecutorSteps.
Abbreviation exec := (ExecutorSteps.exec (F := nat) (fun _ => 0) (fun _ => "w") (fun _ => "p") (fun _ => None)).
Abbreviation event := (ExecutorSteps.event nat).
Abbreviation a := (mkArgs [] []).
Abbreviation t0 := (uuid4 0).
Abbreviation t1 := (uuid4 1).

(** The job is done before [submit] has noted its future: the callback then runs in
    the submitter. *)
Definition quick : list event :=
  [Submit 0%nat a; Start t0; ReadPool t0; PoolSubmit t0; Work t0 (Raise (Exc "ValueError" "odd")); Register t0; AddCallback t0].
Definition quick_end : sys (F := nat) := default (new THREAD) (run_events exec quick (new THREAD)).

Lemma quick_phase : (j_phase <$> jobs quick_end !! t0) = Some Returned.
Proof. vm_compute. reflexivity. Qed.

(** Two threads submit and meet in one pool; [stop] after [start] makes a third fail. *)
Example one_pool :
  match run_events exec [Submit 0%nat a; Submit 1%nat a; Start t0; Start t1; ReadPool t1; ReadPool t0] (new PROCESS) with
  | Some y => made y = 1%nat /\ (j_phase <$> jobs y !! t0) = Some (HasPool 0) /\ (j_phase <$> jobs y !! t1) = Some (HasPool 0)
  | None => False
  end.
Proof. vm_compute. split_and!; reflexivity. Qed.

Example stop_between :
  match run_events exec [Submit 0%nat a; Submit 1%nat a; Start t0; Start t1; ReadPool t1; Stop1; ReadPool t0; Stop2 0; PoolSubmit t1]
    (new THREAD) with
  | Some y => (j_phase <$> jobs y !! t0) = Some (Crashed no_pool) /\ (j_phase <$> jobs y !! t1) = Some (Crashed pool_shut)
  | None => False
  end.
Proof. vm_compute. split; reflexivity. Qed.
End ExecutorStepsToy.

Lemma submitted_found_witness :
  match (Executor.result_pass (fun _ => 0) (uuid4 0) None (ExecutorSteps.heap_of ExecutorStepsToy.quick_end)).1 with
  | Ok (Done t) => Executor.well_formed (uuid4 0) t /\ status t = FAILED
  | _ => False
  end.
Proof.
  pose proof (ExecutorSteps.submitted_found (F := nat) (fun _ => 0) (fun _ => "w") (fun _ => "p") (fun _ => None)
    ltac:(split; [done|discriminate]) THREAD ExecutorStepsToy.quick ExecutorStepsToy.quick_end (uuid4 0) (ExecutorSteps.mkJob 0%nat (mkArgs [] []) ExecutorSteps.Returned)
    None ltac:(done) ltac:(repeat constructor) ltac:(vm_compute; reflexivity) ltac:(vm_compute; reflexivity) eq_refl) as [Hr _].
  vm_compute in Hr. vm_compute. split; [exact Hr|reflexivity].
Defined.

Lemma executor_settles_witness :
  Executor.futures (h_tr (ExecutorSteps.heap_of ExecutorStepsToy.quick_end)) = [].
Proof.
  apply (ExecutorSteps.executor_settles (F := nat) (fun _ => 0) (fun _ => "w") (fun _ => "p") (fun _ => None)
    ltac:(split; [done|discriminate]) THREAD ExecutorStepsToy.quick ExecutorStepsToy.quick_end ltac:(done) ltac:(repeat constructor)
    ltac:(vm_compute; reflexivity)).
  assert (ExecutorSteps.jobs ExecutorStepsToy.quick_end =
    {[uuid4 0 := ExecutorSteps.mkJob 0%nat (mkArgs [] []) ExecutorSteps.Returned]}) as Hj by (vm_compute; reflexivity).
  assert (forall tid p k, p <> ExecutorSteps.Returned -> ExecutorSteps.at_phase tid p ExecutorStepsToy.quick_end k = None) as Hat.
  { intros tid p k Hp. unfold ExecutorSteps.at_phase. rewrite Hj. destruct (decide (tid = uuid4 0)) as [->|Hne].
    - rewrite lookup_singleton_eq. cbn. by rewrite decide_False.
    - by rewrite lookup_singleton_ne. }
  assert (ExecutorSteps.callbacks ExecutorStepsToy.quick_end = ∅ /\ ExecutorSteps.stopping ExecutorStepsToy.quick_end = [])
    as [Hcb Hst] by (vm_compute; split; reflexivity).
  intros [f a|tid|tid|tid|tid|tid|tid r|tid| |g] Ho _; [discriminate Ho|by apply Hat|by apply Hat| |by apply Hat|by apply Hat| | |discriminate Ho|];
    unfold ExecutorSteps.exec.
  - rewrite Hj. destruct (decide (tid = uuid4 0)) as [->|Hne]; [by rewrite lookup_singleton_eq|by rewrite lookup_singleton_ne].
  - destruct (dget _ tid) as [[f a|o]|] eqn:Hd; [|reflexivity..]. exfalso. apply dget_elem in Hd.
    vm_compute in Hd. apply list_elem_of_singleton in Hd. discriminate.
  - destruct (dget _ tid) as [[f a|o]|]; [reflexivity| |reflexivity]. rewrite Hcb. apply decide_False, not_elem_of_empty.
  - rewrite Hst. by apply decide_False, not_elem_of_nil.
Defined.
