(* ===== verification/TaskRunner.v ===== *)
(** * [eventforge/task.py]: [TaskRunner] and [@task]

    The runner's attributes live in the heap's [h_rest]; the executor of the task
    is the heap's [h_tr].  A [TaskContext] is an object that the subscribers of
    the four lifecycle channels share and may change: contexts live in a store and
    the channels are fired with a reference to one. *)
From Stdlib Require Import QArith.
From S2P Require Import Prelude PyDict Types Transport Observers Queue TaskPool Executor.
#[local] Open Scope Z_scope.

Module TaskRunner.

Inductive channel : Type := Start | Success | Failure | Complete.

#[export] Instance channel_eq_dec : EqDecision channel.
Proof. solve_decision. Defined.

Record rstate (S U : Type) : Type := mkR {
  r_pool : option TaskPool.state;
  r_ctxs : list TaskContext;
  r_chans : channel -> Eventful S;
  r_user : U;
}.
Arguments mkR {S U} _ _ _ _.
Arguments r_pool {S U} _.
Arguments r_ctxs {S U} _.
Arguments r_chans {S U} _.
Arguments r_user {S U} _.

(** The attributes that do not change *)
Record settings (F : Type) : Type := mkSettings {
  func : F;
  func_name : string;
  task_topic : string;
  publish_result : bool;
  max_instances : option Z;
  instance_timeout : option Z;
}.
Arguments mkSettings {F} _ _ _ _ _ _.
Arguments func {F} _.
Arguments func_name {F} _.
Arguments task_topic {F} _.
Arguments publish_result {F} _.
Arguments max_instances {F} _.
Arguments instance_timeout {F} _.

Section ops.
Context {F S U : Type} `{!EqDecision S}.
Abbreviation world := (heap (Executor.state F) (rstate S U)).
Variable call : F -> pyargs -> M world val.
Variable E : env world S nat.
Variable clock : world -> Z.
Variables thread_name process_name : world -> string.
Variable pickle : Executor.pickled F -> option exn.
(** [queue.publish], when the task has a queue *)
Variable queue : option (string -> val -> M world string).
Variable cfg : settings F.

(** *** [TaskRunner.__init__]: the callbacks given by keyword, then the pool *)
Definition subscribe_opt (fn : option S) (ev : Eventful S) : Eventful S :=
  match fn with Some fn => ev_subscribe fn ev | None => ev end.

Definition subscribe_callbacks (on_start on_success on_failure on_complete : option S)
    (chans : channel -> Eventful S) : channel -> Eventful S :=
  fun c => subscribe_opt
    (match c with Start => on_start | Success => on_success | Failure => on_failure | Complete => on_complete end)
    (chans c).

Definition new_channels : channel -> Eventful S := fun _ => new_eventful None.

Definition init_channels (on_start on_success on_failure on_complete : option S) : channel -> Eventful S :=
  subscribe_callbacks on_start on_success on_failure on_complete new_channels.

(** [TaskPool(max_instances) if max_instances else None] *)
Definition init_pool (n : option Z) : result (option TaskPool.state) :=
  match n with
  | None => Ok None
  | Some n => if decide (n = 0) then Ok None
              else match TaskPool.init n with Ok p => Ok (Some p) | Raise e => Raise e end
  end.

Definition set_chans (chans : channel -> Eventful S) (r : rstate S U) : rstate S U :=
  mkR (r_pool r) (r_ctxs r) chans (r_user r).

(** [channel.subscribe(fn)] *)
Definition subscribe_channel (c : channel) (fn : S) : M world unit := upd_rest (fun r =>
  set_chans (fun c' => if decide (c' = c) then ev_subscribe fn (r_chans r c') else r_chans r c') r).

(** [getattr(self, name, None)], when it is an [Eventful] *)
Definition channel_named (name : string) : option channel :=
  if decide (name = "start") then Some Start
  else if decide (name = "success") then Some Success
  else if decide (name = "failure") then Some Failure
  else if decide (name = "complete") then Some Complete
  else None.

(** An element of [on_execute]: one with an [attach] (every [Meter] has it), or a
    plain object, by what [dir] lists of its type; [None] is not callable. *)
Inductive observer : Type :=
  | Attaches (attach : M world unit)
  | PlainObserver (dir : list (string * option S)).

Definition wire_method (m : string * option S) : M world unit :=
  if String.prefix "on_" m.1 then
    match m.2, channel_named (String.substring 3 (String.length m.1 - 3)%nat m.1) with
    | Some method, Some c => subscribe_channel c method
    | _, _ => ret tt
    end
  else ret tt.

Definition observe_with (obs : observer) : M world unit :=
  match obs with
  | Attaches attach => attach
  | PlainObserver dir => for_each dir wire_method
  end.

(** The constructor, on a new object: the channels, the observers, the callbacks,
    the pool *)
Definition init_runner (on_execute : list observer) (on_start on_success on_failure on_complete : option S)
    (max_instances : option Z) : M world unit :=
  upd_rest (set_chans new_channels) ;;;
  for_each on_execute observe_with ;;;
  upd_rest (fun r => set_chans (subscribe_callbacks on_start on_success on_failure on_complete (r_chans r)) r) ;;;
  let! p := lift (init_pool max_instances) in
  upd_rest (fun r => mkR p (r_ctxs r) (r_chans r) (r_user r)).

Definition no_eventful (event : string) : exn :=
  Exc "AttributeError" ("TaskRunner has no Eventful attribute '" +:+ event +:+ "'").

(** [runner.on], which the wrapper shares: it is [Observable.on] *)
Definition runner_on (event : string) (fn : S) : M world S :=
  match channel_named event with
  | Some c => subscribe_channel c fn ;;; ret fn
  | None => throw (no_eventful event)
  end.

Definition set_pool (p : TaskPool.state) (r : rstate S U) : rstate S U :=
  mkR (Some p) (r_ctxs r) (r_chans r) (r_user r).
Definition set_ctxs (l : list TaskContext) (r : rstate S U) : rstate S U :=
  mkR (r_pool r) l (r_chans r) (r_user r).

(** A method of the pool, run on the runner's pool *)
Definition on_pool {A} (dflt : A) (m : M TaskPool.state A) : M world A := fun h =>
  match r_pool (h_rest h) with
  | Some p => let '(r, p') := m p in (r, set_rest (set_pool p' (h_rest h)) h)
  | None => (Ok dflt, h)
  end.

(** *** The shared context *)
Definition new_ctx (c : TaskContext) : M world nat := fun h =>
  (Ok (length (r_ctxs (h_rest h))), set_rest (set_ctxs (r_ctxs (h_rest h) ++ [c]) (h_rest h)) h).

Definition upd_ctx (ref : nat) (f : TaskContext -> TaskContext) : M world unit :=
  upd_rest (fun r => set_ctxs (alter f ref (r_ctxs r)) r).

Definition with_result (v : val) (c : TaskContext) : TaskContext :=
  mkTaskContext (ctx_task_id c) (ctx_func_name c) (ctx_topic c) (ctx_args c) (ctx_kwargs c)
    (ctx_start_time c) (ctx_end_time c) v (ctx_error c) (ctx_metadata c).
Definition with_error (e : exn) (c : TaskContext) : TaskContext :=
  mkTaskContext (ctx_task_id c) (ctx_func_name c) (ctx_topic c) (ctx_args c) (ctx_kwargs c)
    (ctx_start_time c) (ctx_end_time c) (ctx_result c) (Some e) (ctx_metadata c).
Definition with_end_time (t : Z) (c : TaskContext) : TaskContext :=
  mkTaskContext (ctx_task_id c) (ctx_func_name c) (ctx_topic c) (ctx_args c) (ctx_kwargs c)
    (ctx_start_time c) t (ctx_result c) (ctx_error c) (ctx_metadata c).

(** An attribute of the context *)
Definition read_ctx {A} (dflt : A) (ref : nat) (f : TaskContext -> A) : M world A :=
  gets (fun h => match r_ctxs (h_rest h) !! ref with Some c => f c | None => dflt end).

Definition fire_channel (c : channel) (ref : nat) : M world unit :=
  let! r := get_rest in
  fire E (r_chans r c) ref.

(** [runner.fire(event, ctx)], which the wrapper shares *)
Definition runner_fire (event : string) (ref : nat) : M world unit :=
  match channel_named event with
  | Some c => fire_channel c ref
  | None => throw (no_eventful event)
  end.

(** *** The body *)
Definition blocked : exn := BaseExc "Blocked" "result() waits".

(** [self.func(...)] inline, or submitted: the worker runs while [result] waits *)
Definition run_body (a : pyargs) : M world val :=
  let! s := get_tr in
  match Executor.mode s with
  | SEQUENTIAL => call (func cfg) a
  | THREAD | PROCESS =>
      let! tid := Executor.submit call clock thread_name (func cfg) a in
      let! w := Executor.outcome (Executor.work call clock thread_name process_name pickle tid) in
      let! r := Executor.result clock tid None in
      match r with
      | Done t => ret (value t)
      | Waiting => throw blocked
      end
  end.

(** [if self.publish_result and self.queue: try: publish ... except Exception: pass] *)
Definition publish_quietly (suffix : string) (fields : M world (list (val * val))) : M world unit :=
  match queue with
  | Some publish =>
      if publish_result cfg then
        try_except
          (let! d := fields in
           publish (task_topic cfg +:+ suffix) (VDict d) ;;; ret tt)
          (fun _ => ret tt)
      else ret tt
  | None => ret tt
  end.

Definition on_success_path (ref : nat) (v : val) : M world val :=
  let! now := gets clock in
  upd_ctx ref (fun c => with_end_time now (with_result v c)) ;;;
  fire_channel Success ref ;;;
  publish_quietly ".success"
    (let! i := read_ctx "" ref ctx_task_id in
     let! v := read_ctx VNone ref ctx_result in
     let! t := read_ctx 0 ref ctx_execution_time in
     ret [(VStr "task_id", VStr i); (VStr "result", v); (VStr "execution_time", VInt t)]) ;;;
  read_ctx VNone ref ctx_result.

Definition on_failure_path (ref : nat) (e : exn) : M world val :=
  let! now := gets clock in
  upd_ctx ref (fun c => with_end_time now (with_error e c)) ;;;
  fire_channel Failure ref ;;;
  publish_quietly ".failure"
    (let! i := read_ctx "" ref ctx_task_id in
     let! t := read_ctx 0 ref ctx_execution_time in
     ret [(VStr "task_id", VStr i); (VStr "error", VStr (exn_str e));
          (VStr "error_type", VStr (exn_type e)); (VStr "execution_time", VInt t)]) ;;;
  throw e.

(** [try: body  except Exception as e: ...  else: ...  finally: complete.fire(ctx)] *)
Definition execute_from (ref : nat) (a : pyargs) : M world val :=
  try_finally
    (fun h => match run_body a h with
              | (Ok v, h') => on_success_path ref v h'
              | (Raise e, h') => if is_Exception e then on_failure_path ref e h' else (Raise e, h')
              end)
    (fire_channel Complete ref).

Definition make_ctx (a : pyargs) : M world nat :=
  let! i := new_uuid in
  let! now := gets clock in
  let! r := get_rest in
  let meta := match r_pool r with
              | Some p => [("pool_stats", VDict (map (fun kv => (VStr kv.1, kv.2)) (TaskPool.stats p)))]
              | None => []
              end in
  new_ctx (mkTaskContext i (func_name cfg) (Some (task_topic cfg)) (pos a) (kw a) now 0 VNone None meta).

Definition execute (a : pyargs) : M world val :=
  let! ref := make_ctx a in
  fire_channel Start ref ;;;
  execute_from ref a.

Definition no_slot : exn :=
  Exc "TimeoutError" ("Timeout waiting for available slot in task pool (max_instances=" +:+
    match max_instances cfg with Some n => pretty n | None => "None" end +:+ ")").

Definition run (a : pyargs) : M world (wait val) :=
  let! r := get_rest in
  match r_pool r with
  | None => let! v := execute a in ret (Done v)
  | Some _ =>
      let! acquired := on_pool (Done true) (TaskPool.acquire true (instance_timeout cfg)) in
      match acquired with
      | Waiting => ret Waiting
      | Done false => throw no_slot
      | Done true =>
          let! v := try_finally (execute a) (on_pool tt TaskPool.release) in
          ret (Done v)
      end
  end.

(** [@task]'s queue handler; calling the decorated function is [run] itself. *)
Definition queue_handler (msg : Message) : M world (wait val) :=
  match unpack_payload (payload msg) with
  | Ok a => run a
  | Raise e => throw e
  end.
End ops.

(** * Facts *)
Section facts.
Context {F S U : Type} `{!EqDecision S}.
Abbreviation world := (heap (Executor.state F) (rstate S U)).
Variable call : F -> pyargs -> M world val.
Variable E : env world S nat.
Variable clock : world -> Z.
Variables thread_name process_name : world -> string.
Variable pickle : Executor.pickled F -> option exn.
Variable queue : option (string -> val -> M world string).
Variable cfg : settings F.
Implicit Types (h : world).
Abbreviation plain_only := (Forall (fun o : observer (F := F) (S := S) (U := U) => exists dir, o = PlainObserver dir)).

Abbreviation exec := (execute call E clock thread_name process_name pickle queue cfg).
Abbreviation body := (run_body call clock thread_name process_name pickle cfg).

(** ** The constructor *)

(** The methods of a plain observer that a channel gets, in the order of [dir] *)
Definition methods_on (c : channel) (dir : list (string * option S)) : list S :=
  omap (fun m : string * option S => if String.prefix "on_" m.1 &&
                    bool_decide (channel_named (String.substring 3 (String.length m.1 - 3)%nat m.1) = Some c)
                 then m.2 else None) dir.

Definition observed_on (c : channel) (obs : observer (F := F) (U := U)) : list S :=
  match obs with Attaches _ => [] | PlainObserver dir => methods_on c dir end.

Definition subs_on (c : channel) h : list S := ev_subscribers (r_chans (h_rest h) c).

(** Statements that return and change the channels only, which get [f c] more *)
Definition wires {A} (m : M world A) (a : A) (f : channel -> list S) : Prop :=
  forall h, exists ch, m h = (Ok a, set_rest (set_chans ch (h_rest h)) h) /\
    forall c, ev_subscribers (ch c) = subs_on c h ++ f c /\
      ev_dispatcher (ch c) = ev_dispatcher (r_chans (h_rest h) c) /\
      ev_owner_mro (ch c) = ev_owner_mro (r_chans (h_rest h) c).

Lemma wires_ret {A} (a : A) : wires (ret a) a (fun _ => []).
Proof. intros [n t [po cs ch u]]. exists ch. split; [done|]. intros c. by rewrite app_nil_r. Qed.

Lemma wires_bind {A A'} (m : M world A) (k : A -> M world A') a a' f g :
  wires m a f -> wires (k a) a' g -> wires (bind m k) a' (fun c => f c ++ g c).
Proof.
  intros Hm Hk h. destruct (Hm h) as (ch & R & H1). rewrite (bind_run _ _ _ _ _ R).
  destruct (Hk (set_rest (set_chans ch (h_rest h)) h)) as (ch' & -> & H2). exists ch'. split; [done|].
  intros c. destruct (H1 c) as (E1 & ? & ?), (H2 c) as (E2 & ? & ?). cbn in *.
  split_and!; [|congruence..]. rewrite E2. unfold subs_on. cbn. by rewrite E1, app_assoc.
Qed.

Lemma wires_method m : wires (wire_method (F := F) (U := U) m) tt (fun c => methods_on c [m]).
Proof.
  unfold wire_method, methods_on. cbn [omap list_omap]. destruct (String.prefix "on_" m.1); cbn [andb].
  2: apply wires_ret.
  destruct m as [name [fn|]]; cbn [fst snd].
  2: { intros h. destruct (wires_ret tt h) as (ch & R & Hc). exists ch. split; [exact R|].
       intros c. destruct (Hc c) as (? & ? & ?). by destruct (bool_decide _). }
  destruct (channel_named _) as [c0|].
  2: apply wires_ret.
  intros h. eexists. split; [reflexivity|]. intros c. cbn. destruct (decide (c = c0)) as [->|Hne].
  - rewrite bool_decide_eq_true_2 by done. done.
  - rewrite bool_decide_eq_false_2 by congruence. by rewrite app_nil_r.
Qed.

Lemma wires_plain dir : wires (for_each dir (wire_method (F := F) (U := U))) tt (fun c => methods_on c dir).
Proof.
  induction dir as [|m dir IH]; [apply wires_ret|]. cbn [for_each].
  intros h. destruct (wires_bind _ (fun _ => for_each dir wire_method) tt tt _ _ (wires_method m) IH h)
    as (ch & R & Hc).
  exists ch. split; [exact R|]. intros c. destruct (Hc c) as (-> & ? & ?). split_and!; [|done..].
  unfold methods_on. cbn. match goal with |- context [match ?x with Some _ => _ | None => _ end] => by destruct x end.
Qed.

Lemma wires_observers l : plain_only l ->
  wires (for_each l (observe_with (F := F) (U := U))) tt (fun c => l ≫= observed_on c).
Proof.
  induction 1 as [|o l [dir ->] _ IH]; [apply wires_ret|]. cbn [for_each].
  apply (wires_bind _ (fun _ => for_each l observe_with) tt tt (fun c => methods_on c dir)); [apply wires_plain|done].
Qed.

(** What the constructor makes of plain observers and callbacks: every channel has
    the observers' methods for it, in order, then its callback. *)
Lemma init_runner_spec l on_start on_success on_failure on_complete n po h :
  plain_only l -> init_pool n = Ok po ->
  exists ch, init_runner l on_start on_success on_failure on_complete n h =
      (Ok tt, set_rest (mkR po (r_ctxs (h_rest h)) ch (r_user (h_rest h))) h) /\
    forall c, ev_subscribers (ch c) = (l ≫= observed_on c) ++
        option_list (match c with Start => on_start | Success => on_success | Failure => on_failure | Complete => on_complete end) /\
      ev_dispatcher (ch c) = Broadcast /\ ev_owner_mro (ch c) = None.
Proof.
  intros Hl Hp. unfold init_runner.
  set (h1 := set_rest (set_chans new_channels (h_rest h)) h).
  rewrite (bind_run _ _ h tt h1) by done.
  destruct (wires_observers l Hl h1) as (ch & R & Hc). rewrite (bind_run _ _ _ _ _ R).
  rewrite Hp. eexists. split; [reflexivity|]. intros c. cbn. unfold subscribe_callbacks.
  destruct (Hc c) as (E1 & E2 & E3). cbn in E1, E2, E3.
  by destruct c; [destruct on_start|destruct on_success|destruct on_failure|destruct on_complete];
    cbn; rewrite ?app_nil_r, E1.
Qed.

(** Nobody subscribes to the four channels while the task runs. *)
Variable chans : channel -> Eventful S.
Definition wired h : Prop := r_chans (h_rest h) = chans.

(** ** What a run shows of the heap *)
Section observe.
(** [m] keeps the channels and moves what [obs] shows by [f]. *)
Definition moves {A B} (obs : world -> B) (f : B -> B) (m : M world A) : Prop :=
  forall h, wired h -> wired (m h).2 /\ obs (m h).2 = f (obs h).

Lemma moves_bind {A A' B} (obs : world -> B) f (m : M world A) (k : A -> M world A') :
  moves obs f m -> (forall a, moves obs id (k a)) -> moves obs f (bind m k).
Proof.
  intros Hm Hk h Hw. unfold bind. specialize (Hm h Hw). destruct (m h) as [[a|e] h']; [|done].
  cbn in Hm. destruct Hm as [Hw' <-]. apply (Hk a h' Hw').
Qed.

(** A step that returns and shows nothing, before [k] *)
Lemma moves_after {A A' B} (obs : world -> B) f (m : M world A) (k : A -> M world A') :
  (forall h, wired h -> exists a h', m h = (Ok a, h') /\ wired h' /\ obs h' = obs h) ->
  (forall a, moves obs f (k a)) -> moves obs f (bind m k).
Proof.
  intros Hm Hk h Hw. destruct (Hm h Hw) as (a & h' & Hr & Hw' & <-). rewrite (bind_run _ _ _ _ _ Hr).
  by apply Hk.
Qed.

(** What calls keep and the executor's tables do not touch, the body keeps. *)
Lemma keeps_body (I : world -> Prop) a :
  (forall n t h, I h -> I (mkHeap n t (h_rest h))) -> (forall f a, keeps I (call f a)) -> keeps I (body a).
Proof.
  intros Hi Hc. unfold run_body.
  apply keeps_bind; [apply keeps_gets|]. intros s. destruct (Executor.mode s); [done| |];
    (apply keeps_bind; [by apply Executor.keeps_submit|]; intros tid;
     apply keeps_bind; [by apply Executor.keeps_outcome, Executor.keeps_work|]; intros _;
     apply keeps_bind; [by apply Executor.keeps_result|]; intros [t|]; [apply keeps_ret|apply keeps_throw]).
Qed.

Lemma moves_body {B} (obs : world -> B) a :
  (forall n t h, obs (mkHeap n t (h_rest h)) = obs h) -> (forall f a, moves obs id (call f a)) ->
  moves obs id (body a).
Proof.
  intros Ho Hc h Hw. apply (keeps_body (fun h' => wired h' /\ obs h' = obs h)); [| |done].
  - intros n t h' [? <-]. by rewrite Ho.
  - intros f a' h' [Hw' <-]. by apply Hc.
Qed.

Context {B : Type}.
Variable obs : world -> B.
Variable f : channel -> nat -> B -> B.
Hypothesis obs_blind : forall n t l h, obs (mkHeap n t (set_ctxs l (h_rest h))) = obs h.
Hypothesis fire_obs : forall c ref, moves obs (f c ref) (fire_channel E c ref).
Hypothesis call_obs : forall f a, moves obs id (call f a).
Hypothesis publish_obs : forall p, queue = Some p -> forall t v, moves obs id (p t v).

Lemma moves_read {A} (d : A) ref g : moves obs id (read_ctx d ref g).
Proof. done. Qed.

Lemma moves_publish suffix fields :
  moves obs id fields -> moves obs id (publish_quietly queue cfg suffix fields).
Proof.
  intros Hf h Hw. unfold publish_quietly. destruct queue as [p|] eqn:Hq; [|done].
  destruct (publish_result cfg); [|done].
  assert (moves obs id (let! d := fields in p (task_topic cfg +:+ suffix) (VDict d) ;;; ret tt)) as Hs.
  { apply moves_bind; [done|]. intros d. apply moves_bind; [by apply publish_obs|done]. }
  specialize (Hs h Hw). unfold try_except.
  destruct (bind fields _ h) as [[[]|e] h']; [done|]. by destruct (is_Exception e).
Qed.

Lemma moves_success ref v : moves obs (f Success ref) (on_success_path E clock queue cfg ref v).
Proof.
  unfold on_success_path. apply moves_after; [by intros; do 2 eexists|]. intros now.
  apply moves_after; [intros h ?; do 2 eexists; split; [reflexivity|]; split; [done|apply obs_blind]|]. intros _.
  apply moves_bind; [apply fire_obs|]. intros _. apply moves_bind; [|intros _; apply moves_read].
  apply moves_publish. by repeat (apply moves_bind; [apply moves_read|intros ?]).
Qed.

Lemma moves_failure ref e : moves obs (f Failure ref) (on_failure_path E clock queue cfg ref e).
Proof.
  unfold on_failure_path. apply moves_after; [by intros; do 2 eexists|]. intros now.
  apply moves_after; [intros h ?; do 2 eexists; split; [reflexivity|]; split; [done|apply obs_blind]|]. intros _.
  apply moves_bind; [apply fire_obs|]. intros _. apply moves_bind; [|done].
  apply moves_publish. by repeat (apply moves_bind; [apply moves_read|intros ?]).
Qed.

(** What fires between [start] and [complete], by how the body ended *)
Definition verdict (r : result val) : list channel :=
  match r with
  | Ok _ => [Success]
  | Raise e => if is_Exception e then [Failure] else []
  end.

Definition shown (cs : list channel) (ref : nat) (b : B) : B := foldl (fun b c => f c ref b) b cs.

Lemma body_obs a : moves obs id (body a).
Proof.
  apply moves_body; [|done]. intros n t [n' t' [po cs ch u]]. exact (obs_blind n t cs (mkHeap n' t' (mkR po cs ch u))).
Qed.

Lemma moves_execute_from ref a h :
  wired h ->
  wired (execute_from call E clock thread_name process_name pickle queue cfg ref a h).2 /\
  obs (execute_from call E clock thread_name process_name pickle queue cfg ref a h).2 =
    shown (verdict (body a h).1 ++ [Complete]) ref (obs h).
Proof.
  intros Hw. unfold execute_from, try_finally, shown. rewrite foldl_app.
  assert (forall (r : result val) h3, wired h3 ->
    let o := (let '(r, w1) := (r, h3) in match fire_channel E Complete ref w1 with
      | (Ok _, w2) => (r, w2) | (Raise e, w2) => (Raise e, w2) end).2 in
    wired o /\ obs o = f Complete ref (obs h3)) as Hfin.
  { intros r h3 H3. pose proof (fire_obs Complete ref h3 H3) as Hc.
    by destruct (fire_channel E Complete ref h3) as [[[]|e] h4]. }
  destruct (body_obs a h Hw) as [Hwb Hb]. destruct (body a h) as [[v|e] h3]; cbn [fst snd verdict] in *.
  - destruct (moves_success ref v h3 Hwb) as [Hws Hs].
    destruct (on_success_path E clock queue cfg ref v h3) as [r h4]. cbn [snd] in *.
    destruct (Hfin r h4 Hws) as [? ->]. split; [done|]. cbn. by rewrite Hs, Hb.
  - destruct (is_Exception e).
    + destruct (moves_failure ref e h3 Hwb) as [Hws Hs].
      destruct (on_failure_path E clock queue cfg ref e h3) as [r h4]. cbn [snd] in *.
      destruct (Hfin r h4 Hws) as [? ->]. split; [done|]. cbn. by rewrite Hs, Hb.
    + destruct (Hfin (Raise e) h3 Hwb) as [? ->]. split; [done|]. cbn. by rewrite Hb.
Qed.

Lemma execute_shows a h :
  wired h ->
  exists ref h1, make_ctx clock cfg a h = (Ok ref, h1) /\ wired h1 /\ obs h1 = obs h /\
    match fire_channel E Start ref h1 with
    | (Raise e, h2) => exec a h = (Raise e, h2) /\ wired h2 /\ obs h2 = f Start ref (obs h)
    | (Ok _, h2) => wired h2 /\ wired (exec a h).2 /\
        obs (exec a h).2 = shown ([Start] ++ verdict (body a h2).1 ++ [Complete]) ref (obs h)
    end.
Proof.
  intros Hw. destruct (make_ctx clock cfg a h) as [[ref|e] h1] eqn:Hm; [|done].
  assert (wired h1 /\ obs h1 = obs h) as [Hw1 Ho1].
  { unfold make_ctx, new_uuid, gets, get_rest, new_ctx, bind in Hm. injection Hm as _ <-.
    split; [done|]. apply (obs_blind _ _ _ h). }
  exists ref, h1. do 3 (split; [done|]). unfold execute. rewrite (bind_run _ _ _ _ _ Hm). unfold bind.
  pose proof (fire_obs Start ref h1 Hw1) as Hs. rewrite Ho1 in Hs.
  destruct (fire_channel E Start ref h1) as [[[]|e] h2]; cbn [fst snd] in Hs; [|done].
  destruct Hs as [Hw2 Ho2]. destruct (moves_execute_from ref a h2 Hw2) as [? Ho].
  split; [done|]. split; [done|]. rewrite Ho, Ho2. done.
Qed.
End observe.

(** ** Thread and process mode *)

(** The runner takes the [value] of the executor's result, whatever its status. *)
Lemma pooled_body a h :
  let m := Executor.mode (h_tr h) in let h1 := Executor.job_heap (func cfg) a h in
  m <> SEQUENTIAL -> Executor.crosses pickle m (func cfg) a ->
  Executor.tame_result (call (func cfg) a h1).1 -> h_tr (call (func cfg) a h1).2 = h_tr h1 ->
  (body a h).1 = Ok (match Executor.crossed pickle m (call (func cfg) a h1).1 with Ok v => v | Raise _ => VNone end).
Proof.
  intros m h1 Hm Hp Ht Hown.
  destruct (Executor.pooled_result call clock thread_name process_name pickle (func cfg) a None h Hm Hp Ht Hown)
    as (h2 & t & Hw & Hres & [_ Hrep] & _).
  assert (value t = match Executor.crossed pickle m (call (func cfg) a h1).1 with Ok v => v | Raise _ => VNone end) as <-
    by (unfold m, h1; destruct (Executor.crossed _ _ _); naive_solver).
  pose proof (Executor.submit_pooled call clock thread_name (func cfg) a h Hm) as Hs.
  unfold run_body. rewrite (bind_run _ _ h (h_tr h) h) by done. unfold m in *.
  destruct (Executor.mode (h_tr h)); [done| |];
    rewrite (bind_run _ _ _ _ _ Hs), (bind_run _ _ _ (Ok tt) h2) by (unfold Executor.outcome; by rewrite Hw);
    by rewrite (bind_run _ _ _ _ _ Hres).
Qed.

(** ** Which channels fire *)
Section lifecycle.
(** A record of the firings, kept in the subscribers' part of the heap *)
Variable log : U -> list (channel * nat).
Definition logged h : list (channel * nat) := log (r_user (h_rest h)).
Hypothesis fire_logs : forall c ref, moves logged (fun l => l ++ [(c, ref)]) (fire_channel E c ref).
Hypothesis call_silent : forall f a, moves logged id (call f a).
Hypothesis publish_silent : forall p, queue = Some p -> forall t v, moves logged id (p t v).

(** C34 The lifecycle of a task: [start] fires first, and if one of its
    subscribers raises, that is the task's outcome and nothing else happens.
    Otherwise at most one of [success] and [failure] fires, and then [complete],
    once, whatever the subscribers of the other channels raise; all of them are
    fired with the same context.  In SEQUENTIAL mode [success] fires if the task's
    function returned and [failure] if it raised an Exception (after a
    KeyboardInterrupt neither does).  In THREAD and PROCESS mode, against what the
    documentation of [run] says, it is [success] that fires, with [complete] after
    it, also when the function raised an Exception: no such task ever fires
    [failure]. *)
Theorem lifecycle a h :
  wired h ->
  exists ref h1, make_ctx clock cfg a h = (Ok ref, h1) /\
    match fire_channel E Start ref h1 with
    | (Raise e, h2) => exec a h = (Raise e, h2) /\ logged h2 = logged h ++ [(Start, ref)]
    | (Ok _, h2) =>
        exists ended,
          logged (exec a h).2 = logged h ++ map (fun c => (c, ref)) ([Start] ++ ended ++ [Complete]) /\
          ended = verdict (body a h2).1 /\
          match Executor.mode (h_tr h2) with
          | SEQUENTIAL => ended = verdict (call (func cfg) a h2).1
          | m =>
              let h3 := Executor.job_heap (func cfg) a h2 in
              Executor.crosses pickle m (func cfg) a -> Executor.tame_result (call (func cfg) a h3).1 ->
              h_tr (call (func cfg) a h3).2 = h_tr h3 -> ended = [Success]
          end
    end.
Proof.
  intros Hw. destruct (execute_shows logged (fun c ref l => l ++ [(c, ref)])) with (a := a) (h := h)
    as (ref & h1 & Hm & _ & _ & Hx); [done..|].
  exists ref, h1. split; [done|].
  destruct (fire_channel E Start ref h1) as [[[]|e] h2]; [|by destruct Hx as (? & _ & ?)].
  destruct Hx as (_ & _ & ->). exists (verdict (body a h2).1). unfold shown. split; [|split; [done|]].
  - generalize ([Start] ++ verdict (body a h2).1 ++ [Complete]) (logged h). intros cs.
    induction cs as [|c cs IH]; intros l; cbn; [by rewrite app_nil_r|]. by rewrite IH, <- app_assoc.
  - pose proof (pooled_body a h2) as Hp. cbv zeta in Hp. destruct (Executor.mode (h_tr h2)) eqn:Hmo.
    + unfold run_body, bind, get_tr, gets. by rewrite Hmo.
    + intros Hc Ht Ho. by rewrite (Hp ltac:(done) Hc Ht Ho).
    + intros Hc Ht Ho. by rewrite (Hp ltac:(done) Hc Ht Ho).
Qed.
End lifecycle.

(** ** The pool slot *)
Section slot.
Definition pool_of h : option TaskPool.state := r_pool (h_rest h).

(** The pool is [p] again, with no fewer tasks processed. *)
Definition balanced (p : TaskPool.state) h : Prop :=
  exists k, 0 <= k /\ pool_of h = Some (TaskPool.mkPool (TaskPool.max_instances p) (TaskPool.semaphore p)
    (TaskPool.active p) (TaskPool.total_processed p + k) (TaskPool.queued p)).

(** Functions, subscribers and the queue may use the runner's pool as [run] does: a
    slot that they take they give back. *)
Hypothesis fire_balanced : forall p c ref, keeps (balanced p) (fire_channel E c ref).
Hypothesis call_balanced : forall p f a, keeps (balanced p) (call f a).
Hypothesis publish_balanced : forall p, queue = Some p -> forall q t v, keeps (balanced q) (p t v).

Lemma balanced_refl p h : pool_of h = Some p -> balanced p h.
Proof. intros Hp. exists 0. split; [done|]. rewrite Hp. destruct p. cbn. do 2 f_equal. lia. Qed.

Lemma keeps_upd_ctx p ref f : keeps (balanced p) (upd_ctx (F := F) (S := S) (U := U) ref f).
Proof. by intros h Hh. Qed.

Lemma keeps_publish_quietly p suffix fields :
  keeps (balanced p) fields -> keeps (balanced p) (publish_quietly queue cfg suffix fields).
Proof.
  intros Hf. unfold publish_quietly. destruct queue as [pub|] eqn:Hq; [|apply keeps_ret].
  destruct (publish_result cfg); [|apply keeps_ret]. apply keeps_try_except; [|intros; apply keeps_ret].
  apply keeps_bind; [done|]. intros d. apply keeps_bind; [by apply publish_balanced|intros; apply keeps_ret].
Qed.

Lemma keeps_execute p a : keeps (balanced p) (exec a).
Proof.
  assert (forall A (d : A) ref f, keeps (balanced p) (read_ctx (F := F) (S := S) (U := U) d ref f)) as Hread
    by (intros; apply keeps_gets).
  unfold execute. apply keeps_bind; [by intros h Hh|]. intros ref. apply keeps_bind; [apply fire_balanced|]. intros _.
  unfold execute_from. apply keeps_try_finally; [|apply fire_balanced]. intros h Hh.
  pose proof (keeps_body (balanced p) a ltac:(done) ltac:(intros; apply call_balanced) h Hh) as Hb.
  destruct (body a h) as [[v|e] h1]; cbn [snd] in *; [|destruct (is_Exception e); [|done]]; revert h1 Hb.
  - apply (keeps_bind (balanced p)); [apply keeps_gets|]. intros now. apply keeps_bind; [apply keeps_upd_ctx|]. intros _.
    apply keeps_bind; [apply fire_balanced|]. intros _. apply keeps_bind; [|intros _; apply Hread].
    apply keeps_publish_quietly. repeat (apply keeps_bind; [apply Hread|intros ?]). apply keeps_ret.
  - apply (keeps_bind (balanced p)); [apply keeps_gets|]. intros now. apply keeps_bind; [apply keeps_upd_ctx|]. intros _.
    apply keeps_bind; [apply fire_balanced|]. intros _. apply keeps_bind; [|intros _; apply keeps_throw].
    apply keeps_publish_quietly. repeat (apply keeps_bind; [apply Hread|intros ?]). apply keeps_ret.
Qed.

Abbreviation run_task := (run call E clock thread_name process_name pickle queue cfg).

(** With a free slot *)
Lemma run_with_slot a p h : pool_of h = Some p -> 0 < TaskPool.semaphore p ->
  exists h1, balanced p (run_task a h).2 /\
    (exists q, pool_of (run_task a h).2 = Some q /\ TaskPool.total_processed p < TaskPool.total_processed q) /\
    (run_task a h).1 = match (exec a h1).1 with Ok v => Ok (Done v) | Raise e => Raise e end /\
    r_ctxs (h_rest h1) = r_ctxs (h_rest h) /\ r_user (h_rest h1) = r_user (h_rest h).
Proof.
  intros Hp Hs. unfold pool_of in Hp. destruct h as [n ex [po cs ch u]]. cbn in Hp. subst po.
  set (p1 := TaskPool.mkPool (TaskPool.max_instances p) (TaskPool.semaphore p - 1)
    (TaskPool.active p + 1) (TaskPool.total_processed p) (TaskPool.queued p + 1 - 1)).
  set (h1 := mkHeap n ex (mkR (Some p1) cs ch u)). exists h1.
  assert (on_pool (F := F) (S := S) (Done true) (TaskPool.acquire true (instance_timeout cfg))
    (mkHeap n ex (mkR (Some p) cs ch u)) = (Ok (Done true), h1)) as Ha.
  { unfold on_pool, TaskPool.acquire, TaskPool.sem_acquire, bind. cbn. by rewrite decide_True by done. }
  destruct (keeps_execute p1 a h1 (balanced_refl p1 h1 eq_refl)) as (k & Hk & Hc).
  destruct (exec a h1) as [r h2] eqn:He. unfold pool_of in Hc. cbn [snd] in Hc. set (p2 := TaskPool.mkPool _ _ _ _ _) in Hc.
  assert (run_task a (mkHeap n ex (mkR (Some p) cs ch u)) =
    (match r with Ok v => Ok (Done v) | Raise e => Raise e end,
     set_rest (set_pool (TaskPool.release p2).2 (h_rest h2)) h2)) as ->.
  { unfold run, get_rest, gets, bind. cbn [h_rest r_pool]. rewrite Ha. unfold try_finally. rewrite He.
    unfold on_pool. rewrite Hc. by destruct r. }
  split_and!; [|eexists; split; [reflexivity|cbn; lia]|done..].
  exists (k + 1). split; [lia|]. unfold pool_of. cbn. do 2 f_equal; lia.
Qed.

(** Without one *)
Lemma run_without_slot a p h : pool_of h = Some p -> TaskPool.semaphore p <= 0 -> instance_timeout cfg <> None ->
  run_task a h = (Raise (no_slot cfg), h).
Proof.
  intros Hp Hs Ht. unfold pool_of in Hp. destruct h as [n ex [po cs ch u]]. cbn in Hp. subst po.
  assert (on_pool (F := F) (S := S) (Done true) (TaskPool.acquire true (instance_timeout cfg))
    (mkHeap n ex (mkR (Some p) cs ch u)) = (Ok (Done false), mkHeap n ex (mkR (Some p) cs ch u))) as Ha.
  { unfold on_pool, TaskPool.acquire, TaskPool.sem_acquire, bind. cbn.
    rewrite decide_False by lia. rewrite bool_decide_eq_false_2 by done. cbn.
    do 4 f_equal. destruct p as [? ? ? ? q]. cbn. by replace (q + 1 - 1) with q by lia. }
  unfold run, get_rest, gets, bind. cbn [h_rest r_pool]. by rewrite Ha.
Qed.

(** C35 [run] gives its slot back, whatever the function, the subscribers and the
    queue raise, as long as they give back the slots of this pool that they take
    themselves.  When the pool has a free slot, the body runs, its outcome (an
    exception of the body or of a subscriber included) is the outcome of [run], and
    afterwards the semaphore and the active and queued counts are as before, with at
    least one more task processed; when no slot comes free in time, [run] raises
    TimeoutError and leaves everything as it was.  So [run] with a timeout is itself
    a statement that gives back what it takes, and a body may call its own task. *)
Theorem run_releases_slot a p h :
  pool_of h = Some p ->
  (0 < TaskPool.semaphore p ->
     exists h1, balanced p (run_task a h).2 /\
       (exists q, pool_of (run_task a h).2 = Some q /\ TaskPool.total_processed p < TaskPool.total_processed q) /\
       (run_task a h).1 = match (exec a h1).1 with Ok v => Ok (Done v) | Raise e => Raise e end /\
       r_ctxs (h_rest h1) = r_ctxs (h_rest h) /\ r_user (h_rest h1) = r_user (h_rest h)) /\
  (TaskPool.semaphore p <= 0 -> instance_timeout cfg <> None -> run_task a h = (Raise (no_slot cfg), h)) /\
  (instance_timeout cfg <> None -> forall p', keeps (balanced p') (run_task a)).
Proof.
  intros Hp. split; [by apply run_with_slot|]. split; [by apply run_without_slot|]. intros Ht p' h' (k & Hk & Hp').
  set (q := TaskPool.mkPool _ _ _ _ _) in Hp'. destruct (decide (0 < TaskPool.semaphore q)) as [Hs|Hs].
  - destruct (run_with_slot a q h' Hp' Hs) as (_ & (k' & Hk' & Hq) & _). exists (k + k'). split; [lia|].
    rewrite Hq. unfold q. cbn. by rewrite Z.add_assoc.
  - rewrite (run_without_slot a q h' Hp') by (done || lia). by exists k.
Qed.
End slot.

(** ** The outcome *)
Section outcome.
Definition ctx_at (ref : nat) h : option TaskContext := r_ctxs (h_rest h) !! ref.

(** Subscribers that return, and leave the existing contexts alone as functions
    and the queue do; publishing raises at most [Exception]s. *)
Definition polite {A} (m : M world A) : Prop :=
  forall h, wired h -> wired (m h).2 /\ forall ref, is_Some (ctx_at ref h) -> ctx_at ref (m h).2 = ctx_at ref h.
Hypothesis fire_polite : forall c ref, polite (fire_channel E c ref).
Hypothesis fire_returns : forall c ref h, wired h -> (fire_channel E c ref h).1 = Ok tt.
Hypothesis call_polite : forall f a, polite (call f a).
Hypothesis publish_polite : forall p, queue = Some p -> forall t v,
  polite (p t v) /\ forall h e, (p t v h).1 = Raise e -> is_Exception e = true.

Lemma body_polite a : polite (body a).
Proof.
  intros h Hw. split.
  - apply (keeps_body wired); [done| |done]. intros f a' h' Hw'. by apply call_polite.
  - intros ref [c Hc]. apply (keeps_body (fun h' => wired h' /\ ctx_at ref h' = ctx_at ref h)); [done| |done].
    intros f a' h' [Hw' Hr]. destruct (call_polite f a' h' Hw') as [? Hp]. split; [done|].
    rewrite Hp; [done|]. by rewrite Hr, Hc.
Qed.

Lemma fire_run c ref h :
  wired h -> exists h', fire_channel E c ref h = (Ok tt, h') /\ wired h' /\
    forall r, is_Some (ctx_at r h) -> ctx_at r h' = ctx_at r h.
Proof.
  intros Hw. pose proof (fire_polite c ref h Hw) as Hp. pose proof (fire_returns c ref h Hw) as Hr.
  destruct (fire_channel E c ref h) as [r h']. cbn in *. subst r. by exists h'.
Qed.

Lemma publish_quietly_polite suffix fields h :
  wired h -> (exists d, fields h = (Ok d, h)) ->
  exists h', publish_quietly queue cfg suffix fields h = (Ok tt, h') /\
    wired h' /\ forall r, is_Some (ctx_at r h) -> ctx_at r h' = ctx_at r h.
Proof.
  intros Hw [d Hd]. unfold publish_quietly. destruct queue as [p|] eqn:Hq; [|by exists h].
  destruct (publish_result cfg); [|by exists h].
  unfold try_except. rewrite (bind_run _ _ _ _ _ Hd). unfold bind.
  set (t := task_topic cfg +:+ suffix). destruct (publish_polite p eq_refl t (VDict d)) as [Hp He].
  specialize (He h). destruct (Hp h Hw) as [Hw' Hc].
  destruct (p t (VDict d) h) as [[i|e] h']; [by exists h'|]. cbn in *. rewrite (He e eq_refl). by exists h'.
Qed.

Lemma ctx_at_upd ref f h r :
  ctx_at r (upd_ctx (F := F) ref f h).2 = if decide (r = ref) then f <$> ctx_at ref h else ctx_at r h.
Proof.
  unfold ctx_at. cbn. case_decide; [subst; apply list_lookup_alter_eq | by apply list_lookup_alter_ne].
Qed.

(** After the context is updated by [g], what is fired and published leaves it. *)
Lemma fire_then_publish ch ref g suffix fields h c :
  wired h -> ctx_at ref h = Some c -> (forall h, exists d, fields h = (Ok d, h)) ->
  exists h', (forall A (k : M world A),
      (upd_ctx ref g ;;; fire_channel E ch ref ;;; publish_quietly queue cfg suffix fields ;;; k) h = k h') /\
    wired h' /\ ctx_at ref h' = Some (g c).
Proof.
  intros Hw Hc Hf. set (h1 := (upd_ctx (F := F) ref g h).2).
  assert (ctx_at ref h1 = Some (g c)) as H1.
  { unfold h1. rewrite ctx_at_upd, decide_True by done. by rewrite Hc. }
  destruct (fire_run ch ref h1 Hw) as (h2 & H2 & Hw2 & Hc2).
  destruct (publish_quietly_polite suffix fields h2 Hw2 (Hf h2)) as (h3 & H3 & Hw3 & Hc3).
  exists h3. split_and!; [|done|].
  - intros A k. rewrite (bind_run _ _ h tt h1) by done. by rewrite (bind_run _ _ _ _ _ H2), (bind_run _ _ _ _ _ H3).
  - by rewrite Hc3; rewrite Hc2; rewrite H1.
Qed.

Lemma success_outcome ref v h c :
  wired h -> ctx_at ref h = Some c ->
  exists h' t, on_success_path E clock queue cfg ref v h = (Ok v, h') /\
    wired h' /\ ctx_at ref h' = Some (with_end_time t (with_result v c)).
Proof.
  intros Hw Hc. unfold on_success_path. rewrite (bind_run _ _ h (clock h) h) by done.
  match goal with |- context [publish_quietly _ _ ?s ?f] =>
    destruct (fire_then_publish Success ref (fun c => with_end_time (clock h) (with_result v c)) s f h c Hw Hc)
      as (h' & Hr & Hw' & Hc'); [by eexists|] end.
  exists h', (clock h). split; [|by split].
  rewrite Hr. unfold ctx_at in Hc'. unfold read_ctx, gets. by rewrite Hc'.
Qed.

Lemma failure_outcome ref e h c :
  wired h -> ctx_at ref h = Some c ->
  exists h' t, on_failure_path E clock queue cfg ref e h = (Raise e, h') /\
    wired h' /\ ctx_at ref h' = Some (with_end_time t (with_error e c)).
Proof.
  intros Hw Hc. unfold on_failure_path. rewrite (bind_run _ _ h (clock h) h) by done.
  match goal with |- context [publish_quietly _ _ ?s ?f] =>
    destruct (fire_then_publish Failure ref (fun c => with_end_time (clock h) (with_error e c)) s f h c Hw Hc)
      as (h' & Hr & Hw' & Hc'); [by eexists|] end.
  exists h', (clock h). split; [|by split].
  by rewrite Hr.
Qed.

Lemma execute_from_outcome ref a h c :
  wired (body a h).2 -> ctx_at ref (body a h).2 = Some c -> ctx_error c = None -> ctx_result c = VNone ->
  exists h' c', execute_from call E clock thread_name process_name pickle queue cfg ref a h = ((body a h).1, h') /\
    ctx_at ref h' = Some c' /\ ctx_args c' = ctx_args c /\
    match (body a h).1 with
    | Ok v => ctx_result c' = v /\ ctx_error c' = None
    | Raise e => ctx_error c' = (if is_Exception e then Some e else None) /\ ctx_result c' = VNone
    end.
Proof.
  intros Hw Hc He Hr.
  assert (forall (r : result val) h3 c', wired h3 -> ctx_at ref h3 = Some c' ->
    exists h', (let '(r, w1) := (r, h3) in match fire_channel E Complete ref w1 with
      | (Ok _, w2) => (r, w2) | (Raise e, w2) => (Raise e, w2) end) = (r, h') /\ ctx_at ref h' = Some c') as Hfin.
  { intros r h3 c' H3 Hc3. destruct (fire_run Complete ref h3 H3) as (h4 & -> & _ & H4). exists h4.
    split; [done|]. by rewrite H4; rewrite Hc3. }
  unfold execute_from, try_finally. destruct (body a h) as [[v|e] hb]; cbn [fst snd] in *.
  - destruct (success_outcome ref v hb c Hw Hc) as (h3 & t & -> & Hw3 & Hc3).
    destruct (Hfin (Ok v) h3 _ Hw3 Hc3) as (h' & -> & Hc'). by do 2 eexists.
  - destruct (is_Exception e) eqn:Hex.
    + destruct (failure_outcome ref e hb c Hw Hc) as (h3 & t & -> & Hw3 & Hc3).
      destruct (Hfin (Raise e) h3 _ Hw3 Hc3) as (h' & -> & Hc'). by do 2 eexists.
    + destruct (Hfin (Raise e) hb _ Hw Hc) as (h' & -> & Hc'). by do 2 eexists.
Qed.

(** A task is transparent: with subscribers that return and leave the
    contexts alone, calling the task returns what its body returns and raises what
    its body raises (publishing the result or failing to does not change that), and
    the context then tells the same: the result, or the error. *)
Theorem task_outcome a h :
  wired h ->
  exists ref h2 h' c,
    (exists h1, make_ctx clock cfg a h = (Ok ref, h1) /\ fire_channel E Start ref h1 = (Ok tt, h2)) /\
    exec a h = ((body a h2).1, h') /\ ctx_at ref h' = Some c /\ ctx_args c = pos a /\
    match (body a h2).1 with
    | Ok v => ctx_result c = v /\ ctx_error c = None
    | Raise e => ctx_error c = (if is_Exception e then Some e else None) /\ ctx_result c = VNone
    end.
Proof.
  intros Hw. destruct (make_ctx clock cfg a h) as [[ref|e] h1] eqn:Hm; [|done].
  assert (wired h1 /\ exists c, ctx_at ref h1 = Some c /\ ctx_args c = pos a /\ ctx_error c = None /\ ctx_result c = VNone)
    as (Hw1 & c & Hc & Ha & He & Hr).
  { unfold make_ctx, new_uuid, gets, get_rest, new_ctx, bind in Hm. injection Hm as <- <-. split; [done|].
    unfold ctx_at. cbn. rewrite list_lookup_middle by done. eexists. split; [done|]. done. }
  destruct (fire_run Start ref h1 Hw1) as (h2 & Hf & Hw2 & Hc2).
  destruct (body_polite a h2 Hw2) as [Hwb Hcb].
  assert (ctx_at ref (body a h2).2 = Some c) as Hc3 by (rewrite Hcb; rewrite Hc2; rewrite Hc; done).
  destruct (execute_from_outcome ref a h2 c Hwb Hc3 He Hr) as (h' & c' & Hx & ? & Hargs & ?).
  exists ref, h2, h', c'. split; [by exists h1|]. split.
  - unfold execute. by rewrite (bind_run _ _ _ _ _ Hm), (bind_run _ _ _ _ _ Hf).
  - by rewrite Hargs.
Qed.
End outcome.

(** ** What a task publishes *)
Section published.
Context {B C : Type}.
Variable I : world -> Prop.
(** What publishing shows and nothing else moves; what the body moves and nothing
    else does *)
Variable obs : world -> B.
Variable seen : world -> C.
(** What publishing does to what it shows *)
Variable pub : string -> val -> B -> B -> Prop.

Definition calm h h' : Prop :=
  I h' /\ seen h' = seen h /\ r_ctxs (h_rest h') = r_ctxs (h_rest h).

Hypothesis own_ctxs : forall n l h, (h_uuid h <= n)%nat -> I h ->
  let h' := mkHeap n (h_tr h) (set_ctxs l (h_rest h)) in I h' /\ obs h' = obs h /\ seen h' = seen h.
Hypothesis fires : forall c ref h, I h ->
  exists h', fire_channel E c ref h = (Ok tt, h') /\ calm h h' /\ obs h' = obs h.
Hypothesis runs : forall a h, I h ->
  I (body a h).2 /\ obs (body a h).2 = obs h /\ r_ctxs (h_rest (body a h).2) = r_ctxs (h_rest h) /\
  forall e, (body a h).1 = Raise e -> is_Exception e = true.
Variable publish : string -> val -> M world string.
Hypothesis has_queue : queue = Some publish /\ publish_result cfg = true.
Hypothesis publishes : forall suffix v h, suffix = ".success" \/ suffix = ".failure" -> I h ->
  let t := task_topic cfg +:+ suffix in
  exists r h', publish t v h = (r, h') /\ calm h h' /\ pub t v (obs h) (obs h') /\
    forall e, r = Raise e -> is_Exception e = true.

Definition success_fields (c : TaskContext) : list (val * val) :=
  [(VStr "task_id", VStr (ctx_task_id c)); (VStr "result", ctx_result c);
   (VStr "execution_time", VInt (ctx_execution_time c))].
Definition failure_fields (e : exn) (c : TaskContext) : list (val * val) :=
  [(VStr "task_id", VStr (ctx_task_id c)); (VStr "error", VStr (exn_str e));
   (VStr "error_type", VStr (exn_type e)); (VStr "execution_time", VInt (ctx_execution_time c))].

Lemma publishes_quietly suffix fields d h :
  suffix = ".success" \/ suffix = ".failure" -> I h -> fields h = (Ok d, h) ->
  exists h', publish_quietly queue cfg suffix fields h = (Ok tt, h') /\ calm h h' /\
    pub (task_topic cfg +:+ suffix) (VDict d) (obs h) (obs h').
Proof.
  intros Hx HI Hd. unfold publish_quietly. destruct has_queue as [-> ->].
  destruct (publishes suffix (VDict d) h Hx HI) as (r & h' & Hp & Hc & Hb & He).
  exists h'. split; [|done]. unfold try_except. rewrite (bind_run _ _ _ _ _ Hd). unfold bind. rewrite Hp.
  destruct r as [i|e]; [done|]. by rewrite (He e eq_refl).
Qed.

(** The context is completed by [g], a channel fires, the event is published. *)
Lemma concludes ch g suffix fields d l c h :
  suffix = ".success" \/ suffix = ".failure" -> I h -> r_ctxs (h_rest h) = l ++ [c] ->
  (forall h', r_ctxs (h_rest h') = l ++ [g c] -> fields h' = (Ok d, h')) ->
  exists h', (forall A (k : M world A),
      (upd_ctx (length l) g ;;; fire_channel E ch (length l) ;;;
       publish_quietly queue cfg suffix fields ;;; k) h = k h') /\
    I h' /\ seen h' = seen h /\ r_ctxs (h_rest h') = l ++ [g c] /\
    pub (task_topic cfg +:+ suffix) (VDict d) (obs h) (obs h').
Proof.
  intros Hx HI Hc Hf. set (h1 := set_rest (set_ctxs (l ++ [g c]) (h_rest h)) h).
  destruct (own_ctxs (h_uuid h) (l ++ [g c]) h (le_n _) HI) as (I1 & O1 & S1).
  change (mkHeap _ _ _) with h1 in I1, O1, S1.
  destruct (fires ch (length l) h1 I1) as (h2 & R2 & (I2 & S2 & C2) & O2).
  destruct (publishes_quietly suffix fields d h2 Hx I2) as (h3 & R3 & (I3 & S3 & C3) & P3); [apply Hf; by rewrite C2|].
  exists h3. split_and!; [|done|congruence| |].
  - intros A k. rewrite (bind_run _ _ h tt h1).
    + by rewrite (bind_run _ _ _ _ _ R2), (bind_run _ _ _ _ _ R3).
    + unfold upd_ctx, upd_rest, modify, h1. by rewrite Hc, alter_last.
  - by rewrite C3, C2.
  - by rewrite <- O1, <- O2.
Qed.

Lemma completes ref h r :
  I h -> exists h', (let '(r, w1) := (r, h) in match fire_channel E Complete ref w1 with
      | (Ok _, w2) => (r, w2) | (Raise e, w2) => (@Raise val e, w2) end) = (r, h') /\ calm h h' /\ obs h' = obs h.
Proof. intros HI. destruct (fires Complete ref h HI) as (h' & -> & ?). by exists h'. Qed.

(** A task with a queue runs its body once and publishes one event: what the
    subscribers see of the body's effects is [seen], of the event [obs]. *)
Lemma execute_publishes a h :
  I h ->
  exists h2 h' c, I h2 /\ obs h2 = obs h /\ seen h2 = seen h /\
    exec a h = ((body a h2).1, h') /\ I h' /\ seen h' = seen (body a h2).2 /\
    r_ctxs (h_rest h') = r_ctxs (h_rest h) ++ [c] /\ ctx_args c = pos a /\ ctx_task_id c = uuid4 (h_uuid h) /\
    match (body a h2).1 with
    | Ok v => ctx_result c = v /\ pub (task_topic cfg +:+ ".success") (VDict (success_fields c)) (obs h) (obs h')
    | Raise e => ctx_error c = Some e /\
        pub (task_topic cfg +:+ ".failure") (VDict (failure_fields e c)) (obs h) (obs h')
    end.
Proof.
  intros HI. destruct (make_ctx clock cfg a h) as [[ref|e] h1] eqn:Hm; [|done].
  unfold make_ctx, new_uuid, gets, get_rest, new_ctx, bind in Hm. cbn in Hm.
  match type of Hm with context [_ ++ [?c]] => set (c0 := c) in Hm end.
  injection Hm as Href Hh1. set (l := r_ctxs (h_rest h)) in *. subst ref.
  destruct (own_ctxs (Datatypes.S (h_uuid h)) (l ++ [c0]) h ltac:(lia) HI) as (I1 & O1 & S1). cbn in I1, O1, S1.
  assert (h1 = mkHeap (Datatypes.S (h_uuid h)) (h_tr h) (set_ctxs (l ++ [c0]) (h_rest h))) as E1 by by subst h1.
  rewrite <- E1 in I1, O1, S1.
  destruct (fires Start (length l) h1 I1) as (h2 & R2 & (I2 & S2 & C2) & O2).
  destruct (runs a h2 I2) as (I3 & O3 & C3 & He).
  assert (r_ctxs (h_rest (body a h2).2) = l ++ [c0]) as C3' by (rewrite C3, C2, E1; done).
  assert (exec a h = execute_from call E clock thread_name process_name pickle queue cfg (length l) a h2) as ->.
  { unfold execute. rewrite (bind_run _ _ h (length l) h1); [|by rewrite E1]. by rewrite (bind_run _ _ _ _ _ R2). }
  exists h2. unfold execute_from, try_finally. set (b := body a h2) in *. clearbody b.
  destruct b as [[v|e] h3]; cbn [fst snd] in *.
  - unfold on_success_path. rewrite (bind_run _ _ h3 (clock h3) h3) by done.
    match goal with |- context [publish_quietly _ _ ?s ?f] =>
      destruct (concludes Success (fun c => with_end_time (clock h3) (with_result v c)) s f
        (success_fields (with_end_time (clock h3) (with_result v c0))) l c0 h3 ltac:(auto) I3 C3')
        as (h4 & R4 & I4 & S4 & C4 & P4) end.
    { intros h' Hc. unfold bind, read_ctx, gets, ret. by rewrite Hc, !list_lookup_middle. }
    rewrite R4. unfold read_ctx, gets. rewrite C4, list_lookup_middle by done. change (ctx_result (with_end_time _ _)) with v.
    destruct (completes (length l) h4 (Ok v) I4) as (h5 & R5 & (I5 & S5 & C5) & O5). rewrite R5.
    exists h5, (with_end_time (clock h3) (with_result v c0)).
    split_and!; [done|congruence..|done|congruence|by rewrite C5|done|done|done|].
    by rewrite O5, <- O1, <- O2, <- O3.
  - rewrite (He e eq_refl). unfold on_failure_path. rewrite (bind_run _ _ h3 (clock h3) h3) by done.
    match goal with |- context [publish_quietly _ _ ?s ?f] =>
      destruct (concludes Failure (fun c => with_end_time (clock h3) (with_error e c)) s f
        (failure_fields e (with_end_time (clock h3) (with_error e c0))) l c0 h3 ltac:(auto) I3 C3')
        as (h4 & R4 & I4 & S4 & C4 & P4) end.
    { intros h' Hc. unfold bind, read_ctx, gets, ret. by rewrite Hc, !list_lookup_middle. }
    rewrite R4. unfold throw at 1.
    destruct (completes (length l) h4 (Raise e) I4) as (h5 & R5 & (I5 & S5 & C5) & O5). rewrite R5.
    exists h5, (with_end_time (clock h3) (with_error e c0)).
    split_and!; [done|congruence..|done|congruence|by rewrite C5|done|done|done|].
    by rewrite O5, <- O1, <- O2, <- O3.
Qed.
End published.

End facts.
End TaskRunner.

(** * A task whose subscribers record what is fired *)
Module TaskToy.
Abbreviation rstate := (TaskRunner.rstate TaskRunner.channel (list (TaskRunner.channel * nat))).
Abbreviation world := (heap (Executor.state nat) rstate).

(** Functions are numbers; the odd ones raise. *)
Definition run (f : nat) (_ : pyargs) : M world val :=
  if Nat.odd f then throw (Exc "ValueError" "odd") else ret (VInt (Z.of_nat f)).

(** A subscriber records the channel and the context; with [rude] the one of
    [success] then raises. *)
Definition notice (rude : bool) (c : TaskRunner.channel) (ref : nat) : M world val :=
  upd_rest (fun r => TaskRunner.mkR (TaskRunner.r_pool r) (TaskRunner.r_ctxs r) (TaskRunner.r_chans r)
                       (TaskRunner.r_user r ++ [(c, ref)])) ;;;
  match c with
  | TaskRunner.Success => if rude then throw (Exc "RuntimeError" "rude") else ret VNone
  | _ => ret VNone
  end.

Definition E (rude : bool) : env world TaskRunner.channel nat := plain_env (notice rude).

Definition chans : TaskRunner.channel -> Eventful TaskRunner.channel :=
  TaskRunner.init_channels (Some TaskRunner.Start) (Some TaskRunner.Success)
    (Some TaskRunner.Failure) (Some TaskRunner.Complete).

Definition w0 (m : ExecutionMode) (n : option Z) : world :=
  mkHeap 0 (Executor.init m)
    (TaskRunner.mkR (match TaskRunner.init_pool n with Ok p => p | Raise _ => None end) [] chans []).

Definition publish (_ : string) (_ : val) : M world string := throw (Exc "TransportError" "down").

Definition cfg (f : nat) : TaskRunner.settings nat :=
  TaskRunner.mkSettings f "f" "t" true None (Some 1).

Abbreviation queue := (Some publish).
Abbreviation clock := (fun _ : world => 0).
Abbreviation name := (fun _ : world => "w").
Abbreviation pickle := (fun _ : Executor.pickled nat => None).

Lemma run_same f a h : (run f a h).2 = h.
Proof. unfold run. by destruct (Nat.odd f). Qed.

Lemma fire_chan rude c ref h :
  TaskRunner.wired chans h ->
  (TaskRunner.fire_channel (E rude) c ref h).2 =
    set_rest (TaskRunner.mkR (TaskRunner.r_pool (h_rest h)) (TaskRunner.r_ctxs (h_rest h))
      (TaskRunner.r_chans (h_rest h)) (TaskRunner.r_user (h_rest h) ++ [(c, ref)])) h /\
  (rude = false -> (TaskRunner.fire_channel (E rude) c ref h).1 = Ok tt).
Proof.
  destruct h as [n t [po cs ch u]]. unfold TaskRunner.wired. cbn [h_rest TaskRunner.r_chans]. intros ->.
  by destruct c, rude.
Qed.
End TaskToy.

(** A function that returns, its [success] subscriber raising, and one that raises,
    run inline and in a thread *)
Lemma lifecycle_witness :
  let fired rude f m := map fst (TaskRunner.r_user (h_rest
    (TaskRunner.execute TaskToy.run (TaskToy.E rude) TaskToy.clock TaskToy.name TaskToy.name TaskToy.pickle
       TaskToy.queue (TaskToy.cfg f) (mkArgs [] []) (TaskToy.w0 m None)).2)) in
  fired true 4%nat SEQUENTIAL = [TaskRunner.Start; TaskRunner.Success; TaskRunner.Complete] /\
  fired false 3%nat SEQUENTIAL = [TaskRunner.Start; TaskRunner.Failure; TaskRunner.Complete] /\
  fired false 3%nat THREAD = [TaskRunner.Start; TaskRunner.Success; TaskRunner.Complete].
Proof.
  cbv zeta.
  assert (forall rude f m, exists ref h2 ended,
    TaskRunner.logged id (TaskRunner.execute TaskToy.run (TaskToy.E rude) TaskToy.clock TaskToy.name TaskToy.name
      TaskToy.pickle TaskToy.queue (TaskToy.cfg f) (mkArgs [] []) (TaskToy.w0 m None)).2 =
      map (fun c => (c, ref)) ([TaskRunner.Start] ++ ended ++ [TaskRunner.Complete]) /\
    Executor.mode (h_tr h2) = m /\
    ended = TaskRunner.verdict (if decide (m = SEQUENTIAL) then (TaskToy.run f (mkArgs [] []) h2).1 else Ok VNone)) as Hall.
  { intros rude f m.
    destruct (TaskRunner.lifecycle TaskToy.run (TaskToy.E rude) TaskToy.clock TaskToy.name TaskToy.name TaskToy.pickle
      TaskToy.queue (TaskToy.cfg f) TaskToy.chans id) with (a := mkArgs [] []) (h := TaskToy.w0 m None)
      as (ref & h1 & Hm & Hx).
    - intros c ref h Hw. destruct (TaskToy.fire_chan rude c ref h Hw) as [-> _]. split; [exact Hw|reflexivity].
    - intros g a h Hw. rewrite TaskToy.run_same. split; [exact Hw|reflexivity].
    - intros p [= <-] t v h Hw. split; [exact Hw|reflexivity].
    - reflexivity.
    - injection Hm as <- <-.
      match type of Hx with match ?g with _ => _ end => set (o := g) in Hx; vm_compute in o; subst o end.
      cbv beta iota zeta in Hx. destruct Hx as (ended & Hl & _ & Hm).
      eexists 0%nat, _, ended. split; [exact Hl|]. split; [|].
      2: { destruct m; cbn [Executor.mode h_tr] in Hm; [exact Hm|..];
             (rewrite decide_False by discriminate; apply Hm; [intros _; split; [done|split; [done|discriminate]]| |by rewrite TaskToy.run_same]);
             unfold TaskToy.run; by destruct (Nat.odd _). }
      reflexivity. }
  split; [|split].
  - destruct (Hall true 4%nat SEQUENTIAL) as (ref & h2 & ended & Hl & _ & ->).
    unfold TaskRunner.logged, id in Hl. rewrite Hl. reflexivity.
  - destruct (Hall false 3%nat SEQUENTIAL) as (ref & h2 & ended & Hl & _ & ->).
    unfold TaskRunner.logged, id in Hl. rewrite Hl. reflexivity.
  - destruct (Hall false 3%nat THREAD) as (ref & h2 & ended & Hl & _ & ->).
    unfold TaskRunner.logged, id in Hl. rewrite Hl. reflexivity.
Defined.

(** A function that calls the task [cfg 4] on the same pool *)
Definition nested_call (f : nat) (a : pyargs) : M TaskToy.world val :=
  let! r := TaskRunner.run TaskToy.run (TaskToy.E true) TaskToy.clock TaskToy.name TaskToy.name TaskToy.pickle
    TaskToy.queue (TaskToy.cfg 4) a in
  match r with Done v => ret v | Waiting => throw TaskRunner.blocked end.

(** The function runs its own task, whose [success] subscriber raises: both slots
    are given back. *)
Lemma run_releases_slot_witness :
  let o := TaskRunner.run nested_call (TaskToy.E true) TaskToy.clock TaskToy.name TaskToy.name
    TaskToy.pickle TaskToy.queue (TaskToy.cfg 5) (mkArgs [] []) (TaskToy.w0 SEQUENTIAL (Some 2)) in
  o.1 = Raise (Exc "RuntimeError" "rude") /\
  TaskRunner.balanced (TaskPool.mkPool 2 2 0 0 0) o.2 /\ TaskRunner.pool_of o.2 = Some (TaskPool.mkPool 2 2 0 2 0).
Proof.
  assert (forall p c ref, keeps (TaskRunner.balanced p) (TaskRunner.fire_channel (TaskToy.E true) c ref)) as Hfire.
  { intros p c ref. apply keeps_bind; [apply keeps_gets|]. intros r. apply keeps_fire. split; try by intros.
    - intros f a h Hh. destruct f; exact Hh.
    - intros f h Hh. exact Hh.
    - intros r' f a h Hh. exact Hh. }
  split; [vm_compute; reflexivity|]. split; [|vm_compute; reflexivity].
  destruct (TaskRunner.run_releases_slot nested_call (TaskToy.E true) TaskToy.clock TaskToy.name TaskToy.name
    TaskToy.pickle TaskToy.queue (TaskToy.cfg 5) Hfire) with (a := mkArgs [] []) (p := TaskPool.mkPool 2 2 0 0 0)
    (h := TaskToy.w0 SEQUENTIAL (Some 2)) as (Hrun & _).
  - intros p f a. apply keeps_bind; [|intros [v|]; [apply keeps_ret|apply keeps_throw]].
    apply (TaskRunner.run_releases_slot TaskToy.run (TaskToy.E true) TaskToy.clock TaskToy.name TaskToy.name
      TaskToy.pickle TaskToy.queue (TaskToy.cfg 4) Hfire) with (p := TaskPool.mkPool 2 2 0 0 0)
      (h := TaskToy.w0 SEQUENTIAL (Some 2)).
    + intros q g b h Hh. unfold TaskToy.run. by destruct (Nat.odd g).
    + intros pub [= <-] q t v h Hh. exact Hh.
    + reflexivity.
    + discriminate.
  - intros pub [= <-] q t v h Hh. exact Hh.
  - reflexivity.
  - destruct Hrun as (h1 & Hp & _); [reflexivity|exact Hp].
Defined.

Lemma task_outcome_witness :
  (TaskRunner.execute TaskToy.run (TaskToy.E false) TaskToy.clock TaskToy.name TaskToy.name TaskToy.pickle
     TaskToy.queue (TaskToy.cfg 3) (mkArgs [] []) (TaskToy.w0 SEQUENTIAL None)).1 =
  Raise (Exc "ValueError" "odd").
Proof.
  destruct (TaskRunner.task_outcome TaskToy.run (TaskToy.E false) TaskToy.clock TaskToy.name TaskToy.name
    TaskToy.pickle TaskToy.queue (TaskToy.cfg 3) TaskToy.chans) with (a := mkArgs [] [])
    (h := TaskToy.w0 SEQUENTIAL None) as (ref & h2 & h' & c & (h1 & Hm & Hf) & Hx & _).
  - intros c ref h Hw. destruct (TaskToy.fire_chan false c ref h Hw) as [-> _]. split; [exact Hw|reflexivity].
  - intros c ref h Hw. apply (TaskToy.fire_chan false c ref h Hw). reflexivity.
  - intros f a h Hw. rewrite TaskToy.run_same. split; [exact Hw|reflexivity].
  - intros p [= <-] t v. split; [intros h Hw; split; [exact Hw|reflexivity]|]. intros h e [= <-]. reflexivity.
  - reflexivity.
  - rewrite Hx. vm_compute in Hm. injection Hm as <- <-. vm_compute in Hf. injection Hf as <-. reflexivity.
Defined.
