(* ===== verification/TaskQueue.v ===== *)
(** * [@task] on a queue: [eventforge/task.py] over [eventforge/queue.py]

    The decorated functions of a process, their runners and executors, next to one
    [MessageQueue] over a [MemoryTransport].  A runner is a statement over its own
    heap (TaskRunner) and a queue over another (Queue); here they are two views of
    one heap.  What the program passes in, functions, subscribers and handlers, is
    given the environment of the queue, so that it may publish, call tasks and be
    called again.  Python bounds the depth of calls: [handlers d] runs handlers
    nested at most [d] deep and raises RecursionError below. *)
From Stdlib Require Import QArith.
From S2P Require Import Prelude PyDict Types Topics Transport Memory Observers Queue TaskPool Executor TaskRunner.
#[local] Open Scope Z_scope.

Module TaskQueue.

(** A handler: the closure [queue_handler] of a task, or one of the program's own *)
Inductive hnd (H : Type) : Type :=
  | TaskHandler (i : nat)
  | UserHandler (h : H).
Arguments TaskHandler {H} i.
Arguments UserHandler {H} h.

#[export] Instance hnd_eq_dec {H} `{!EqDecision H} : EqDecision (hnd H).
Proof. solve_decision. Defined.

(** A [TaskRunner] object *)
Record task (F S : Type) : Type := mkTask {
  t_cfg : TaskRunner.settings F;
  t_executor : nat;
  t_queue : bool;                            (** whether it was given the queue *)
  t_pool : option TaskPool.state;
  t_ctxs : list TaskContext;
  t_chans : TaskRunner.channel -> Eventful S;
}.
Arguments mkTask {F S} _ _ _ _ _ _.
Arguments t_cfg {F S} _.
Arguments t_executor {F S} _.
Arguments t_queue {F S} _.
Arguments t_pool {F S} _.
Arguments t_ctxs {F S} _.
Arguments t_chans {F S} _.

Record parts (F S V : Type) : Type := mkParts {
  tasks : list (task F S);
  executors : list (Executor.state F);
  user : V;
}.
Arguments mkParts {F S V} _ _ _.
Arguments tasks {F S V} _.
Arguments executors {F S V} _.
Arguments user {F S V} _.

Section TaskQueue.
Context {F S H V : Type} `{!EqDecision S, !EqDecision H}.
Abbreviation transport := (MemoryTransport.state chan_cb).
Abbreviation qrest := (qstate (hnd H) * parts F S V)%type.
Abbreviation qworld := (heap transport qrest).
Abbreviation rworld := (heap (Executor.state F) (TaskRunner.rstate S (transport * qrest))).
Abbreviation qenv := (env qworld (hnd H) Message).
Implicit Types (h : qworld) (w : rworld) (t : task F S) (E : qenv).

(** *** The two views *)
Definition to_runner t h : rworld :=
  mkHeap (h_uuid h)
    (default (Executor.init SEQUENTIAL) (executors (h_rest h).2 !! t_executor t))
    (TaskRunner.mkR (t_pool t) (t_ctxs t) (t_chans t) (h_tr h, h_rest h)).

(** The runner [t], as it is in [w] *)
Definition stored t w : task F S :=
  mkTask (t_cfg t) (t_executor t) (t_queue t)
    (TaskRunner.r_pool (h_rest w)) (TaskRunner.r_ctxs (h_rest w)) (TaskRunner.r_chans (h_rest w)).

Definition to_queue (i : nat) t w : qworld :=
  let '(tr, (q, p)) := TaskRunner.r_user (h_rest w) in
  mkHeap (h_uuid w) tr
    (q, mkParts (<[i := stored t w]> (tasks p)) (<[t_executor t := h_tr w]> (executors p)) (user p)).

Definition no_task : exn := BaseExc "NoSuchTask" "".

(** What runner [i] does, seen by the queue; what is done outside, seen by the runner *)
Definition in_runner {A} (i : nat) (m : task F S -> M rworld A) : M qworld A := fun h =>
  match tasks (h_rest h).2 !! i with
  | Some t => let '(r, w) := m t (to_runner t h) in (r, to_queue i t w)
  | None => (Raise no_task, h)
  end.

Definition in_queue {A} (i : nat) t (m : M qworld A) : M rworld A := fun w =>
  let '(r, h) := m (to_queue i t w) in
  match tasks (h_rest h).2 !! i with
  | Some t' => (r, to_runner t' h)
  | None => (Raise no_task, w)
  end.

Definition with_call {W G Args} (c : G -> Args -> M W val) (E : env W G Args) : env W G Args :=
  mkEnv W G Args c (as_node E) (other_load E) (in_flight E) (set_in_flight E) (rr_idx E) (set_rr_idx E)
    (Observers.submit E) (class_subs E).

(** *** The program's own parts *)
Variable func_call : qenv -> F -> pyargs -> M qworld val.
(** A subscriber of a lifecycle channel of task [i], with the reference of a context *)
Variable listen : qenv -> nat -> S -> nat -> M qworld val.
Variable listeners : nat -> env rworld S nat.
Variable user_handler : qenv -> H -> Message -> M qworld val.
Variable base : qenv.
Variable clock : qworld -> Z.
Variables thread_name process_name : qworld -> string.
Variable pickle : Executor.pickled F -> option exn.

(** *** A runner on the queue *)
Section runner.
Variables (E : qenv) (i : nat) (t : task F S).

Definition function : F -> pyargs -> M rworld val := fun f a => in_queue i t (func_call E f a).
Definition channels : env rworld S nat := with_call (fun s ref => in_queue i t (listen E i s ref)) (listeners i).
Definition publisher : option (string -> val -> M rworld string) :=
  if t_queue t
  then Some (fun name v => in_queue i t (publish (TR := Local.local_transport E) clock name v []))
  else None.
Definition at_queue {A} (f : qworld -> A) : rworld -> A := fun w => f (to_queue i t w).

Definition run_in (a : pyargs) : M rworld (wait val) :=
  TaskRunner.run function channels (at_queue clock) (at_queue thread_name) (at_queue process_name) pickle
    publisher (t_cfg t) a.
Definition handle_in (msg : Message) : M rworld (wait val) :=
  TaskRunner.queue_handler function channels (at_queue clock) (at_queue thread_name) (at_queue process_name) pickle
    publisher (t_cfg t) msg.
End runner.

(** Calling the decorated function *)
Definition call_task (E : qenv) (i : nat) (a : pyargs) : M qworld (wait val) :=
  in_runner i (fun t => run_in E i t a).

Definition serve_task (E : qenv) (i : nat) (msg : Message) : M qworld val :=
  let! r := in_runner i (fun t => handle_in E i t msg) in
  match r with
  | Done v => ret v
  | Waiting => throw TaskRunner.blocked
  end.

Definition RecursionError : exn := Exc "RecursionError" "maximum recursion depth exceeded".

Fixpoint handlers (depth : nat) : qenv :=
  with_call (fun f msg =>
    match depth with
    | O => throw RecursionError
    | Datatypes.S d =>
        match f with
        | TaskHandler i => serve_task (handlers d) i msg
        | UserHandler f => user_handler (handlers d) f msg
        end
    end) base.

(** *** [task(...)(func)] *)
Definition upd_parts (f : parts F S V -> parts F S V) : M qworld unit :=
  upd_rest (fun r => (r.1, f r.2)).

Definition new_executor : M qworld nat := fun h =>
  (Ok (length (executors (h_rest h).2)),
   (upd_parts (fun p => mkParts (tasks p) (executors p ++ [Executor.init SEQUENTIAL]) (user p)) h).2).

Definition new_task t : M qworld nat := fun h =>
  (Ok (length (tasks (h_rest h).2)),
   (upd_parts (fun p => mkParts (tasks p ++ [t]) (executors p) (user p)) h).2).

(** What the wrapper carries; [state], [pool], the channels and [on], [fire],
    [subscribe] are those of the runner. *)
Record wrapper : Type := mkWrapper {
  _runner : nat;
  _task : bool;
  _topic : string;
  _executor : nat;
}.

Definition decorator (queue : bool) (topic : option string) (executor : option nat)
    (on_execute : list (TaskRunner.observer (F := F) (S := S) (U := transport * qrest)))
    (on_success on_failure on_complete : option S) (publish_result : bool)
    (max_instances instance_timeout : option Z) (func : F) (name : string) : M qworld wrapper :=
  let! resolved := match executor with Some e => ret e | None => new_executor end in
  let topic := if opt_truthy topic then default name topic else name in
  let! runner := new_task
    (mkTask (TaskRunner.mkSettings func name topic publish_result max_instances instance_timeout)
       resolved queue None [] TaskRunner.new_channels) in
  in_runner runner (fun _ =>
    TaskRunner.init_runner on_execute None on_success on_failure on_complete max_instances) ;;;
  (if queue
   then subscribe (TR := Local.local_transport base) topic (TaskHandler runner) ;;; ret tt
   else ret tt) ;;;
  ret (mkWrapper runner true topic resolved).

Definition wrapper_on (x : wrapper) (event : string) (fn : S) : M qworld S :=
  in_runner (_runner x) (fun _ => TaskRunner.runner_on event fn).

Definition wrapper_fire (E : qenv) (x : wrapper) (event : string) (ref : nat) : M qworld unit :=
  in_runner (_runner x) (fun t => TaskRunner.runner_fire (channels E (_runner x) t) event ref).

(** * Facts *)

(** ** The views are one heap *)
Definition valid (i : nat) t (p : parts F S V) : Prop :=
  is_Some (tasks p !! i) /\ is_Some (executors p !! t_executor t).
Definition parts_of w : parts F S V := (TaskRunner.r_user (h_rest w)).2.2.

Lemma to_queue_runner i t t' h s :
  tasks (h_rest h).2 !! i = Some t' -> t_cfg t' = t_cfg t -> t_executor t' = t_executor t -> t_queue t' = t_queue t ->
  executors (h_rest h).2 !! t_executor t = Some s -> to_queue i t (to_runner t' h) = h.
Proof.
  intros Ht Hc He Hq Hs. destruct h as [n tr [q [ts es v]]], t' as [c' e' q' po cs ch]. cbn in *. subst.
  unfold to_queue, to_runner, stored. cbn. rewrite Hs. cbn. by rewrite !list_insert_id.
Qed.

(** The same runner, after what was done on the queue *)
Record same_runner w w' : Prop := {
  same_executor : h_tr w' = h_tr w;
  same_pool : TaskRunner.r_pool (h_rest w') = TaskRunner.r_pool (h_rest w);
  same_ctxs : TaskRunner.r_ctxs (h_rest w') = TaskRunner.r_ctxs (h_rest w);
  same_chans : TaskRunner.r_chans (h_rest w') = TaskRunner.r_chans (h_rest w);
}.

Lemma to_queue_valid i t w : valid i t (parts_of w) ->
  tasks (h_rest (to_queue i t w)).2 !! i = Some (stored t w) /\
  executors (h_rest (to_queue i t w)).2 !! t_executor t = Some (h_tr w).
Proof.
  destruct w as [n e [po cs ch [tr [q p]]]]. intros [Hi%lookup_lt_is_Some He%lookup_lt_is_Some]. cbn in *.
  by rewrite !list_lookup_insert_eq.
Qed.

Lemma in_queue_run {A} i t (m : M qworld A) w r h' :
  valid i t (parts_of w) -> m (to_queue i t w) = (r, h') ->
  tasks (h_rest h').2 = tasks (h_rest (to_queue i t w)).2 ->
  executors (h_rest h').2 = executors (h_rest (to_queue i t w)).2 ->
  exists w', in_queue i t m w = (r, w') /\ to_queue i t w' = h' /\ valid i t (parts_of w') /\ same_runner w w'.
Proof.
  intros Hv Hm Ht He. destruct (to_queue_valid i t w Hv) as [Hi Hx]. rewrite <- Ht in Hi. rewrite <- He in Hx.
  exists (to_runner (stored t w) h'). unfold in_queue. rewrite Hm, Hi. split; [done|]. split; [by eapply to_queue_runner|].
  split; [split; cbn; by eexists|]. split; try done. cbn. by rewrite Hx.
Qed.

(** ** A task that the queue triggers *)
Section modest.
Context {C : Type}.
(** What of the program's state the task's function changes and its subscribers do not *)
Variable seen : V -> C.
Definition seen_of h : C := seen (user (h_rest h).2).

(** Functions and subscribers that work on the program's own state *)
Record modest h h' : Prop := {
  modest_tr : h_tr h' = h_tr h;
  modest_queue : (h_rest h').1 = (h_rest h).1;
  modest_tasks : tasks (h_rest h').2 = tasks (h_rest h).2;
  modest_executors : executors (h_rest h').2 = executors (h_rest h).2;
  modest_uuid : (h_uuid h <= h_uuid h')%nat;
}.
Hypothesis func_modest : forall E f a h, modest h (func_call E f a h).2 /\
  forall e, (func_call E f a h).1 = Raise e -> is_Exception e = true.
Hypothesis listen_modest : forall E i s ref h, exists v h',
  listen E i s ref h = (Ok v, h') /\ modest h h' /\ seen_of h' = seen_of h.
Hypothesis no_nodes : forall i s, as_node (listeners i) s = None.

Section triggered.
Variables (E : qenv) (i : nat) (t : task F S) (q : qstate (hnd H)).
Abbreviation topic_of := (TaskRunner.task_topic (t_cfg t)).
Abbreviation env_of := (channels E i t).

(** While the task runs *)
Record running w : Prop := {
  run_valid : valid i t (parts_of w);
  run_mode : Executor.mode (h_tr w) = SEQUENTIAL;
  run_chans : TaskRunner.r_chans (h_rest w) = t_chans t;
  run_queue : (h_rest (to_queue i t w)).1 = q;
  run_linked : Local.linked (to_queue i t w);
  run_open : MemoryTransport.closed (h_tr (to_queue i t w)) = false;
}.

Lemma running_modest w w' : running w -> same_runner w w' -> valid i t (parts_of w') ->
  modest (to_queue i t w) (to_queue i t w') -> running w'.
Proof.
  intros [Hv Hm Hc Hq Hl Ho] [Se Sp Sc Sh] Hv' [Mt Mq Mk Me Mu]. split; [done|congruence..| |congruence].
  by apply (Local.linked_same (to_queue i t w)).
Qed.

Lemma running_own n l w : (h_uuid w <= n)%nat -> running w ->
  let w' := mkHeap n (h_tr w) (TaskRunner.set_ctxs l (h_rest w)) in
  running w' /\ h_tr (to_queue i t w') = h_tr (to_queue i t w) /\ seen_of (to_queue i t w') = seen_of (to_queue i t w).
Proof.
  destruct w as [m e [po cs ch [tr [q' p]]]]. intros Hn [Hv Hm Hc Hq Hl Ho]. cbn in *. split; [|done].
  split; cbn; try done. by apply (Local.linked_same _ _ Hl).
Qed.

Hypothesis chans_plain : forall c, ev_dispatcher (t_chans t c) = Broadcast /\ ev_owner_mro (t_chans t c) = None.

Lemma fires_modest c ref w : running w ->
  exists w', TaskRunner.fire_channel env_of c ref w = (Ok tt, w') /\
    (running w' /\ seen_of (to_queue i t w') = seen_of (to_queue i t w) /\
     TaskRunner.r_ctxs (h_rest w') = TaskRunner.r_ctxs (h_rest w)) /\
    h_tr (to_queue i t w') = h_tr (to_queue i t w).
Proof.
  intros Hr. unfold TaskRunner.fire_channel. rewrite (bind_run _ _ w (h_rest w) w) by done.
  rewrite (run_chans w Hr). destruct (chans_plain c) as [Hd Ho]. rewrite fire_plain by done.
  generalize (ev_subscribers (t_chans t c)). intros subs. revert w Hr.
  induction subs as [|s subs IH]; intros w Hr; [by exists w|].
  unfold broadcast. cbn [for_each]. unfold invoke at 1.
  change (as_node env_of s) with (as_node (listeners i) s). rewrite no_nodes.
  destruct (listen_modest E i s ref (to_queue i t w)) as (v & h' & Hl & Hm & Hs).
  destruct (in_queue_run i t (listen E i s ref) w (Ok v) h' (run_valid w Hr) Hl (modest_tasks _ _ Hm) (modest_executors _ _ Hm))
    as (w1 & R & E1 & Hv & Hsame).
  destruct (IH w1) as (w2 & R2 & (Hr2 & S2 & C2) & T2).
  { apply (running_modest w); [done..|]. by rewrite E1. }
  exists w2. split; [|split; [split; [done|]|]].
  - rewrite (bind_run _ _ w tt w1); [exact R2|]. by rewrite (bind_run _ _ _ _ _ R).
  - split; [by rewrite S2, E1|]. by rewrite C2, (same_ctxs _ _ Hsame).
  - by rewrite T2, E1, (modest_tr _ _ Hm).
Qed.
(** In SEQUENTIAL mode the body is the function, called inline. *)
Definition body (a : pyargs) : M rworld val :=
  TaskRunner.run_body (function E i t) (at_queue i t clock) (at_queue i t thread_name) (at_queue i t process_name)
    pickle (t_cfg t) a.

Lemma body_spec a w : running w ->
  exists w', body a w = ((func_call E (TaskRunner.func (t_cfg t)) a (to_queue i t w)).1, w') /\
    to_queue i t w' = (func_call E (TaskRunner.func (t_cfg t)) a (to_queue i t w)).2 /\
    running w' /\ h_tr (to_queue i t w') = h_tr (to_queue i t w) /\
    TaskRunner.r_ctxs (h_rest w') = TaskRunner.r_ctxs (h_rest w).
Proof.
  intros Hr. destruct (func_modest E (TaskRunner.func (t_cfg t)) a (to_queue i t w)) as [Hm _].
  set (m := func_call E (TaskRunner.func (t_cfg t)) a) in *.
  destruct (m (to_queue i t w)) as [r h'] eqn:Hf. cbn [fst snd] in *.
  destruct (in_queue_run i t m w r h' (run_valid w Hr) Hf (modest_tasks _ _ Hm) (modest_executors _ _ Hm))
    as (w' & R & E1 & Hv & Hsame).
  exists w'. split_and!.
  - unfold body, TaskRunner.run_body. rewrite (bind_run _ _ w (h_tr w) w) by done. by rewrite (run_mode w Hr).
  - done.
  - apply (running_modest w); [done..|]. by rewrite E1.
  - by rewrite E1, (modest_tr _ _ Hm).
  - apply (same_ctxs _ _ Hsame).
Qed.

(** *** What is published *)

(** A message with payload [v] was put on the receive queue of [name], or refused
    because that is full; the transport is otherwise as it was. *)
Definition queued (name : string) (v : val) (s s' : transport) : Prop :=
  MemoryTransport.sub_topic s' = MemoryTransport.sub_topic s /\
  MemoryTransport.max_queue_size s' = MemoryTransport.max_queue_size s /\
  exists m, Types.topic m = name /\ payload m = v /\
    forall n, MemoryTransport.queue_of s' n =
      MemoryTransport.queue_of s n ++ if decide (n = name /\ MemoryTransport.full s name = false) then [m] else [].

Lemma put_nowait_queued m h : queued (Types.topic m) (payload m) (h_tr h) (h_tr (MemoryTransport.put_nowait m h).2).
Proof.
  split; [by rewrite Local.put_nowait_pats|]. destruct (MemoryTransport.put_nowait_spec m h "") as (_ & _ & _ & Hx & _ & _).
  split; [done|]. exists m. split_and!; [done..|]. intros n.
  by destruct (MemoryTransport.put_nowait_spec m h n) as (_ & _ & _ & _ & _ & ->).
Qed.

Hypothesis names_plain : Forall plain (dkeys (q_topics q)).
Hypothesis no_hearers : forall suffix, suffix = ".success" \/ suffix = ".failure" ->
  dmem (q_topics q) (topic_of +:+ suffix) = false.

Lemma publishes_queued suffix v w : suffix = ".success" \/ suffix = ".failure" -> running w ->
  let name := topic_of +:+ suffix in
  exists r w', in_queue i t (publish (TR := Local.local_transport E) clock name v []) w = (r, w') /\
    (running w' /\ seen_of (to_queue i t w') = seen_of (to_queue i t w) /\
     TaskRunner.r_ctxs (h_rest w') = TaskRunner.r_ctxs (h_rest w)) /\
    queued name v (h_tr (to_queue i t w)) (h_tr (to_queue i t w')) /\
    forall e, r = Raise e -> is_Exception e = true.
Proof.
  intros Hx Hr name. set (h := to_queue i t w). set (h1 := Local.after_uuid h).
  set (m := mkMessage (uuid4 (h_uuid h)) name v [] (clock h1) None None).
  assert (Local.linked h1) as Hl1 by (apply (Local.linked_same h); [apply (run_linked w Hr)|done|done|cbn; lia]).
  assert (t_send (Transport := Local.local_transport E) m h1 = MemoryTransport.put_nowait m h1) as Hsend.
  { pose proof (run_queue w Hr) as Hq. fold h in Hq. apply Local.send_untopiced; [done| | |].
    - unfold Local.names_plain. cbn. by rewrite Hq.
    - apply (run_open w Hr).
    - cbn. rewrite Hq. by apply no_hearers. }
  pose proof (MemoryTransport.put_nowait_spec m h1 "") as (Ho & Hrest & _ & _ & Hcl & _).
  pose proof (put_nowait_queued m h1) as Hput. pose proof (Local.keeps_put_nowait m h1) as Hkeep.
  assert (publish (TR := Local.local_transport E) clock name v [] h =
    (let '(r, h2) := MemoryTransport.put_nowait m h1 in (match r with Ok _ => Ok (msg_id m) | Raise e => Raise e end, h2))) as Hp.
  { unfold publish, new_message. rewrite (bind_run _ _ h m h1) by done. unfold bind. rewrite Hsend.
    by destruct (MemoryTransport.put_nowait m h1) as [[[]|e] h2]. }
  destruct (MemoryTransport.put_nowait m h1) as [r h2]. cbn [fst snd] in *.
  destruct (in_queue_run i t (publish (TR := Local.local_transport E) clock name v []) w _ h2 (run_valid w Hr) Hp)
    as (w' & R & E1 & Hv & [Se Sp Sc Sh]); [by rewrite Hrest..|].
  exists (match r with Ok _ => Ok (msg_id m) | Raise e => Raise e end), w'. split; [done|]. split; [split_and!|].
  - split; [done|by rewrite Se; apply run_mode|by rewrite Sh; apply run_chans|..]; rewrite E1.
    + rewrite Hrest. apply (run_queue w Hr).
    + apply Hkeep; [by intros _|]. rewrite Hcl. apply (run_open w Hr).
    + rewrite Hcl. apply (run_open w Hr).
  - unfold seen_of. by rewrite E1, Hrest.
  - done.
  - split; [by rewrite E1|]. intros e. destruct r as [u|e']; [done|]. intros [= <-].
    by destruct (MemoryTransport.full _ _); [injection Ho as ->|].
Qed.
(** The task, by what is passed in when the queue has a message for it *)
Record ready h : Prop := {
  ready_task : tasks (h_rest h).2 !! i = Some t;
  ready_executor : exists s, executors (h_rest h).2 !! t_executor t = Some s /\ Executor.mode s = SEQUENTIAL;
  ready_queue : (h_rest h).1 = q;
  ready_linked : Local.linked h;
  ready_open : MemoryTransport.closed (h_tr h) = false;
}.
Hypothesis publishing : t_queue t = true /\ TaskRunner.publish_result (t_cfg t) = true.
Hypothesis unlimited : t_pool t = None.

Lemma ready_running h : ready h -> running (to_runner t h) /\ to_queue i t (to_runner t h) = h.
Proof.
  intros [Ht (s & He & Hm) Hq Hl Ho].
  assert (to_queue i t (to_runner t h) = h) as E1 by by apply (to_queue_runner i t t h s).
  split; [|done]. split; rewrite ?E1; [by split; [exists t|exists s]|cbn; by rewrite He|done..].
Qed.

(** What a run of the task on [a] leaves, from [h] on: [h1] is where its function is
    called, [c] its context. *)
Record ran (a : pyargs) h h1 h' (c : TaskContext) : Prop := {
  ran_before : seen_of h1 = seen_of h /\ h_tr h1 = h_tr h;
  ran_seen : seen_of h' = seen_of (func_call E (TaskRunner.func (t_cfg t)) a h1).2;
  ran_args : ctx_args c = pos a /\ ctx_task_id c = uuid4 (h_uuid h);
  ran_task : exists t', tasks (h_rest h').2 !! i = Some t' /\ t_ctxs t' = t_ctxs t ++ [c];
  ran_queue : (h_rest h').1 = q /\ Local.linked h' /\ MemoryTransport.closed (h_tr h') = false;
  ran_event :
    match (func_call E (TaskRunner.func (t_cfg t)) a h1).1 with
    | Ok v => ctx_result c = v /\
        queued (topic_of +:+ ".success") (VDict (TaskRunner.success_fields c)) (h_tr h) (h_tr h')
    | Raise e => ctx_error c = Some e /\
        queued (topic_of +:+ ".failure") (VDict (TaskRunner.failure_fields e c)) (h_tr h) (h_tr h')
    end;
}.

Lemma serve_spec a msg h : ready h -> unpack_payload (payload msg) = Ok a ->
  exists h1 h' c, ran a h h1 h' c /\
    serve_task E i msg h = ((func_call E (TaskRunner.func (t_cfg t)) a h1).1, h').
Proof.
  intros Hrd Ha. destruct (ready_running h Hrd) as [Hr Hh].
  destruct (TaskRunner.execute_publishes (function E i t) env_of (at_queue i t clock) (at_queue i t thread_name)
    (at_queue i t process_name) pickle (publisher E i t) (t_cfg t) running (fun w => h_tr (to_queue i t w))
    (fun w => seen_of (to_queue i t w)) queued) with
    (publish := fun name v => in_queue i t (publish (TR := Local.local_transport E) clock name v []))
    (a := a) (h := to_runner t h)
    as (w2 & w' & c & Hr2 & O2 & S2 & Hx & Hr' & S' & C' & Hargs & Hid & Hev).
  - intros n l w. apply running_own.
  - intros c ref w. apply fires_modest.
  - intros a' w Hw. destruct (body_spec a' w Hw) as (w' & Hb & _ & Hr' & Ht & Hc). unfold body in Hb. rewrite Hb.
    split_and!; [done..|]. intros e. apply func_modest.
  - destruct publishing as [Hq ->]. unfold publisher. by rewrite Hq.
  - intros suffix v w. apply publishes_queued.
  - done.
  - destruct (body_spec a w2 Hr2) as (w3 & Hb & E3 & _). unfold body in Hb. rewrite Hb in *. cbn [fst snd] in *.
    rewrite Hh in *. rewrite E3 in S'.
    exists (to_queue i t w2), (to_queue i t w'), c. split.
    + split; [done..| | |done].
      * exists (stored t w'). split; [apply to_queue_valid, (run_valid w' Hr')|done].
      * split; [apply (run_queue w' Hr')|]. split; [apply (run_linked w' Hr')|apply (run_open w' Hr')].
    + unfold serve_task. unfold bind, in_runner. rewrite (ready_task h Hrd).
      unfold handle_in, TaskRunner.queue_handler. rewrite Ha. unfold TaskRunner.run.
      rewrite (bind_run _ _ (to_runner t h) (h_rest (to_runner t h)) (to_runner t h)) by done.
      cbn [TaskRunner.r_pool h_rest to_runner]. rewrite unlimited. unfold bind. rewrite Hx.
      by destruct (func_call E _ a (to_queue i t w2)).1.
Qed.
End triggered.
(** ** From [publish] to the published result *)
Definition event (r : result val) (c : TaskContext) : string * val :=
  match r with
  | Ok _ => (".success", VDict (TaskRunner.success_fields c))
  | Raise e => (".failure", VDict (TaskRunner.failure_fields e c))
  end.

Definition tells (r : result val) (c : TaskContext) : Prop :=
  match r with Ok v => ctx_result c = v | Raise e => ctx_error c = Some e end.

Definition added (s : transport) (name : string) (m : Message) (n : string) : list Message :=
  if decide (n = name /\ MemoryTransport.full s name = false) then [m] else [].

Lemma ran_queued E i t q a h h1 h' c : ran E i t q a h h1 h' c ->
  let r := (func_call E (TaskRunner.func (t_cfg t)) a h1).1 in
  tells r c /\ queued (TaskRunner.task_topic (t_cfg t) +:+ (event r c).1) (event r c).2 (h_tr h) (h_tr h').
Proof. intros [_ _ _ _ _ Hev]. cbv zeta. by destruct (func_call E _ a h1).1. Qed.

Lemma full_queued name v s s' n : queued name v s s' -> n <> name ->
  MemoryTransport.full s' n = MemoryTransport.full s n.
Proof.
  intros (_ & Hm & m & _ & _ & Hq) Hn. unfold MemoryTransport.full.
  rewrite Hm, Hq, decide_False by naive_solver. by rewrite app_nil_r.
Qed.

(** C9 A decorated function on a queue, end to end, for a task with a SEQUENTIAL
    executor and no [max_instances].  A [publish] on the task's topic runs the
    function once, on the unpacked payload; the program sees the effects of that
    call and of nothing else.  The result, or the error that it raised, is
    published on the [.success] or the [.failure] topic of the task, with the id,
    the outcome and the time of the context, unless that topic's receive queue is
    full; the publisher gets the id of its message, or TransportFullError when the
    task's own topic is full, but never the function's error.

    The task is the only handler of its topic, nobody listens on the other two, the
    topics of the queue are plain names, and the function and the observers leave
    the queue, the transport and the tasks alone ([modest]); the function raises
    no more than [Exception]s and the observers do not raise.  With a THREAD or
    PROCESS executor what is said of errors is false: there an error of the
    function is published as the success None ([TaskRunner.lifecycle]). *)
Theorem published_task_runs d i t q p hd a h :
  let name := TaskRunner.task_topic (t_cfg t) in
  ready i t q h -> t_queue t = true /\ TaskRunner.publish_result (t_cfg t) = true -> t_pool t = None ->
  (forall c, ev_dispatcher (t_chans t c) = Broadcast /\ ev_owner_mro (t_chans t c) = None) ->
  Forall plain (dkeys (q_topics q)) -> Local.simple_channels q ->
  Local.handlers_of name h = [TaskHandler i] -> as_node base (TaskHandler i) = None ->
  (forall suffix, suffix = ".success" \/ suffix = ".failure" -> dmem (q_topics q) (name +:+ suffix) = false) ->
  unpack_payload p = Ok a ->
  exists h1 h' c m ev,
    let o := func_call (handlers d) (TaskRunner.func (t_cfg t)) a h1 in
    publish (TR := Local.local_transport (handlers (Datatypes.S d))) clock name p hd h =
      (if MemoryTransport.full (h_tr h) name
       then Raise (TransportFullError name (MemoryTransport.max_queue_size (h_tr h))) else Ok (msg_id m), h') /\
    seen_of h1 = seen_of h /\ seen_of h' = seen_of o.2 /\
    ctx_args c = pos a /\ tells o.1 c /\
    (exists t', tasks (h_rest h').2 !! i = Some t' /\ t_ctxs t' = t_ctxs t ++ [c]) /\
    payload m = p /\ payload ev = (event o.1 c).2 /\
    forall n, MemoryTransport.queue_of (h_tr h') n = MemoryTransport.queue_of (h_tr h) n ++
      added (h_tr h) name m n ++ added (h_tr h) (name +:+ (event o.1 c).1) ev n.
Proof.
  intros name Hrd Hpub Hpool Hch Hpl Hsc Hh Hnode Hno Ha. pose proof (ready_queue i t q h Hrd) as Hq.
  set (h0 := Local.after_uuid h).
  set (m := mkMessage (uuid4 (h_uuid h)) name p hd (clock h0) None None).
  assert (ready i t q h0) as Hrd0.
  { destruct Hrd as [? ? ? Hl ?]. split; try done. apply (Local.linked_same h); [done..|cbn; lia]. }
  destruct (serve_spec (handlers d) i t q Hch Hpl Hno Hpub Hpool a m h0 Hrd0 Ha) as (h1 & h2 & c & Hran & Hserve).
  destruct (ran_queued _ _ _ _ _ _ _ _ _ Hran) as [Htells Hqd].
  set (o := func_call (handlers d) (TaskRunner.func (t_cfg t)) a h1) in *.
  destruct Hran as [[Hs1 _] Hs2 [Hargs _] Htask (Hq2 & Hl2 & Hc2) _].
  assert (dmem (q_topics q) name = true) as Hmem.
  { unfold Local.handlers_of in Hh. rewrite Hq in Hh. unfold dmem. by destruct (dget (q_topics q) name). }
  assert (name <> name +:+ (event o.1 c).1) as Hne.
  { intros He. rewrite He, Hno in Hmem; [done|]. destruct o.1; [by left|by right]. }
  assert (channel_fire (handlers (Datatypes.S d)) (ChannelFire name) m h0 =
    (match o.1 with Ok _ => Ok tt | Raise e => Raise e end, h2)) as Hf.
  { unfold channel_fire, get_q, gets, bind at 1. cbn [h_rest h0 Local.after_uuid]. rewrite Hq.
    unfold Local.handlers_of in Hh. rewrite Hq in Hh. destruct (dget (q_topics q) name) as [ev|] eqn:Hg; [|done].
    destruct (Hsc _ _ Hg). rewrite Local.fire_simple, Hh by done. unfold broadcast. cbn [for_each].
    unfold invoke. change (as_node (handlers (Datatypes.S d)) (TaskHandler i)) with (as_node base (TaskHandler i)).
    rewrite Hnode. cbn [handlers with_call Observers.call]. unfold bind. rewrite Hserve. fold o. by destruct o.1. }
  assert (MemoryTransport.full (h_tr h2) name = MemoryTransport.full (h_tr h) name) as Hfull
    by exact (full_queued _ _ _ _ _ Hqd Hne).
  destruct Hqd as (Hst & Hmax & ev & _ & Hev & Hqs).
  pose proof (fun n => MemoryTransport.put_nowait_spec m h2 n) as Hput.
  exists h1, (MemoryTransport.put_nowait m h2).2, c, m, ev. cbv zeta.
  destruct (Hput "") as (Hr & Hrest & _). change (Types.topic m) with name in Hr, Hput. rewrite Hfull, Hmax in Hr.
  split_and!; [|done|by unfold seen_of; rewrite Hrest|done|done|by rewrite Hrest|done|done|].
  - unfold publish, new_message. rewrite (bind_run _ _ h m h0) by done. unfold bind.
    rewrite (Local.send_fired (handlers (Datatypes.S d)) m h0 h2 (match o.1 with Ok _ => Ok tt | Raise e => Raise e end)).
    + destruct (MemoryTransport.put_nowait m h2) as [r h3]. cbn in Hr. subst r.
      by destruct (MemoryTransport.full (h_tr h) name).
    + apply (ready_linked i t q h0 Hrd0).
    + unfold Local.names_plain. cbn. by rewrite Hq.
    + apply (ready_open i t q h0 Hrd0).
    + cbn. by rewrite Hq.
    + exact Hf.
    + intros e. destruct (func_modest (handlers d) (TaskRunner.func (t_cfg t)) a h1) as [_ He]. fold o in He.
      destruct o.1; [done|]. intros [= <-]. by apply He.
    + exact Hst.
  - intros n. destruct (Hput n) as (_ & _ & _ & _ & _ & ->). rewrite Hqs, Hfull.
    change (h_tr h0) with (h_tr h). unfold added.
    destruct (decide (n = name /\ _)) as [[-> _]|]; [|by rewrite app_nil_r].
    rewrite !decide_False by (intros [? _]; by apply Hne). by rewrite !app_nil_r.
Qed.
End modest.

(** ** The decorator *)

Lemma subscribe_open E n f h : MemoryTransport.closed (h_tr h) = false ->
  Local.linked h ->
  MemoryTransport.closed (h_tr (subscribe (TR := Local.local_transport E) n f h).2) = false.
Proof.
  intros Hc Hl. unfold subscribe. destruct (Local.linked_topic n None E h Hl Hc) as (h1 & R & _ & Hc1 & _).
  rewrite (bind_run _ _ _ _ _ R). unfold channel_subscribe, bind, upd_q, upd_rest, modify, new_uuid, ret. cbn. exact Hc1.
Qed.

(** The heap in which the runner is made *)
Lemma new_executor_spec h : exists e h', new_executor h = (Ok e, h') /\
  executors (h_rest h').2 !! e = Some (Executor.init SEQUENTIAL) /\
  tasks (h_rest h').2 = tasks (h_rest h).2 /\ h_tr h' = h_tr h /\ (h_rest h').1 = (h_rest h).1 /\ h_uuid h' = h_uuid h.
Proof.
  destruct h as [n tr [q [ts es v]]]. do 2 eexists. split; [reflexivity|]. cbn. by rewrite list_lookup_middle.
Qed.

(** [@task] on a queue: the function gets a runner of its own, on the given
    executor or a new sequential one, with the topic it was given or its own name;
    every lifecycle channel has the [on_X] methods of the observers in their order
    and then the callback given for it; and the task is the last handler of its
    topic, once, while the handlers of the other topics and the other tasks stay. *)
Theorem decorator_registers topic executor obs on_success on_failure on_complete pr mi it po f name h :
  Local.linked h -> MemoryTransport.closed (h_tr h) = false ->
  Forall (fun o => exists dir, o = TaskRunner.PlainObserver dir) obs -> TaskRunner.init_pool mi = Ok po ->
  (forall e, executor = Some e -> is_Some (executors (h_rest h).2 !! e)) ->
  exists x h' t, decorator true topic executor obs on_success on_failure on_complete pr mi it f name h = (Ok x, h') /\
    _topic x = (if opt_truthy topic then default name topic else name) /\
    _runner x = length (tasks (h_rest h).2) /\ t_executor t = _executor x /\
    match executor with
    | Some e => _executor x = e
    | None => executors (h_rest h').2 !! _executor x = Some (Executor.init SEQUENTIAL)
    end /\
    tasks (h_rest h').2 = tasks (h_rest h).2 ++ [t] /\
    t_cfg t = TaskRunner.mkSettings f name (_topic x) pr mi it /\ t_queue t = true /\ t_pool t = po /\ t_ctxs t = [] /\
    (forall c, ev_subscribers (t_chans t c) = (obs ≫= TaskRunner.observed_on c) ++
        option_list (match c with TaskRunner.Start => None | TaskRunner.Success => on_success
                     | TaskRunner.Failure => on_failure | TaskRunner.Complete => on_complete end) /\
      ev_dispatcher (t_chans t c) = Broadcast /\ ev_owner_mro (t_chans t c) = None) /\
    Local.linked h' /\ MemoryTransport.closed (h_tr h') = false /\
    Local.handlers_of (_topic x) h' = Local.handlers_of (_topic x) h ++ [TaskHandler (_runner x)] /\
    forall n, n <> _topic x -> Local.handlers_of n h' = Local.handlers_of n h.
Proof.
  intros Hl Hc Hobs Hpo Hex. unfold decorator.
  set (tp := if opt_truthy topic then default name topic else name).
  assert (exists e h1 s, (match executor with Some e => ret e | None => new_executor end) h = (Ok e, h1) /\
    executors (h_rest h1).2 !! e = Some s /\ match executor with Some e' => e = e' | None => s = Executor.init SEQUENTIAL end /\
    tasks (h_rest h1).2 = tasks (h_rest h).2 /\ h_tr h1 = h_tr h /\ (h_rest h1).1 = (h_rest h).1 /\ h_uuid h1 = h_uuid h)
    as (e & h1 & s & R1 & He & Hs & Ht1 & Htr1 & Hq1 & Hu1).
  { destruct executor as [e|]; [destruct (Hex e eq_refl) as [s Hs]; by exists e, h, s|].
    destruct (new_executor_spec h) as (e & h1 & R & He & Ht & ? & ? & ?). by exists e, h1, (Executor.init SEQUENTIAL). }
  rewrite (bind_run _ _ _ _ _ R1). set (i := length (tasks (h_rest h1).2)).
  set (t0 := mkTask _ _ _ _ _ _).
  set (h2 := (upd_parts (fun p => mkParts (tasks p ++ [t0]) (executors p) (user p)) h1).2).
  rewrite (bind_run _ _ h1 i h2) by done.
  assert (tasks (h_rest h2).2 !! i = Some t0) as Hi2 by (cbn; by rewrite list_lookup_middle).
  destruct (TaskRunner.init_runner_spec obs None on_success on_failure on_complete mi po (to_runner t0 h2) Hobs Hpo)
    as (ch & Rn & Hch).
  set (t := mkTask (t_cfg t0) e true po [] ch).
  set (h3 := mkHeap (h_uuid h1) (h_tr h1) ((h_rest h1).1,
    mkParts (tasks (h_rest h1).2 ++ [t]) (executors (h_rest h1).2) (user (h_rest h1).2))).
  assert (in_runner i (fun _ : task F S => TaskRunner.init_runner obs None on_success on_failure on_complete mi) h2
    = (Ok tt, h3)) as R3.
  { unfold in_runner. rewrite Hi2, Rn. destruct h1 as [n tr [q [ts es v]]]. cbn in *. unfold to_queue, stored. cbn.
    rewrite He. cbn. unfold h3, i. do 4 f_equal; [|by rewrite list_insert_id].
    by rewrite insert_app_r_alt, Nat.sub_diag by lia. }
  rewrite (bind_run _ _ _ _ _ R3).
  assert (Local.linked h3) as Hl3.
  { apply (Local.linked_same h); [done|exact Htr1|exact Hq1|cbn; lia]. }
  assert (MemoryTransport.closed (h_tr h3) = false) as Hc3 by (cbn; by rewrite Htr1).
  destruct (Local.subscribe_spec base tp (TaskHandler i) h3 Hl3 Hc3) as (id & h4 & ev & R4 & Hrest & _ & Hg & Hsub & Hoth).
  pose proof (subscribe_open base tp (TaskHandler i) h3 Hc3 Hl3) as Hc4.
  pose proof (Local.keeps_subscribe tp (TaskHandler i) base h3 ltac:(by intros _)) as Hl4.
  rewrite R4 in Hc4, Hl4. cbn [snd] in Hc4, Hl4.
  exists (mkWrapper i true tp e), h4, t. cbn [_topic _runner _executor].
  assert (forall n, Local.handlers_of n h3 = Local.handlers_of n h) as Hh3.
  { intros n. unfold Local.handlers_of. cbn. by rewrite Hq1. }
  split_and!; try done.
  - rewrite (bind_run _ _ h3 tt h4); [done|]. by rewrite (bind_run _ _ _ _ _ R4).
  - unfold i. by rewrite Ht1.
  - destruct executor; [done|]. by rewrite Hrest, <- Hs.
  - rewrite Hrest. cbn. by rewrite Ht1.
  - by apply Hl4.
  - unfold Local.handlers_of at 1. rewrite Hg, Hsub. by rewrite Hh3.
  - intros n Hn. by rewrite Hoth, Hh3.
Qed.
End TaskQueue.
End TaskQueue.

(** * A program with a log *)
Module TaskQueueToy.
Import TaskQueue.

Abbreviation F := nat.
Abbreviation V := (list (nat * nat)).
Abbreviation world := (heap (MemoryTransport.state chan_cb) (qstate (hnd nat) * parts nat nat V)).
Abbreviation qenv := (env world (hnd nat) Message).

(** A function notes its number and how many arguments it got. *)
Definition note (f : nat) (a : pyargs) : M world unit :=
  upd_parts (fun p => mkParts (tasks p) (executors p) (user p ++ [(f, length (pos a) + length (kw a))%nat])).

(** The odd ones raise. *)
Definition func_call (E : qenv) (f : nat) (a : pyargs) : M world val :=
  note f a ;;; if Nat.odd f then throw (Exc "ValueError" "odd") else ret (VInt (Z.of_nat f)).
Definition listen (E : qenv) (i s ref : nat) : M world val := ret VNone.

Definition no_env {W G Args} : env W G Args := plain_env (fun _ _ => ret VNone).

Definition fresh : world := mkHeap 0 (MemoryTransport.init 10) (init_q, mkParts [] [] []).
Abbreviation clock := (fun _ : world => 0).
Abbreviation name := (fun _ : world => "w").
Abbreviation pickle := (fun _ : Executor.pickled nat => None).

Definition env_of (fc : qenv -> nat -> pyargs -> M world val) (depth : nat) : qenv :=
  handlers fc listen (fun _ => no_env) (fun _ _ _ => ret VNone) no_env clock name name pickle depth.

Definition decorate (topic : string) (f : nat) : M world wrapper :=
  decorator no_env true (Some topic) None
    [TaskRunner.PlainObserver [("attach_me", Some 7%nat); ("on_success", Some 8%nat); ("on_walk", Some 9%nat)]]
    None (Some 5%nat) None true None None f "f".

Definition one : world := (decorate "t" 4 fresh).2.

(** Its runner *)
Definition one_task : task nat nat :=
  default (mkTask (TaskRunner.mkSettings 0%nat "" "" true None None) 0 true None [] TaskRunner.new_channels)
    (tasks (h_rest one).2 !! 0%nat).

Lemma one_linked : Local.linked one.
Proof.
  set (h := mkHeap 0 (MemoryTransport.init 10) (init_q, (h_rest one).2) : world).
  pose proof (Local.keeps_subscribe (U := parts nat nat V) "t" (TaskHandler (H := nat) 0) no_env h) as Hk.
  assert (one = (subscribe (TR := Local.local_transport no_env) "t" (TaskHandler 0) h).2) as -> by (vm_compute; reflexivity).
  apply Hk; [intros _; by apply (Local.mq_ok_init 0 10)|reflexivity].
Qed.

(** The event of a task may be what another task waits for: the fields are then its
    keyword arguments. *)
Example pipeline :
  let h := (publish (TR := Local.local_transport (env_of func_call 4)) clock "a" (VInt 1) []
    (decorate "a.success" 6 (decorate "a" 2 fresh).2).2).2 in
  user (h_rest h).2 = [(2%nat, 1%nat); (6%nat, 3%nat)] /\
  length (MemoryTransport.queue_of (h_tr h) "a.success.success") = 1%nat.
Proof. vm_compute. split; reflexivity. Qed.

(** A function that publishes on its task's own topic calls itself until Python
    stops it; the deepest call fails, and what [publish] swallows is that. *)
Definition again (E : qenv) (f : nat) (a : pyargs) : M world val :=
  note f a ;;; (let! _ := publish (TR := Local.local_transport E) clock "t" (VInt 1) [] in ret VNone).

Example runaway :
  let o := publish (TR := Local.local_transport (env_of again 3)) clock "t" (VInt 1) [] one in
  (exists i, o.1 = Ok i) /\ length (user (h_rest o.2).2) = 3%nat.
Proof. vm_compute. split; [eexists|]; reflexivity. Qed.

(** A runner's [on] knows four names. *)
Example wrapper_surface :
  let x := mkWrapper 0 true "t" 0 in
  (wrapper_on x "failure" 3%nat one).1 = Ok 3%nat /\
  (wrapper_on x "state" 3%nat one).1 = Raise (TaskRunner.no_eventful "state").
Proof. vm_compute. split; reflexivity. Qed.
End TaskQueueToy.

(** The function ran once, with one argument, and its result is on [t.success]. *)
Lemma published_task_runs_witness :
  exists h', (publish (TR := Local.local_transport (TaskQueueToy.env_of TaskQueueToy.func_call 1)) TaskQueueToy.clock "t"
    (VInt 1) [] TaskQueueToy.one).2 = h' /\
  TaskQueue.user (h_rest h').2 = [(4%nat, 1%nat)] /\
  map payload (MemoryTransport.queue_of (h_tr h') "t.success") =
    [VDict [(VStr "task_id", VStr (uuid4 3)); (VStr "result", VInt 4); (VStr "execution_time", VInt 0)]].
Proof.
  destruct (TaskQueue.published_task_runs TaskQueueToy.func_call TaskQueueToy.listen (fun _ => TaskQueueToy.no_env)
    (fun _ _ _ => ret VNone) TaskQueueToy.no_env TaskQueueToy.clock TaskQueueToy.name TaskQueueToy.name
    TaskQueueToy.pickle (fun v => v)) with (d := 0%nat) (i := 0%nat)
    (t := TaskQueueToy.one_task)
    (q := (h_rest TaskQueueToy.one).1) (p := VInt 1) (hd := @nil (string * val)) (a := mkArgs [VInt 1] [])
    (h := TaskQueueToy.one) as (h1 & h' & c & m & ev & Hrun & Hs1 & Hs & _).
  - intros E f a h. unfold TaskQueueToy.func_call, bind, TaskQueueToy.note. cbn.
    split; [destruct (Nat.odd f); by split|]. intros e. destruct (Nat.odd f); intros [=]. by subst.
  - intros E i s ref h. by exists VNone, h.
  - done.
  - split; [reflexivity|by eexists|reflexivity|exact TaskQueueToy.one_linked|reflexivity].
  - split; reflexivity.
  - reflexivity.
  - intros c. by destruct c.
  - repeat constructor; discriminate.
  - apply Local.simple_channels_all. repeat constructor.
  - reflexivity.
  - reflexivity.
  - intros suffix [-> | ->]; reflexivity.
  - reflexivity.
  - exists h'. pose proof (f_equal snd Hrun) as E1. split; [exact E1|]. change (snd (_, h')) with h' in E1.
    rewrite <- E1. split; vm_compute; reflexivity.
Defined.

Lemma decorator_registers_witness :
  exists x h' t, TaskQueueToy.decorate "t" 4 TaskQueueToy.fresh = (Ok x, h') /\
    TaskQueue.tasks (h_rest h').2 = [t] /\ ev_subscribers (TaskQueue.t_chans t TaskRunner.Success) = [8%nat] /\
    ev_subscribers (TaskQueue.t_chans t TaskRunner.Failure) = [5%nat] /\
    Local.handlers_of "t" h' = [TaskQueue.TaskHandler 0].
Proof.
  destruct (TaskQueue.decorator_registers (F := nat) (S := nat) (H := nat) (V := list (nat * nat)) TaskQueueToy.no_env
    (Some "t") None
    [TaskRunner.PlainObserver [("attach_me", Some 7%nat); ("on_success", Some 8%nat); ("on_walk", Some 9%nat)]]
    None (Some 5%nat) None true None None None 4%nat "f" TaskQueueToy.fresh)
    as (x & h' & t & R & Ht & Hr & _ & _ & Hts & _ & _ & _ & _ & Hch & _ & _ & Hh & _).
  - apply (Local.mq_ok_init 0 10). reflexivity.
  - reflexivity.
  - repeat constructor. by eexists.
  - reflexivity.
  - done.
  - exists x, h', t. split; [exact R|]. split; [exact Hts|].
    destruct (Hch TaskRunner.Success) as [-> _], (Hch TaskRunner.Failure) as [-> _].
    split; [reflexivity|]. split; [reflexivity|]. rewrite Ht, Hr in Hh. exact Hh.
Defined.
