(* ===== verification/Rpc.v ===== *)
(** * [eventforge/rpc.py]: [RPCServer], [RPCClient], [RoundRobinRPCClient], [with_retry]

    The server's attributes are the first half of what the queue's handlers own.
    [RPCRequest] and [RPCResponse] cross the queue as the values that pydantic's
    [model_dump] makes of them; [model_dump] and [model_validate] are parameters. *)
From Stdlib Require Import QArith.
From S2P Require Import Prelude PyDict Types Topics Transport Memory Observers Queue.
#[local] Open Scope Z_scope.

(** [d.get(k)] on a dict value, for a string key *)
Fixpoint str_item (d : list (val * val)) (k : string) : option val :=
  match d with
  | [] => None
  | (VStr k', v) :: d' => if decide (k' = k) then Some v else str_item d' k
  | _ :: d' => str_item d' k
  end.

(** ** [RPCServer] *)
Record server (F : Type) : Type := mkServer {
  methods : list (string * F);
  running : bool;
  sub_id : option string;
  stop_event : bool;
}.
Arguments mkServer {F} _ _ _ _.
Arguments methods {F} _.
Arguments running {F} _.
Arguments sub_id {F} _.
Arguments stop_event {F} _.

(** What pydantic does with the two models *)
Record models : Type := mkModels {
  dump_request : RPCRequest -> val;
  validate_request : val -> result RPCRequest;
  dump_response : RPCResponse -> val;
  validate_response : val -> result RPCResponse;
}.

(** Validating a dump gives the model back. *)
Class ModelsOk (P : models) : Prop := {
  request_back : forall r, validate_request P (dump_request P r) = Ok r;
  response_back : forall r, validate_response P (dump_response P r) = Ok r;
}.

Section rpc.
Context {T H F V : Type} `{!EqDecision H}.
Abbreviation world := (heap T (qstate H * (server F * V))).
Context {TR : Transport world chan_cb}.
Variable clock : world -> Z.
Variable P : models.
(** A registered method; it is called with the request's arguments. *)
Variable call_method : F -> pyargs -> M world val.
(** The bound method [self._handle_request], as a handler of the queue *)
Variable handler : H.
Variable service_name : string.

Definition request_topic : string := service_name +:+ ".request".

Definition get_server : M world (server F) := gets (fun h => (h_rest h).2.1).
Definition upd_server (f : server F -> server F) : M world unit :=
  upd_rest (fun r => (r.1, (f r.2.1, r.2.2))).

Definition init_server : server F := mkServer [] false None false.

Definition add_method (name : string) (func : F) : M world unit :=
  upd_server (fun s => mkServer (dset (methods s) name func) (running s) (sub_id s) (stop_event s)).

(** [register(name)(func)]; [__name__] is the function's own name *)
Definition register (name : option string) (func : F) (__name__ : string) : M world F :=
  add_method (match name with Some n => if decide (n = "") then __name__ else n | None => __name__ end) func ;;;
  ret func.

(** [serve]; [Waiting] when it blocks until [stop] *)
Definition serve (blocking : bool) : M world (wait unit) :=
  let! s := get_server in
  if running s then ret (Done tt)
  else
    upd_server (fun s => mkServer (methods s) true (sub_id s) false) ;;;
    let! i := on request_topic handler in
    upd_server (fun s => mkServer (methods s) (running s) (Some i) (stop_event s)) ;;;
    if blocking then ret Waiting else ret (Done tt).

(** [serve_async] up to its waiting loop: it subscribes without looking at [_running] *)
Definition serve_async : M world (wait unit) :=
  upd_server (fun s => mkServer (methods s) true (sub_id s) false) ;;;
  let! i := on request_topic handler in
  upd_server (fun s => mkServer (methods s) (running s) (Some i) (stop_event s)) ;;;
  ret Waiting.

Definition stop : M world unit :=
  upd_server (fun s => mkServer (methods s) false (sub_id s) true) ;;;
  let! s := get_server in
  match sub_id s with
  | None => ret tt
  | Some i =>
      unsubscribe i ;;;
      upd_server (fun s => mkServer (methods s) (running s) None (stop_event s))
  end.

(** [with server: body]; entering it does not serve. *)
Definition with_server {A} (body : M world A) : M world A := try_finally body stop.

(** [stop] never raises, and the server does not run after it. *)
Lemma stop_stops h : exists h', stop h = (Ok tt, h') /\ running (h_rest h').2.1 = false /\
  methods (h_rest h').2.1 = methods (h_rest h).2.1 /\ (h_rest h').2.2 = (h_rest h).2.2.
Proof.
  unfold stop, unsubscribe, get_server, upd_server, upd_q, upd_rest, get_q, gets, modify, bind. cbn.
  destruct (sub_id (h_rest h).2.1) as [i|]; [|by eexists]. cbn.
  destruct (dget (q_sub_ids (h_rest h).1) i) as [[name fn]|]; [|by eexists]. cbn.
  destruct (dget (q_topics (h_rest h).1) name) as [ev|]; [|by eexists].
  destruct (ev_unsubscribe fn ev) as [removed ev']. by eexists.
Qed.

(** [if msg.reply_to: self._queue.publish(msg.reply_to, response.model_dump())] *)
Definition send_response (msg : Message) (r : RPCResponse) : M world unit :=
  match reply_to msg with
  | Some rt => if decide (rt = "") then ret tt else publish clock rt (dump_response P r) [] ;;; ret tt
  | None => ret tt
  end.

Definition replied (msg : Message) : bool :=
  match reply_to msg with Some rt => negb (bool_decide (rt = "")) | None => false end.

Definition error_response (i rid : string) (error error_type : string) : RPCResponse :=
  mkRPCResponse i rid VNone (Some error) (Some error_type).

(** [msg.payload.get("id", "unknown") if isinstance(msg.payload, dict) else "unknown"] *)
Definition claimed_id (p : val) : val :=
  match p with VDict d => default (VStr "unknown") (str_item d "id") | _ => VStr "unknown" end.

Definition bad_id : exn := Exc "ValidationError" "request_id: Input should be a valid string".

Definition handle_invalid (msg : Message) (e : exn) : M world unit :=
  if replied msg then
    let! i := new_uuid in
    match claimed_id (payload msg) with
    | VStr rid => send_response msg (error_response i rid ("Invalid request: " +:+ exn_str e) "ValidationError")
    | _ => throw bad_id
    end
  else ret tt.

Definition handle_unknown (msg : Message) (req : RPCRequest) : M world unit :=
  if replied msg then
    let! i := new_uuid in
    send_response msg (error_response i (req_id req) ("Method not found: " +:+ req_method req) "MethodNotFound")
  else ret tt.

(** [try: result = method(...); response = ...  except Exception as e: ...] *)
Definition run_method (f : F) (req : RPCRequest) : M world RPCResponse :=
  try_except
    (let! v := call_method f (mkArgs (req_args req) (req_kwargs req)) in
     let! i := new_uuid in
     ret (mkRPCResponse i (req_id req) v None None))
    (fun e => let! i := new_uuid in
     ret (error_response i (req_id req) (exn_str e) (exn_type e))).

Definition handle_request (msg : Message) : M world unit :=
  match validate_request P (payload msg) with
  | Raise e => handle_invalid msg e
  | Ok req =>
      let! s := get_server in
      match dget (methods s) (req_method req) with
      | None => handle_unknown msg req
      | Some f => let! r := run_method f req in send_response msg r
      end
  end.

(** [_handle_request_async]: the same in a thread of the loop's executor *)
Definition handle_request_async (msg : Message) : M world unit := handle_request msg.

(** ** [RPCClient] *)
Variable default_timeout : Z.

(** [timeout or self._timeout] *)
Definition effective (timeout : option Z) : Z :=
  match timeout with Some t => if decide (t = 0) then default_timeout else t | None => default_timeout end.

Definition rpc_timed_out (method : string) : exn :=
  Exc "TimeoutError" ("RPC call to " +:+ method +:+ " timed out").

Definition opt_str (o : option string) : string := default "None" o.

(** What the response message means to the caller *)
Definition read_response (p : val) : result val :=
  match validate_response P p with
  | Raise e => Raise e
  | Ok r =>
      match resp_error r with
      | Some e => if decide (e = "") then Ok (resp_result r)
                  else Raise (Exc "Exception" (opt_str (resp_error_type r) +:+ ": " +:+ e))
      | None => Ok (resp_result r)
      end
  end.

(** [call] up to [send], which gives the topic that the answer will come on *)
Definition call_send (method : string) (a : pyargs) (timeout : option Z) : M world string :=
  let! rid := new_uuid in
  let request := mkRPCRequest rid method (pos a) (kw a) (Some (effective timeout)) in
  let reply_topic := "_rpc_reply." +:+ rid in
  let! msg := new_message clock request_topic (dump_request P request) [] (Some reply_topic) (Some rid) in
  t_send msg ;;;
  ret reply_topic.

(** The rest of it, on what [receive] answered *)
Definition call_answer (method : string) (response_msg : wait (option Message)) : M world (wait val) :=
  match response_msg with
  | Waiting => ret Waiting
  | Done None => throw (rpc_timed_out method)
  | Done (Some m) => let! v := lift (read_response (payload m)) in ret (Done v)
  end.

Definition call_receive (method : string) (timeout : option Z) (reply_topic : string) : M world (wait val) :=
  let! response_msg := receive reply_topic (Some (effective timeout)) in
  call_answer method response_msg.

Definition call (method : string) (a : pyargs) (timeout : option Z) : M world (wait val) :=
  let! reply_topic := call_send method a timeout in
  call_receive method timeout reply_topic.

(** [call_async]: as [call], but for how it waits *)
Definition call_async (method : string) (a : pyargs) (timeout : option Z) : M world (wait val) :=
  let! reply_topic := call_send method a timeout in
  let! response_msg := receive_async reply_topic (Some (effective timeout)) in
  call_answer method response_msg.

(** [client.method(..., timeout=t)], by [__getattr__] *)
Definition getattr_call (name : string) (a : pyargs) (timeout : option Z) : M world (wait val) := call name a timeout.
End rpc.

(** ** [RoundRobinRPCClient]: [C] is an [RPCClient]; the index lives in the heap *)
Module RoundRobin.
Section rr.
Context {W C A : Type}.
Variable call : C -> A -> M W (wait val).
Variable idx : W -> nat.
Variable set_idx : nat -> W -> W.

Definition init (clients : list C) : result (list C * nat) :=
  match clients with
  | [] => Raise (Exc "ValueError" "RoundRobinRPCClient requires at least one RPCClient")
  | _ => Ok (clients, 0%nat)
  end.

Definition next_client (clients : list C) : M W C := fun w =>
  match clients !! idx w with
  | Some c => (Ok c, set_idx (S (idx w) mod length clients) w)
  | None => (Raise (Exc "IndexError" "list index out of range"), w)
  end.

Definition call_next (clients : list C) (a : A) : M W (wait val) :=
  let! c := next_client clients in call c a.

(** Calls one after the other, whatever becomes of each *)
Definition calls (clients : list C) (args : list A) : M W unit :=
  for_each args (fun a w => (Ok tt, (call_next clients a w).2)).

(** The calls made so far: which client, with what *)
Variable log : W -> list (C * A).
Hypothesis idx_set : forall n w, idx (set_idx n w) = n.
Hypothesis log_set : forall n w, log (set_idx n w) = log w.
Hypothesis call_log : forall c a w, log (call c a w).2 = log w ++ [(c, a)].
Hypothesis call_idx : forall c a w, idx (call c a w).2 = idx w.

(** [RoundRobinRPCClient] shares calls out evenly: call number [i] of a run
    goes to client number [(idx + i) mod n] and to no other, once, with its own
    arguments, whatever the calls before it returned or raised. *)
Theorem client_rotation clients args w :
  (idx w < length clients)%nat ->
  exists w', calls clients args w = (Ok tt, w') /\ (idx w' < length clients)%nat /\
    exists picked, log w' = log w ++ zip picked args /\ length picked = length args /\
      forall i, (i < length args)%nat -> picked !! i = clients !! ((idx w + i) mod length clients)%nat.
Proof.
  unfold calls. revert w. induction args as [|a args IH]; intros w Hi.
  - exists w. split; [done|]. split; [done|]. exists []. split_and!; [by rewrite app_nil_r|done|cbn; lia].
  - destruct (lookup_lt_is_Some_2 clients (idx w) Hi) as [c Hc].
    set (n := length clients) in *. set (w1 := (call_next clients a w).2).
    assert (idx w1 = S (idx w) mod n)%nat as Hi1.
    { unfold w1, call_next, next_client, bind. rewrite Hc. cbn. by rewrite call_idx, idx_set. }
    assert (log w1 = log w ++ [(c, a)]) as Hl1.
    { unfold w1, call_next, next_client, bind. rewrite Hc. cbn. by rewrite call_log, log_set. }
    destruct (IH w1) as (w' & Hr & Hi' & picked & Hl & Hlen & Hp).
    { rewrite Hi1. apply Nat.mod_upper_bound. lia. }
    exists w'. split; [exact Hr|]. split; [done|]. exists (c :: picked). split; [|split; [cbn; lia|]].
    + rewrite Hl, Hl1, <- app_assoc. done.
    + intros [|i] Hlt; cbn.
      * rewrite Nat.add_0_r, Nat.mod_small by done. by rewrite Hc.
      * rewrite Hp by (cbn in Hlt; lia). rewrite Hi1. f_equal. rewrite Nat.Div0.add_mod_idemp_l. f_equal. lia.
Qed.
End rr.
End RoundRobin.

(** ** [with_retry] *)
Module Retry.
Section retry.
Context {W A : Type}.
Variable call : M W A.                      (** [self._client.call(method, ...)] *)
Variable sleep : Q -> M W unit.
Variable retry_on : exn -> bool.
Variable backoff_factor : Q.

Definition unreachable : exn := Exc "AssertionError" "".

(** The rounds [attempt ..] of the loop; [left] of them remain. *)
Fixpoint attempts (max_retries : Z) (attempt : Z) (left : nat) (delay : Q) : M W A := fun w =>
  match left with
  | O => (Raise unreachable, w)
  | S left' =>
      match call w with
      | (Ok a, w') => (Ok a, w')
      | (Raise e, w') =>
          if retry_on e then
            if decide (attempt = max_retries) then (Raise e, w')
            else (sleep delay ;;; attempts max_retries (attempt + 1) left' (delay * backoff_factor)%Q) w'
          else (Raise e, w')
      end
  end.

(** [for attempt in range(self._max_retries + 1)] *)
Definition call_retrying (max_retries : Z) (backoff_initial : Q) : M W A :=
  attempts max_retries 0 (Z.to_nat (max_retries + 1)) backoff_initial.

(** [k] attempts that fail with a retryable error, each followed by its sleep *)
Inductive retried : nat -> Q -> W -> W -> Prop :=
  | retried_none d w : retried 0 d w w
  | retried_more k d w w1 w2 w3 e :
      call w = (Raise e, w1) -> retry_on e = true -> sleep d w1 = (Ok tt, w2) ->
      retried k (d * backoff_factor)%Q w2 w3 -> retried (S k) d w w3.

Hypothesis sleep_returns : forall d w, (sleep d w).1 = Ok tt.

Lemma attempts_spec max_retries left attempt d w :
  max_retries + 1 = attempt + Z.of_nat (S left) ->
  exists k w1 r w', (k <= left)%nat /\ retried k d w w1 /\ call w1 = (r, w') /\
    attempts max_retries attempt (S left) d w = (r, w') /\
    forall e, r = Raise e -> retry_on e = true -> k = left.
Proof.
  revert attempt d w. induction left as [|left IH]; intros attempt d w Hm.
  - destruct (call w) as [r w'] eqn:Hc. exists 0%nat, w, r, w'. split; [lia|]. split; [constructor|].
    split; [done|]. split; [|done]. cbn. rewrite Hc. destruct r as [a|e]; [done|].
    rewrite decide_True by lia. by destruct (retry_on e).
  - destruct (call w) as [r w1] eqn:Hc.
    assert (match r with Raise e => retry_on e | Ok _ => false end = false \/
            exists e, r = Raise e /\ retry_on e = true) as [Hend|(e & -> & He)].
    { destruct r as [a|e]; [by left|]. destruct (retry_on e) eqn:He; [right; eauto|by left]. }
    + exists 0%nat, w, r, w1. split; [lia|]. split; [constructor|]. split; [done|].
      split; [|intros e -> He; congruence]. cbn. rewrite Hc. destruct r as [a|e]; [done|]. by rewrite Hend.
    + pose proof (sleep_returns d w1) as Hs. destruct (sleep d w1) as [rs w2] eqn:Hsl. cbn in Hs. subst rs.
      destruct (IH (attempt + 1) (d * backoff_factor)%Q w2) as (k & w3 & r & w' & Hk & Hr & Hc' & Ha & Hx); [lia|].
      exists (S k), w3, r, w'. split; [lia|]. split; [by econstructor|]. split; [done|]. split.
      * cbn [attempts]. rewrite Hc, He. rewrite decide_False by lia. rewrite (bind_run _ _ _ _ _ Hsl). exact Ha.
      * intros e' -> He'. by rewrite (Hx e' eq_refl He').
Qed.

(** C40 A retrying call: it is the outcome of the last of at most
    [max_retries + 1] attempts, all before it failed with an exception of
    [retry_on] and were each followed by a sleep, of [backoff_initial] first and
    [backoff_factor] times longer each time; an exception of [retry_on] comes out
    only when the retries are used up, and any other one at once.  (A negative
    [max_retries] fails without an attempt.) *)
Theorem retry_outcome max_retries backoff_initial w :
  (0 <= max_retries ->
   exists k w1 r w', Z.of_nat k <= max_retries /\ retried k backoff_initial w w1 /\ call w1 = (r, w') /\
     call_retrying max_retries backoff_initial w = (r, w') /\
     forall e, r = Raise e -> retry_on e = true -> Z.of_nat k = max_retries) /\
  (max_retries < 0 -> call_retrying max_retries backoff_initial w = (Raise unreachable, w)).
Proof.
  unfold call_retrying. split; intros Hm.
  - destruct (attempts_spec max_retries (Z.to_nat max_retries) 0 backoff_initial w)
      as (k & w1 & r & w' & Hk & Hr & Hc & Ha & Hx); [lia|].
    exists k, w1, r, w'. split; [lia|]. split; [done|]. split; [done|].
    replace (Z.to_nat (max_retries + 1)) with (S (Z.to_nat max_retries)) by lia.
    split; [exact Ha|]. intros e He Hre. rewrite (Hx e He Hre). lia.
  - replace (Z.to_nat (max_retries + 1)) with 0%nat by lia. done.
Qed.
End retry.
End Retry.

(** * Facts *)

(** ** What a request is answered with *)
Section answers.
Context {T H F V : Type}.
Abbreviation world := (heap T (qstate H * (server F * V))).
Context {TR : Transport world chan_cb}.
Variable clock : world -> Z.
Context (P : models) {POk : ModelsOk P}.
Variable call_method : F -> pyargs -> M world val.
Implicit Types (h : world).
Abbreviation handle := (handle_request clock P call_method).

(** A method leaves the queue alone. *)
Definition method_own : Prop := forall f a h,
  let h' := (call_method f a h).2 in
  h_tr h' = h_tr h /\ (h_rest h').1 = (h_rest h).1 /\ (h_uuid h <= h_uuid h')%nat.

(** A method raises at most [Exception]s. *)
Definition method_tame : Prop := forall f a h e, (call_method f a h).1 = Raise e -> is_Exception e = true.

(** What a request runs: the method, or the error of an unknown one *)
Definition looked_up (m : string) (a : pyargs) : M world val := fun h =>
  match dget (methods (h_rest h).2.1) m with
  | Some f => call_method f a h
  | None => (Raise (Exc "MethodNotFound" ("Method not found: " +:+ m)), h)
  end.

Definition response_of (i rid : string) (r : result val) : RPCResponse :=
  match r with
  | Ok v => mkRPCResponse i rid v None None
  | Raise e => error_response i rid (exn_str e) (exn_type e)
  end.

(** How the caller sees the outcome *)
Definition client_sees (r : result val) : result val :=
  match r with
  | Ok v => Ok v
  | Raise e => if decide (exn_str e = "") then Ok VNone
               else Raise (Exc "Exception" (exn_type e +:+ ": " +:+ exn_str e))
  end.

Lemma read_response_of i rid r : read_response P (dump_response P (response_of i rid r)) = client_sees r.
Proof. unfold read_response. rewrite response_back. by destruct r. Qed.

Lemma server_answers msg req h :
  method_tame -> validate_request P (payload msg) = Ok req -> replied msg = true ->
  let '(r, h1) := looked_up (req_method req) (mkArgs (req_args req) (req_kwargs req)) h in
  handle msg h = send_response clock P msg
    (response_of (uuid4 (h_uuid h1)) (req_id req) r) (mkHeap (S (h_uuid h1)) (h_tr h1) (h_rest h1)).
Proof.
  intros method_tame Hp Hr. unfold looked_up, handle_request. rewrite Hp.
  unfold get_server, bind at 1, gets.
  destruct (dget (methods (h_rest h).2.1) (req_method req)) as [f|].
  - pose proof (method_tame f (mkArgs (req_args req) (req_kwargs req)) h) as Ht.
    unfold bind, run_method, try_except, new_uuid, ret. unfold bind.
    destruct (call_method f _ h) as [[v|e] h1]; [done|]. by rewrite (Ht e eq_refl).
  - unfold handle_unknown. by rewrite Hr.
Qed.

Lemma looked_up_own m a h : method_own ->
  let h' := (looked_up m a h).2 in
  h_tr h' = h_tr h /\ (h_rest h').1 = (h_rest h).1 /\ (h_uuid h <= h_uuid h')%nat.
Proof. intros Hown. unfold looked_up. destruct (dget _ m); [apply Hown|done]. Qed.

End answers.

(** ** A call over a queue in process *)
Module LocalRpc.
Section local.
Context {H F V : Type} `{!EqDecision H}.
Abbreviation world := (heap (MemoryTransport.state chan_cb) (qstate H * (server F * V))).
Abbreviation qenv := (env world H Message).
Variables E E' : qenv.
Variable clock : world -> Z.
Context (P : models) {POk : ModelsOk P}.
Variable call_method : F -> pyargs -> M world val.
Variable handler : H.
Variable service_name : string.
Variable default_timeout : Z.
Implicit Types (h : world).

Abbreviation handle := (handle_request (TR := Local.local_transport E') clock P call_method).
Abbreviation rpc := (call (TR := Local.local_transport E) clock P service_name default_timeout).

(** The server's handler is subscribed; ([E'] runs the callbacks of the
    responses it publishes, of which there are none). *)
Hypothesis handler_runs : forall msg h, invoke E handler msg h = (handle msg ;;; ret VNone) h.
Hypothesis own : method_own call_method.
Hypothesis raises_tame : method_tame call_method.

Lemma call_async_timeout m a tm h : 0 < effective default_timeout tm ->
  call_async (TR := Local.local_transport E) clock P service_name default_timeout m a tm h = rpc m a tm h.
Proof.
  intros Ht. unfold call_async, call, call_receive, receive_async, receive. unfold bind at 1 3.
  destruct (call_send _ _ _ _ _ _ _ h) as [[rt|e] h']; [|done]. unfold bind.
  change (t_receive_async (Transport := Local.local_transport E)) with (MemoryTransport.receive_async (CB := chan_cb) (R := qstate H * (server F * V))).
  change (t_receive (Transport := Local.local_transport E)) with (MemoryTransport.receive (CB := chan_cb) (R := qstate H * (server F * V))).
  by rewrite MemoryTransport.receive_async_timeout.
Qed.

(** What the caller gets is what it reads of the response to what the method did. *)
Lemma local_call m a tm h :
  Local.linked h -> Local.names_plain h -> MemoryTransport.closed (h_tr h) = false ->
  Local.simple_channels (h_rest h).1 -> Local.handlers_of (request_topic service_name) h = [handler] ->
  MemoryTransport.full (h_tr h) (request_topic service_name) = false ->
  0 <= effective default_timeout tm ->
  let rt := "_rpc_reply." +:+ uuid4 (h_uuid h) in
  dmem (q_topics (h_rest h).1) rt = false -> MemoryTransport.queue_of (h_tr h) rt = [] ->
  let hm := mkHeap (S (S (h_uuid h))) (h_tr h) (h_rest h) in
  exists i h', rpc m a tm h =
      (match read_response P (dump_response P (response_of i (uuid4 (h_uuid h)) (looked_up call_method m a hm).1)) with
       | Ok v => Ok (Done v) | Raise e => Raise e end, h') /\
    (h_rest h').2 = (h_rest (looked_up call_method m a hm).2).2 /\
    MemoryTransport.queue_of (h_tr h') rt = [].
Proof.
  intros Hl Hpl Hc Hsc Hh Hfull Htm rt Hrt Hq hm.
  set (t := request_topic service_name) in *.
  set (rid := uuid4 (h_uuid h)) in *.
  set (req := mkRPCRequest rid m (pos a) (kw a) (Some (effective default_timeout tm))).
  set (msg := mkMessage (uuid4 (S (h_uuid h))) t (dump_request P req) [] (clock hm) (Some rt) (Some rid)).
  assert (Local.linked hm) as Hlm by (apply Local.linked_mono; [lia|done]).
  pose proof (looked_up_own call_method m a hm own) as (Htr1 & Hq1 & Hu1).
  pose proof (server_answers (TR := Local.local_transport E') clock P call_method msg req hm raises_tame (request_back req) eq_refl) as Hans.
  cbn [req_method req_args req_kwargs req] in Hans. replace (mkArgs (pos a) (kw a)) with a in Hans by by destruct a.
  destruct (looked_up call_method m a hm) as [r h1]. cbn [fst snd] in *.
  set (resp := response_of (uuid4 (h_uuid h1)) rid r) in *.
  change (mkHeap (S (h_uuid h1)) (h_tr h1) (h_rest h1)) with (Local.after_uuid h1) in Hans.
  set (h3 := Local.after_uuid h1) in *. set (h4 := Local.after_uuid h3).
  set (rmsg := mkMessage (uuid4 (h_uuid h3)) rt (dump_response P resp) [] (clock h4) None None).
  assert (Local.linked h4) as Hl4.
  { apply (Local.linked_same hm); cbn in *; [done..|lia]. }
  assert (t <> rt) as Htne.
  { intros He. unfold Local.handlers_of in Hh. rewrite He in Hh. unfold dmem in Hrt.
    by destruct (dget (q_topics (h_rest h).1) rt). }
  assert (dmem (q_topics (h_rest hm).1) t = true) as Hmt.
  { unfold Local.handlers_of in Hh. cbn. unfold dmem. by destruct (dget (q_topics (h_rest h).1) t). }
  destruct (Local.exchange clock E msg rmsg hm h4 (effective default_timeout tm))
    as (h6 & h' & Hsend & Hrecv & Hq' & Hrest); try done.
  - intros h5 Hp5. unfold channel_fire, get_q, gets, bind. unfold Local.handlers_of in Hh.
    change (q_topics (h_rest hm).1) with (q_topics (h_rest h).1).
    change (Types.topic msg) with t. destruct (dget (q_topics (h_rest h).1) t) as [ev|] eqn:Hg; [|done].
    destruct (Hsc _ _ Hg). rewrite Local.fire_simple, Hh by done.
    unfold broadcast. cbn [for_each]. unfold bind at 1 2. rewrite handler_runs.
    unfold bind. rewrite Hans. unfold send_response. cbn [reply_to msg]. rewrite decide_False by done.
    unfold publish, new_message, new_uuid, gets, ret, bind. cbn [h_uuid h_tr h_rest].
    change (mkHeap _ _ _) with h4. change (response_of _ (req_id req) r) with resp. fold rmsg.
    rewrite Local.send_untopiced, Hp5; [done|done|..]; unfold Local.names_plain, h4, h3; cbn; rewrite ?Hq1, ?Htr1; done.
  - exists (uuid4 (h_uuid h1)), h'. split; [|split; [by rewrite Hrest|done]].
    unfold call, call_send, call_receive, call_answer, new_message, new_uuid, gets, ret, bind. cbn [h_uuid h_tr h_rest]. fold rid.
    change (mkHeap (S (S (h_uuid h))) (h_tr h) (h_rest h)) with hm. fold rt. fold t. fold req. fold msg.
    rewrite Hsend. unfold receive. change (Types.topic rmsg) with rt in Hrecv. rewrite Hrecv. cbn [payload rmsg]. unfold lift.
    unfold resp. by destruct (read_response P (dump_response P _)).
Qed.

(** C8 A remote call is a call: with the server's handler subscribed to the
    request topic, [client.call] runs the method once, on the arguments it was
    given, and returns its result; when the method raises, or is not registered,
    the caller gets an [Exception] with the type and the text of the error.  The
    one divergence is an exception whose text is empty, which the caller sees as
    the result [None].  The reply topic is left empty.  [call_async]
    with a positive timeout does the same. *)
Theorem call_outcome m a tm h :
  Local.linked h -> Local.names_plain h -> MemoryTransport.closed (h_tr h) = false ->
  Local.simple_channels (h_rest h).1 -> Local.handlers_of (request_topic service_name) h = [handler] ->
  MemoryTransport.full (h_tr h) (request_topic service_name) = false ->
  0 <= effective default_timeout tm ->
  let rt := "_rpc_reply." +:+ uuid4 (h_uuid h) in
  dmem (q_topics (h_rest h).1) rt = false -> MemoryTransport.queue_of (h_tr h) rt = [] ->
  let hm := mkHeap (S (S (h_uuid h))) (h_tr h) (h_rest h) in
  exists h', rpc m a tm h =
      (match client_sees (looked_up call_method m a hm).1 with Ok v => Ok (Done v) | Raise e => Raise e end, h') /\
    (h_rest h').2 = (h_rest (looked_up call_method m a hm).2).2 /\
    MemoryTransport.queue_of (h_tr h') rt = [] /\
    (0 < effective default_timeout tm ->
     call_async (TR := Local.local_transport E) clock P service_name default_timeout m a tm h = rpc m a tm h).
Proof.
  intros Hl Hpl Hc Hsc Hh Hfull Htm rt Hrt Hq hm.
  destruct (local_call m a tm h Hl Hpl Hc Hsc Hh Hfull Htm Hrt Hq) as (i & h' & Hr & Hrest & Hq').
  rewrite (read_response_of P) in Hr. exists h'. split_and!; [done..|]. intros Hpos. by apply call_async_timeout.
Qed.

(** [serve] then [stop]: the handler joins the request topic's handlers as
    the last; serving again subscribes nothing; [stop] takes it out, all topics
    then have the handlers they had before (up to the order of the request
    topic's own), and stopping again changes nothing. *)
Theorem serve_stop h :
  Local.linked h -> MemoryTransport.closed (h_tr h) = false -> running (h_rest h).2.1 = false ->
  exists h1 h2,
    serve (TR := Local.local_transport E) handler service_name false h = (Ok (Done tt), h1) /\
    Local.handlers_of (request_topic service_name) h1 =
      Local.handlers_of (request_topic service_name) h ++ [handler] /\
    serve (TR := Local.local_transport E) handler service_name false h1 = (Ok (Done tt), h1) /\
    stop h1 = (Ok tt, h2) /\
    (forall t, Local.handlers_of t h2 ≡ₚ Local.handlers_of t h) /\
    running (h_rest h2).2.1 = false /\ methods (h_rest h2).2.1 = methods (h_rest h).2.1 /\
    stop h2 = (Ok tt, h2).
Proof.
  intros Hl Hc Hr. set (t := request_topic service_name).
  set (h0 := set_rest ((h_rest h).1, (mkServer (methods (h_rest h).2.1) true (sub_id (h_rest h).2.1) false, (h_rest h).2.2)) h).
  assert (Local.linked h0) as Hl0 by by apply (Local.linked_same h).
  destruct (Local.subscribe_spec E t handler h0 Hl0 Hc) as (i & h1 & ev & Hsub & Hrest & Hid & Hg & Hs & Ho).
  set (h1' := set_rest ((h_rest h1).1, (mkServer (methods (h_rest h1).2.1) (running (h_rest h1).2.1) (Some i)
    (stop_event (h_rest h1).2.1), (h_rest h1).2.2)) h1).
  set (h2 := set_rest ((h_rest h1').1, (mkServer (methods (h_rest h1').2.1) false (Some i) true, (h_rest h1').2.2)) h1').
  destruct (Local.unsubscribe_last i t handler ev _ h2 Hid Hg Hs) as (h2' & Hun & _ & Hrest2 & Ht & Hot).
  exists h1'. eexists. split; [|split; [|split; [|split; [|split]]]].
  - unfold serve, get_server, gets, bind at 1. rewrite Hr. unfold bind at 1, upd_server, upd_rest, modify.
    fold h0. unfold on. fold t. unfold bind at 1. rewrite Hsub. done.
  - unfold Local.handlers_of at 1. cbn. by rewrite Hg.
  - unfold serve, get_server, gets, bind at 1. cbn. by rewrite Hrest.
  - unfold stop. rewrite (bind_run _ _ h1' tt h2) by reflexivity.
    rewrite (bind_run _ _ h2 (h_rest h2).2.1 h2) by reflexivity. cbn [sub_id h2 h1' h_rest set_rest fst snd].
    rewrite (bind_run _ _ _ _ _ Hun). reflexivity.
  - intros t'. change (Local.handlers_of t' h2' ≡ₚ Local.handlers_of t' h).
    destruct (decide (t' = t)) as [->|Hne]; [done|]. rewrite Hot by done. change (Local.handlers_of t' h1 ≡ₚ Local.handlers_of t' h).
    by rewrite Ho.
  - cbn. rewrite Hrest2. cbn. rewrite Hrest. done.
Qed.
End local.
End LocalRpc.

(** * A concrete server *)
Module RpcToy.
Abbreviation world := (heap (MemoryTransport.state chan_cb) (qstate nat * (server nat * list nat))).

Definition dump_opt (o : option Z) : val := match o with Some z => VInt z | None => VNone end.
Definition load_opt (v : val) : option Z := match v with VInt z => Some z | _ => None end.
Definition dump_text (o : option string) : val := match o with Some s => VStr s | None => VNone end.
Definition load_text (v : val) : option string := match v with VStr s => Some s | _ => None end.

Definition invalid : exn := Exc "ValidationError" "Input should be a valid dictionary".

Definition P : models := {|
  dump_request r := VDict [(VStr "id", VStr (req_id r)); (VStr "method", VStr (req_method r));
    (VStr "args", VTuple (req_args r)); (VStr "kwargs", VDict (map (fun p => (VStr p.1, p.2)) (req_kwargs r)));
    (VStr "timeout", dump_opt (req_timeout r))];
  validate_request v :=
    match v with
    | VDict [(_, VStr i); (_, VStr m); (_, VTuple a); (_, VDict k); (_, t)]
    | VDict [(_, VStr i); (_, VStr m); (_, VList a); (_, VDict k); (_, t)] =>
        match str_keys k with Ok k => Ok (mkRPCRequest i m a k (load_opt t)) | Raise e => Raise e end
    | _ => Raise invalid
    end;
  dump_response r := VDict [(VStr "id", VStr (resp_id r)); (VStr "request_id", VStr (request_id r));
    (VStr "result", resp_result r); (VStr "error", dump_text (resp_error r));
    (VStr "error_type", dump_text (resp_error_type r))];
  validate_response v :=
    match v with
    | VDict [(_, VStr i); (_, VStr rid); (_, v); (_, e); (_, t)] =>
        Ok (mkRPCResponse i rid v (load_text e) (load_text t))
    | _ => Raise invalid
    end;
|}.

Lemma str_keys_back k : str_keys (map (fun p => (VStr p.1, p.2)) k) = Ok k.
Proof. induction k as [|[s v] k IH]; [done|]. cbn. by rewrite IH. Qed.

#[global] Instance P_ok : ModelsOk P.
Proof.
  split; [intros [i m a k t]|intros [i rid v e t]]; cbn.
  - rewrite str_keys_back. by destruct t.
  - by destruct e, t.
Qed.

(** Methods are numbers: each notes that it ran; 0 returns its arguments, the
    odd ones raise. *)
Definition run (f : nat) (a : pyargs) : M world val :=
  upd_rest (fun r => (r.1, (r.2.1, r.2.2 ++ [f]))) ;;;
  if Nat.odd f then throw (Exc "ValueError" (if decide (f = 1%nat) then "" else "odd")) else ret (VTuple (pos a)).

Definition env_of (call : nat -> Message -> M world val) : env world nat Message := plain_env call.

Definition quiet : env world nat Message := env_of (fun _ _ => ret VNone).
Definition clock : world -> Z := fun _ => 0.
Definition serving : env world nat Message := env_of (fun _ msg =>
  handle_request (TR := Local.local_transport quiet) clock P run msg ;;; ret VNone).

Definition w0 : world := Local.init 0 10 (mkServer [("m", 0%nat); ("e", 1%nat); ("o", 3%nat)] false None false, []).
Definition served : world := (subscribe (TR := Local.local_transport serving) "rpc.request" 0%nat w0).2.

Lemma served_linked : Local.linked served.
Proof. apply (Local.keeps_subscribe _ _ serving w0); [apply Local.mq_ok_init|reflexivity]. Qed.

Definition do_call (m : string) : result (wait val) * world :=
  call (TR := Local.local_transport serving) clock P "rpc" 30 m (mkArgs [VInt 7] []) None served.

(** For [RoundRobinRPCClient]: clients are numbers, the odd ones raise. *)
Definition rr_world : Type := nat * list (nat * string).
Definition rr_call (c : nat) (a : string) : M rr_world (wait val) := fun w =>
  (if Nat.odd c then Raise (Exc "TimeoutError" "") else Ok (Done VNone), (w.1, w.2 ++ [(c, a)])).

(** For [with_retry]: the first element of the script is the next outcome, and
    the delays are recorded. *)
Definition script : Type := list (result val) * list Q.
Definition next_outcome : M script val := fun w =>
  match w.1 with [] => (Ok VNone, w) | r :: l => (r, (l, w.2)) end.
Definition nap (d : Q) : M script unit := modify (fun w => (w.1, w.2 ++ [d])).
Definition is_timeout (e : exn) : bool := bool_decide (exn_type e = "TimeoutError").
End RpcToy.

Lemma call_outcome_witness :
  (RpcToy.do_call "m").1 = Ok (Done (VTuple [VInt 7])) /\
  (RpcToy.do_call "e").1 = Ok (Done VNone) /\
  (RpcToy.do_call "o").1 = Raise (Exc "Exception" "ValueError: odd").
Proof.
  assert (forall m, exists h', RpcToy.do_call m =
    (match client_sees (looked_up RpcToy.run m (mkArgs [VInt 7] [])
        (mkHeap 4 (h_tr RpcToy.served) (h_rest RpcToy.served))).1 with
     | Ok v => Ok (Done v) | Raise e => Raise e end, h')) as Hall.
  { intros m.
    destruct (LocalRpc.call_outcome RpcToy.serving RpcToy.quiet RpcToy.clock RpcToy.P RpcToy.run 0%nat "rpc" 30)
      with (m := m) (a := mkArgs [VInt 7] []) (tm := @None Z) (h := RpcToy.served) as (h' & Hc & _).
    - reflexivity.
    - intros f a h. unfold RpcToy.run. destruct (Nat.odd f); split_and!; reflexivity.
    - intros f a h e. unfold RpcToy.run. destruct (Nat.odd f); [intros [= <-]; reflexivity|discriminate].
    - apply RpcToy.served_linked.
    - unfold Local.names_plain. apply (bool_decide_eq_true_1 _). vm_compute. reflexivity.
    - reflexivity.
    - apply Local.simple_channels_all. vm_compute. by repeat constructor.
    - reflexivity.
    - reflexivity.
    - cbn. lia.
    - reflexivity.
    - reflexivity.
    - exists h'. exact Hc. }
  destruct (Hall "m") as [h1 ->], (Hall "e") as [h2 ->], (Hall "o") as [h3 ->]. split_and!; reflexivity.
Defined.

Lemma serve_stop_witness :
  exists h1 h2, serve (TR := Local.local_transport RpcToy.serving) 0%nat "rpc" false RpcToy.w0 = (Ok (Done tt), h1) /\
    stop h1 = (Ok tt, h2) /\ Local.handlers_of "rpc.request" h2 = [].
Proof.
  destruct (LocalRpc.serve_stop RpcToy.serving 0%nat "rpc" RpcToy.w0) as (h1 & h2 & Hs & _ & _ & Hst & Hh & _).
  - apply Local.mq_ok_init. reflexivity.
  - reflexivity.
  - reflexivity.
  - exists h1, h2. split; [exact Hs|]. split; [exact Hst|]. apply Permutation_nil_r. exact (Hh "rpc.request").
Defined.

Lemma client_rotation_witness :
  exists w', RoundRobin.calls RpcToy.rr_call fst (fun n w => (n, w.2)) [10%nat; 11%nat] ["a"; "b"; "c"] (1%nat, []) = (Ok tt, w') /\
    map fst (snd w') = [11%nat; 10%nat; 11%nat].
Proof.
  destruct (RoundRobin.client_rotation RpcToy.rr_call fst (fun n w => (n, w.2)) snd) with
    (clients := [10%nat; 11%nat]) (args := ["a"; "b"; "c"]) (w := (1%nat, @nil (nat * string)))
    as (w' & Hr & _ & picked & Hl & Hlen & Hp); [reflexivity..| |].
  - cbn. lia.
  - exists w'. split; [exact Hr|]. rewrite Hl.
    destruct picked as [|x [|y [|z []]]]; try discriminate Hlen.
    pose proof (Hp 0%nat ltac:(cbn; lia)) as H0. pose proof (Hp 1%nat ltac:(cbn; lia)) as H1.
    pose proof (Hp 2%nat ltac:(cbn; lia)) as H2. cbn in H0, H1, H2.
    injection H0 as ->. injection H1 as ->. injection H2 as ->. reflexivity.
Defined.

(** Two timeouts, then an answer: two sleeps, of 1/10 and 2/10. *)
Lemma retry_outcome_witness :
  exists k w1 r w', Z.of_nat k <= 3 /\
    RpcToy.next_outcome w1 = (r, w') /\
    Retry.call_retrying RpcToy.next_outcome RpcToy.nap RpcToy.is_timeout 2%Q 3 (1 # 10)%Q
      ([Raise (Exc "TimeoutError" ""); Raise (Exc "TimeoutError" ""); Ok (VInt 1)], []) = (r, w').
Proof.
  destruct (Retry.retry_outcome RpcToy.next_outcome RpcToy.nap RpcToy.is_timeout 2%Q) with
    (max_retries := 3) (backoff_initial := (1 # 10)%Q)
    (w := ([Raise (Exc "TimeoutError" ""); Raise (Exc "TimeoutError" ""); Ok (VInt 1)], @nil Q)) as [Hr _].
  - intros d w. reflexivity.
  - destruct Hr as (k & w1 & r & w' & Hk & _ & Hc & Hrun & _); [lia|].
    exists k, w1, r, w'. split; [exact Hk|]. split; [exact Hc|exact Hrun].
Defined.
