(* ===== verification/RpcClients.v ===== *)
(** * [eventforge/rpc.py]: the clients as objects, and how they compose

    Rpc has what [RPCClient.call], [RoundRobinRPCClient.call] and the loop of
    [with_retry] do.  Here are the objects around them: their constructors, what an
    attribute access on them finds, and a retrying client over a round-robin one,
    which is how a caller survives the loss of some of its workers. *)
From Stdlib Require Import QArith Qround.
From S2P Require Import Prelude PyDict Types Topics Transport Memory Observers Queue Rpc.
#[local] Open Scope Z_scope.

Module RpcClients.

(** ** The objects *)

(** [RPCClient]; its queue is the heap's. *)
Record client : Type := mkClient { service_name : string; timeout : Z }.

Definition init_client (service_name : option string) (timeout : option Z) : client :=
  mkClient (default "rpc" service_name) (default 30 timeout).

(** [_RetryingClient], but for the client that it wraps *)
Record policy : Type := mkPolicy {
  max_retries : Z;
  backoff_initial : Q;
  backoff_factor : Q;
  retry_on : list string;
}.

(** [with_retry(client, ...)] *)
Definition with_retry (max_retries : option Z) (backoff_initial backoff_factor : option Q)
    (retry_on : option (list string)) : policy :=
  mkPolicy (default 3 max_retries) (default (1 # 10)%Q backoff_initial) (default 2%Q backoff_factor)
    (default ["TimeoutError"; "ConnectionError"] retry_on).

(** ** Attributes

    Python asks [__getattr__] only for what neither the object nor its class has;
    the methods of [object] itself are left out. *)
Inductive attribute : Type :=
  | Found
  | Caller (name : string).   (** the closure that calls the remote method [name] *)

Definition attribute_of (has : list string) (name : string) : attribute :=
  if decide (name ∈ has) then Found else Caller name.

Definition client_has : list string := ["_queue"; "_service_name"; "_timeout"; "call"; "call_async"].
Definition round_robin_has : list string := ["_clients"; "_idx"; "_lock"; "_next_client"; "call"].

(** [__init__] of [_RetryingClient] does not call that of [RPCClient]. *)
Definition retrying_has : list string :=
  ["_client"; "_max_retries"; "_backoff_initial"; "_backoff_factor"; "_retry_on"; "call"; "call_async"].

Section calls.
Context {T H F V : Type} `{!EqDecision H}.
Abbreviation world := (heap T (qstate H * (server F * V))).
Context {TR : Transport world chan_cb}.
Variable clock : world -> Z.
Variable P : models.

(** Python's [isinstance(e, cls)] by the class's name, and [time.sleep] *)
Variable isinstance : exn -> string -> bool.
Variable sleep : Q -> M world unit.

Definition client_call (c : client) (m : string) (a : pyargs) (tm : option Z) : M world (wait val) :=
  Rpc.call clock P (service_name c) (timeout c) m a tm.

(** [except self._retry_on] *)
Definition retries (p : policy) (e : exn) : bool := existsb (isinstance e) (retry_on p).

(** [_RetryingClient.call], over any client's [call] *)
Definition retrying_call {A} (p : policy) (call : M world A) : M world A :=
  Retry.call_retrying call sleep (retries p) (backoff_factor p) (max_retries p) (backoff_initial p).

(** [call_async] on a [_RetryingClient] is [RPCClient]'s, without [RPCClient]'s
    attributes: [self._timeout] and [self._queue] are callers. *)
Definition invalid_timeout : exn :=
  Exc "ValidationError" "timeout: Input should be a valid number".
Definition no_transport : exn :=
  Exc "AttributeError" "'function' object has no attribute '_transport'".

Definition retrying_call_async (m : string) (a : pyargs) (tm : option Z) : M world (wait val) :=
  let! rid := new_uuid in
  match tm with
  | Some t => if decide (t = 0) then throw invalid_timeout else let! i := new_uuid in throw no_transport
  | None => throw invalid_timeout
  end.

(** It always raises, and no request leaves. *)
Lemma retrying_call_async_raises m a tm h :
  exists e h', retrying_call_async m a tm h = (Raise e, h') /\ is_Exception e = true /\
    h_tr h' = h_tr h /\ h_rest h' = h_rest h.
Proof.
  unfold retrying_call_async, new_uuid, gets, throw, bind. cbn.
  destruct tm as [t|]; [destruct (decide (t = 0))|]; eauto 10.
Qed.

(** The two attributes that it needs are remote methods' callers. *)
Lemma retrying_attributes :
  attribute_of retrying_has "call_async" = Found /\
  attribute_of retrying_has "_timeout" = Caller "_timeout" /\
  attribute_of retrying_has "_queue" = Caller "_queue".
Proof. done. Qed.
End calls.

(** ** [RoundRobinRPCClient.__getattr__] *)
Section round_robin.
Context {W C : Type}.
Variable call : C -> string * pyargs -> M W (wait val).
Variable idx : W -> nat.
Variable set_idx : nat -> W -> W.

(** [pool.name( *args, **kwargs)]; [None] for an attribute of the pool's own *)
Definition round_robin_getattr (clients : list C) (name : string) : option (pyargs -> M W (wait val)) :=
  match attribute_of round_robin_has name with
  | Found => None
  | Caller m => Some (fun a => RoundRobin.call_next call idx set_idx clients (m, a))
  end.

(** [await pool.call_async(m, ...)]: the class has no [call_async], so that the
    next worker is asked for a remote method of that name, with [m] as argument. *)
Lemma round_robin_call_async clients :
  round_robin_getattr clients "call_async" =
  Some (fun a => RoundRobin.call_next call idx set_idx clients ("call_async", a)).
Proof. done. Qed.
End round_robin.

(** ** [with_retry] over a [RoundRobinRPCClient] *)
Section failover.
Context {W C A : Type}.
Variable call : C -> A -> M W (wait val).
Variable idx : W -> nat.
Variable set_idx : nat -> W -> W.
Variable log : W -> list (C * A).
Variable sleep : Q -> M W unit.
Variable retry_on : exn -> bool.
Variable factor : Q.
Variable clients : list C.
Variable a : A.

Hypothesis idx_set : forall n w, idx (set_idx n w) = n.
Hypothesis log_set : forall n w, log (set_idx n w) = log w.
Hypothesis call_log : forall c w, log (call c a w).2 = log w ++ [(c, a)].
Hypothesis call_idx : forall c w, idx (call c a w).2 = idx w.
Hypothesis sleep_ok : forall d w, exists w', sleep d w = (Ok tt, w') /\ idx w' = idx w /\ log w' = log w.

Definition resilient (max_retries : Z) (initial : Q) : M W (wait val) :=
  Retry.call_retrying (RoundRobin.call_next call idx set_idx clients a) sleep retry_on factor max_retries initial.

(** The client that the rotation comes to after [i] calls *)
Definition turn (w : W) (i : nat) : option C := clients !! ((idx w + i) mod length clients)%nat.

(** A call of [c] that made the loop go on *)
Definition gave_up (c : C) : Prop := exists w e, (call c a w).1 = Raise e /\ retry_on e = true.

(** [c] answers, or fails in a way that is not worth another attempt. *)
Definition settles (c : C) : Prop := forall w e, (call c a w).1 = Raise e -> retry_on e = false.

Lemma call_next_spec w : (idx w < length clients)%nat ->
  exists c w0, turn w 0 = Some c /\ RoundRobin.call_next call idx set_idx clients a w = call c a w0 /\
    log (call c a w0).2 = log w ++ [(c, a)] /\
    forall w', idx w' = idx (call c a w0).2 -> (idx w' < length clients)%nat /\ forall i, turn w' i = turn w (S i).
Proof.
  intros Hi. destruct (lookup_lt_is_Some_2 clients (idx w) Hi) as [c Hc].
  exists c, (set_idx (S (idx w) mod length clients) w). split_and!.
  - unfold turn. by rewrite Nat.add_0_r, Nat.mod_small.
  - unfold RoundRobin.call_next, RoundRobin.next_client, bind. by rewrite Hc.
  - by rewrite call_log, log_set.
  - intros w' Hw'. rewrite call_idx, idx_set in Hw'. unfold turn. rewrite Hw'.
    split; [apply Nat.mod_upper_bound; lia|]. intros i. f_equal.
    rewrite Nat.Div0.add_mod_idemp_l. f_equal. lia.
Qed.

Lemma resilient_spec mr left attempt d w :
  mr + 1 = attempt + Z.of_nat (S left) -> (idx w < length clients)%nat ->
  exists k c w1 w' picked, (k <= left)%nat /\
    Retry.attempts (RoundRobin.call_next call idx set_idx clients a) sleep retry_on factor mr attempt (S left) d w =
      ((call c a w1).1, w') /\
    log w' = log w ++ map (fun x => (x, a)) (picked ++ [c]) /\ length picked = k /\
    (forall i, (i <= k)%nat -> (picked ++ [c]) !! i = turn w i) /\ Forall gave_up picked /\
    (forall e, (call c a w1).1 = Raise e -> retry_on e = true -> k = left).
Proof.
  revert attempt d w. induction left as [|left IH]; intros attempt d w Hm Hi;
    destruct (call_next_spec w Hi) as (c & w0 & Hc & Hcall & Hlog & Hnext);
    destruct (call c a w0) as [r w1] eqn:Hr.
  - exists 0%nat, c, w0, w1, []. cbn [Retry.attempts]. rewrite Hcall. rewrite ?Hr. split; [lia|].
    split; [destruct r; [done|]; rewrite decide_True by lia; by destruct (retry_on e)|].
    split_and!; [done|done| |constructor|done]. intros [|i] ?; [done|lia].
  - destruct (match r with Raise e => retry_on e | Ok _ => false end) eqn:Hend.
    + destruct r as [|e]; [done|]. destruct (sleep_ok d w1) as (w2 & Hs & Hi2 & Hl2).
      destruct (Hnext w2 Hi2) as [Hlt Hturn].
      destruct (IH (attempt + 1) (d * factor)%Q w2) as (k & c' & w3 & w' & picked & Hk & Ha & Hl & Hp & Ht & Hg & He);
        [lia|done|].
      exists (S k), c', w3, w', (c :: picked). split; [lia|]. split; [|split_and!].
      * remember (S left) as l. cbn [Retry.attempts]. rewrite Hcall, ?Hr, Hend, decide_False by lia.
        by rewrite (bind_run _ _ _ _ _ Hs).
      * rewrite Hl, Hl2. cbn in Hlog. rewrite Hlog, <- app_assoc. done.
      * cbn. by rewrite Hp.
      * intros [|i] Hik; cbn; [done|]. rewrite Ht by lia. apply Hturn.
      * constructor; [|done]. exists w0, e. by rewrite Hr.
      * intros e' H1 H2. by rewrite (He e' H1 H2).
    + exists 0%nat, c, w0, w1, []. split; [lia|]. remember (S left) as l. cbn [Retry.attempts]. rewrite Hcall, ?Hr.
      split; [destruct r; [done|]; by rewrite Hend|].
      split_and!; [done|done| |constructor|intros e He; cbn in He; subst r; congruence].
      intros [|i] ?; [done|lia].
Qed.

(** C10 A retrying client over a pool calls the pool's clients in turn, each
    once per round, with the same arguments, until a call does not fail with a
    retryable error or the retries are used up, and gives the outcome of the last
    call.  So when one of the first [max_retries + 1] clients in turn answers,
    the caller gets an answer, from that client or from one before it, and
    nobody after it is called. *)
Theorem failover mr initial w :
  0 <= mr -> (idx w < length clients)%nat ->
  exists k c w1 w' picked, Z.of_nat k <= mr /\
    resilient mr initial w = ((call c a w1).1, w') /\
    log w' = log w ++ map (fun x => (x, a)) (picked ++ [c]) /\ length picked = k /\
    (forall i, (i <= k)%nat -> (picked ++ [c]) !! i = turn w i) /\ Forall gave_up picked /\
    (forall e, (call c a w1).1 = Raise e -> retry_on e = true -> Z.of_nat k = mr) /\
    (forall j c', Z.of_nat j <= mr -> turn w j = Some c' -> settles c' ->
       (k <= j)%nat /\ forall e, (call c a w1).1 = Raise e -> retry_on e = false).
Proof.
  intros Hm Hi.
  destruct (resilient_spec mr (Z.to_nat mr) 0 initial w)
    as (k & c & w1 & w' & picked & Hk & Ha & Hl & Hp & Ht & Hg & He); [lia|done|].
  exists k, c, w1, w', picked. split; [lia|]. split.
  { unfold resilient, Retry.call_retrying. by replace (Z.to_nat (mr + 1)) with (S (Z.to_nat mr)) by lia. }
  split_and!; [done..|intros e H1 H2; rewrite (He e H1 H2); lia|].
  intros j c' Hj Hc' Hs. assert (k <= j)%nat as Hkj.
  { destruct (decide (k <= j)%nat) as [|Hlt]; [done|]. exfalso.
    pose proof (Ht j ltac:(lia)) as Hpj. rewrite Hc', lookup_app_l in Hpj by lia.
    destruct (Forall_lookup_1 _ _ _ _ Hg Hpj) as (w2 & e & Hr & Hon). rewrite (Hs _ _ Hr) in Hon. done. }
  split; [done|]. intros e Hr. destruct (retry_on e) eqn:Hon; [|done].
  assert (j = k) as -> by (pose proof (He e Hr Hon); lia).
  pose proof (Ht k ltac:(lia)) as Hpk. rewrite Hc', lookup_app_r, Hp, Nat.sub_diag in Hpk by lia.
  injection Hpk as ->. by rewrite <- Hon, (Hs _ _ Hr).
Qed.
End failover.
End RpcClients.

(** * Concrete runs *)
Module RpcClientsToy.
Import RpcClients.

Definition isinstance (e : exn) (cls : string) : bool := bool_decide (exn_type e = cls).

(** Sleeping is noted, in tenths of a second. *)
Definition nap (d : Q) : M RpcToy.world unit :=
  upd_rest (fun r => (r.1, (r.2.1, r.2.2 ++ [Z.to_nat (Qround.Qfloor (d * 10))]))).

Definition remote (m : string) (w : RpcToy.world) : result (wait val) * RpcToy.world :=
  retrying_call isinstance nap (with_retry None None None None)
    (client_call (TR := Local.local_transport RpcToy.serving) RpcToy.clock RpcToy.P (init_client None None) m
       (mkArgs [VInt 7] []) None) w.

(** The pool of RpcToy: the odd clients time out. *)
Definition pool (max_retries : Z) (clients : list nat) : M RpcToy.rr_world (wait val) :=
  resilient RpcToy.rr_call fst (fun n w => (n, w.2)) (fun _ => ret tt) RpcToy.is_timeout 2%Q clients "m"
    max_retries (1 # 10)%Q.
End RpcClientsToy.

(** Nobody serves: four requests, each with a reply topic of its own, three naps
    of 0.1, 0.2 and 0.4 seconds, and the [TimeoutError] of the last. *)
Example nobody_serves :
  (RpcClientsToy.remote "m" RpcToy.w0).1 = Raise (rpc_timed_out "m") /\
  (h_rest (RpcClientsToy.remote "m" RpcToy.w0).2).2.2 = [1%nat; 2%nat; 4%nat] /\
  length (MemoryTransport.queue_of (h_tr (RpcClientsToy.remote "m" RpcToy.w0).2) "rpc.request") = 4%nat.
Proof. vm_compute. done. Qed.

(** A server answers: one request; what the method raises is not retried, for
    the client raises it as a plain [Exception]. *)
Example somebody_serves :
  (RpcClientsToy.remote "m" RpcToy.served).1 = Ok (Done (VTuple [VInt 7])) /\
  (RpcClientsToy.remote "o" RpcToy.served).1 = Raise (Exc "Exception" "ValueError: odd") /\
  (h_rest (RpcClientsToy.remote "o" RpcToy.served).2).2.2 = [3%nat].
Proof. vm_compute. done. Qed.

(** Workers 1 and 3 are lost: the call that starts at 1 is answered by 2. *)
Lemma failover_witness :
  exists w', RpcClientsToy.pool 3 [3%nat; 1%nat; 2%nat] (1%nat, []) = (Ok (Done VNone), w') /\
    w'.2 = [(1%nat, "m"); (2%nat, "m")].
Proof.
  destruct (RpcClients.failover RpcToy.rr_call fst (fun n w => (n, w.2)) snd (fun _ => ret tt) RpcToy.is_timeout 2%Q
    [3%nat; 1%nat; 2%nat] "m") with (mr := 3) (initial := (1 # 10)%Q) (w := (1%nat, @nil (nat * string)))
    as (k & c & w1 & w' & picked & _ & Hr & Hl & Hp & Ht & Hg & _ & Hs); [reflexivity..| | | |].
  - intros d w. exists w. split_and!; reflexivity.
  - lia.
  - cbn. lia.
  - exists w'. change (RpcClientsToy.pool 3 [3%nat; 1%nat; 2%nat] (1%nat, [])) with
      (RpcClients.resilient RpcToy.rr_call fst (fun n w => (n, w.2)) (fun _ => ret tt) RpcToy.is_timeout 2%Q
        [3%nat; 1%nat; 2%nat] "m" 3 (1 # 10)%Q (1%nat, @nil (nat * string))).
    destruct (Hs 1%nat 2%nat) as [Hk Hans]; [lia|reflexivity| |].
    { intros w e. discriminate. }
    pose proof (Ht 0%nat ltac:(lia)) as H0. pose proof (Ht 1%nat) as H1.
    destruct picked as [|x [|y picked]]; cbn in Hp.
    + exfalso. injection H0 as ->. discriminate (Hans (Exc "TimeoutError" "") eq_refl).
    + injection H0 as ->. specialize (H1 ltac:(lia)). injection H1 as ->. split; [exact Hr|exact Hl].
    + lia.
Defined.
