(* ===== verification/Observable.v ===== *)
(** * [eventforge/observers.py]: [Observable], [observe], [Reporter]

    The attributes of an object are reached through [HasAttrs]; the module's
    globals (the class-level subscribers and the two caches of class scans) through
    [HasGlobals].  Classes are named; a class is described by what [dir] lists of
    it.  A bound method is a subscriber given by the object and the name of the
    method. *)
From Stdlib Require Import QArith.
From S2P Require Import Prelude PyDict Types Observers.
#[local] Open Scope Z_scope.

(** ** [Observable] *)
Inductive attr (F : Type) : Type := Channel (ev : Eventful F) | OtherAttr.
Arguments Channel {F} ev.
Arguments OtherAttr {F}.

(** [getattr(obj, name, None)] and the update of the channel found there *)
Class HasAttrs (W F : Type) : Type := {
  getattr : nat -> string -> W -> option (attr F);
  set_channel : nat -> string -> Eventful F -> W -> W;
}.

Class HasAttrsOk (W F : Type) `{HasAttrs W F} : Prop := {
  getattr_set : forall o n ev o' n' w,
    is_Some (getattr o n w) ->
    getattr o' n' (set_channel o n ev w) =
      if decide (o' = o /\ n' = n) then Some (Channel ev) else getattr o' n' w;
}.

Module Observable.
Section ops.
Context {W F Args : Type} `{!HasAttrs W F}.
Variable E : env W F Args.
Variable type_name : nat -> string.

Definition no_eventful (o : nat) (event : string) : exn :=
  Exc "AttributeError" (type_name o +:+ " has no Eventful attribute '" +:+ event +:+ "'").

Definition on (o : nat) (event : string) (fn : F) : M W F :=
  let! target := gets (getattr o event) in
  match target with
  | Some (Channel ev) => modify (set_channel o event (ev_subscribe fn ev)) ;;; ret fn
  | _ => throw (no_eventful o event)
  end.

Definition fire (o : nat) (event : string) (args : Args) : M W unit :=
  let! target := gets (getattr o event) in
  match target with
  | Some (Channel ev) => Observers.fire E ev args
  | _ => throw (no_eventful o event)
  end.

(** [dir] is [dir(self)]. *)
Definition events (dir : list string) (o : nat) : M W (list string) :=
  gets (fun w => List.filter (fun name =>
    negb (String.prefix "_" name) &&
    match getattr o name w with Some (Channel _) => true | _ => false end) dir).
End ops.
End Observable.

(** ** The globals *)
Abbreviation targets := (list (string * string)).

Record globals (F : Type) : Type := mkGlobals {
  CLASS_SUBSCRIBERS : list (string * list (string * list F));
  METER_EVENT_NAMES : list (string * list string);
  REPORTER_OBSERVE_METHODS : list (string * list (string * targets));
}.
Arguments mkGlobals {F} _ _ _.
Arguments CLASS_SUBSCRIBERS {F} _.
Arguments METER_EVENT_NAMES {F} _.
Arguments REPORTER_OBSERVE_METHODS {F} _.

Class HasGlobals (W F : Type) : Type := {
  globals_of : W -> globals F;
  set_globals : globals F -> W -> W;
}.

Class HasGlobalsOk (W F : Type) `{HasGlobals W F} : Prop :=
  globals_set : forall g w, globals_of (set_globals g w) = g.

(** [_CLASS_SUBSCRIBERS.get(klass, {}).get(event, ())] *)
Definition class_subscribers {F} (g : globals F) (klass event : string) : list F :=
  dget_or [] (dget_or [] (CLASS_SUBSCRIBERS g) klass) event.

(** The table that [Eventful.fire] walks is that of the globals. *)
Class ClassSubsOk {W F Args} `{HasGlobals W F} (E : env W F Args) : Prop :=
  class_subs_globals : forall klass event w, class_subs E klass event w = class_subscribers (globals_of w) klass event.

Section globals.
Context {W F : Type} `{!HasGlobals W F}.

(** [setdefault(target_cls, {}).setdefault(event, []).append(fn)] *)
Definition register_class_subscriber (target_cls event : string) (fn : F) : M W unit :=
  modify (fun w =>
    let g := globals_of w in
    let inner := dget_or [] (CLASS_SUBSCRIBERS g) target_cls in
    set_globals (mkGlobals
      (dset (CLASS_SUBSCRIBERS g) target_cls (dset inner event (dget_or [] inner event ++ [fn])))
      (METER_EVENT_NAMES g) (REPORTER_OBSERVE_METHODS g)) w).
End globals.

(** ** [observe]: the targets that [_observe_targets] holds after the decoration *)
Definition observe (target_cls event : string) (existing : targets) : targets :=
  existing ++ [(target_cls, event)].

(** ** [Reporter] *)
Module Reporter.

(** A subclass: its name, and its attributes in the order of [dir] with the
    targets of each ([[]] for an attribute without the mark). *)
Record class : Type := mkClass { cls : string; dir : list (string * targets) }.

Section ops.
Context {W F : Type} `{!HasGlobals W F}.
(** The method [attr] of an object *)
Variable bound : nat -> string -> F.

Definition scan (c : class) : list (string * targets) :=
  List.filter (fun m => match m.2 with [] => false | _ => true end) (dir c).

Definition reporter_observe_methods (c : class) : M W (list (string * targets)) :=
  let! g := gets globals_of in
  match dget (REPORTER_OBSERVE_METHODS g) (cls c) with
  | Some cached => ret cached
  | None =>
      modify (fun w => let g := globals_of w in
        set_globals (mkGlobals (CLASS_SUBSCRIBERS g) (METER_EVENT_NAMES g)
          (dset (REPORTER_OBSERVE_METHODS g) (cls c) (scan c))) w) ;;;
      ret (scan c)
  end.

(** [Reporter.__init__] of the object [self] *)
Definition init (c : class) (self : nat) : M W unit :=
  let! methods := reporter_observe_methods c in
  for_each methods (fun m =>
    for_each m.2 (fun t => register_class_subscriber t.1 t.2 (bound self m.1))).
End ops.

(** *** [LoggingReporter] *)
(** Its one marked method *)
Definition LoggingReporter : class :=
  mkClass "LoggingReporter" [("_on_measurement", observe "Meter" "measurement" [])].

(** The text of the line; [show] and [repr] are [str] and [repr] of a value. *)
Definition on_measurement (show repr : val -> string) (log_args log_result : bool)
    (name : string) (value : val) (ctx : TaskContext) : string :=
  let msg := name +:+ " = " +:+ show value in
  let msg := if log_args
             then msg +:+ " args=" +:+ repr (VTuple (ctx_args ctx)) +:+ " kwargs=" +:+
                    repr (VDict (map (fun kv => (VStr kv.1, kv.2)) (ctx_kwargs ctx)))
             else msg in
  if log_result then msg +:+ " result=" +:+ repr (ctx_result ctx) else msg.
End Reporter.

(** * Facts *)
Section facts.
Context {W F Args : Type} `{GOk : HasGlobalsOk W F}.
Variable E : env W F Args.
Context {subs_ok : ClassSubsOk E}.
Variable bound : nat -> string -> F.
Implicit Types (g : globals F) (w : W) (k e : string).

(** The methods that the list of marks sends to an event of a class, one per mark *)
Definition marked (self : nat) (ms : list (string * targets)) (k e : string) : list F :=
  concat (map (fun m => map (fun _ => bound self m.1) (filter (fun t => t = (k, e)) m.2)) ms).

Definition registered w w' (new : string -> string -> list F) : Prop :=
  (forall k e, class_subscribers (globals_of w') k e = class_subscribers (globals_of w) k e ++ new k e) /\
  METER_EVENT_NAMES (globals_of w') = METER_EVENT_NAMES (globals_of w) /\
  REPORTER_OBSERVE_METHODS (globals_of w') = REPORTER_OBSERVE_METHODS (globals_of w).

Lemma registered_refl w : registered w w (fun _ _ => []).
Proof. split; [|done]. intros k e. by rewrite app_nil_r. Qed.

Lemma registered_trans w w1 w2 n1 n2 :
  registered w w1 n1 -> registered w1 w2 n2 -> registered w w2 (fun k e => n1 k e ++ n2 k e).
Proof.
  intros [H1 [M1 R1]] [H2 [M2 R2]]. split; [|split; congruence]. intros k e. by rewrite H2, H1, app_assoc.
Qed.

Lemma registered_ext w w' n1 n2 : (forall k e, n1 k e = n2 k e) -> registered w w' n1 -> registered w w' n2.
Proof. intros Hn [H1 ?]. split; [|done]. intros k e. by rewrite H1, Hn. Qed.

Lemma register_spec t fn w : exists w',
  register_class_subscriber t.1 t.2 fn w = (Ok tt, w') /\
  registered w w' (fun k e => if decide (t = (k, e)) then [fn] else []).
Proof.
  eexists. split; [done|]. destruct t as [k0 e0]. split; cbn; [|by rewrite globals_set].
  intros k e. rewrite globals_set. unfold class_subscribers. cbn. rewrite dget_or_dset. destruct (decide (k = k0)) as [->|Hk].
  - rewrite dget_or_dset. destruct (decide (e = e0)) as [->|He]; [by rewrite decide_True|].
    rewrite decide_False by congruence. by rewrite app_nil_r.
  - rewrite decide_False by congruence. by rewrite app_nil_r.
Qed.

Lemma register_targets ts fn w : exists w',
  for_each ts (fun t => register_class_subscriber t.1 t.2 fn) w = (Ok tt, w') /\
  registered w w' (fun k e => map (fun _ => fn) (filter (fun t => t = (k, e)) ts)).
Proof.
  revert w. induction ts as [|t ts IH]; intros w; [exists w; split; [done|apply registered_refl]|].
  destruct (register_spec t fn w) as (w1 & H1 & R1). destruct (IH w1) as (w2 & H2 & R2). exists w2.
  cbn [for_each]. rewrite (bind_run _ _ _ _ _ H1). split; [done|].
  refine (registered_ext _ _ _ _ _ (registered_trans _ _ _ _ _ R1 R2)).
  intros k e. rewrite filter_cons. by case_decide.
Qed.

Lemma register_methods self ms w : exists w',
  for_each ms (fun m => for_each m.2 (fun t => register_class_subscriber t.1 t.2 (bound self m.1))) w = (Ok tt, w') /\
  registered w w' (marked self ms).
Proof.
  revert w. induction ms as [|m ms IH]; intros w; [exists w; split; [done|apply registered_refl]|].
  destruct (register_targets m.2 (bound self m.1) w) as (w1 & H1 & R1). destruct (IH w1) as (w2 & H2 & R2).
  exists w2. cbn [for_each]. rewrite (bind_run _ _ _ _ _ H1). split; [done|].
  exact (registered_trans _ _ _ _ _ R1 R2).
Qed.

(** The cache holds what a scan gives. *)
Definition cache_ok (c : Reporter.class) w : Prop :=
  forall l, dget (REPORTER_OBSERVE_METHODS (globals_of w)) (Reporter.cls c) = Some l -> l = Reporter.scan c.

Lemma methods_spec c w : cache_ok c w ->
  exists w', Reporter.reporter_observe_methods c w = (Ok (Reporter.scan c), w') /\ cache_ok c w' /\
    CLASS_SUBSCRIBERS (globals_of w') = CLASS_SUBSCRIBERS (globals_of w).
Proof.
  intros Hc. unfold Reporter.reporter_observe_methods, gets, modify, bind.
  destruct (dget _ (Reporter.cls c)) as [l|] eqn:Hl.
  - exists w. by rewrite (Hc l Hl).
  - eexists. split; [done|]. unfold cache_ok. rewrite globals_set. cbn. split; [|done].
    intros l. rewrite dget_dset_eq. by intros [= <-].
Qed.

(** A class subscriber's call, whose [Exception]s are logged *)
Definition guarded (args : Args) (fn : F) : M W unit :=
  try_except (invoke E fn args ;;; ret tt) (fun _ => ret tt).

(** What is called keeps the table of the class subscribers, and raises at most
    [Exception]s. *)
Definition table_kept : Prop :=
  (forall tab, env_keeps E (fun w => CLASS_SUBSCRIBERS (globals_of w) = tab)) /\
  forall f args, tame (fun _ => True) (invoke E f args).

Lemma fire_class_spec tab mro name args w :
  table_kept -> CLASS_SUBSCRIBERS (globals_of w) = tab ->
  fire_class E mro name args w =
    for_each (concat (map (fun k => dget_or [] (dget_or [] tab k) name) mro)) (guarded args) w.
Proof.
  intros [Hk Ht]. revert w. induction mro as [|k mro IH]; intros w Htab; [done|].
  unfold fire_class. cbn [for_each map concat]. rewrite for_each_app. unfold bind at 1 2, gets at 1.
  rewrite class_subs_globals. unfold class_subscribers. rewrite Htab.
  assert (keeps (fun w => CLASS_SUBSCRIBERS (globals_of w) = tab)
    (for_each (dget_or [] (dget_or [] tab k) name) (guarded args))) as Hkeep.
  { apply keeps_for_each. intros fn. unfold guarded. pose proof (keeps_invoke E _ (Hk tab)). eauto with py. }
  specialize (Hkeep w Htab). fold (guarded args). unfold bind.
  change (for_each (dget_or [] (dget_or [] tab k) name)
    (λ fn : F, try_except (invoke E fn args;;; ret ()) (λ _ : exn, ret ())) w)
    with (for_each (dget_or [] (dget_or [] tab k) name) (guarded args) w).
  destruct (for_each _ _ w) as [[[]|e] w']; [by apply IH|done].
Qed.
(** What a [Reporter] hears: creating one registers every marked method, bound
    to the new object, once for each of its marks; from then on firing an event of
    an object calls, after the channel's own subscribers, the registered methods of
    every class of the object's MRO, most derived first and each class in the order
    of registration, those of the new reporter among them, whatever [Exception]s
    they raise; nothing registered before is lost. *)
Theorem reporter_hears c self w : cache_ok c w ->
  exists w', Reporter.init bound c self w = (Ok tt, w') /\ cache_ok c w' /\
    (forall k e, class_subscribers (globals_of w') k e =
       class_subscribers (globals_of w) k e ++ marked self (Reporter.scan c) k e) /\
    forall d subs mro name args w1, table_kept -> dispatch E d subs args w' = (Ok tt, w1) ->
      Observers.fire E (mkEventful subs d (Some mro) (Some name)) args w' =
        for_each (concat (map (fun k => class_subscribers (globals_of w) k name ++
                                        marked self (Reporter.scan c) k name) mro)) (guarded args) w1.
Proof.
  intros Hc. destruct (methods_spec c w Hc) as (w1 & H1 & Hc1 & Htab).
  destruct (register_methods self (Reporter.scan c) w1) as (w2 & H2 & Hreg & _ & Hcache).
  assert (forall k e, class_subscribers (globals_of w2) k e =
    class_subscribers (globals_of w) k e ++ marked self (Reporter.scan c) k e) as Hsubs.
  { intros k e. rewrite Hreg. unfold class_subscribers. by rewrite Htab. }
  exists w2. split_and!; [|unfold cache_ok; by rewrite Hcache|done|].
  - unfold Reporter.init. by rewrite (bind_run _ _ _ _ _ H1).
  - intros d subs mro name args w3 Hk Hd. unfold fire. cbn [ev_dispatcher ev_subscribers ev_owner_mro ev_name].
    rewrite (bind_run _ _ _ _ _ Hd). erewrite fire_class_spec; [|exact Hk|].
    + f_equal. f_equal. apply map_ext. intros k. apply Hsubs.
    + pose proof (keeps_dispatch E _ (proj1 Hk (CLASS_SUBSCRIBERS (globals_of w2))) d subs args w2 eq_refl) as Hkeep.
      by rewrite Hd in Hkeep.
Qed.
End facts.

(** * A heap with the globals, one object's attributes, a log of calls, and room
      for more *)
Module ObsToy.
Abbreviation sub := (nat * string)%type.

Record world (X : Type) : Type := mkWorld {
  w_globals : globals sub;
  w_attrs : list (string * attr sub);
  w_log : list sub;
  w_extra : X;
}.
Arguments mkWorld {X} _ _ _ _.
Arguments w_globals {X} _.
Arguments w_attrs {X} _.
Arguments w_log {X} _.
Arguments w_extra {X} _.

#[global] Instance toy_globals {X} : HasGlobals (world X) sub := {|
  globals_of := w_globals;
  set_globals g w := mkWorld g (w_attrs w) (w_log w) (w_extra w);
|}.

#[global] Instance toy_globals_ok {X} : HasGlobalsOk (world X) sub.
Proof. by intros g w. Qed.

(** Every number is the one object. *)
#[global] Instance toy_attrs {X} : HasAttrs (world X) sub := {|
  getattr o n w := if decide (o = 0%nat) then dget (w_attrs w) n else None;
  set_channel o n ev w :=
    if decide (o = 0%nat) then mkWorld (w_globals w) (dset (w_attrs w) n (Channel ev)) (w_log w) (w_extra w) else w;
|}.

#[global] Instance toy_attrs_ok {X} : HasAttrsOk (world X) sub.
Proof.
  split. intros o n ev o' n' w. cbn. destruct (decide (o = 0%nat)) as [->|]; [|by intros [? ?]]. intros _. cbn.
  destruct (decide (o' = 0%nat)) as [->|]; [|by rewrite decide_False by naive_solver].
  rewrite dget_dset. destruct (decide (n' = n)) as [->|]; [by rewrite decide_True|by rewrite decide_False by naive_solver].
Qed.

(** Calls are recorded; those of object 9 raise. *)
Definition run {X} (f : sub) (_ : list val) : M (world X) val :=
  modify (fun w => mkWorld (w_globals w) (w_attrs w) (w_log w ++ [f]) (w_extra w)) ;;;
  (if decide (f.1 = 9%nat) then throw (Exc "ValueError" "nine") else ret VNone).

Definition E {X} : env (world X) sub (list val) := {|
  call := run;
  as_node _ := None;
  other_load _ := ret (inject_Z 0);
  in_flight _ _ := 0;
  set_in_flight _ _ w := w;
  rr_idx _ _ := 0%nat;
  set_rr_idx _ _ w := w;
  submit _ _ _ := ret "task";
  class_subs k e w := class_subscribers (w_globals w) k e;
|}.

#[global] Instance E_class_subs {X} : ClassSubsOk (E (X := X)).
Proof. by intros k e w. Qed.

Lemma toy_keeps {X} (I : world X -> Prop) :
  (forall w l, I w -> I (mkWorld (w_globals w) (w_attrs w) l (w_extra w))) -> env_keeps E I.
Proof.
  intros HI. split; cbn; [|intros; apply keeps_ret|done|done|intros; apply keeps_ret].
  intros f args. unfold run. apply keeps_bind.
  - apply keeps_modify. intros w. apply HI.
  - intros _. destruct (decide _); [apply keeps_throw|apply keeps_ret].
Qed.

Definition empty : world unit := mkWorld (mkGlobals [("Meter", [("measurement", [(9%nat, "old")])])] [] []) [] [] tt.

Lemma toy_table_kept : table_kept (E (X := unit)).
Proof.
  split; [intros tab; by apply toy_keeps|]. intros f args w e _. unfold invoke. cbn. unfold run, modify, bind.
  case_decide; [by intros [= <-]|done].
Qed.
End ObsToy.

(** A logging reporter (object 7) hears a [TimingMeter]'s measurement, after one
    whose method raises. *)
Lemma reporter_hears_witness :
  exists w', Reporter.init (F := ObsToy.sub) pair Reporter.LoggingReporter 7 ObsToy.empty = (Ok tt, w') /\
    ObsToy.w_log (Observers.fire ObsToy.E (mkEventful [] Broadcast (Some ["TimingMeter"; "Meter"]) (Some "measurement")) [] w').2
      = [(9%nat, "old"); (7%nat, "_on_measurement")].
Proof.
  destruct (reporter_hears ObsToy.E pair Reporter.LoggingReporter 7 ObsToy.empty) as (w' & Hi & _ & _ & Hf).
  - intros l. discriminate.
  - exists w'. split; [exact Hi|].
    rewrite (Hf Broadcast [] ["TimingMeter"; "Meter"] "measurement" [] w' ObsToy.toy_table_kept eq_refl).
    vm_compute in Hi. injection Hi as <-. reflexivity.
Defined.
