(* ===== verification/Meter.v ===== *)
(** * [eventforge/observers.py]: [Meter] and its concrete classes

    Meters live in a store of the heap and are reached by number; so are the task
    contexts.  An observation is a float, as the code's annotations say, and the
    sums round as Python's do (PyFloat).  What a subclass overrides is the
    record [class]; [self.measurement], [update_event] and [reset_event] are
    [Eventful] channels fired with lists of values, an object being [VObj]. *)
From S2P Require Import Prelude PyDict PyFloat Types Observers Observable.
#[local] Open Scope Z_scope.

Module Meter.

(** The fields that [_state_lock] guards *)
Record aggregate : Type := mkAgg {
  last : float; sum : float; count : Z; max_val : float; min_val : float;
}.

Record meter (F : Type) : Type := mkMeter {
  m_class : string;
  m_name : string;
  m_reduction : string;
  m_agg : aggregate;
  measurement : Eventful F;
  update_event : Eventful F;
  reset_event : Eventful F;
}.
Arguments mkMeter {F} _ _ _ _ _ _ _.
Arguments m_class {F} _.
Arguments m_name {F} _.
Arguments m_reduction {F} _.
Arguments m_agg {F} _.
Arguments measurement {F} _.
Arguments update_event {F} _.
Arguments reset_event {F} _.

Class HasMeters (W F : Type) : Type := {
  meters_of : W -> list (meter F);
  set_meters : list (meter F) -> W -> W;
  ctx_of : nat -> W -> option TaskContext;
  upd_ctx : nat -> (TaskContext -> TaskContext) -> W -> W;
}.

Class HasMetersOk (W F : Type) `{HasMeters W F} : Prop := {
  meters_set : forall l w, meters_of (set_meters l w) = l;
  meters_ctx : forall r f w, meters_of (upd_ctx r f w) = meters_of w;
  ctx_meters : forall r l w, ctx_of r (set_meters l w) = ctx_of r w;
  ctx_upd : forall r r' f w, ctx_of r' (upd_ctx r f w) = if decide (r' = r) then f <$> ctx_of r w else ctx_of r' w;
}.

(** ** [REDUCTIONS] *)
Definition reduce_mean (m : aggregate) : result float :=
  if decide (count m = 0) then Ok fzero
  else match int_float (count m) with Ok c => Ok (fdiv (sum m) c) | Raise e => Raise e end.
Definition reduce_sum (m : aggregate) : result float := Ok (sum m).
Definition reduce_max (m : aggregate) : result float := Ok (if decide (count m = 0) then fzero else max_val m).
Definition reduce_min (m : aggregate) : result float := Ok (if decide (count m = 0) then fzero else min_val m).
Definition reduce_last (m : aggregate) : result float := Ok (last m).
Definition reduce_count (m : aggregate) : result float := int_float (count m).

Definition REDUCTIONS : list (string * (aggregate -> result float)) :=
  [("mean", reduce_mean); ("sum", reduce_sum); ("max", reduce_max);
   ("min", reduce_min); ("last", reduce_last); ("count", reduce_count)].

Definition unknown_reduction (r : string) : exn :=
  Exc "ValueError" ("unknown reduction '" +:+ r +:+
    "'; choose from ['count', 'last', 'max', 'mean', 'min', 'sum']").

(** [ctx.metadata[key] = v] *)
Definition set_metadata (key : string) (v : val) (c : TaskContext) : TaskContext :=
  mkTaskContext (ctx_task_id c) (ctx_func_name c) (ctx_topic c) (ctx_args c) (ctx_kwargs c)
    (ctx_start_time c) (ctx_end_time c) (ctx_result c) (ctx_error c) (dset (ctx_metadata c) key v).

Definition opt_val (v : option float) : val := match v with Some f => VFloat f | None => VNone end.

(** What a subclass of [Meter] fixes: [name], its MRO, the attributes that [dir]
    lists with whether they are callable, and the overridden methods, given the
    meter and the context. *)
Record class (W : Type) : Type := mkClass {
  cls_name : string;
  mro : list string;
  dir : list (string * bool);
  on_start : nat -> nat -> M W unit;
  measure : nat -> nat -> M W (option float);
  own_success : option (nat -> nat -> M W unit);   (** an [on_success] of its own *)
  on_failure : nat -> nat -> M W unit;
  on_complete : nat -> nat -> M W unit;
}.
Arguments mkClass {W} _ _ _ _ _ _ _ _.
Arguments cls_name {W} _.
Arguments mro {W} _.
Arguments dir {W} _.
Arguments on_start {W} _ _ _.
Arguments measure {W} _ _ _.
Arguments own_success {W} _.
Arguments on_failure {W} _ _ _.
Arguments on_complete {W} _ _ _.

Section ops.
Context {W F : Type} `{!HasMeters W F} `{!HasGlobals W F}.
Variable E : env W F (list val).
(** The classes, by name *)
Variable classes : string -> class W.

Definition meter_of (self : nat) (w : W) : option (meter F) := meters_of w !! self.

Definition upd_meter (self : nat) (f : meter F -> meter F) : M W unit :=
  modify (fun w => set_meters (alter f self (meters_of w)) w).

Definition with_agg (f : aggregate -> aggregate) (m : meter F) : meter F :=
  mkMeter (m_class m) (m_name m) (m_reduction m) (f (m_agg m)) (measurement m) (update_event m) (reset_event m).

(** [self.<channel>.fire( *args)] *)
Definition fire_channel (channel : meter F -> Eventful F) (self : nat) (args : list val) : M W unit :=
  let! m := gets (meter_of self) in
  match m with Some m => Observers.fire E (channel m) args | None => ret tt end.

Definition reset_agg (a : aggregate) : aggregate := mkAgg fzero fzero 0 fzero fzero.

(** Python's [max(a, b)] and [min(a, b)] give [b] only when it is above, below, [a]. *)
Definition observe_agg (v : float) (a : aggregate) : aggregate :=
  mkAgg v (sum a) (count a)
    (if decide (count a = 0) then v else if flt (max_val a) v then v else max_val a)
    (if decide (count a = 0) then v else if flt v (min_val a) then v else min_val a).

(** [self.sum += val * n; self.count += n], [k] being [n] as a float *)
Definition weigh_agg (v k : float) (n : Z) (a : aggregate) : aggregate :=
  mkAgg (last a) (fadd (sum a) (fmul v k)) (count a + n) (max_val a) (min_val a).

Definition reset (self : nat) : M W unit :=
  upd_meter self (with_agg reset_agg) ;;;
  fire_channel reset_event self [VObj self].

(** A weight that is too large for a float raises inside the lock. *)
Definition update (self : nat) (v : float) (n : Z) : M W unit :=
  upd_meter self (with_agg (observe_agg v)) ;;;
  let! k := lift (int_float n) in
  upd_meter self (with_agg (weigh_agg v k n)) ;;;
  fire_channel update_event self [VObj self; VFloat v; VInt n].

(** [Meter.__init__] of a class, given a name or [None] *)
Definition init (cls : string) (name : option string) (reduction : string) (d : option dispatcher) : M W nat :=
  match dget REDUCTIONS reduction with
  | None => throw (unknown_reduction reduction)
  | Some _ =>
      let! l := gets meters_of in
      let ch n := mkEventful [] (default Broadcast d) (Some (mro (classes cls))) (Some n) in
      modify (set_meters (l ++ [mkMeter cls (default (cls_name (classes cls)) name) reduction
                                  (mkAgg fzero fzero 0 fzero fzero) (ch "measurement") (ch "update_event") (ch "reset_event")])) ;;;
      reset (length l) ;;;
      ret (length l)
  end.

Definition reduced (m : meter F) : result float :=
  match dget REDUCTIONS (m_reduction m) with
  | Some f => f (m_agg m)
  | None => Raise (Exc "KeyError" (m_reduction m))
  end.

Definition value (self : nat) : M W float :=
  let! m := gets (meter_of self) in
  match m with Some m => lift (reduced m) | None => ret fzero end.

Definition stats (self : nat) : M W (list (string * float)) :=
  let! m := gets (meter_of self) in
  match m with
  | Some m =>
      let! v := lift (reduced m) in
      let! n := lift (int_float (count (m_agg m))) in
      ret [("value", v); ("count", n)]
  | None => ret []
  end.

(** ** The lifecycle methods *)
Definition on_success (self ctx : nat) : M W unit :=
  let! m := gets (meter_of self) in
  match m with
  | None => ret tt
  | Some m =>
      let! v := measure (classes (m_class m)) self ctx in
      match v with Some v => update self v 1 | None => ret tt end ;;;
      modify (upd_ctx ctx (set_metadata (m_name m) (opt_val v))) ;;;
      fire_channel measurement self [VObj self; opt_val v; VObj ctx]
  end.

(** The method [on_X] of a meter, called with a context *)
Definition lifecycle (self : nat) (method : string) (ctx : nat) : M W unit :=
  let! m := gets (meter_of self) in
  match m with
  | None => ret tt
  | Some m =>
      let c := classes (m_class m) in
      if decide (method = "on_start") then on_start c self ctx
      else if decide (method = "on_success") then
        match own_success c with Some f => f self ctx | None => on_success self ctx end
      else if decide (method = "on_failure") then on_failure c self ctx
      else if decide (method = "on_complete") then on_complete c self ctx
      else ret tt
  end.

(** ** [attach] *)
Definition scan (c : class W) : list string :=
  map fst (List.filter (fun a => String.prefix "on_" a.1 && a.2) (dir c)).

Definition meter_event_names (cls : string) : M W (list string) :=
  let! g := gets globals_of in
  match dget (METER_EVENT_NAMES g) cls with
  | Some cached => ret cached
  | None =>
      let result := scan (classes cls) in
      modify (fun w => let g := globals_of w in
        set_globals (mkGlobals (CLASS_SUBSCRIBERS g) (dset (METER_EVENT_NAMES g) cls result)
          (REPORTER_OBSERVE_METHODS g)) w) ;;;
      ret result
  end.

(** [attr[3:]] *)
Definition event_of (method : string) : string := String.substring 3 (String.length method - 3) method.

(** The source's subscribers may be of a type of their own, [S]. *)
Definition attach_one {S} `{!HasAttrs W S} (bound : nat -> string -> S) (self source : nat) (attr : string) : M W unit :=
  let! channel := gets (getattr (F := S) source (event_of attr)) in
  match channel with
  | Some (Channel ev) => modify (set_channel source (event_of attr) (ev_subscribe (bound self attr) ev))
  | _ => ret tt
  end.

Definition attach {S} `{!HasAttrs W S} (bound : nat -> string -> S) (self source : nat) : M W nat :=
  let! m := gets (meter_of self) in
  match m with
  | None => ret self
  | Some m =>
      let! names := meter_event_names (m_class m) in
      for_each names (attach_one bound self source) ;;;
      ret self
  end.

(** ** The concrete classes *)
Variable perf_counter : W -> float.
(** [ru_utime + ru_stime] *)
Variable cpu_time : W -> float.
(** [tracemalloc.get_traced_memory()], current and peak, and [start()] *)
Variables (is_tracing : W -> bool) (start_tracing : W -> W) (traced : W -> Z * Z).

Definition name_of (self : nat) (w : W) : string :=
  match meter_of self w with Some m => m_name m | None => "" end.

Definition key (self : nat) (suffix : string) : M W string := gets (fun w => name_of self w +:+ suffix).

(** [ctx.metadata.get(key, dflt)] *)
Definition get_metadata (ctx : nat) (k : string) (dflt : TaskContext -> val) : M W val :=
  gets (fun w => match ctx_of ctx w with
                 | Some c => default (dflt c) (dget (ctx_metadata c) k)
                 | None => VNone
                 end).

(** [float(a - b)] *)
Definition difference (a b : val) : result float :=
  match py_sub a b with Ok d => py_float d | Raise e => Raise e end.

Definition put_metadata (ctx : nat) (k : string) (v : val) : M W unit := modify (upd_ctx ctx (set_metadata k v)).

(** What every class has of [Meter] itself, in the order of [dir], but for the
    names with an underscore *)
Definition base_dir : list (string * bool) :=
  [("attach", true); ("events", true); ("fire", true); ("measure", true); ("name", false); ("on", true);
   ("on_complete", true); ("on_failure", true); ("on_start", true); ("on_success", true);
   ("reduction", false); ("reset", true); ("stats", false); ("subscribe", true); ("update", true); ("value", false)].

Definition nothing (self ctx : nat) : M W unit := ret tt.

Definition timing_start (self ctx : nat) : M W unit :=
  let! k := key self "_start" in
  let! t := gets perf_counter in
  put_metadata ctx k (VFloat t).

(** [self.threshold and elapsed > self.threshold] *)
Definition exceeds (threshold : option float) (elapsed : float) : bool :=
  match threshold with Some t => negb (feq t fzero) && flt t elapsed | None => false end.

(** What is subtracted from is a float, so the difference is one. *)
Definition timing_measure (threshold : option float) (self ctx : nat) : M W (option float) :=
  let! k := key self "_start" in
  let! start := get_metadata ctx k (fun c => VInt (ctx_start_time c)) in
  let! now := gets perf_counter in
  let! elapsed := lift (difference (VFloat now) start) in
  let! kx := key self "_exceeded" in
  (if exceeds threshold elapsed then put_metadata ctx kx (VBool true) else ret tt) ;;;
  ret (Some elapsed).

Definition TimingMeter (threshold : option float) : class W :=
  mkClass "timing" ["TimingMeter"; "Meter"; "Observable"] base_dir timing_start (timing_measure threshold) None nothing nothing.

Definition memory_start (self ctx : nat) : M W unit :=
  let! tracing := gets is_tracing in
  (if tracing then ret tt else modify start_tracing) ;;;
  let! m := gets traced in
  let! k := key self "_start" in
  put_metadata ctx k (VInt m.1).

Definition memory_measure (self ctx : nat) : M W (option float) :=
  let! m := gets traced in
  let! k := key self "_start" in
  let! start := get_metadata ctx k (fun _ => VInt 0) in
  let! kp := key self "_peak" in
  put_metadata ctx kp (VInt m.2) ;;;
  let! d := lift (difference (VInt m.1) start) in
  ret (Some d).

Definition MemoryMeter : class W :=
  mkClass "memory" ["MemoryMeter"; "Meter"; "Observable"] base_dir memory_start memory_measure None nothing nothing.

Definition cpu_start (self ctx : nat) : M W unit :=
  let! t := gets cpu_time in
  let! k := key self "_start" in
  put_metadata ctx k (VFloat t).

Definition cpu_measure (self ctx : nat) : M W (option float) :=
  let! t := gets cpu_time in
  let! k := key self "_start" in
  let! start := get_metadata ctx k (fun _ => VFloat fzero) in
  let! d := lift (difference (VFloat t) start) in
  ret (Some d).

Definition CPUMeter : class W :=
  mkClass "cpu" ["CPUMeter"; "Meter"; "Observable"] base_dir cpu_start cpu_measure None nothing nothing.

(** [extract] is any callable on the context *)
Definition metrics_measure (extract : nat -> M W (option float)) (self ctx : nat) : M W (option float) :=
  try_except (extract ctx) (fun _ => ret None).

Definition MetricsMeter (extract : nat -> M W (option float)) : class W :=
  mkClass "meter" ["MetricsMeter"; "Meter"; "Observable"] base_dir nothing (metrics_measure extract) None nothing nothing.
End ops.
(** * The running state is a reduction of what was observed *)
Section aggregate.
Implicit Types (us : list (float * Z)) (xs : list float) (a : aggregate).

(** [update(v, n)] in one *)
Definition update_agg (v : float) (n : Z) a : aggregate := weigh_agg v (float_of n 0) n (observe_agg v a).

(** How many observations [us] are, and their sum, rounded after each update *)
Definition weight us : Z := foldr (fun u k => u.2 + k) 0 us.
Definition weighted us : float := fold_left (fun s u => fadd s (fmul u.1 (float_of u.2 0))) us fzero.

Definition numbers us : Prop := Forall (fun u => is_nan u.1 = false) us.
Definition greatest (m : float) xs : Prop := m ∈ xs /\ forall x, x ∈ xs -> flt m x = false.
Definition least (m : float) xs : Prop := m ∈ xs /\ forall x, x ∈ xs -> flt x m = false.

(** What each reduction of a list of updates is *)
Definition reduces (r : string) us (q : float) : Prop :=
  if decide (us = []) then q = fzero
  else if decide (r = "mean") then q = fdiv (weighted us) (float_of (weight us) 0)
  else if decide (r = "sum") then q = weighted us
  else if decide (r = "max") then numbers us -> greatest q (map fst us)
  else if decide (r = "min") then numbers us -> least q (map fst us)
  else if decide (r = "last") then exists l u, us = l ++ [u] /\ q = u.1
  else q = float_of (weight us) 0.

Lemma weight_app us vs : weight (us ++ vs) = weight us + weight vs.
Proof.
  induction us as [|u us IH]; [done|].
  change (u.2 + weight (us ++ vs) = u.2 + weight us + weight vs). rewrite IH. lia.
Qed.

Lemma weight_perm us vs : us ≡ₚ vs -> weight us = weight vs.
Proof. induction 1; unfold weight in *; cbn [foldr] in *; lia. Qed.

Lemma weight_pos us : Forall (fun u => 1 <= u.2) us -> Z.of_nat (length us) <= weight us.
Proof.
  induction 1 as [|u us Hu _ IH]; [done|]. change (weight (u :: us)) with (u.2 + weight us). cbn [length]. lia.
Qed.

(** What the fields are after these updates *)
Record summary us a : Prop := {
  su_sum : sum a = weighted us;
  su_count : count a = weight us;
  su_last : match reverse us with [] => last a = fzero | u :: _ => last a = u.1 end;
  su_max : us <> [] -> numbers us -> greatest (max_val a) (map fst us);
  su_min : us <> [] -> numbers us -> least (min_val a) (map fst us);
}.

Lemma summary_nil : summary [] (mkAgg fzero fzero 0 fzero fzero).
Proof. by split. Qed.

Lemma greatest_snoc m v xs : greatest m xs -> Forall (fun x => is_nan x = false) (xs ++ [v]) ->
  greatest (if flt m v then v else m) (xs ++ [v]).
Proof.
  intros [Hm Hle] Hn. rewrite Forall_forall in Hn.
  assert (forall x, x ∈ xs ++ [v] <-> x ∈ xs \/ x = v) as Hin by (intros x; rewrite elem_of_app, list_elem_of_singleton; done).
  setoid_rewrite Hin in Hn. split.
  - apply Hin. destruct (flt m v); auto.
  - intros x [Hx| ->]%Hin; destruct (flt m v) eqn:Hmv; try done; try apply flt_irrefl; [|by apply Hle].
    apply (flt_false_trans x m v); eauto. by apply flt_asym.
Qed.

Lemma least_snoc m v xs : least m xs -> Forall (fun x => is_nan x = false) (xs ++ [v]) ->
  least (if flt v m then v else m) (xs ++ [v]).
Proof.
  intros [Hm Hle] Hn. rewrite Forall_forall in Hn.
  assert (forall x, x ∈ xs ++ [v] <-> x ∈ xs \/ x = v) as Hin by (intros x; rewrite elem_of_app, list_elem_of_singleton; done).
  setoid_rewrite Hin in Hn. split.
  - apply Hin. destruct (flt v m); auto.
  - intros x [Hx| ->]%Hin; destruct (flt v m) eqn:Hmv; try done; try apply flt_irrefl; [|by apply Hle].
    apply (flt_false_trans v m x); eauto. by apply flt_asym.
Qed.

Lemma summary_update us a v n :
  Forall (fun u => 1 <= u.2) us -> summary us a -> summary (us ++ [(v, n)]) (update_agg v n a).
Proof.
  intros Hus [Hs Hc Hl Hmax Hmin]. pose proof (weight_pos us Hus) as Hw.
  assert (count a = 0 <-> us = []) as H0.
  { rewrite Hc. split; [|by intros ->]. intros He. destruct us; [done|cbn [length] in Hw; lia]. }
  assert (numbers (us ++ [(v, n)]) -> Forall (fun x => is_nan x = false) (map fst us ++ [v])) as Hnum.
  { intros Hn. change [v] with (map fst [(v, n)]). rewrite <- map_app. by apply Forall_map. }
  split; cbn [sum count last max_val min_val update_agg weigh_agg observe_agg].
  - unfold weighted. by rewrite fold_left_app, Hs.
  - rewrite weight_app, Hc. cbn. lia.
  - by rewrite reverse_snoc.
  - intros _ Hn. rewrite map_app. change (map fst [(v, n)]) with [v]. case_decide as Hz.
    + rewrite (proj1 H0 Hz). split; [by left|]. intros x ->%list_elem_of_singleton. apply flt_irrefl.
    + apply greatest_snoc; [|by apply Hnum]. apply Hmax; [by intros Hu; apply Hz, H0|]. by apply Forall_app in Hn as [Hn _].
  - intros _ Hn. rewrite map_app. change (map fst [(v, n)]) with [v]. case_decide as Hz.
    + rewrite (proj1 H0 Hz). split; [by left|]. intros x ->%list_elem_of_singleton. apply flt_irrefl.
    + apply least_snoc; [|by apply Hnum]. apply Hmin; [by intros Hu; apply Hz, H0|]. by apply Forall_app in Hn as [Hn _].
Qed.

Lemma summary_reduces r f us a : dget REDUCTIONS r = Some f -> summary us a ->
  Forall (fun u => 1 <= u.2) us -> weight us <= 2 ^ 53 -> exists q, f a = Ok q /\ reduces r us q.
Proof.
  intros Hr [Hs Hc Hl Hmax Hmin] Hus Hw. pose proof (weight_pos us Hus) as Hpos.
  pose proof (int_float_ok (weight us) ltac:(lia)) as Hfl. unfold reduces.
  destruct (decide (us = [])) as [->|Hne].
  - cbn in Hs, Hc, Hl, Hfl. cbn in Hr. unfold reduce_mean, reduce_sum, reduce_max, reduce_min, reduce_last, reduce_count in Hr.
    repeat case_decide; simplify_eq; rewrite ?Hc, ?Hs, ?Hl, ?Hfl; by eexists.
  - assert (count a <> 0) as Hn by (rewrite Hc; destruct us; [done|cbn [length] in Hpos; lia]).
    cbn in Hr. repeat case_decide; simplify_eq; unfold reduce_mean, reduce_sum, reduce_max, reduce_min, reduce_last, reduce_count;
      rewrite ?(decide_False (P := count a = 0)) by done; rewrite ?Hc, ?Hs, ?Hfl; eexists; (split; [done|]); auto.
    destruct (reverse us) as [|u l] eqn:Hx; [by apply (f_equal reverse) in Hx; rewrite reverse_involutive in Hx|].
    exists (reverse l), u. split; [|done]. rewrite <- (reverse_involutive us), Hx. apply reverse_cons.
Qed.
End aggregate.

(** The number of observations does not depend on their order; the greatest and
    the least are equal as floats. *)
Lemma reduces_perm r us vs q q' : us ≡ₚ vs -> reduces r us q -> reduces r vs q' ->
  (r = "count" -> q' = q) /\ (r = "max" \/ r = "min" -> numbers us -> feq q q' = true).
Proof.
  intros Hp. unfold reduces. destruct (decide (us = [])) as [->|Hx].
  { symmetry in Hp. apply Permutation_nil_r in Hp. subst vs. rewrite decide_True by done. by intros -> ->. }
  rewrite (decide_False (P := vs = [])) by (intros ->; by apply Permutation_nil_r in Hp).
  assert (numbers us -> numbers vs) as Hnum by (unfold numbers; by rewrite Hp).
  assert (forall x, x ∈ map fst us <-> x ∈ map fst vs) as Hin by (intros x; by rewrite Hp).
  assert (numbers us -> forall x, x ∈ map fst us -> is_nan x = false) as Hnn.
  { intros Hn x (u & -> & Hu)%list_elem_of_fmap. by apply (proj1 (Forall_forall _ _) Hn). }
  intros Hq Hq'. split.
  - intros ->. cbn in Hq, Hq'. by rewrite Hq, Hq', (weight_perm _ _ Hp).
  - intros [-> | ->] Hn; cbn in Hq, Hq'; destruct (Hq Hn) as [Hm Hle], (Hq' (Hnum Hn)) as [Hm' Hle'];
      (apply flt_total; [by apply Hnn|apply Hnn; [done|by apply Hin]|..]);
      first [apply Hle, Hin, Hm' | apply Hle', Hin, Hm].
Qed.

(** * Meters in the heap *)
Section facts.
Context {W F : Type} `{HasMetersOk W F} `{!HasGlobals W F}.
Variable E : env W F (list val).
Variable classes : string -> class W.
Implicit Types (w : W) (self : nat) (us : list (float * Z)).

(** What is called leaves the reduction and the state of this meter alone. *)
Definition core self w : option (string * aggregate) :=
  (fun m => (m_reduction m, m_agg m)) <$> meter_of self w.

Definition hands_off self : Prop := forall c, env_keeps E (fun w => core self w = c).

Lemma fire_core self ch args w : hands_off self -> core self (fire_channel E ch self args w).2 = core self w.
Proof.
  intros Hh. unfold fire_channel, bind, gets. destruct (meter_of self w) as [m|] eqn:Hm; [|done].
  by apply (keeps_fire E _ (Hh (core self w))).
Qed.

Lemma core_upd self f w : core self (upd_meter self (with_agg f) w).2 = (fun c => (c.1, f c.2)) <$> core self w.
Proof.
  unfold core, meter_of, upd_meter, modify. cbn. rewrite meters_set, list_lookup_alter_eq.
  by destruct (meters_of w !! self).
Qed.

(** A weight that converts *)
Lemma update_run self v n w : 0 <= n <= 2 ^ 53 ->
  update E self v n w = fire_channel E update_event self [VObj self; VFloat v; VInt n]
    (upd_meter self (with_agg (weigh_agg v (float_of n 0) n)) (upd_meter self (with_agg (observe_agg v)) w).2).2.
Proof.
  intros Hn. unfold update.
  rewrite (bind_run _ _ w tt (upd_meter self (with_agg (observe_agg v)) w).2) by done.
  rewrite (bind_run _ _ _ (float_of n 0) (upd_meter self (with_agg (observe_agg v)) w).2);
    [done|]. unfold lift. by rewrite int_float_ok.
Qed.

Lemma core_update self v n w : hands_off self -> 0 <= n <= 2 ^ 53 ->
  core self (update E self v n w).2 = (fun c => (c.1, update_agg v n c.2)) <$> core self w.
Proof. intros Hh Hn. rewrite update_run, fire_core, !core_upd by done. by destruct (core self w). Qed.

Lemma core_reset self w : hands_off self ->
  core self (reset E self w).2 = (fun c => (c.1, mkAgg fzero fzero 0 fzero fzero)) <$> core self w.
Proof.
  intros Hh. rewrite <- (core_upd self reset_agg). unfold reset.
  rewrite (bind_run _ _ w tt (upd_meter self (with_agg reset_agg) w).2) by done. by apply fire_core.
Qed.

(** Updates, by whichever threads, in the order in which the lock admits them;
    whether the subscribers of [update_event] raise is their callers' matter. *)
Definition run_updates self us w : W := fold_left (fun w u => (update E self u.1 u.2 w).2) us w.

Lemma run_updates_summary self us w r :
  hands_off self -> Forall (fun u => 1 <= u.2) us -> weight us <= 2 ^ 53 ->
  core self w = Some (r, mkAgg fzero fzero 0 fzero fzero) ->
  exists a, core self (run_updates self us w) = Some (r, a) /\ summary us a.
Proof.
  intros Hh Hus Hw Hc. induction us as [|[v n] us IH] using rev_ind.
  - eexists. split; [exact Hc|apply summary_nil].
  - apply Forall_app in Hus as [Hus Hu]. apply Forall_cons in Hu as [Hu _]. rewrite weight_app in Hw. cbn in Hu, Hw.
    pose proof (weight_pos us Hus) as Hpos. destruct (IH Hus) as (a & Ha & Hs); [lia|].
    unfold run_updates in *. rewrite fold_left_app. cbn [fold_left fst snd]. rewrite core_update by (done || lia). rewrite Ha.
    eexists. split; [done|]. by apply summary_update.
Qed.

(** C28 The running state of a meter is what its reduction says of the updates made
    since [reset], in the order in which its lock admitted them: [value] is the
    mean, the sum, the maximum, the minimum, the last or the number of all that
    was observed, where a sum is rounded after every update, as float additions
    are, and the mean is that sum divided by the number of observations.  No
    update is lost, whichever threads make them: in any other order the number is
    the same, and so, as floats compare, are maximum and minimum (when nothing
    observed is a NaN); sum and mean may differ by rounding ([order_matters]).
    This holds for positive weights of no more than 2^53 in all, and for all
    subscribers of the meter's channels that do not update it themselves, even if
    they raise. *)
Theorem meter_reduces self us w r a :
  hands_off self -> core self w = Some (r, a) -> dmem REDUCTIONS r = true ->
  Forall (fun u => 1 <= u.2) us -> weight us <= 2 ^ 53 ->
  exists q, (value self (run_updates self us (reset E self w).2)).1 = Ok q /\ reduces r us q /\
    forall us', us' ≡ₚ us ->
      exists q', (value self (run_updates self us' (reset E self w).2)).1 = Ok q' /\ reduces r us' q' /\
        (r = "count" -> q' = q) /\ (r = "max" \/ r = "min" -> numbers us -> feq q q' = true).
Proof.
  intros Hh Hc Hr Hus Hw.
  assert (core self (reset E self w).2 = Some (r, mkAgg fzero fzero 0 fzero fzero)) as Hz by by rewrite core_reset, Hc.
  assert (forall us', us' ≡ₚ us ->
    exists q, (value self (run_updates self us' (reset E self w).2)).1 = Ok q /\ reduces r us' q) as Hone.
  { intros us' Hp. rewrite <- (weight_perm _ _ Hp) in Hw. rewrite <- Hp in Hus.
    destruct (run_updates_summary self us' _ r Hh Hus Hw Hz) as (a' & Ha & Hs).
    unfold dmem in Hr. destruct (dget REDUCTIONS r) as [f|] eqn:Hf; [|done].
    destruct (summary_reduces r f us' a' Hf Hs Hus Hw) as (q & Hq & Hred). exists q. split; [|done].
    unfold core in Ha. unfold value, bind, gets.
    destruct (meter_of self (run_updates self us' _)) as [m|]; [|done]. injection Ha as Hmr Hma.
    unfold reduced, lift. by rewrite Hmr, Hma, Hf, Hq. }
  destruct (Hone us) as (q & Hq & Hred); [done|]. exists q. split; [done|]. split; [done|]. intros us' Hp.
  destruct (Hone us' Hp) as (q' & Hq' & Hred'). exists q'. split; [done|]. split; [done|].
  symmetry in Hp. by apply (reduces_perm r us us').
Qed.

(** ** [attach] *)
Section attach.
Context {S : Type} `{SOk : HasAttrsOk W S} {GOk : HasGlobalsOk W F}.
Variable bound : nat -> string -> S.
(** The globals are not attributes of the source. *)
Hypothesis apart : forall o n g w, getattr (F := S) o n (set_globals (F := F) g w) = getattr o n w.

(** A channel with more subscribers at the end; another attribute stays. *)
Definition more_subs (l : list S) (a : attr S) : attr S :=
  match a with
  | Channel ev => Channel (mkEventful (ev_subscribers ev ++ l) (ev_dispatcher ev) (ev_owner_mro ev) (ev_name ev))
  | OtherAttr => OtherAttr
  end.

(** The methods of [names] that go to the event [e], bound to the meter *)
Definition methods_for self (names : list string) (e : string) : list S :=
  map (bound self) (filter (fun n => event_of n = e) names).
#[local] Arguments methods_for : simpl never.

Lemma more_subs_nil a : more_subs [] a = a.
Proof. destruct a as [[]|]; [|done]. cbn. by rewrite app_nil_r. Qed.

Lemma more_subs_app l1 l2 a : more_subs l2 (more_subs l1 a) = more_subs (l1 ++ l2) a.
Proof. destruct a as [[]|]; [|done]. cbn. by rewrite <- app_assoc. Qed.

Lemma attach_one_spec self source n w :
  exists w', attach_one bound self source n w = (Ok tt, w') /\
    forall o e, getattr (F := S) o e w' =
      (if decide (o = source) then more_subs (methods_for self [n] e) else id) <$> getattr o e w.
Proof.
  assert (forall e, methods_for self [n] e = if decide (event_of n = e) then [bound self n] else []) as Hm.
  { intros e. unfold methods_for. rewrite filter_cons. by case_decide. }
  assert (forall o e, o <> source \/ event_of n <> e ->
    (if decide (o = source) then more_subs (methods_for self [n] e) else id) <$> getattr (F := S) o e w = getattr o e w) as Hsame.
  { intros o e Hoe. destruct (getattr o e w) as [a|]; [|done]. cbn. f_equal. case_decide; [|done].
    rewrite Hm, decide_False by naive_solver. apply more_subs_nil. }
  unfold attach_one, gets, modify, bind. destruct (getattr source (event_of n) w) as [[ev|]|] eqn:Ha.
  - eexists. split; [done|]. intros o e. rewrite getattr_set by by rewrite Ha.
    case_decide as Hoe; [|symmetry; apply Hsame; destruct (decide (o = source)); naive_solver].
    destruct Hoe as [-> ->]. rewrite Ha, decide_True, Hm, decide_True by done. done.
  - exists w. split; [done|]. intros o e. destruct (decide (o = source /\ event_of n = e)) as [[-> <-]|Hoe].
    + by rewrite Ha, decide_True.
    + symmetry. apply Hsame. destruct (decide (o = source)); naive_solver.
  - exists w. split; [done|]. intros o e. destruct (decide (o = source /\ event_of n = e)) as [[-> <-]|Hoe].
    + by rewrite Ha.
    + symmetry. apply Hsame. destruct (decide (o = source)); naive_solver.
Qed.

Lemma attach_names self source names w :
  exists w', for_each names (attach_one bound self source) w = (Ok tt, w') /\
    forall o e, getattr (F := S) o e w' =
      (if decide (o = source) then more_subs (methods_for self names e) else id) <$> getattr o e w.
Proof.
  revert w. induction names as [|n names IH]; intros w.
  - exists w. split; [done|]. intros o e. destruct (getattr o e w) as [a|]; [|done]. cbn.
    case_decide; [|done]. by rewrite more_subs_nil.
  - destruct (attach_one_spec self source n w) as (w1 & R1 & G1). destruct (IH w1) as (w2 & R2 & G2).
    exists w2. cbn [for_each]. rewrite (bind_run _ _ _ _ _ R1). split; [done|]. intros o e. rewrite G2, G1.
    destruct (getattr o e w) as [a|]; [|done]. cbn. f_equal. case_decide; [|done].
    rewrite more_subs_app. f_equal. unfold methods_for. rewrite <- map_app, <- filter_app. done.
Qed.

Definition names_cached (cls : string) w : Prop :=
  forall l, dget (METER_EVENT_NAMES (globals_of (F := F) w)) cls = Some l -> l = scan (classes cls).

Lemma event_names_spec cls w : names_cached cls w ->
  exists w', meter_event_names classes cls w = (Ok (scan (classes cls)), w') /\
    forall o e, getattr (F := S) o e w' = getattr o e w.
Proof.
  intros Hc. unfold meter_event_names, gets, modify, bind. destruct (dget _ cls) as [l|] eqn:Hl.
  - exists w. by rewrite (Hc l Hl).
  - eexists. split; [done|]. intros o e. apply apart.
Qed.

(** [attach] makes every [on_X] method of the meter's class, those of subclasses
    included, a subscriber of the source's channel [X], after the subscribers it
    has; a method without such a channel is passed over, and no other attribute
    of any object changes.  For a class with the methods of [Meter] these are
    [on_start], [on_success], [on_failure] and [on_complete]. *)
Theorem attach_wires self source w m :
  meter_of self w = Some m -> names_cached (m_class m) w ->
  exists w', attach (S := S) classes bound self source w = (Ok self, w') /\
    (forall o e, getattr (F := S) o e w' =
      (if decide (o = source) then more_subs (methods_for self (scan (classes (m_class m))) e) else id)
        <$> getattr o e w) /\
    (dir (classes (m_class m)) = base_dir -> forall X ev, X ∈ ["start"; "success"; "failure"; "complete"] ->
      getattr source X w = Some (Channel ev) ->
      getattr source X w' = Some (Channel (ev_subscribe (bound self ("on_" +:+ X)) ev))).
Proof.
  intros Hm Hc. destruct (event_names_spec _ w Hc) as (w1 & R1 & G1).
  destruct (attach_names self source (scan (classes (m_class m))) w1) as (w2 & R2 & G2).
  assert (forall o e, getattr (F := S) o e w2 = (if decide (o = source)
    then more_subs (methods_for self (scan (classes (m_class m))) e) else id) <$> getattr o e w) as G.
  { intros o e. by rewrite G2, G1. }
  exists w2. split_and!; [|done|].
  - unfold attach. rewrite (bind_run _ _ w (Some m) w) by by rewrite <- Hm.
    rewrite (bind_run _ _ _ _ _ R1), (bind_run _ _ _ _ _ R2). done.
  - intros Hd X ev HX Hev. rewrite G, Hev, decide_True by done. cbn. unfold scan. rewrite Hd.
    rewrite !elem_of_cons, elem_of_nil in HX. by destruct HX as [->|[->|[->|[->|[]]]]].
Qed.
End attach.


(** ** [TimingMeter] *)
Section timing.
Variable perf_counter : W -> float.
Variable threshold : option float.

Lemma append_ne (s t : string) : t <> "" -> s <> s +:+ t.
Proof. intros Ht. induction s as [|c s IH]; [by destruct t|]. cbn. by intros [= ?]. Qed.

(** What the lifecycle methods use of a meter *)
Definition info self w : option (string * string * string * aggregate * Eventful F) :=
  (fun m => (m_class m, m_name m, m_reduction m, m_agg m, update_event m)) <$> meter_of self w.

(** What is called leaves this meter and the context alone. *)
Definition aside self ctx : Prop := forall i c, env_keeps E (fun w => info self w = i /\ ctx_of ctx w = c).

Lemma info_ctx self r f w : info self (upd_ctx r f w) = info self w.
Proof. unfold info, meter_of. by rewrite meters_ctx. Qed.

Lemma info_name self w c n r a ev : info self w = Some (c, n, r, a, ev) -> name_of self w = n.
Proof. unfold info, name_of. by destruct (meter_of self w); intros [=]. Qed.

Lemma info_upd self f w c nm r a ev :
  info self w = Some (c, nm, r, a, ev) ->
  let w1 := (upd_meter self (with_agg f) w).2 in
  info self w1 = Some (c, nm, r, f a, ev) /\ forall ctx, ctx_of ctx w1 = ctx_of ctx w.
Proof.
  intros Hi. split; [|intros ctx; apply ctx_meters]. unfold info, meter_of, upd_meter, modify in *. cbn.
  rewrite meters_set, list_lookup_alter_eq. destruct (meters_of w !! self) as [m|]; [|done]. cbn in *. congruence.
Qed.

Lemma update_info self ctx v n w c nm r a ev :
  aside self ctx -> 0 <= n <= 2 ^ 53 -> info self w = Some (c, nm, r, a, ev) ->
  info self (update E self v n w).2 = Some (c, nm, r, update_agg v n a, ev) /\
  ctx_of ctx (update E self v n w).2 = ctx_of ctx w.
Proof.
  intros Ha Hn Hi. rewrite update_run by done.
  destruct (info_upd self (observe_agg v) w _ _ _ _ _ Hi) as [Hi0 Hc0]. specialize (Hc0 ctx).
  set (w0 := (upd_meter self (with_agg (observe_agg v)) w).2) in *.
  destruct (info_upd self (weigh_agg v (float_of n 0) n) w0 _ _ _ _ _ Hi0) as [Hi1 Hc1]. specialize (Hc1 ctx).
  set (w1 := (upd_meter self _ w0).2) in *. rewrite <- Hc0, <- Hc1. change (weigh_agg _ _ _ _) with (update_agg v n a) in Hi1.
  unfold fire_channel, bind, gets. destruct (meter_of self w1) as [m|]; [|done].
  destruct (keeps_fire E _ (Ha (info self w1) (ctx_of ctx w1)) (update_event m) [VObj self; VFloat v; VInt n] w1) as [-> ->]; done.
Qed.

Lemma timing_start_spec self ctx w cl n r a ev :
  info self w = Some (cl, n, r, a, ev) ->
  timing_start perf_counter self ctx w =
    (Ok tt, upd_ctx ctx (set_metadata (n +:+ "_start") (VFloat (perf_counter w))) w).
Proof. intros Hi. unfold timing_start, key, put_metadata, gets, modify, bind. by rewrite (info_name _ _ _ _ _ _ _ Hi). Qed.

Lemma info_meter self w cl n r a ev :
  info self w = Some (cl, n, r, a, ev) -> exists m, meter_of self w = Some m /\ m_class m = cl /\ m_name m = n.
Proof. unfold info. destruct (meter_of self w) as [m|]; [|done]. intros [=]. by exists m. Qed.

(** [on_success] with an observation: one update, and the entry in the context *)
Lemma success_spec self ctx w wm v cl n r a cl' n' r' a' ev ev' cm :
  aside self ctx -> (forall args w, (Observers.fire E ev args w).1 = Ok tt) ->
  info self w = Some (cl', n, r', a', ev') -> measure (classes cl') self ctx w = (Ok (Some v), wm) ->
  info self wm = Some (cl, n', r, a, ev) -> ctx_of ctx wm = Some cm ->
  let w2 := (on_success E classes self ctx w).2 in
  info self w2 = Some (cl, n', r, update_agg v 1 a, ev) /\ ctx_of ctx w2 = Some (set_metadata n (VFloat v) cm).
Proof.
  intros Ha Hq Hi Hm Him Hcm w2.
  destruct (update_info self ctx v 1 wm _ _ _ _ _ Ha ltac:(lia) Him) as [Hiu Hcu].
  destruct (update E self v 1 wm) as [ru wu] eqn:Hu. cbn in Hiu, Hcu.
  assert (ru = Ok tt) as ->.
  { rewrite update_run in Hu by lia.
    destruct (info_upd self (observe_agg v) wm _ _ _ _ _ Him) as [Hi0 _].
    set (w0 := (upd_meter self (with_agg (observe_agg v)) wm).2) in *.
    destruct (info_upd self (weigh_agg v (float_of 1 0) 1) w0 _ _ _ _ _ Hi0) as [Hi1 _].
    set (w1 := (upd_meter self _ w0).2) in *. unfold fire_channel, bind, gets in Hu. unfold info in Hi1.
    destruct (meter_of self w1) as [m|]; [|by injection Hu]. injection Hi1 as _ _ _ _ <-.
    by rewrite <- (Hq [VObj self; VFloat v; VInt 1] w1), Hu. }
  set (wc := upd_ctx ctx (set_metadata n (VFloat v)) wu).
  assert (w2 = (fire_channel E measurement self [VObj self; VFloat v; VObj ctx] wc).2) as Hw2.
  { unfold w2, on_success. destruct (info_meter _ _ _ _ _ _ _ Hi) as (m & Hm1 & Hmc & Hmn).
    rewrite (bind_run _ _ w (Some m) w) by by rewrite <- Hm1. rewrite Hmc, Hmn.
    by rewrite (bind_run _ _ _ _ _ Hm), (bind_run _ _ _ _ _ Hu). }
  assert (info self w2 = info self wc /\ ctx_of ctx w2 = ctx_of ctx wc) as [-> ->].
  { rewrite Hw2. unfold fire_channel, bind, gets. destruct (meter_of self wc) as [m|]; [|done].
    by apply (keeps_fire E _ (Ha (info self wc) (ctx_of ctx wc))). }
  unfold wc. rewrite info_ctx, ctx_upd, decide_True, Hcu, Hcm by done. done.
Qed.

Abbreviation exceeded := (exceeds threshold).

Lemma timing_measure_spec self ctx w cl n r a ev c t0 :
  info self w = Some (cl, n, r, a, ev) -> ctx_of ctx w = Some c ->
  dget (ctx_metadata c) (n +:+ "_start") = Some (VFloat t0) ->
  let d := fsub (perf_counter w) t0 in
  timing_measure perf_counter threshold self ctx w =
    (Ok (Some d), if exceeded d then upd_ctx ctx (set_metadata (n +:+ "_exceeded") (VBool true)) w else w).
Proof.
  intros Hi Hc Hs. unfold timing_measure, key, get_metadata, put_metadata, gets, modify, lift, bind.
  rewrite (info_name _ _ _ _ _ _ _ Hi), Hc, Hs. cbn. by destruct (exceeded _).
Qed.

(** A [TimingMeter] observes the time between the two ends of a task: whatever
    happens in between, as long as the meter and its entry of the context are left
    alone, [on_success] updates the meter once, with the difference of the two
    clock readings (a float subtraction), records it in the context under the meter's name, and flags
    the task exactly when there is a threshold (not zero) below it. *)
Theorem timing_observes self ctx w w1 cl n r a ev c c1 :
  classes cl = TimingMeter perf_counter threshold -> aside self ctx ->
  (forall args w, (Observers.fire E ev args w).1 = Ok tt) ->
  info self w = Some (cl, n, r, a, ev) -> ctx_of ctx w = Some c ->
  let started := (lifecycle E classes self "on_start" ctx w).2 in
  info self w1 = info self started -> ctx_of ctx w1 = Some c1 ->
  dget (ctx_metadata c1) (n +:+ "_start") = ctx_of ctx started ≫= (fun c => dget (ctx_metadata c) (n +:+ "_start")) ->
  let elapsed := fsub (perf_counter w1) (perf_counter w) in
  let w2 := (lifecycle E classes self "on_success" ctx w1).2 in
  info self w2 = Some (cl, n, r, update_agg elapsed 1 a, ev) /\
  exists c2, ctx_of ctx w2 = Some c2 /\ dget (ctx_metadata c2) n = Some (VFloat elapsed) /\
    dget (ctx_metadata c2) (n +:+ "_exceeded") =
      if exceeded elapsed then Some (VBool true) else dget (ctx_metadata c1) (n +:+ "_exceeded").
Proof.
  intros Hcl Ha Hq Hi Hc started Hi1 Hc1 Hs elapsed w2.
  assert (started = upd_ctx ctx (set_metadata (n +:+ "_start") (VFloat (perf_counter w))) w) as Hst.
  { unfold started, lifecycle, gets, bind. destruct (info_meter _ _ _ _ _ _ _ Hi) as (m & -> & -> & _). rewrite Hcl.
    rewrite decide_True by done. cbn [on_start TimingMeter]. by rewrite (timing_start_spec _ _ _ _ _ _ _ _ Hi). }
  rewrite Hst in Hi1, Hs. rewrite info_ctx, Hi in Hi1.
  rewrite ctx_upd, decide_True, Hc in Hs by done. cbn in Hs. rewrite dget_dset_eq in Hs.
  pose proof (timing_measure_spec self ctx w1 cl n r a ev c1 _ Hi1 Hc1 Hs) as Hm. fold elapsed in Hm. cbn zeta in Hm.
  set (wm := if exceeded elapsed then _ else w1) in Hm.
  assert (info self wm = Some (cl, n, r, a, ev)) as Him by (unfold wm; destruct (exceeded elapsed); [by rewrite info_ctx|done]).
  assert (ctx_of ctx wm = Some (if exceeded elapsed then set_metadata (n +:+ "_exceeded") (VBool true) c1 else c1)) as Hcm.
  { unfold wm. destruct (exceeded elapsed); [|done]. by rewrite ctx_upd, decide_True, Hc1. }
  assert (w2 = (on_success E classes self ctx w1).2) as ->.
  { unfold w2, lifecycle. destruct (info_meter _ _ _ _ _ _ _ Hi1) as (m & Hm1 & Hmc & _).
    rewrite (bind_run _ _ w1 (Some m) w1) by by rewrite <- Hm1. by rewrite Hmc, Hcl. }
  destruct (success_spec self ctx w1 wm elapsed _ _ _ _ _ _ _ _ _ _ _ Ha Hq Hi1 ltac:(by rewrite Hcl) Him Hcm) as [-> ->].
  split; [done|]. eexists. split; [done|]. cbn. rewrite dget_dset_eq. split; [done|].
  rewrite dget_dset_ne by (intros Heq; by apply (append_ne n "_exceeded")).
  destruct (exceeded elapsed); [|done]. cbn. apply dget_dset_eq.
Qed.
End timing.
End facts.
End Meter.

(** * Meters on the heap of [ObsToy], with contexts and a clock *)
Module MeterToy.
Record extra : Type := mkExtra { meters : list (Meter.meter ObsToy.sub); ctxs : list TaskContext; clock : Z }.
Abbreviation world := (ObsToy.world extra).

Definition set_extra (x : extra) (w : world) : world :=
  ObsToy.mkWorld (ObsToy.w_globals w) (ObsToy.w_attrs w) (ObsToy.w_log w) x.

#[global] Instance toy_meters : Meter.HasMeters world ObsToy.sub := {|
  Meter.meters_of w := meters (ObsToy.w_extra w);
  Meter.set_meters l w := set_extra (mkExtra l (ctxs (ObsToy.w_extra w)) (clock (ObsToy.w_extra w))) w;
  Meter.ctx_of r w := ctxs (ObsToy.w_extra w) !! r;
  Meter.upd_ctx r f w :=
    set_extra (mkExtra (meters (ObsToy.w_extra w)) (alter f r (ctxs (ObsToy.w_extra w))) (clock (ObsToy.w_extra w))) w;
|}.

#[global] Instance toy_meters_ok : Meter.HasMetersOk world ObsToy.sub.
Proof.
  split; intros; cbn; try done. case_decide; subst; [apply list_lookup_alter_eq|by apply list_lookup_alter_ne].
Qed.

Definition now (w : world) : float := float_of (clock (ObsToy.w_extra w)) 0.
Definition timing : Meter.class world := Meter.TimingMeter now (Some (float_of 5 0)).
Definition classes (_ : string) : Meter.class world := timing.

(** A meter with a subscriber that raises, and a source with two channels *)
Definition w0 (listener : list ObsToy.sub) : world :=
  let ch := mkEventful listener Broadcast None None in
  ObsToy.mkWorld (mkGlobals [] [] [])
    [("start", Channel (mkEventful [] Broadcast None None)); ("success", Channel (mkEventful [(1%nat, "f")] Broadcast None None));
     ("name", OtherAttr)] []
    (mkExtra [Meter.mkMeter "timing" "t" "max" (Meter.mkAgg fzero fzero 0 fzero fzero) ch ch ch]
       [mkTaskContext "i" "f" None [] [] 0 0 VNone None []] 10).

Lemma toy_hands_off self : Meter.hands_off ObsToy.E self.
Proof. intros c. by apply ObsToy.toy_keeps. Qed.

Lemma toy_aside self ctx : Meter.aside ObsToy.E self ctx.
Proof. intros i c. by apply ObsToy.toy_keeps. Qed.

Lemma toy_apart o n (g : globals ObsToy.sub) (w : world) :
  getattr (F := ObsToy.sub) o n (set_globals g w) = getattr o n w.
Proof. reflexivity. Qed.

(** The clock goes on. *)
Definition later (d : Z) (w : world) : world :=
  set_extra (mkExtra (meters (ObsToy.w_extra w)) (ctxs (ObsToy.w_extra w)) (clock (ObsToy.w_extra w) + d)) w.
End MeterToy.

(** 10^16, 1 and -10^16: the sum depends on the order. *)
Example order_matters :
  let sum_of us := (Meter.value 0 (Meter.run_updates ObsToy.E 0 us
    (MeterToy.set_extra (MeterToy.mkExtra [Meter.mkMeter "timing" "t" "sum" (Meter.mkAgg fzero fzero 0 fzero fzero)
       (mkEventful [] Broadcast None None) (mkEventful [] Broadcast None None) (mkEventful [] Broadcast None None)] [] 0)
       (MeterToy.w0 [])))).1 in
  let big := float_of (10 ^ 16) 0 in let small := float_of (- 10 ^ 16) 0 in let one := float_of 1 0 in
  sum_of [(big, 1); (one, 1); (small, 1)] = Ok fzero /\ sum_of [(big, 1); (small, 1); (one, 1)] = Ok one.
Proof. vm_compute. split; reflexivity. Qed.

(** The greatest of 3, 8 and 5.5, though each update's subscriber raises *)
Lemma meter_reduces_witness :
  let x := float_of 3 0 in let y := float_of 8 0 in let z := float_of 11 (-1) in
  exists q, (Meter.value 0 (Meter.run_updates ObsToy.E 0 [(z, 1); (x, 2); (y, 1)]
     (Meter.reset ObsToy.E 0 (MeterToy.w0 [(9%nat, "rude")])).2)).1 = Ok q /\ feq y q = true.
Proof.
  intros x y z.
  destruct (Meter.meter_reduces ObsToy.E 0 [(x, 2); (y, 1); (z, 1)] (MeterToy.w0 [(9%nat, "rude")]) "max"
    (Meter.mkAgg fzero fzero 0 fzero fzero)) as (q & _ & Hr & Hp).
  - apply MeterToy.toy_hands_off.
  - reflexivity.
  - reflexivity.
  - repeat constructor; cbn; lia.
  - vm_compute. discriminate.
  - assert (Meter.numbers [(x, 2); (y, 1); (z, 1)]) as Hn by repeat constructor.
    destruct (Hp [(z, 1); (x, 2); (y, 1)]) as (q' & Hq' & _ & _ & Hf).
    + apply (Permutation_app_comm [(z, 1)] [(x, 2); (y, 1)]).
    + exists q'. split; [exact Hq'|].
      assert (q = y) as ->; [|apply Hf; [by left|exact Hn]].
      unfold Meter.reduces in Hr. cbn in Hr. destruct (Hr Hn) as [Hm Hle]. pose proof (Hle y ltac:(set_solver)) as Hy.
      clear -Hm Hy. apply elem_of_cons in Hm as [->|Hm]; [vm_compute in Hy; discriminate|].
      apply elem_of_cons in Hm as [->|Hm]; [reflexivity|].
      apply elem_of_cons in Hm as [->|Hm]; [vm_compute in Hy; discriminate|by apply not_elem_of_nil in Hm].
Defined.

Lemma attach_wires_witness :
  exists w', Meter.attach (S := ObsToy.sub) MeterToy.classes pair 0 0 (MeterToy.w0 []) = (Ok 0%nat, w') /\
    getattr 0 "success" w' = Some (Channel (mkEventful [(1%nat, "f"); (0%nat, "on_success")] Broadcast None None)).
Proof.
  destruct (Meter.attach_wires (F := ObsToy.sub) (S := ObsToy.sub) MeterToy.classes pair MeterToy.toy_apart 0 0 (MeterToy.w0 [])
    (Meter.mkMeter "timing" "t" "max" (Meter.mkAgg fzero fzero 0 fzero fzero) (mkEventful [] Broadcast None None)
       (mkEventful [] Broadcast None None) (mkEventful [] Broadcast None None))) as (w' & Ha & _ & Hw).
  - reflexivity.
  - intros l. discriminate.
  - exists w'. split; [exact Ha|]. apply (Hw eq_refl "success" (mkEventful [(1%nat, "f")] Broadcast None None)); [|reflexivity].
    set_solver.
Defined.

(** Seven ticks, two above the threshold *)
Lemma timing_observes_witness :
  let w1 := MeterToy.later 7 (Meter.lifecycle ObsToy.E MeterToy.classes 0 "on_start" 0 (MeterToy.w0 [])).2 in
  let w2 := (Meter.lifecycle ObsToy.E MeterToy.classes 0 "on_success" 0 w1).2 in
  Meter.core 0 w2 = Some ("max", let f := float_of 7 0 in Meter.mkAgg f f 1 f f) /\
  exists c, Meter.ctx_of 0 w2 = Some c /\ dget (ctx_metadata c) "t_exceeded" = Some (VBool true).
Proof.
  destruct (Meter.timing_observes ObsToy.E MeterToy.classes MeterToy.now (Some (float_of 5 0)) 0 0 (MeterToy.w0 [])
    (MeterToy.later 7 (Meter.lifecycle ObsToy.E MeterToy.classes 0 "on_start" 0 (MeterToy.w0 [])).2)
    "timing" "t" "max" (Meter.mkAgg fzero fzero 0 fzero fzero) (mkEventful [] Broadcast None None) (mkTaskContext "i" "f" None [] [] 0 0 VNone None [])
    (mkTaskContext "i" "f" None [] [] 0 0 VNone None [("t_start", VFloat (float_of 10 0))])) as (Hi & c & Hc & _ & Hx).
  - reflexivity.
  - apply MeterToy.toy_aside.
  - intros args w. reflexivity.
  - reflexivity.
  - reflexivity.
  - reflexivity.
  - reflexivity.
  - reflexivity.
  - split; [|exists c; split; [exact Hc|exact Hx]]. unfold Meter.info in Hi. unfold Meter.core.
    destruct (Meter.meter_of 0 _) as [m|]; [|discriminate Hi]. injection Hi as _ _ Hr Ha _.
    cbn. rewrite Hr, Ha. reflexivity.
Defined.
