(* ===== verification/Logfire.v ===== *)
(** * [eventforge/integrations/logfire.py]: [LogfireMeter], [LogfireMetricLogger]

    Logfire is third-party: [Tracer] gives its calls as statements over the heap,
    and [TracerOk] what its documentation says of spans, in terms of those that are
    open and those that were ended, each with the exception it was ended with. *)
From S2P Require Import Prelude PyDict Types Observers Observable Meter.

Class Tracer (W : Type) : Type := {
  span : list string -> string -> list (string * val) -> M W nat;    (** [handle.span(name, **attrs)] *)
  enter : nat -> M W unit;
  set_attribute : nat -> string -> val -> M W unit;
  exit : nat -> option exn -> M W unit;
  info : list string -> string -> list (string * val) -> M W unit;
}.

(** [_active_spans] of each meter, and the contexts *)
Class HasSpans (W : Type) : Type := {
  active_spans : nat -> W -> list (nat * nat);
  set_active : nat -> list (nat * nat) -> W -> W;
  context : nat -> W -> option TaskContext;
}.

Module LogfireMeter.
Section ops.
Context {W : Type} `{!Tracer W} `{!HasSpans W}.
Variable repr : val -> string.

Record settings : Type := mkSettings {
  span_name : option (nat -> M W string);        (** a constant or a callable *)
  extract_attributes : option (nat -> M W val);
  log_args : bool;
  log_result : bool;
  tags : list string;
}.
Variable cfg : settings.

Definition read {A} (dflt : A) (f : TaskContext -> A) (ctx : nat) : M W A :=
  gets (fun w => match context ctx w with Some c => f c | None => dflt end).

Definition resolve_name (ctx : nat) : M W string :=
  match span_name cfg with
  | None => read "" ctx_func_name ctx
  | Some f => f ctx
  end.

(** [repr(v) if v else None] *)
Definition repr_or_none (v : val) : val := if truthy v then VStr (repr v) else VNone.

Definition start_attrs (c : TaskContext) : list (string * val) :=
  if log_args cfg
  then [("args", repr_or_none (VTuple (ctx_args c)));
        ("kwargs", repr_or_none (VDict (map (fun kv => (VStr kv.1, kv.2)) (ctx_kwargs c))))]
  else [].

Definition on_start (self ctx : nat) : M W unit :=
  let! attrs := read [] start_attrs ctx in
  let! name := resolve_name ctx in
  let! s := span (tags cfg) name attrs in
  enter s ;;;
  modify (fun w => set_active self (dset (active_spans self w) ctx s) w).

(** The [try] of [_close_span] *)
Definition attach_attributes (s ctx : nat) : M W unit :=
  let! is_success := read true ctx_is_success ctx in
  match extract_attributes cfg with
  | Some f =>
      if is_success then
        try_except (let! extra := f ctx in
                    if truthy extra then set_attribute s "result_attributes" extra else ret tt)
                   (fun _ => ret tt)
      else ret tt
  | None => ret tt
  end ;;;
  let! result := read VNone ctx_result ctx in
  match result with
  | VNone => ret tt
  | v => if log_result cfg then set_attribute s "result" (VStr (repr v)) else ret tt
  end ;;;
  let! error := read None ctx_error ctx in
  match error with
  | Some e =>
      if is_success then ret tt
      else set_attribute s "error" (VStr (exn_str e)) ;;; set_attribute s "error_type" (VStr (exn_type e))
  | None => ret tt
  end ;;;
  let! t := read 0 ctx_execution_time ctx in
  set_attribute s "execution_time" (VInt t).

Definition close_span (self ctx : nat) : M W unit :=
  let! spans := gets (active_spans self) in
  modify (set_active self (ddel spans ctx)) ;;;
  match dget spans ctx with
  | None => ret tt
  | Some s =>
      try_finally (attach_attributes s ctx)
        (let! error := read None ctx_error ctx in exit s error)
  end.

Definition on_success (self ctx : nat) : M W unit := close_span self ctx.
Definition on_failure (self ctx : nat) : M W unit := close_span self ctx.

(** The class, for [attach] *)
Definition LogfireMeter : Meter.class W :=
  Meter.mkClass "logfire" ["LogfireMeter"; "Meter"; "Observable"] Meter.base_dir
    on_start (fun _ _ => ret None) (Some on_success) on_failure (fun _ _ => ret tt).
End ops.
End LogfireMeter.

Module LogfireMetricLogger.
Section ops.
Context {W : Type} `{!Tracer W}.
Variable show : val -> string.

(** [" ".join(f"{k}={v}" ...)] *)
Fixpoint joined (kwargs : list (string * val)) : string :=
  match kwargs with
  | [] => ""
  | [(k, v)] => k +:+ "=" +:+ show v
  | (k, v) :: rest => k +:+ "=" +:+ show v +:+ " " +:+ joined rest
  end.

Definition log (tags : list string) (prefix : string) (kwargs : list (string * val)) : M W unit :=
  info tags (prefix +:+ ": " +:+ joined kwargs) kwargs.
End ops.
End LogfireMetricLogger.

(** * Spans are closed *)
Class TracerOk (W : Type) `{Tracer W} `{HasSpans W} (open : W -> list nat) (ended : W -> list (nat * option exn)) : Prop := {
  span_ok : forall t n a w, exists s w', span t n a w = (Ok s, w') /\ (s ∉ open w) /\
    open w' = open w /\ ended w' = ended w /\ (forall i, active_spans i w' = active_spans i w) /\
    forall c, context c w' = context c w;
  enter_ok : forall s w, exists w', enter s w = (Ok tt, w') /\ open w' = s :: open w /\ ended w' = ended w /\
    (forall i, active_spans i w' = active_spans i w) /\ forall c, context c w' = context c w;
  set_attribute_ok : forall s k v w, let w' := (set_attribute s k v w).2 in open w' = open w /\ ended w' = ended w /\
    (forall i, active_spans i w' = active_spans i w) /\ forall c, context c w' = context c w;
  exit_ok : forall s e w, exists w', exit s e w = (Ok tt, w') /\ open w' = filter (fun x => x <> s) (open w) /\
    ended w' = ended w ++ [(s, e)] /\ (forall i, active_spans i w' = active_spans i w) /\
    forall c, context c w' = context c w;
  active_set : forall i l w, open (set_active i l w) = open w /\ ended (set_active i l w) = ended w /\
    (forall j, active_spans j (set_active i l w) = if decide (j = i) then l else active_spans j w) /\
    forall c, context c (set_active i l w) = context c w;
}.

Section facts.
Context {W : Type} `{Tok : TracerOk W open ended}.
Variable repr : val -> string.
Variable cfg : LogfireMeter.settings (W := W).

(** All that matters here of a heap *)
Definition view (w : W) : list nat * list (nat * option exn) := (open w, ended w).
Definition same (w0 w : W) : Prop :=
  view w = view w0 /\ (forall i, active_spans i w = active_spans i w0) /\ forall c, context c w = context c w0.

(** The user's functions leave the tracer and the contexts alone. *)
Hypothesis user_ok : forall w0,
  (forall f c, LogfireMeter.span_name cfg = Some f -> keeps (same w0) (f c)) /\
  (forall f c, LogfireMeter.extract_attributes cfg = Some f -> keeps (same w0) (f c)).

Lemma keeps_set_attribute w0 s k v : keeps (same w0) (set_attribute s k v).
Proof.
  intros w (Hv & Ha & Hc). destruct (set_attribute_ok s k v w) as (Ho & He & Ha' & Hc').
  split_and!; [unfold view in *; congruence|intros i; by rewrite Ha'|intros c; by rewrite Hc'].
Qed.

Lemma keeps_attach w0 s ctx : keeps (same w0) (LogfireMeter.attach_attributes repr cfg s ctx).
Proof.
  unfold LogfireMeter.attach_attributes, LogfireMeter.read.
  repeat first [apply keeps_ret | apply keeps_gets | apply keeps_set_attribute | by apply (user_ok w0)
    | apply keeps_bind; [|intros ?] | apply keeps_try_except; [|intros ?] | case_match].
Qed.

Lemma start_spec self ctx w w1 :
  LogfireMeter.on_start repr cfg self ctx w = (Ok tt, w1) ->
  exists s, (s ∉ open w) /\ open w1 = s :: open w /\ ended w1 = ended w /\
    active_spans self w1 = dset (active_spans self w) ctx s /\
    (forall i, i <> self -> active_spans i w1 = active_spans i w) /\ forall c, context c w1 = context c w.
Proof.
  unfold LogfireMeter.on_start. unfold LogfireMeter.read at 1, gets at 1, bind at 1.
  assert (keeps (same w) (LogfireMeter.resolve_name cfg ctx)) as Hk.
  { unfold LogfireMeter.resolve_name. destruct (LogfireMeter.span_name cfg) as [f|] eqn:Hf; [|apply keeps_gets].
    by apply (proj1 (user_ok w)). }
  specialize (Hk w (conj eq_refl (conj (fun _ => eq_refl) (fun _ => eq_refl)))).
  unfold bind at 1. destruct (LogfireMeter.resolve_name cfg ctx w) as [[name|e] wn]; [|done].
  destruct Hk as (Hv & Ha & Hc). cbn in Hv, Ha, Hc. unfold view in Hv.
  destruct (span_ok (LogfireMeter.tags cfg) name
    (match context ctx w with Some c => LogfireMeter.start_attrs repr cfg c | None => [] end) wn)
    as (s & ws & Hsp & Hfresh & Ho & He & Ha' & Hc').
  rewrite (bind_run _ _ _ _ _ Hsp). destruct (enter_ok s ws) as (we & Hen & Ho2 & He2 & Ha2 & Hc2).
  rewrite (bind_run _ _ _ _ _ Hen). unfold modify. intros [= <-].
  destruct (active_set self (dset (active_spans self we) ctx s) we) as (Ho3 & He3 & Ha3 & Hc3).
  exists s. split_and!.
  - congruence.
  - congruence.
  - congruence.
  - by rewrite Ha3, decide_True, Ha2, Ha', Ha.
  - intros i Hi. by rewrite Ha3, decide_False, Ha2, Ha', Ha.
  - intros c. by rewrite Hc3, Hc2, Hc', Hc.
Qed.

Lemma close_spec self ctx w : exists w', (LogfireMeter.close_span repr cfg self ctx w).2 = w' /\
  match dget (active_spans self w) ctx with
  | Some s => open w' = filter (fun x => x <> s) (open w) /\
      ended w' = ended w ++ [(s, match context ctx w with Some c => ctx_error c | None => None end)]
  | None => True
  end /\
  match dget (active_spans self w) ctx with
  | Some s => True
  | None => (LogfireMeter.close_span repr cfg self ctx w).1 = Ok tt /\ view w' = view w
  end /\
  active_spans self w' = ddel (active_spans self w) ctx /\
  (forall i, i <> self -> active_spans i w' = active_spans i w) /\ forall c, context c w' = context c w.
Proof.
  unfold LogfireMeter.close_span, gets, bind at 1 3. set (w1 := set_active self (ddel (active_spans self w) ctx) w).
  destruct (active_set self (ddel (active_spans self w) ctx) w) as (Ho & He & Ha & Hc). fold w1 in Ho, He, Ha, Hc.
  rewrite !(bind_run _ _ w tt w1) by done. eexists. split; [done|].
  destruct (dget (active_spans self w) ctx) as [s|] eqn:Hd.
  - pose proof (keeps_attach w1 s ctx w1 (conj eq_refl (conj (fun _ => eq_refl) (fun _ => eq_refl)))) as (Hv2 & Ha2 & Hc2).
    unfold try_finally. destruct (LogfireMeter.attach_attributes repr cfg s ctx w1) as [r w2]. cbn in Hv2, Ha2, Hc2. unfold view in Hv2.
    unfold LogfireMeter.read, gets, bind.
    destruct (exit_ok s (match context ctx w2 with Some c => ctx_error c | None => None end) w2) as (w3 & Hx & Ho3 & He3 & Ha3 & Hc3).
    rewrite Hx. cbn. split_and!; [congruence| |done| | |].
    + rewrite He3, Hc2, Hc. congruence.
    + by rewrite Ha3, Ha2, Ha, decide_True.
    + intros i Hi. by rewrite Ha3, Ha2, Ha, decide_False.
    + intros c. by rewrite Hc3, Hc2, Hc.
  - cbn. unfold view. rewrite Hd. split_and!; [done|done|congruence| | |done].
    + by rewrite Ha, decide_True.
    + intros i Hi. by rewrite Ha, decide_False.
Qed.

(** C29 The life of a span: [on_start] opens one and keeps it under the context;
    the end of the task, by success or by failure, ends exactly that one, with the
    exception that the context has at that moment (none if the task succeeded), and
    forgets it, even when the attribute extractor or the tracer's attributes raise;
    ending again does nothing; the spans of other tasks and of other meters are
    untouched.  Between the two anything may happen (the runner writes the result
    or the error and the end time into the context, other tasks and meters open and
    end spans of their own), but for this meter's entry for this context.  The
    user's naming function and extractor leave the tracer and the contexts alone. *)
Theorem span_lifetime self ctx w w1 w2 :
  LogfireMeter.on_start repr cfg self ctx w = (Ok tt, w1) ->
  dget (active_spans self w2) ctx = dget (active_spans self w1) ctx ->
  exists s, (s ∉ open w) /\ open w1 = s :: open w /\ ended w1 = ended w /\
    active_spans self w1 = dset (active_spans self w) ctx s /\
    (forall i, i <> self -> active_spans i w1 = active_spans i w) /\
    let w3 := (LogfireMeter.close_span repr cfg self ctx w2).2 in
    open w3 = filter (fun x => x <> s) (open w2) /\
    ended w3 = ended w2 ++ [(s, match context ctx w2 with Some c => ctx_error c | None => None end)] /\
    active_spans self w3 = ddel (active_spans self w2) ctx /\
    (forall i, i <> self -> active_spans i w3 = active_spans i w2) /\
    (forall c, context c w3 = context c w2) /\
    exists w4, LogfireMeter.close_span repr cfg self ctx w3 = (Ok tt, w4) /\ same w3 w4.
Proof.
  intros Hs H12. destruct (start_spec _ _ _ _ Hs) as (s & Hfresh & Ho1 & He1 & Ha1 & Ha1' & Hc1).
  exists s. split_and!; [done..|].
  destruct (close_spec self ctx w2) as (w3 & Hw3 & Hsome & _ & Ha3 & Ha3' & Hc3). rewrite Hw3.
  rewrite H12, Ha1, dget_dset_eq in Hsome. destruct Hsome as [Ho3 He3]. split_and!; [done..|].
  destruct (close_spec self ctx w3) as (w4 & Hw4 & _ & Hnone & Ha4 & Ha4' & Hc4).
  rewrite Ha3, dget_ddel_eq in Hnone. destruct Hnone as [Hr Hv4]. exists w4.
  split; [by rewrite (surjective_pairing (LogfireMeter.close_span repr cfg self ctx w3)), Hr, Hw4|].
  split_and!; [done| |done]. intros i. destruct (decide (i = self)) as [->|]; [|by apply Ha4'].
  rewrite Ha4. apply ddel_fresh. rewrite Ha3. apply dget_ddel_eq.
Qed.
End facts.

(** * A tracer that is a list of open spans and a list of ended ones *)
Module LogfireToy.
Record world : Type := mkWorld {
  opened : list nat;
  closed : list (nat * option exn);
  table : nat -> list (nat * nat);
  ctxs : list TaskContext;
}.

(** Attributes named [error_type] are refused. *)
#[global] Instance tracer : Tracer world := {|
  span _ _ _ := fun w => (Ok (S (foldr Nat.max 0%nat (opened w))), w);
  enter s := modify (fun w => mkWorld (s :: opened w) (closed w) (table w) (ctxs w));
  set_attribute _ k _ := if decide (k = "error_type") then throw (Exc "ValueError" k) else ret tt;
  exit s e := modify (fun w => mkWorld (filter (fun x => x <> s) (opened w)) (closed w ++ [(s, e)]) (table w) (ctxs w));
  info _ _ _ := ret tt;
|}.

#[global] Instance spans : HasSpans world := {|
  active_spans i w := table w i;
  set_active i l w := mkWorld (opened w) (closed w) (fun j => if decide (j = i) then l else table w j) (ctxs w);
  context c w := ctxs w !! c;
|}.

Lemma max_fresh l : S (foldr Nat.max 0%nat l) ∉ l.
Proof.
  intros Hin. enough (forall k, k ∈ l -> (k <= foldr Nat.max 0 l)%nat) as Hle by (specialize (Hle _ Hin); lia).
  clear Hin. intros k. induction l as [|j l IH]; [by intros ?%not_elem_of_nil|]. cbn. intros [->|Hk]%elem_of_cons; [lia|].
  specialize (IH Hk). lia.
Qed.

#[global] Instance tracer_ok : TracerOk world opened closed.
Proof.
  split.
  - intros t n a w. do 2 eexists. split; [done|]. split; [apply max_fresh|done].
  - intros s w. by eexists.
  - intros s k v w. cbn. destruct (decide (k = "error_type")); done.
  - intros s e w. by eexists.
  - intros i l w. done.
Qed.

Definition cfg : LogfireMeter.settings (W := world) :=
  LogfireMeter.mkSettings None (Some (fun _ => throw (Exc "KeyError" "loss"))) true true [].

Definition started : TaskContext := mkTaskContext "i" "f" None [VInt 1] [] 0 0 VNone None [].
Definition failed : TaskContext :=
  mkTaskContext "i" "f" None [VInt 1] [] 0 3 VNone (Some (Exc "ValueError" "odd")) [].

(** Another task has span 4 open. *)
Definition w0 : world := mkWorld [4%nat] [] (fun _ => [(7%nat, 4%nat)]) [started].

(** The task fails, and the runner writes that into its context; the other task's
    span is ended meanwhile and a third one's opened. *)
Definition meanwhile (w : world) : world :=
  mkWorld (9%nat :: filter (fun x => x <> 4%nat) (opened w)) (closed w ++ [(4%nat, None)])
    (fun i => dset (ddel (table w i) 7%nat) 8%nat 9%nat) [failed].

Lemma cfg_user_ok w :
  (forall f c, LogfireMeter.span_name cfg = Some f -> keeps (same (open := opened) (ended := closed) w) (f c)) /\
  (forall f c, LogfireMeter.extract_attributes cfg = Some f -> keeps (same (open := opened) (ended := closed) w) (f c)).
Proof. split; intros f c [= <-]. apply keeps_throw. Qed.
End LogfireToy.

(** The span of a failed task is ended with its error, though an attribute is
    refused; the third task's stays open. *)
Lemma span_lifetime_witness :
  let w1 := (LogfireMeter.on_start (fun _ => "r") LogfireToy.cfg 0 0 LogfireToy.w0).2 in
  let w3 := (LogfireMeter.close_span (fun _ => "r") LogfireToy.cfg 0 0 (LogfireToy.meanwhile w1)).2 in
  LogfireToy.opened w3 = [9%nat] /\ map snd (LogfireToy.closed w3) = [None; Some (Exc "ValueError" "odd")].
Proof.
  destruct (span_lifetime (fun _ => "r") LogfireToy.cfg LogfireToy.cfg_user_ok 0 0 LogfireToy.w0
    (LogfireMeter.on_start (fun _ => "r") LogfireToy.cfg 0 0 LogfireToy.w0).2
    (LogfireToy.meanwhile (LogfireMeter.on_start (fun _ => "r") LogfireToy.cfg 0 0 LogfireToy.w0).2))
    as (s & Hs & Ho1 & _ & _ & _ & Ho & He & _).
  - reflexivity.
  - reflexivity.
  - vm_compute in Ho1. injection Ho1 as <-. cbv zeta. rewrite Ho, He. split; reflexivity.
Defined.
