(* ===== verification/Redis.v ===== *)
(** * [eventforge/transports/redis.py]: [RedisTransport]

    The redis client and its pubsub connection are third-party: [RedisClient]
    gives their calls as statements over a state [X] of their own, and
    [RedisClientOk] what the Redis documentation says of them while the connection
    is up, in terms of the set of patterns the connection is subscribed to.  JSON
    is [dump_json] and [validate_json].  The listener thread takes what
    [get_message] hands it, one message at a time. *)
From stdpp Require Import gmap.
From S2P Require Import Prelude PyDict Types Topics Transport.

(** What [get_message] returns: [Bytes None] is data that is not valid UTF-8. *)
Inductive raw_data : Type := Bytes (decoded : option string) | Text (s : string) | OtherData.
Record raw_message : Type := mkRaw { raw_type : string; data : raw_data }.

Class RedisClient (X : Type) : Type := {
  r_psubscribe : string -> M X unit;
  r_punsubscribe : string -> M X unit;
  r_publish : string -> string -> M X unit;
  r_pubsub_close : M X unit;
  r_client_close : M X unit;
}.

Class RedisClientOk (X : Type) `{RedisClient X} (patterns : X -> gset string) : Prop := {
  psubscribe_ok : forall p x, exists x', r_psubscribe p x = (Ok tt, x') /\ patterns x' = {[p]} ∪ patterns x;
  punsubscribe_ok : forall p x, exists x', r_punsubscribe p x = (Ok tt, x') /\ patterns x' = patterns x ∖ {[p]};
  publish_ok : forall t d x, patterns (r_publish t d x).2 = patterns x;
  pubsub_close_ok : forall x, exists x', r_pubsub_close x = (Ok tt, x') /\ patterns x' = ∅;
  client_close_ok : forall x, exists x', r_client_close x = (Ok tt, x') /\ patterns x' = patterns x;
}.

(** ** Redis patterns

    What the documentation of PSUBSCRIBE says of patterns without the other
    special characters: a star stands for any characters. *)
Definition glob_parts (p : chars) : list piece :=
  map (fun c => if decide (c = "*"%char) then Many anychar else One (isc c)) p.

Definition glob_plain (p : string) : Prop :=
  Forall (fun c => c ∉ ["?"; "["; "]"; "\"; "^"; "-"]%char) (explode p).

Definition star_glob (glob : string -> string -> bool) : Prop :=
  forall p t, glob_plain p -> glob p t = pmatch end_Z (glob_parts (explode p)) (explode t).

Section coarse.
Abbreviation asterisk := "*"%char.

(** A pattern read two stars at a time *)
Lemma stars_ind (Q : chars -> Prop) :
  Q [] -> (forall c s, c <> asterisk -> Q s -> Q (c :: s)) -> Q [asterisk] ->
  (forall s, Q s -> Q (asterisk :: asterisk :: s)) ->
  (forall c s, c <> asterisk -> Q (c :: s) -> Q (asterisk :: c :: s)) -> forall s, Q s.
Proof.
  intros H0 Hc H1 H2 H3 s.
  enough (Q s /\ forall c, Q (c :: s)) as [? _] by done.
  induction s as [|c s [IH1 IH2]].
  - split; [done|]. intros c. destruct (decide (c = asterisk)) as [->|]; auto.
  - split; [apply IH2|]. intros c'. destruct (decide (c' = asterisk)) as [->|]; [|auto].
    destruct (decide (c = asterisk)) as [->|]; auto.
Qed.

Lemma squeeze_ne c s : c <> asterisk -> replace dstar star (c :: s) = c :: replace dstar star s.
Proof. intros Hc. apply (replace_app_ne asterisk dstar star [c] s); [done|]. set_solver. Qed.

Lemma squeeze_two s : replace dstar star (asterisk :: asterisk :: s) = asterisk :: replace dstar star s.
Proof. done. Qed.

Lemma squeeze_one c s : c <> asterisk ->
  replace dstar star (asterisk :: c :: s) = asterisk :: replace dstar star (c :: s).
Proof.
  intros Hc. change (replace dstar star (asterisk :: c :: s)) with
    (if prefixb dstar (asterisk :: c :: s) then star ++ replace_go dstar star 1 (c :: s)
     else asterisk :: replace dstar star (c :: s)).
  replace (prefixb dstar (asterisk :: c :: s)) with false; [done|].
  cbn. by rewrite (bool_decide_eq_false_2 (asterisk = c)), andb_false_r by congruence.
Qed.

Lemma re_parts_ne c s : c <> asterisk -> re_parts (c :: s) = One (isc c) :: re_parts s.
Proof. intros Hc. cbn. by rewrite decide_False. Qed.

Lemma re_parts_one c s : c <> asterisk -> re_parts (asterisk :: c :: s) = Many not_dot :: re_parts (c :: s).
Proof. intros Hc. cbn [re_parts]. by rewrite (decide_True (P := asterisk = asterisk)), (decide_False (P := c = asterisk)). Qed.

Lemma glob_parts_cons c s :
  glob_parts (c :: s) = (if decide (c = asterisk) then Many anychar else One (isc c)) :: glob_parts s.
Proof. done. Qed.

(** The Redis pattern matches at least what the regular expression does. *)
Lemma re_to_glob p : forall t, nlfree t ->
  pmatch end_dollar (re_parts p) t = true -> pmatch end_Z (glob_parts (replace dstar star p)) t = true.
Proof.
  assert (forall q ps ps' t, nlfree t ->
    (forall t, nlfree t -> pmatch end_dollar ps t = true -> pmatch end_Z ps' t = true) ->
    pmatch end_dollar (Many q :: ps) t = true -> pmatch end_Z (Many anychar :: ps') t = true) as Hmany.
  { intros q ps ps' t Hn Hps. rewrite !pmatch_many. intros (s1 & s2 & -> & _ & Hm).
    apply nlfree_app in Hn as [_ Hn]. exists s1, s2. split_and!; [done| |by apply Hps]. by apply Forall_true. }
  induction p as [|c s Hc IH| |s IH|c s Hc IH] using stars_ind; intros t Hn.
  - intros Hm. by rewrite (end_dollar_nlfree t Hn Hm).
  - rewrite re_parts_ne, squeeze_ne, glob_parts_cons, decide_False by done. rewrite !pmatch_one.
    intros (c' & s' & -> & ? & Hm). exists c', s'. split_and!; [done..|]. apply IH; [|done].
    unfold nlfree in *. set_solver.
  - apply (Hmany not_dot []); [done|]. intros t' Hn' Hm. by rewrite (end_dollar_nlfree t' Hn' Hm).
  - rewrite squeeze_two, glob_parts_cons, decide_True by done. cbn [re_parts]. rewrite !decide_True by done.
    by apply Hmany.
  - rewrite squeeze_one, glob_parts_cons, decide_True, re_parts_one by done. by apply Hmany.
Qed.

Lemma re_parts_refl p : pmatch end_dollar (re_parts p) p = true.
Proof.
  assert (forall q ps c t, q c = true -> pmatch end_dollar ps t = true ->
    pmatch end_dollar (Many q :: ps) (c :: t) = true) as Hmany.
  { intros q ps c t Hc Hm. apply pmatch_many. exists [c], t. split_and!; [done|by constructor|done]. }
  induction p as [|c s Hc IH| |s IH|c s Hc IH] using stars_ind; [done| |done| |].
  - rewrite re_parts_ne by done. apply pmatch_one. exists c, s. unfold isc. by rewrite bool_decide_eq_true_2.
  - cbn [re_parts]. rewrite !decide_True by done. apply pmatch_many. exists [asterisk; asterisk], s.
    split_and!; [done|by repeat constructor|done].
  - rewrite re_parts_one by done. by apply Hmany.
Qed.

Lemma squeeze_elem c p : c ∈ replace dstar star p -> c ∈ p.
Proof.
  induction p as [|c' s Hc IH| |s IH|c' s Hc IH] using stars_ind; [done| |done| |].
  - rewrite squeeze_ne by done. set_solver.
  - rewrite squeeze_two. set_solver.
  - rewrite squeeze_one by done. set_solver.
Qed.

Lemma coarse_filter glob t p :
  star_glob glob -> glob_plain p -> nlfree (explode t) ->
  re_matches t p = true -> glob (to_redis_pattern p) t = true.
Proof.
  intros Hg Hp Hn Hm.
  assert (explode (to_redis_pattern p) = replace dstar star (explode p)) as He
    by apply String.list_ascii_of_string_of_list_ascii.
  rewrite Hg.
  - rewrite He. apply re_to_glob; [done|]. unfold re_matches in Hm.
    destruct (decide (p = t)) as [->|]; [apply re_parts_refl|done].
  - unfold glob_plain in *. rewrite He. rewrite Forall_forall in *. intros c Hc. by apply Hp, squeeze_elem.
Qed.
End coarse.

Module RedisTransport.

Record state (CB X : Type) : Type := mkState {
  pubsub : X;
  subscribers : list (string * CB);
  sub_topic : list (string * string);
  sub_pattern : list (string * string);
  pattern_refs : list (string * Z);
  queues : list (string * list Message);
  queue_patterns : list (string * string);
  running : bool;
}.
Arguments mkState {CB X} _ _ _ _ _ _ _ _.
Arguments pubsub {CB X} _.
Arguments subscribers {CB X} _.
Arguments sub_topic {CB X} _.
Arguments sub_pattern {CB X} _.
Arguments pattern_refs {CB X} _.
Arguments queues {CB X} _.
Arguments queue_patterns {CB X} _.
Arguments running {CB X} _.

Section ops.
Context {CB X R : Type} `{!RedisClient X}.
Abbreviation state := (state CB X).
Abbreviation heap := (heap state R).
Variable dump_json : Message -> string.
Variable validate_json : string -> result Message.
(** How a subscriber's callback runs. *)
Variable call : CB -> Message -> M heap unit.

Definition init (x : X) : state := mkState x [] [] [] [] [] [] true.

Definition set_pubsub (x : X) (s : state) : state :=
  mkState x (subscribers s) (sub_topic s) (sub_pattern s) (pattern_refs s) (queues s) (queue_patterns s) (running s).
Definition set_subs su st sp (s : state) : state :=
  mkState (pubsub s) su st sp (pattern_refs s) (queues s) (queue_patterns s) (running s).
Definition set_refs r (s : state) : state :=
  mkState (pubsub s) (subscribers s) (sub_topic s) (sub_pattern s) r (queues s) (queue_patterns s) (running s).
Definition set_queues q (s : state) : state :=
  mkState (pubsub s) (subscribers s) (sub_topic s) (sub_pattern s) (pattern_refs s) q (queue_patterns s) (running s).
Definition set_queue_patterns q (s : state) : state :=
  mkState (pubsub s) (subscribers s) (sub_topic s) (sub_pattern s) (pattern_refs s) (queues s) q (running s).

(** A call on the client or its pubsub connection *)
Definition on_client {A} (m : M X A) : M heap A := fun h =>
  let '(r, x) := m (pubsub (h_tr h)) in (r, set_tr (set_pubsub x (h_tr h)) h).

Definition closed_error : exn := Exc "RuntimeError" "Transport is closed".

(** [_psubscribe]; reading the [defaultdict] leaves an entry *)
Definition psubscribe (p : string) : M heap unit :=
  let! s := get_tr in
  let n := dget_or 0 (pattern_refs s) p in
  upd_tr (set_refs (dset (pattern_refs s) p n)) ;;;
  (if decide (n = 0) then on_client (r_psubscribe p) else ret tt) ;;;
  upd_tr (fun s => set_refs (dset (pattern_refs s) p (dget_or 0 (pattern_refs s) p + 1)) s).

Definition punsubscribe (p : string) : M heap unit :=
  let! s := get_tr in
  let n := dget_or 0 (pattern_refs s) p in
  if decide (n = 0) then ret tt
  else if decide (n - 1 = 0) then
    upd_tr (set_refs (ddel (pattern_refs s) p)) ;;;
    try_except (on_client (r_punsubscribe p)) (fun _ => ret tt)
  else upd_tr (set_refs (dset (pattern_refs s) p (n - 1))).

Definition ensure_queue_subscription (t : string) : M heap unit :=
  let! s := get_tr in
  if dmem (queue_patterns s) t then ret tt
  else
    let pattern := to_redis_pattern t in
    upd_tr (set_queue_patterns (dset (queue_patterns s) t pattern)) ;;;
    psubscribe pattern.

Definition queue_of (s : state) (t : string) : list Message := dget_or [] (queues s) t.

(** [self._sub_topic.get(sub_id)] *)
Definition pattern_of (id : string) (h : heap) : option string := dget (sub_topic (h_tr h)) id.

(** [self._queues[topic].put(msg)]: these queues have no bound *)
Definition put (msg : Message) : M heap unit :=
  upd_tr (fun s => set_queues (dset (queues s) (topic msg) (queue_of s (topic msg) ++ [msg])) s).

Definition dispatch (msg : Message) : M heap unit :=
  let! s := get_tr in
  notify pattern_of re_matches call msg (subscribers s) ;;;
  put msg.

Definition decode_error : exn := Exc "UnicodeDecodeError" "invalid start byte".

(** One round of [_listen] with what [get_message] returned or raised; an
    exception that leaves it ends the thread. *)
Definition listen_once (got : result (option raw_message)) : M heap unit :=
  match got with
  | Raise e => if is_Exception e then ret tt else throw e
  | Ok None => ret tt
  | Ok (Some raw) =>
      if decide (raw_type raw = "message" \/ raw_type raw = "pmessage") then
        match data raw with
        | OtherData => ret tt
        | Bytes None => throw decode_error
        | Bytes (Some p) | Text p =>
            match validate_json p with
            | Raise e => if is_Exception e then ret tt else throw e
            | Ok msg => dispatch msg
            end
        end
      else ret tt
  end.

Definition send (msg : Message) : M heap unit :=
  let! s := get_tr in
  if running s then on_client (r_publish (topic msg) (dump_json msg)) else throw closed_error.

Definition receive (t : string) (timeout : option Z) : M heap (wait (option Message)) :=
  let! s := get_tr in
  if running s then
    ensure_queue_subscription t ;;;
    fun h =>
      let '(r, q) := q_get (queue_of (h_tr h) t) timeout in
      (r, set_tr (set_queues (dset (queues (h_tr h)) t q) (h_tr h)) h)
  else ret (Done None).

Definition receive_async (t : string) (timeout : option Z) : M heap (wait (option Message)) :=
  let! s := get_tr in
  if running s then
    ensure_queue_subscription t ;;;
    fun h =>
      let '(r, q) := q_get_async (queue_of (h_tr h) t) timeout in
      (r, set_tr (set_queues (dset (queues (h_tr h)) t q) (h_tr h)) h)
  else ret (Done None).

Definition subscribe (t : string) (cb : CB) : M heap string :=
  let! s := get_tr in
  if running s then
    let! sub_id := new_uuid in
    let pattern := to_redis_pattern t in
    upd_tr (fun s => set_subs (dset (subscribers s) sub_id cb) (dset (sub_topic s) sub_id t)
                              (dset (sub_pattern s) sub_id pattern) s) ;;;
    psubscribe pattern ;;;
    ret sub_id
  else throw closed_error.

Definition unsubscribe (id : string) : M heap bool :=
  let! s := get_tr in
  if dmem (subscribers s) id then
    upd_tr (set_subs (ddel (subscribers s) id) (ddel (sub_topic s) id) (ddel (sub_pattern s) id)) ;;;
    match dget (sub_pattern s) id with
    | Some p => punsubscribe p
    | None => ret tt
    end ;;;
    ret true
  else ret false.

(** [close]; the listener ends by its flag *)
Definition close : M heap unit :=
  upd_tr (fun s => mkState (pubsub s) (subscribers s) (sub_topic s) (sub_pattern s) (pattern_refs s)
                           (queues s) (queue_patterns s) false) ;;;
  upd_tr (fun s => mkState (pubsub s) [] [] [] [] (queues s) [] (running s)) ;;;
  try_except (on_client r_pubsub_close) (fun _ => ret tt) ;;;
  try_except (on_client r_client_close) (fun _ => ret tt).
End ops.

#[export] Instance redis_transport {CB X R} `{!RedisClient X} (dump_json : Message -> string) :
    Transport (heap (state CB X) R) CB := {|
  t_send := send dump_json;
  t_receive := receive;
  t_receive_async := receive_async;
  t_subscribe := subscribe;
  t_unsubscribe := unsubscribe;
  t_close := close;
|}.
(** * The reference counts *)
Section invariant.
Context {CB X R : Type} `{!RedisClient X} (patterns : X -> gset string) {XOk : RedisClientOk X patterns}.
Abbreviation heap := (heap (state CB X) R).
Implicit Types (s : state CB X) (h : heap).

(** Counts that agree with the number [u] of users of each pattern, and with the
    subscriptions of the connection *)
Record balanced (u : string -> Z) (refs : list (string * Z)) (x : X) : Prop := {
  bal_pos : forall p, 0 <= u p;
  bal_refs : forall p, dget refs p = if decide (u p = 0) then None else Some (u p);
  bal_conn : forall p, p ∈ patterns x <-> 0 < u p;
}.

Lemma balanced_ext u u' refs x : (forall p, u p = u' p) -> balanced u refs x -> balanced u' refs x.
Proof.
  intros Heq [Hp Hr Hc]. split; intros p; rewrite <- ?Heq; [apply Hp|apply Hr|apply Hc].
Qed.

Lemma balanced_or u refs x p : balanced u refs x -> dget_or 0 refs p = u p.
Proof. intros HB. unfold dget_or. rewrite (bal_refs _ _ _ HB). by case_decide. Qed.

Definition with_refs refs x h : heap := set_tr (set_refs refs (set_pubsub x (h_tr h))) h.

Lemma psubscribe_spec u p h :
  balanced u (pattern_refs (h_tr h)) (pubsub (h_tr h)) ->
  exists refs x, psubscribe p h = (Ok tt, with_refs refs x h) /\
    balanced (fun q => u q + if decide (q = p) then 1 else 0) refs x.
Proof.
  intros HB. pose proof (balanced_or u _ _ p HB) as Hn. pose proof (bal_pos _ _ _ HB p).
  destruct h as [n [x su st sp refs qs qp ru] r]. cbn in *.
  unfold psubscribe, get_tr, gets, upd_tr, modify, bind, on_client. cbn. rewrite Hn.
  assert (forall x', (forall q, q ∈ patterns x' <-> q = p \/ q ∈ patterns x) ->
    balanced (fun q => u q + (if decide (q = p) then 1 else 0))
      (dset (dset refs p (u p)) p (dget_or 0 (dset refs p (u p)) p + 1)) x') as Hbal.
  { intros x' Hx'. split; intros q.
    - pose proof (bal_pos _ _ _ HB q). case_decide; lia.
    - rewrite !dget_dset, dget_or_dset, (decide_True (P := p = p)) by done. rewrite (bal_refs _ _ _ HB).
      destruct (decide (q = p)) as [->|]; [by rewrite decide_False by lia|].
      cbn. by rewrite Z.add_0_r.
    - rewrite Hx', (bal_conn _ _ _ HB). pose proof (bal_pos _ _ _ HB q).
      destruct (decide (q = p)) as [->|]; [|rewrite Z.add_0_r; naive_solver]. split; [lia|by left]. }
  destruct (decide (u p = 0)) as [H0|H0].
  - destruct (psubscribe_ok p x) as (x' & Hx & Hp'). cbn. rewrite Hx. do 2 eexists. split; [done|].
    apply Hbal. intros q. rewrite Hp'. set_solver.
  - do 2 eexists. split; [done|]. apply Hbal. intros q. split; [by right|]. intros [->|]; [|done].
    apply (bal_conn _ _ _ HB). lia.
Qed.

Lemma punsubscribe_spec u p h :
  balanced u (pattern_refs (h_tr h)) (pubsub (h_tr h)) -> 0 < u p ->
  exists refs x, punsubscribe p h = (Ok tt, with_refs refs x h) /\
    balanced (fun q => u q - if decide (q = p) then 1 else 0) refs x.
Proof.
  intros HB Hpos. pose proof (balanced_or u _ _ p HB) as Hn.
  destruct h as [n [x su st sp refs qs qp ru] r]. cbn in *.
  unfold punsubscribe, get_tr, gets, upd_tr, modify, on_client, try_except, bind. cbn. rewrite Hn.
  rewrite (decide_False (P := u p = 0)) by lia. destruct (decide (u p - 1 = 0)) as [H1|H1].
  - destruct (punsubscribe_ok p x) as (x' & Hx & Hp'). cbn. rewrite Hx. do 2 eexists. split; [done|]. split; intros q; cbn.
    + pose proof (bal_pos _ _ _ HB q). case_decide; simplify_eq; lia.
    + rewrite dget_ddel, (bal_refs _ _ _ HB). destruct (decide (q = p)) as [->|]; [by rewrite decide_True|].
      by rewrite Z.sub_0_r.
    + rewrite Hp', elem_of_difference, (bal_conn _ _ _ HB), not_elem_of_singleton.
      destruct (decide (q = p)) as [->|]; [naive_solver lia|]. rewrite Z.sub_0_r. naive_solver.
  - do 2 eexists. split; [done|]. split; intros q; cbn.
    + pose proof (bal_pos _ _ _ HB q). case_decide; simplify_eq; lia.
    + rewrite dget_dset, (bal_refs _ _ _ HB). destruct (decide (q = p)) as [->|]; [by rewrite decide_False|].
      by rewrite Z.sub_0_r.
    + rewrite (bal_conn _ _ _ HB). destruct (decide (q = p)) as [->|]; [naive_solver lia|]. by rewrite Z.sub_0_r.
Qed.
(** How many subscriptions and receive queues use a Redis pattern *)
Definition users s : list string := dvalues (sub_pattern s) ++ dvalues (queue_patterns s).
Definition uses s (p : string) : Z := Z.of_nat (length (filter (fun q => q = p) (users s))).

Record wf_state (n : nat) s : Prop := {
  rf_ok : dict_ok (subscribers s);
  rf_topics : dkeys (sub_topic s) = dkeys (subscribers s);
  rf_patterns : sub_pattern s = dmap to_redis_pattern (sub_topic s);
  rf_fresh : forall id, id ∈ dkeys (subscribers s) -> exists k, (k < n)%nat /\ id = uuid4 k;
  rf_queue_ok : dict_ok (queue_patterns s);
  rf_queue : forall t p, dget (queue_patterns s) t = Some p -> p = to_redis_pattern t;
  rf_refs : balanced (uses s) (pattern_refs s) (pubsub s);
}.

Definition wf h : Prop := wf_state (h_uuid h) (h_tr h).

(** One user more *)
Lemma uses_cons s s' q p :
  users s' ≡ₚ q :: users s -> uses s' p = uses s p + if decide (p = q) then 1 else 0.
Proof.
  unfold uses. intros ->. rewrite filter_cons. repeat case_decide; cbn; try congruence; lia.
Qed.

Lemma redis_wf_init x : patterns x = ∅ -> wf_state 0 (init (CB := CB) x).
Proof.
  intros Hx. split; cbn; try apply NoDup_nil_2; try done.
  - by intros id ?%not_elem_of_nil.
  - split; cbn; intros p; [done|done|]. rewrite Hx. unfold uses. cbn. set_solver by lia.
Qed.

Lemma redis_wf_subscribe t cb h : wf h -> wf (subscribe t cb h).2.
Proof.
  intros [Hok Ht Hp Hf Hqo Hq HB]. unfold subscribe, get_tr, gets, bind at 1.
  destruct (running (h_tr h)); [|done].
  set (id := uuid4 (h_uuid h)).
  assert (dget (subscribers (h_tr h)) id = None) as Hid.
  { apply dget_None. intros (k & Hk & Heq)%Hf. apply (inj uuid4) in Heq. lia. }
  assert (dget (sub_topic (h_tr h)) id = None) as Hidt by (apply dget_None; rewrite Ht; by apply dget_None).
  set (h1 := mkHeap (S (h_uuid h)) (set_subs (dset (subscribers (h_tr h)) id cb) (dset (sub_topic (h_tr h)) id t)
    (dset (sub_pattern (h_tr h)) id (to_redis_pattern t)) (h_tr h)) (h_rest h)).
  rewrite (bind_run _ _ h id (mkHeap (S (h_uuid h)) (h_tr h) (h_rest h))) by done.
  rewrite (bind_run _ _ _ tt h1) by done.
  destruct (psubscribe_spec (uses (h_tr h)) (to_redis_pattern t) h1) as (refs & x & Hps & HB'); [done|].
  rewrite (bind_run _ _ _ _ _ Hps). split; cbn.
  - by apply dict_ok_dset.
  - rewrite !dset_fresh by done. unfold dkeys in *. by rewrite !fmap_app, Ht.
  - by rewrite Hp, dset_dmap.
  - intros i [->|(k & Hk & ->)%Hf]%elem_dkeys_dset; [exists (h_uuid h)|exists k]; split; (lia || done).
  - done.
  - done.
  - eapply balanced_ext, HB'. intros p. symmetry. apply uses_cons. unfold users. cbn. rewrite dset_fresh; [|rewrite Hp, dget_dmap; by rewrite Hidt].
    unfold dvalues. rewrite fmap_app. cbn. rewrite <- app_assoc. cbn. symmetry. apply Permutation_middle.
Qed.

Lemma redis_wf_unsubscribe id h : wf h -> wf (unsubscribe id h).2.
Proof.
  intros [Hok Ht Hp Hf Hqo Hq HB]. unfold unsubscribe, get_tr, gets, bind at 1.
  destruct (dmem (subscribers (h_tr h)) id) eqn:Hm; [|done]. apply dmem_true in Hm.
  assert (exists t, dget (sub_topic (h_tr h)) id = Some t) as [t Hidt] by (apply dget_is_Some; by rewrite Ht).
  assert (dict_ok (sub_topic (h_tr h))) as Hokt by (unfold dict_ok; by rewrite Ht).
  set (p := to_redis_pattern t).
  assert (dget (sub_pattern (h_tr h)) id = Some p) as Hidp by (rewrite Hp, dget_dmap; by rewrite Hidt).
  rewrite Hidp. set (h1 := set_tr (set_subs (ddel (subscribers (h_tr h)) id) (ddel (sub_topic (h_tr h)) id)
    (ddel (sub_pattern (h_tr h)) id) (h_tr h)) h).
  rewrite (bind_run _ _ h tt h1) by done.
  assert (users (h_tr h) ≡ₚ p :: users (h_tr h1)) as Hperm.
  { unfold users. cbn. assert (dict_ok (sub_pattern (h_tr h))) as Hokp by (unfold dict_ok; by rewrite Hp, dkeys_dmap).
    unfold dvalues. by rewrite (ddel_perm (sub_pattern (h_tr h)) id p Hokp Hidp) at 1. }
  assert (forall q, uses (h_tr h) q = uses (h_tr h1) q + if decide (q = p) then 1 else 0) as Hu.
  { intros q. by apply uses_cons. }
  destruct (punsubscribe_spec (uses (h_tr h)) p h1) as (refs & x & Hps & HB'); [done| |].
  { rewrite Hu, decide_True by done. unfold uses. lia. }
  rewrite (bind_run _ _ _ _ _ Hps). split; cbn.
  - by apply dict_ok_ddel.
  - by rewrite !dkeys_ddel, Ht.
  - by rewrite Hp, ddel_dmap.
  - intros i [_ Hi]%elem_dkeys_ddel. by apply Hf.
  - done.
  - done.
  - eapply balanced_ext, HB'. intros q. cbv beta. rewrite Hu.
    transitivity (uses (h_tr h1) q); [lia|done].
Qed.

Lemma wf_ensure t h :
  wf h -> exists h', ensure_queue_subscription t h = (Ok tt, h') /\ wf h' /\ queues (h_tr h') = queues (h_tr h).
Proof.
  intros Hwf. pose proof Hwf as [Hok Ht Hp Hf Hqo Hq HB]. unfold ensure_queue_subscription, get_tr, gets, bind at 1.
  destruct (dmem (queue_patterns (h_tr h)) t) eqn:Hm; [by exists h|].
  apply dmem_false in Hm. set (p := to_redis_pattern t).
  set (h1 := set_tr (set_queue_patterns (dset (queue_patterns (h_tr h)) t p) (h_tr h)) h).
  rewrite (bind_run _ _ h tt h1) by done.
  destruct (psubscribe_spec (uses (h_tr h)) p h1) as (refs & x & Hps & HB'); [done|].
  rewrite Hps. eexists. split; [done|]. split; [|done]. split; cbn; try done.
  - by apply dict_ok_dset.
  - intros t' p'. rewrite dget_dset. case_decide; [intros [= <-]; by subst|]. apply Hq.
  - eapply balanced_ext, HB'. intros q. symmetry. apply uses_cons. unfold users. cbn. rewrite dset_fresh by done. unfold dvalues. rewrite fmap_app. cbn.
    rewrite app_assoc, Permutation_app_comm. done.
Qed.

Lemma wf_queues n s q : wf_state n s -> wf_state n (set_queues q s).
Proof. by intros []. Qed.

Lemma redis_wf_receive t tm h : wf h -> wf (receive t tm h).2.
Proof.
  intros Hwf. unfold receive, get_tr, gets, bind at 1. destruct (running (h_tr h)); [|done].
  destruct (wf_ensure t h Hwf) as (h1 & He & Hwf1 & _). rewrite (bind_run _ _ _ _ _ He).
  destruct (q_get _ _) as [r q]. by apply wf_queues.
Qed.

Lemma redis_wf_receive_async t tm h : wf h -> wf (receive_async t tm h).2.
Proof.
  intros Hwf. unfold receive_async, get_tr, gets, bind at 1. destruct (running (h_tr h)); [|done].
  destruct (wf_ensure t h Hwf) as (h1 & He & Hwf1 & _). rewrite (bind_run _ _ _ _ _ He).
  destruct (q_get_async _ _) as [r q]. by apply wf_queues.
Qed.

Lemma redis_wf_send dump msg h : wf h -> wf (send dump msg h).2.
Proof.
  intros Hwf. unfold send, get_tr, gets, bind at 1. destruct (running (h_tr h)); [|done]. unfold on_client.
  pose proof (publish_ok (topic msg) (dump msg) (pubsub (h_tr h))) as Hx.
  destruct (r_publish _ _ _) as [r x]. cbn in *. destruct Hwf as [? ? ? ? ? ? [? ? Hc]]. split; cbn; try done.
  split; cbn; [done|done|]. intros p. by rewrite Hx.
Qed.

Lemma keeps_put msg : keeps wf (put msg).
Proof. intros h Hwf. by apply wf_queues. Qed.

Lemma redis_keeps_dispatch call msg : (forall cb, keeps wf (call cb msg)) -> keeps wf (dispatch call msg).
Proof.
  intros Hc. unfold dispatch. apply keeps_bind; [apply keeps_gets|]. intros s.
  apply keeps_bind; [by apply keeps_notify|]. intros _. apply keeps_put.
Qed.

Lemma keeps_listen_once validate call got :
  (forall cb msg, keeps wf (call cb msg)) -> keeps wf (listen_once validate call got).
Proof.
  intros Hc. unfold listen_once. pose proof (fun msg => redis_keeps_dispatch call msg (fun cb => Hc cb msg)).
  destruct got as [[[ty [[p|]|p|]]|]|e]; eauto 8 with py.
Qed.

Lemma redis_wf_close h : wf h -> wf (close h).2.
Proof.
  intros _. unfold close, upd_tr, modify, try_except, on_client, bind. cbn.
  match goal with |- context [r_pubsub_close ?x] => destruct (pubsub_close_ok x) as (x1 & Hx1 & Hp1) end.
  rewrite Hx1. cbn. destruct (client_close_ok x1) as (x2 & Hx2 & Hp2). rewrite Hx2. cbn.
  split; cbn; try apply NoDup_nil_2; try done.
  - by intros id ?%not_elem_of_nil.
  - split; cbn; intros p; [done|done|]. rewrite Hp2, Hp1. unfold uses. cbn. set_solver by lia.
Qed.
Lemma uses_pos s p : 0 < uses s p <-> p ∈ users s.
Proof.
  unfold uses. split.
  - intros Hl. destruct (filter (fun q => q = p) (users s)) as [|q l] eqn:Hf; [cbn in Hl; lia|].
    assert (q ∈ filter (fun q => q = p) (users s)) as Hq by (rewrite Hf; by left).
    apply list_elem_of_filter in Hq as [-> ?]. done.
  - intros Hp. assert (p ∈ filter (fun q => q = p) (users s)) as Hq by by apply list_elem_of_filter.
    destruct (filter _ _); [by apply not_elem_of_nil in Hq|cbn; lia].
Qed.

(** While the connection is up every operation keeps the reference counts
    exact: the connection is subscribed to a Redis pattern exactly as long as some
    live subscription or some topic that has been received from needs it, and the
    three subscription tables agree; the listener's rounds included, whatever
    message they are given, for all callbacks that keep it themselves. *)
Theorem refcounts_exact dump validate call msg t tm cb id got h :
  (forall cb msg, keeps wf (call cb msg)) -> wf h ->
  (forall p, p ∈ patterns (pubsub (h_tr h)) <-> p ∈ users (h_tr h)) /\
  wf (subscribe t cb h).2 /\ wf (unsubscribe id h).2 /\ wf (receive t tm h).2 /\ wf (receive_async t tm h).2 /\
  wf (send dump msg h).2 /\ wf (close h).2 /\ wf (listen_once validate call got h).2.
Proof.
  intros Hc Hwf. split_and!.
  - intros p. rewrite (bal_conn _ _ _ (rf_refs _ _ Hwf)). apply uses_pos.
  - by apply redis_wf_subscribe.
  - by apply redis_wf_unsubscribe.
  - by apply redis_wf_receive.
  - by apply redis_wf_receive_async.
  - by apply redis_wf_send.
  - by apply redis_wf_close.
  - by apply keeps_listen_once.
Qed.

(** ** What a published message does here

    The Redis server sends a connection one copy of a message for every pattern
    the connection is subscribed to that matches the channel ([glob]). *)
Variable glob : string -> string -> bool.
Variable call : CB -> Message -> M heap unit.

Definition copies s (t : string) : nat :=
  length (List.filter (fun p => glob p t) (elements (patterns (pubsub s)))).

Definition deliver (msg : Message) : M heap unit :=
  let! s := get_tr in
  for_each (seq 0 (copies s (topic msg))) (fun _ => dispatch call msg).

(** Callbacks that leave the transport alone *)
Hypothesis hands_off : forall s, quiet pattern_of call (fun h => h_tr h = s).

(** One copy: the callbacks it is for, then the receive queue *)
Definition round (msg : Message) (h : heap) : heap :=
  (put msg (run_all call msg (receivers pattern_of re_matches msg (subscribers (h_tr h)) h) h)).2.

Lemma dispatch_round msg h : dispatch call msg h = (Ok tt, round msg h).
Proof.
  unfold dispatch, get_tr, gets, bind. by rewrite (notify_quiet _ _ _ (fun h' => h_tr h' = h_tr h)).
Qed.

Lemma run_all_tr msg cbs h : h_tr (run_all call msg cbs h) = h_tr h.
Proof.
  revert h. induction cbs as [|cb cbs IH]; intros h; [done|]. cbn. unfold run_all in IH. rewrite IH.
  by apply (quiet_keeps _ _ _ (hands_off (h_tr h))).
Qed.

Lemma round_queue msg h : queue_of (h_tr (round msg h)) (topic msg) = queue_of (h_tr h) (topic msg) ++ [msg].
Proof. unfold round, put, queue_of. cbn. by rewrite run_all_tr, dget_or_dset, decide_True. Qed.
Lemma copies_pos msg h :
  star_glob glob -> Forall glob_plain (dvalues (sub_topic (h_tr h))) -> nlfree (explode (topic msg)) -> wf h ->
  receivers pattern_of re_matches msg (subscribers (h_tr h)) h <> [] -> (0 < copies (h_tr h) (topic msg))%nat.
Proof.
  intros Hg Hpl Hn Hwf Hr. unfold receivers in Hr.
  destruct (List.filter _ (subscribers (h_tr h))) as [|sub l] eqn:Hf; [done|].
  assert (In sub (List.filter (wants pattern_of re_matches h msg) (subscribers (h_tr h)))) as [_ Hw]%List.filter_In
    by (rewrite Hf; by left).
  unfold wants, pattern_of in Hw. destruct (dget (sub_topic (h_tr h)) sub.1) as [p|] eqn:Hp; [|done].
  pose proof (elem_dvalues _ _ _ Hp) as Hin. rewrite Forall_forall in Hpl.
  pose proof (coarse_filter glob (topic msg) p Hg (Hpl _ Hin) Hn Hw) as Hgl.
  assert (to_redis_pattern p ∈ patterns (pubsub (h_tr h))) as Hc.
  { apply (bal_conn _ _ _ (rf_refs _ _ Hwf)), uses_pos. unfold users. rewrite (rf_patterns _ _ Hwf).
    apply elem_of_app. left. apply (elem_dvalues _ sub.1). by rewrite dget_dmap, Hp. }
  unfold copies. apply elem_of_elements in Hc. apply list_elem_of_In in Hc.
  destruct (List.filter (fun p => glob p (topic msg)) _) as [|x l'] eqn:Hf'; [|apply Nat.lt_0_succ].
  exfalso. apply (List.in_nil (a := to_redis_pattern p)).
  rewrite <- Hf'. apply List.filter_In. by split.
Qed.

(** C31 Delivery over Redis: every subscription a message is for gets it (the
    coarser Redis patterns hide none), but once for each distinct pattern of this
    connection that matches: with [n] matching patterns all its callbacks are run,
    in order, [n] times over, and [n] copies are put on the topic's receive
    queue. *)
Theorem redis_delivery msg h :
  star_glob glob -> Forall glob_plain (dvalues (sub_topic (h_tr h))) -> nlfree (explode (topic msg)) -> wf h ->
  let n := copies (h_tr h) (topic msg) in
  let h' := Nat.iter n (round msg) h in
  deliver msg h = (Ok tt, h') /\
  queue_of (h_tr h') (topic msg) = queue_of (h_tr h) (topic msg) ++ replicate n msg /\
  (receivers pattern_of re_matches msg (subscribers (h_tr h)) h <> [] -> (0 < n)%nat).
Proof.
  intros Hg Hpl Hn Hwf n. split_and!.
  - unfold deliver, get_tr, gets, bind at 1. fold n. clearbody n. generalize 0%nat. clear -hands_off. revert h.
    induction n as [|n IH]; intros h k; [done|]. cbn [seq for_each]. rewrite (bind_run _ _ _ _ _ (dispatch_round msg h)).
    rewrite IH. f_equal. symmetry. apply Nat.iter_succ_r.
  - clearbody n. clear -hands_off. revert h. induction n as [|n IH]; intros h; [cbn; by rewrite app_nil_r|].
    change (Nat.iter (S n) (round msg) h) with (round msg (Nat.iter n (round msg) h)).
    rewrite round_queue, IH, <- app_assoc. f_equal. symmetry. apply (replicate_S_end n msg).
  - by apply copies_pos.
Qed.
End invariant.
End RedisTransport.

(** * A connection that is a set of patterns *)
Module RedisToy.
#[global] Instance client : RedisClient (gset string) := {|
  r_psubscribe p := modify (fun x => {[p]} ∪ x);
  r_punsubscribe p := modify (fun x => x ∖ {[p]});
  r_publish _ _ := ret tt;
  r_pubsub_close := modify (fun _ => ∅);
  r_client_close := ret tt;
|}.

#[global] Instance client_ok : RedisClientOk (gset string) id.
Proof. split; intros; by try eexists. Qed.

Definition glob (p t : string) : bool := pmatch end_Z (glob_parts (explode p)) (explode t).
Abbreviation heap := (heap (RedisTransport.state nat (gset string)) (list nat)).

(** Callbacks are numbers, which are recorded. *)
Definition run (cb : nat) (_ : Message) : M heap unit := upd_rest (fun l => l ++ [cb]).

Definition two : heap :=
  ((let! _ := RedisTransport.subscribe "a.*" 1%nat in RedisTransport.subscribe "a.b" 2%nat)
     (mkHeap 0 (RedisTransport.init ∅) [])).2.

Definition msg : Message := mkMessage "m" "a.b" VNone [] 0 None None.

Lemma two_wf : RedisTransport.wf id two.
Proof.
  unfold two. pose proof (RedisTransport.redis_wf_subscribe (CB := nat) (R := list nat) id "a.*" 1%nat
    (mkHeap 0 (RedisTransport.init ∅) []) (RedisTransport.redis_wf_init id ∅ eq_refl)) as H1.
  exact (RedisTransport.redis_wf_subscribe id "a.b" 2%nat _ H1).
Qed.

Lemma redis_run_hands_off s : quiet (RedisTransport.pattern_of (CB := nat)) run (fun h => h_tr h = s).
Proof. split; [by intros cb m h e _|by intros cb m h|by intros cb m h i]. Qed.
End RedisToy.

Lemma refcounts_exact_witness :
  let h := RedisToy.two in
  (forall p, p ∈ RedisTransport.pubsub (h_tr h) <-> p ∈ ["a.*"; "a.b"]) /\
  RedisTransport.wf id (RedisTransport.unsubscribe "uuid-0" h).2.
Proof.
  destruct (RedisTransport.refcounts_exact id (fun _ => "") (fun _ => Raise (Exc "ValidationError" ""))
    RedisToy.run RedisToy.msg "t" None 3%nat "uuid-0" (Ok None) RedisToy.two) as (Hp & _ & Hu & _).
  - intros cb m h Hwf. exact Hwf.
  - exact RedisToy.two_wf.
  - split; [exact Hp|exact Hu].
Defined.

(** Subscriptions to [a.*] and to [a.b]: each callback runs twice. *)
Lemma redis_delivery_witness :
  exists h', RedisTransport.deliver id RedisToy.glob RedisToy.run RedisToy.msg RedisToy.two = (Ok tt, h') /\
    h_rest h' = [1%nat; 2%nat; 1%nat; 2%nat].
Proof.
  destruct (RedisTransport.redis_delivery id RedisToy.glob RedisToy.run RedisToy.redis_run_hands_off
    RedisToy.msg RedisToy.two) as (Hd & _ & _).
  - intros p t _. reflexivity.
  - vm_compute. repeat constructor; set_solver.
  - unfold nlfree. vm_compute. set_solver.
  - exact RedisToy.two_wf.
  - eexists. split; [exact Hd|]. vm_compute. reflexivity.
Defined.
