(* ===== verification/Nats.v ===== *)
(** * [eventforge/transports/nats.py]: [NatsTransport]

    The client of nats-py is third-party: [NatsClient] gives its calls as
    statements over a state [X] of their own, and [NatsClientOk] what its
    documentation says of them while the connection is up, in terms of the
    subscriptions that are active on it.  The asyncio loop that carries them is
    not modelled: [_run(coro)] is the coroutine.  A callback is submitted to the
    transport's pool, a list of jobs from which its threads take one at a time.
    JSON is [dump_json] and [validate_json]. *)
From S2P Require Import Prelude PyDict Types Topics Transport.

Class NatsClient (X : Type) : Type := {
  n_subscribe : string -> M X nat;              (** the subscription's number *)
  n_unsubscribe : nat -> M X unit;
  n_publish : string -> string -> M X unit;     (** [publish] and [flush] *)
  n_drain : M X unit;
  n_close : M X unit;
}.

Class NatsClientOk (X : Type) `{NatsClient X} (active : X -> list (nat * string)) : Prop := {
  n_subscribe_ok : forall s x, exists sid x',
    n_subscribe s x = (Ok sid, x') /\ active x' = active x ++ [(sid, s)] /\ sid ∉ dkeys (active x);
  n_unsubscribe_ok : forall sid x, exists x', n_unsubscribe sid x = (Ok tt, x') /\ active x' = ddel (active x) sid;
  n_publish_ok : forall s d x, active (n_publish s d x).2 = active x;
  n_drain_ok : forall x, exists x', n_drain x = (Ok tt, x') /\ active x' = [];
}.

(** ** Subjects

    What the NATS documentation says of wildcards: a star stands for one token, a
    final [>] for one or more. *)
Definition gt : chars := [">"%char].

Fixpoint subject_match (ps ts : list chars) : bool :=
  match ps, ts with
  | [], [] => true
  | p :: ps', t :: ts' =>
      if decide (p = gt /\ ps' = []) then true
      else (bool_decide (p = star) || bool_decide (p = t)) && subject_match ps' ts'
  | _, _ => false
  end.

Definition nats_match (subject topic : string) : bool :=
  subject_match (split_dot (explode subject)) (split_dot (explode topic)).

(** A pattern that can be said as a subject: [**] is the last token only, and no
    other token holds a star but [*] itself. *)
Definition subject_ok (p : string) : Prop :=
  let toks := split_dot (explode p) in
  Forall tok_ok toks /\ Forall (fun tok => tok <> dstar) (removelast toks).

#[global] Instance subject_ok_dec p : Decision (subject_ok p).
Proof. unfold subject_ok. apply _. Defined.

Definition subject_tok (tok : chars) : chars := if decide (tok = dstar) then gt else tok.

Lemma subject_toks p : split_dot (explode (to_nats_subject p)) = map subject_tok (split_dot (explode p)).
Proof.
  unfold to_nats_subject. unfold explode at 1. rewrite String.list_ascii_of_string_of_list_ascii.
  apply split_join; [intros Hn%map_eq_nil; by apply split_dot_nonnil in Hn|].
  pose proof (split_dotfree (explode p)) as Hd. apply Forall_fmap. refine (Forall_impl _ _ _ Hd _).
  intros tok Htok. unfold compose, subject_tok, dotfree in *. case_decide; [|done]. set_solver.
Qed.

Lemma seg_subject toks : Forall (fun tok => tok <> dstar) (removelast toks) -> forall ts,
  seg_match (map seg_of toks) ts = true -> subject_match (map subject_tok toks) ts = true.
Proof.
  induction toks as [|tok toks IH]; intros Hd ts Hm; [by destruct ts|].
  assert (Forall (fun tok => tok <> dstar) (removelast toks)) as Hd'.
  { destruct toks as [|t' toks]; [constructor|]. by apply Forall_cons in Hd as [_ ?]. }
  cbn [map] in *. unfold seg_of at 1 in Hm. unfold subject_tok at 1. cbn [subject_match].
  destruct (decide (tok = star)) as [->|Hs]; [|destruct (decide (tok = dstar)) as [->|Hds]].
  - rewrite (decide_False (P := star = dstar)) by done. destruct ts as [|t ts]; [done|].
    rewrite decide_False by naive_solver. by apply IH.
  - destruct toks as [|t' toks]; [|by apply Forall_cons in Hd as [? _]].
    destruct ts as [|t ts]; [done|]. by rewrite decide_True.
  - destruct ts as [|t ts]; [done|]. cbn in Hm. apply andb_true_iff in Hm as [->%bool_decide_eq_true Hm].
    case_decide; [done|]. rewrite (bool_decide_eq_true_2 (tok = tok)), orb_true_r by done. by apply IH.
Qed.

(** [_matches]: the same statements as in transports/redis.py *)
Definition nats_matches (topic pattern : string) : bool := re_matches topic pattern.

(** The subject hides no topic that the pattern matches. *)
Lemma subject_filter t p :
  subject_ok p -> nlfree (explode t) -> nats_matches t p = true -> nats_match (to_nats_subject p) t = true.
Proof.
  intros [Hok Hd] Hn Hm. unfold nats_match. rewrite subject_toks. apply seg_subject; [done|].
  by rewrite <- (re_matches_segs t p).
Qed.

Module NatsTransport.

Record state (CB X : Type) : Type := mkState {
  nc : X;
  connected : bool;                             (** [self._nc] is not [None] *)
  subscribers : list (string * CB);
  sub_topic : list (string * string);
  nats_subs : list (string * nat);
  queues : list (string * list Message);
  queue_subs : list (string * nat);
  jobs : list (CB * Message);
  pool_open : bool;
  running : bool;
}.
Arguments mkState {CB X} _ _ _ _ _ _ _ _ _ _.
Arguments nc {CB X} _.
Arguments connected {CB X} _.
Arguments subscribers {CB X} _.
Arguments sub_topic {CB X} _.
Arguments nats_subs {CB X} _.
Arguments queues {CB X} _.
Arguments queue_subs {CB X} _.
Arguments jobs {CB X} _.
Arguments pool_open {CB X} _.
Arguments running {CB X} _.

Section ops.
Context {CB X R : Type} `{!NatsClient X}.
Abbreviation state := (state CB X).
Abbreviation heap := (heap state R).
Variable dump_json : Message -> string.
Variable validate_json : string -> result Message.
Variable call : CB -> Message -> M heap unit.

(** *** [__init__]

    The loop thread and the pool are started first; [_run] then waits for the
    connection.  [connecting] is what [connect] comes to, [None] when it does not
    come to anything in time. *)
Definition timed_out : exn := Exc "TimeoutError" "".

(** [_run(coro, timeout)] *)
Definition run_coro {A} (outcome : option (result A)) : result A :=
  match outcome with Some r => r | None => Raise timed_out end.

(** The keyword arguments of [connect]: those given to the constructor go last. *)
Definition connect_kwargs (connect_timeout : val) (kwargs : list (string * val)) : list (string * val) :=
  dmerge [("connect_timeout", connect_timeout); ("allow_reconnect", VBool false); ("max_reconnect_attempts", VInt 0)] kwargs.

(** What the constructor started *)
Record threads : Type := mkThreads { loop_runs : bool; pool_runs : bool }.

Definition no_extra : exn := Exc "RuntimeError" "NatsTransport requires the 'nats' extra: pip install eventforge[nats]".

Definition construct (installed : bool) (connecting : option (result X)) : result state * threads :=
  if installed then
    match run_coro connecting with
    | Ok x => (Ok (mkState x true [] [] [] [] [] [] true true), mkThreads true true)
    | Raise e => (Raise e, mkThreads false false)
    end
  else (Raise no_extra, mkThreads false false).

(** A transport exists only with a connection, and without one no thread is left. *)
Lemma construct_clean installed connecting :
  match construct installed connecting with
  | (Ok s, t) => installed = true /\ connecting = Some (Ok (nc s)) /\ t = mkThreads true true
  | (Raise _, t) => t = mkThreads false false
  end.
Proof. unfold construct, run_coro. by destruct installed, connecting as [[x|e]|]. Qed.

Definition init (connecting : result X) : result state := (construct true (Some connecting)).1.

Definition set_nc (x : X) (s : state) : state :=
  mkState x (connected s) (subscribers s) (sub_topic s) (nats_subs s) (queues s) (queue_subs s) (jobs s) (pool_open s) (running s).
Definition set_subs su st ns (s : state) : state :=
  mkState (nc s) (connected s) su st ns (queues s) (queue_subs s) (jobs s) (pool_open s) (running s).
Definition set_queues q (s : state) : state :=
  mkState (nc s) (connected s) (subscribers s) (sub_topic s) (nats_subs s) q (queue_subs s) (jobs s) (pool_open s) (running s).
Definition set_queue_subs q (s : state) : state :=
  mkState (nc s) (connected s) (subscribers s) (sub_topic s) (nats_subs s) (queues s) q (jobs s) (pool_open s) (running s).
Definition set_jobs j (s : state) : state :=
  mkState (nc s) (connected s) (subscribers s) (sub_topic s) (nats_subs s) (queues s) (queue_subs s) j (pool_open s) (running s).

Definition on_client {A} (m : M X A) : M heap A := fun h =>
  let '(r, x) := m (nc (h_tr h)) in (r, set_tr (set_nc x (h_tr h)) h).

Definition closed_error : exn := Exc "RuntimeError" "Transport is closed".
Definition pool_shut : exn := Exc "RuntimeError" "cannot schedule new futures after shutdown".

(** [self._callback_pool.submit(self._safe_call, callback, msg)] *)
Definition submit (cb : CB) (msg : Message) : M heap unit :=
  let! s := get_tr in
  if pool_open s then upd_tr (set_jobs (jobs s ++ [(cb, msg)])) else throw pool_shut.

Definition safe_call (cb : CB) (msg : Message) : M heap unit := try_except (call cb msg) (fun _ => ret tt).

(** A thread of the pool takes a job. *)
Definition run_job (i : nat) : M heap unit :=
  let! s := get_tr in
  match jobs s !! i with
  | Some (cb, msg) => upd_tr (set_jobs (delete i (jobs s))) ;;; safe_call cb msg
  | None => ret tt
  end.

Definition pattern_of (id : string) (h : heap) : option string := dget (sub_topic (h_tr h)) id.
Definition queue_of (s : state) (t : string) : list Message := dget_or [] (queues s) t.

Definition put (msg : Message) : M heap unit :=
  upd_tr (fun s => set_queues (dset (queues s) (topic msg) (queue_of s (topic msg) ++ [msg])) s).

Definition dispatch (msg : Message) : M heap unit :=
  let! s := get_tr in
  for_each (subscribers s) (fun sub =>
    let! p := gets (pattern_of sub.1) in
    match p with
    | Some p => if nats_matches (topic msg) p then submit sub.2 msg else ret tt
    | None => ret tt
    end) ;;;
  put msg.

(** [_cb], with the data decoded or the error of decoding it *)
Definition cb (data : result string) : M heap unit :=
  match data with
  | Raise e => if is_Exception e then ret tt else throw e
  | Ok d =>
      match validate_json d with
      | Raise e => if is_Exception e then ret tt else throw e
      | Ok msg => dispatch msg
      end
  end.

Definition send (msg : Message) : M heap unit :=
  let! s := get_tr in
  if running s && connected s then on_client (n_publish (to_nats_subject (topic msg)) (dump_json msg))
  else throw closed_error.

Definition ensure_queue_subscription (t : string) : M heap unit :=
  let! s := get_tr in
  if dmem (queue_subs s) t then ret tt
  else
    let! sid := on_client (n_subscribe (to_nats_subject t)) in
    upd_tr (fun s => set_queue_subs (dset (queue_subs s) t sid) s).

Definition receive (t : string) (timeout : option Z) : M heap (wait (option Message)) :=
  let! s := get_tr in
  if running s then
    ensure_queue_subscription t ;;;
    fun h =>
      let '(r, q) := q_get (queue_of (h_tr h) t) timeout in
      (r, set_tr (set_queues (dset (queues (h_tr h)) t q) (h_tr h)) h)
  else ret (Done None).

Definition receive_async (t : string) (timeout : option Z) : M heap (wait (option Message)) :=
  let! s := get_tr in
  if running s then
    ensure_queue_subscription t ;;;
    fun h =>
      let '(r, q) := q_get_async (queue_of (h_tr h) t) timeout in
      (r, set_tr (set_queues (dset (queues (h_tr h)) t q) (h_tr h)) h)
  else ret (Done None).

Definition subscribe (t : string) (callback : CB) : M heap string :=
  let! s := get_tr in
  if running s && connected s then
    let! sub_id := new_uuid in
    let! nats_sub := on_client (n_subscribe (to_nats_subject t)) in
    upd_tr (fun s => set_subs (dset (subscribers s) sub_id callback) (dset (sub_topic s) sub_id t)
                              (dset (nats_subs s) sub_id nats_sub) s) ;;;
    ret sub_id
  else throw closed_error.

Definition unsubscribe (id : string) : M heap bool :=
  let! s := get_tr in
  if dmem (subscribers s) id then
    upd_tr (set_subs (ddel (subscribers s) id) (ddel (sub_topic s) id) (ddel (nats_subs s) id)) ;;;
    match dget (nats_subs s) id with
    | Some nats_sub => try_except (on_client (n_unsubscribe nats_sub)) (fun _ => ret tt)
    | None => ret tt
    end ;;;
    ret true
  else ret false.

Definition close : M heap unit :=
  let! s := get_tr in
  if running s then
    upd_tr (fun s => mkState (nc s) (connected s) (subscribers s) (sub_topic s) (nats_subs s) (queues s)
                             (queue_subs s) (jobs s) (pool_open s) false) ;;;
    (if connected s then
       try_except (try_except (on_client n_drain) (fun _ => try_except (on_client n_close) (fun _ => ret tt)))
                  (fun _ => ret tt)
     else ret tt) ;;;
    upd_tr (fun s => mkState (nc s) false [] [] [] (queues s) [] (jobs s) false (running s))
  else ret tt.
End ops.

#[export] Instance nats_transport {CB X R} `{!NatsClient X} (dump_json : Message -> string) :
    Transport (heap (state CB X) R) CB := {|
  t_send := send dump_json;
  t_receive := receive;
  t_receive_async := receive_async;
  t_subscribe := subscribe;
  t_unsubscribe := unsubscribe;
  t_close := close;
|}.

(** * The tables and the connection *)
Section invariant.
Context {CB X R : Type} `{!NatsClient X} (active : X -> list (nat * string)) {XOk : NatsClientOk X active}.
Abbreviation heap := (heap (state CB X) R).
Implicit Types (s : state CB X) (h : heap).

(** What the transport is subscribed to: a NATS subscription for each
    subscription of its own and for each topic that was received from *)
Definition sub_entry (st : list (string * string)) (e : string * nat) : nat * string :=
  (e.2, to_nats_subject (dget_or "" st e.1)).
Definition queue_entry (e : string * nat) : nat * string := (e.2, to_nats_subject e.1).
Definition wanted s : list (nat * string) :=
  map (sub_entry (sub_topic s)) (nats_subs s) ++ map queue_entry (queue_subs s).

Record wf_state (n : nat) s : Prop := {
  na_ok : dict_ok (subscribers s);
  na_topics : dkeys (sub_topic s) = dkeys (subscribers s);
  na_sids : dkeys (nats_subs s) = dkeys (subscribers s);
  na_fresh : forall id, id ∈ dkeys (subscribers s) -> exists k, (k < n)%nat /\ id = uuid4 k;
  na_queue_ok : dict_ok (queue_subs s);
  na_conn : connected s = running s;
  na_active_ok : dict_ok (active (nc s));
  na_active : active (nc s) ≡ₚ wanted s;
}.

Definition wf h : Prop := wf_state (h_uuid h) (h_tr h).

Lemma nats_wf_init x s : init (CB := CB) (Ok x) = Ok s -> active x = [] -> wf_state 0 s.
Proof.
  intros [= <-] Hx. split; cbn; rewrite ?Hx; try apply NoDup_nil_2; try done. by intros id ?%not_elem_of_nil.
Qed.

(** An entry of the subscription tables depends on its own id only. *)
Lemma sub_entries_ext st st' (l : list (string * nat)) :
  (forall e, e ∈ l -> dget st' e.1 = dget st e.1) -> map (sub_entry st') l = map (sub_entry st) l.
Proof.
  intros Heq. apply map_ext_in. intros e He%list_elem_of_In. unfold sub_entry, dget_or. by rewrite (Heq e He).
Qed.

Lemma active_snoc (l : list (nat * string)) sid (subj : string) : dict_ok l -> sid ∉ dkeys l -> dict_ok (l ++ [(sid, subj)]).
Proof.
  intros Hl Hs. unfold dict_ok, dkeys in *. rewrite fmap_app. apply NoDup_app. split_and!; [done| |apply NoDup_singleton].
  by intros k Hk ->%list_elem_of_singleton.
Qed.

Lemma nats_wf_subscribe t cb h : wf h -> wf (subscribe t cb h).2.
Proof.
  intros [Hok Ht Hs Hf Hq Hc Hao Ha]. unfold subscribe, get_tr, gets, bind at 1.
  destruct (running (h_tr h) && connected (h_tr h)); [|done].
  set (id := uuid4 (h_uuid h)).
  assert (id ∉ dkeys (subscribers (h_tr h))) as Hid.
  { intros (k & Hk & Heq)%Hf. apply (inj uuid4) in Heq. lia. }
  assert (dget (subscribers (h_tr h)) id = None /\ dget (sub_topic (h_tr h)) id = None /\
    dget (nats_subs (h_tr h)) id = None) as (Hid1 & Hid2 & Hid3) by (rewrite !dget_None, Ht, Hs; by split_and!).
  rewrite (bind_run _ _ h id (mkHeap (S (h_uuid h)) (h_tr h) (h_rest h))) by done.
  destruct (n_subscribe_ok (to_nats_subject t) (nc (h_tr h))) as (sid & x' & Hx & Hact & Hsid).
  unfold on_client, bind at 1. cbn [h_tr]. rewrite Hx. unfold upd_tr, modify, bind. split; cbn.
  - by apply dict_ok_dset.
  - rewrite !dset_fresh by done. unfold dkeys in *. by rewrite !fmap_app, Ht.
  - rewrite !dset_fresh by done. unfold dkeys in *. by rewrite !fmap_app, Hs.
  - intros i [->|(k & ? & ->)%Hf]%elem_dkeys_dset; [exists (h_uuid h)|exists k]; split; lia || done.
  - done.
  - done.
  - rewrite Hact. by apply active_snoc.
  - rewrite Hact, Ha. unfold wanted. cbn. rewrite (dset_fresh (nats_subs _)) by done.
    rewrite map_app. rewrite (sub_entries_ext (sub_topic (h_tr h)) (dset (sub_topic (h_tr h)) id t)).
    + change (map (sub_entry (dset (sub_topic (h_tr h)) id t)) [(id, sid)])
        with [(sid, to_nats_subject (dget_or "" (dset (sub_topic (h_tr h)) id t) id))]. rewrite dget_or_dset, decide_True by done.
      rewrite <- !app_assoc. apply Permutation_app_head, Permutation_app_comm.
    + intros e He. apply dget_dset_ne. intros Heq. apply Hid. rewrite <- Hs, <- Heq. apply list_elem_of_fmap. by exists e.
Qed.

Lemma nats_wf_unsubscribe id h : wf h -> wf (unsubscribe id h).2.
Proof.
  intros Hwf. pose proof Hwf as [Hok Ht Hs Hf Hq Hc Hao Ha]. unfold unsubscribe, get_tr, gets, bind at 1.
  destruct (dmem (subscribers (h_tr h)) id) eqn:Hm; [|done]. apply dmem_true in Hm.
  destruct (dget (nats_subs (h_tr h)) id) as [sid|] eqn:Hsid; [|apply dget_None in Hsid; congruence].
  set (h1 := set_tr (set_subs (ddel (subscribers (h_tr h)) id) (ddel (sub_topic (h_tr h)) id)
    (ddel (nats_subs (h_tr h)) id) (h_tr h)) h).
  rewrite (bind_run _ _ h tt h1) by done.
  destruct (n_unsubscribe_ok sid (nc (h_tr h1))) as (x' & Hx & Hact).
  unfold try_except, on_client, bind at 1. rewrite Hx. cbn.
  assert (dict_ok (nats_subs (h_tr h))) as Hno by (unfold dict_ok; by rewrite Hs).
  assert (wanted (h_tr h) ≡ₚ sub_entry (sub_topic (h_tr h)) (id, sid) :: wanted (h_tr h1)) as Hw.
  { unfold wanted. cbn. rewrite (ddel_perm _ _ _ Hno Hsid) at 1. cbn. apply perm_skip.
    rewrite (sub_entries_ext (sub_topic (h_tr h)) (ddel (sub_topic (h_tr h)) id)); [done|]. intros e He. apply dget_ddel_ne.
    destruct e as [i v]. by apply elem_ddel in He as [? _]. }
  split; cbn; try done.
  - by apply dict_ok_ddel.
  - by rewrite !dkeys_ddel, Ht.
  - by rewrite !dkeys_ddel, Hs.
  - intros i [_ Hi]%elem_dkeys_ddel. by apply Hf.
  - rewrite Hact. by apply dict_ok_ddel.
  - rewrite Hact. apply (Permutation_cons_inv (a := sub_entry (sub_topic (h_tr h)) (id, sid))).
    transitivity (wanted (h_tr h)); [|exact Hw]. transitivity (active (nc (h_tr h))); [symmetry|exact Ha].
    apply (ddel_perm (active (nc (h_tr h))) sid); [done|]. apply elem_dget; [done|]. rewrite Ha, Hw. by left.
Qed.

Lemma nats_wf_ensure t h : wf h ->
  exists h', ensure_queue_subscription t h = (Ok tt, h') /\ wf h' /\ queues (h_tr h') = queues (h_tr h).
Proof.
  intros Hwf. pose proof Hwf as [Hok Ht Hs Hf Hq Hc Hao Ha]. unfold ensure_queue_subscription, get_tr, gets, bind at 1.
  destruct (dmem (queue_subs (h_tr h)) t) eqn:Hm; [by exists h|]. apply dmem_false in Hm.
  destruct (n_subscribe_ok (to_nats_subject t) (nc (h_tr h))) as (sid & x' & Hx & Hact & Hsid).
  unfold on_client, bind. rewrite Hx. eexists. split; [done|]. split; [|done]. split; cbn; try done.
  - by apply dict_ok_dset.
  - rewrite Hact. by apply active_snoc.
  - rewrite Hact, Ha. unfold wanted. cbn. rewrite (dset_fresh _ _ _ Hm), map_app. cbn. by rewrite <- app_assoc.
Qed.

Lemma nats_wf_queues n s q : wf_state n s -> wf_state n (set_queues q s).
Proof. by intros []. Qed.

Lemma nats_wf_jobs n s j : wf_state n s -> wf_state n (set_jobs j s).
Proof. by intros []. Qed.

Lemma nats_wf_receive t tm h : wf h -> wf (receive t tm h).2.
Proof.
  intros Hwf. unfold receive, get_tr, gets, bind at 1. destruct (running (h_tr h)); [|done].
  destruct (nats_wf_ensure t h Hwf) as (h1 & He & Hwf1 & _). rewrite (bind_run _ _ _ _ _ He).
  destruct (q_get _ _) as [r q]. by apply nats_wf_queues.
Qed.

Lemma nats_wf_receive_async t tm h : wf h -> wf (receive_async t tm h).2.
Proof.
  intros Hwf. unfold receive_async, get_tr, gets, bind at 1. destruct (running (h_tr h)); [|done].
  destruct (nats_wf_ensure t h Hwf) as (h1 & He & Hwf1 & _). rewrite (bind_run _ _ _ _ _ He).
  destruct (q_get_async _ _) as [r q]. by apply nats_wf_queues.
Qed.

Lemma nats_wf_send dump msg h : wf h -> wf (send dump msg h).2.
Proof.
  intros Hwf. unfold send, get_tr, gets, bind at 1. destruct (running _ && connected _); [|done]. unfold on_client.
  pose proof (n_publish_ok (to_nats_subject (topic msg)) (dump msg) (nc (h_tr h))) as Hx.
  destruct (n_publish _ _ _) as [r x]. cbn in *. destruct Hwf. by split; cbn; rewrite ?Hx.
Qed.

Lemma nats_keeps_submit cb msg : keeps wf (submit cb msg).
Proof.
  intros h Hwf. unfold submit, get_tr, gets, bind. destruct (pool_open (h_tr h)); [|done]. by apply nats_wf_jobs.
Qed.

Lemma nats_keeps_dispatch msg : keeps wf (dispatch (CB := CB) (R := R) msg).
Proof.
  unfold dispatch, get_tr. pose proof nats_keeps_submit.
  apply keeps_bind; [apply keeps_gets|]. intros s. apply keeps_bind; [eauto 8 with py|].
  intros _ h Hwf. by apply nats_wf_queues.
Qed.

Lemma nats_keeps_cb validate data : keeps wf (cb (CB := CB) (R := R) validate data).
Proof. unfold cb. pose proof nats_keeps_dispatch. destruct data; eauto 8 with py. Qed.

Lemma nats_wf_run_job call i h : (forall cb msg, keeps wf (call cb msg)) -> wf h -> wf (run_job call i h).2.
Proof.
  intros Hc Hwf. unfold run_job, get_tr, gets, bind at 1. destruct (jobs (h_tr h) !! i) as [[c m]|]; [|done].
  rewrite (bind_run _ _ _ tt (set_tr (set_jobs (delete i (jobs (h_tr h))) (h_tr h)) h)) by done.
  assert (keeps wf (safe_call call c m)) as Hs by (apply keeps_try_except; [apply Hc|intros _; apply keeps_ret]).
  apply Hs. by apply nats_wf_jobs.
Qed.

Lemma nats_wf_close h : wf h -> wf (close h).2.
Proof.
  intros Hwf. pose proof Hwf as [? ? ? ? ? Hc ? ?]. unfold close, get_tr, gets, bind at 1.
  destruct (running (h_tr h)) eqn:Hr; [|done]. rewrite Hc.
  destruct (n_drain_ok (nc (h_tr h))) as (x & Hx & Hact).
  unfold upd_tr, modify, try_except, on_client, bind. cbn. rewrite Hx. cbn.
  split; cbn; rewrite ?Hact; try apply NoDup_nil_2; try done. by intros id ?%not_elem_of_nil.
Qed.

(** While the connection is up every operation keeps the NATS subscriptions
    exact: those active on the connection are one for each subscription of the
    transport, to its subject, and one for each topic that was received from; the
    three subscription tables agree.  The client's callback and the jobs of the
    pool included, whatever they are given, for all callbacks that keep it. *)
Theorem subscriptions_exact dump validate call msg t tm c id data i h :
  (forall cb msg, keeps wf (call cb msg)) -> wf h ->
  active (nc (h_tr h)) ≡ₚ wanted (h_tr h) /\
  wf (subscribe t c h).2 /\ wf (unsubscribe id h).2 /\ wf (receive t tm h).2 /\ wf (receive_async t tm h).2 /\ wf (send dump msg h).2 /\
  wf (close h).2 /\ wf (cb validate data h).2 /\ wf (run_job call i h).2.
Proof.
  intros Hc Hwf. split_and!.
  - apply (na_active _ _ Hwf).
  - by apply nats_wf_subscribe.
  - by apply nats_wf_unsubscribe.
  - by apply nats_wf_receive.
  - by apply nats_wf_receive_async.
  - by apply nats_wf_send.
  - by apply nats_wf_close.
  - by apply nats_keeps_cb.
  - by apply nats_wf_run_job.
Qed.

(** ** What a published message does here

    The server sends a connection one copy of a message for each of its
    subscriptions that the subject matches; each copy runs [_cb]. *)
Variable validate : string -> result Message.

Definition hit (t : string) (e : nat * string) : bool := nats_match e.2 t.
Definition copies s (t : string) : nat := length (List.filter (hit t) (active (nc s))).

Definition deliver (t : string) (d : string) : M heap unit :=
  let! s := get_tr in
  for_each (seq 0 (copies s t)) (fun _ => cb validate (Ok d)).

(** The jobs of one copy *)
Definition jobs_for (msg : Message) h : list (CB * Message) :=
  map (fun cb => (cb, msg)) (receivers pattern_of nats_matches msg (subscribers (h_tr h)) h).

Lemma submit_all msg l h : pool_open (h_tr h) = true ->
  for_each l (fun sub => let! p := gets (pattern_of sub.1) in
    match p with Some p => if nats_matches (topic msg) p then submit sub.2 msg else ret tt | None => ret tt end) h =
  (Ok tt, set_tr (set_jobs (jobs (h_tr h) ++ map (fun cb => (cb, msg)) (receivers pattern_of nats_matches msg l h)) (h_tr h)) h).
Proof.
  revert h. induction l as [|sub l IH]; intros h Hp.
  - cbn. rewrite app_nil_r. destruct h as [n [] r]. done.
  - cbn [for_each]. unfold receivers in *. cbn [List.filter]. unfold bind at 1 2, gets at 1. unfold wants at 1.
    destruct (pattern_of sub.1 h) as [p|] eqn:Hpat; [|by apply IH]. destruct (nats_matches (topic msg) p); [|by apply IH].
    unfold submit, get_tr, gets, bind at 1. rewrite Hp. unfold upd_tr, modify. rewrite IH by done.
    f_equal. destruct h as [n s r]. unfold set_tr. cbn. f_equal. unfold set_jobs. cbn. by rewrite <- app_assoc.
Qed.

Lemma dispatch_spec msg h : pool_open (h_tr h) = true ->
  exists h', dispatch msg h = (Ok tt, h') /\ jobs (h_tr h') = jobs (h_tr h) ++ jobs_for msg h /\
    queue_of (h_tr h') (topic msg) = queue_of (h_tr h) (topic msg) ++ [msg] /\
    pool_open (h_tr h') = true /\ jobs_for msg h' = jobs_for msg h.
Proof.
  intros Hp. unfold dispatch, get_tr, gets, bind at 1. rewrite (bind_run _ _ _ _ _ (submit_all msg _ h Hp)).
  eexists. split; [done|]. unfold queue_of, jobs_for. cbn. split; [done|].
  split; [|done]. rewrite dget_or_dset. by rewrite decide_True.
Qed.

Lemma deliver_copies msg d n h k :
  validate d = Ok msg -> pool_open (h_tr h) = true ->
  exists h', for_each (seq k n) (fun _ => cb validate (Ok d)) h = (Ok tt, h') /\
    jobs (h_tr h') = jobs (h_tr h) ++ concat (replicate n (jobs_for msg h)) /\
    queue_of (h_tr h') (topic msg) = queue_of (h_tr h) (topic msg) ++ replicate n msg.
Proof.
  intros Hv. revert h k. induction n as [|n IH]; intros h k Hp.
  - exists h. by rewrite !app_nil_r.
  - destruct (dispatch_spec msg h Hp) as (h1 & H1 & Hj1 & Hq1 & Hp1 & Hf1).
    destruct (IH h1 (S k) Hp1) as (h2 & H2 & Hj2 & Hq2). exists h2. cbn [seq for_each].
    unfold cb at 1. rewrite Hv. rewrite (bind_run _ _ _ _ _ H1). split; [done|].
    rewrite Hj2, Hq2, Hj1, Hq1, Hf1, <- !app_assoc. done.
Qed.

Lemma filter_length_le {A} (p q : A -> bool) (l : list A) :
  (forall x, x ∈ l -> p x = true -> q x = true) -> (length (List.filter p l) <= length (List.filter q l))%nat.
Proof.
  induction l as [|x l IH]; intros Hpq; [done|]. cbn.
  assert (length (List.filter p l) <= length (List.filter q l))%nat as Hl by (apply IH; intros y Hy; apply Hpq; by right).
  specialize (Hpq x ltac:(by left)). destruct (p x), (q x); cbn; try lia; by specialize (Hpq eq_refl).
Qed.

(** A subscription that takes the message has its own NATS subscription that
    brings it. *)
Lemma receivers_le_copies msg h :
  Forall subject_ok (dvalues (sub_topic (h_tr h))) -> nlfree (explode (topic msg)) -> wf h ->
  (length (receivers pattern_of nats_matches msg (subscribers (h_tr h)) h) <= copies (h_tr h) (topic msg))%nat.
Proof.
  intros Hpl Hn Hwf. unfold copies.
  assert (length (List.filter (hit (topic msg)) (active (nc (h_tr h)))) =
    length (List.filter (hit (topic msg)) (wanted (h_tr h)))) as ->.
  { generalize (na_active _ _ Hwf). generalize (wanted (h_tr h)), (active (nc (h_tr h))). clear.
    intros l1 l2 Hp. induction Hp as [|x l l' Hp IH|x y l|l1 l2 l3 Hp1 IH1 Hp2 IH2]; [done| | |congruence]; cbn.
    - destruct (hit _ x); cbn; congruence.
    - destruct (hit _ x), (hit _ y); done. }
  unfold wanted. rewrite List.filter_app, length_app.
  enough (length (receivers pattern_of nats_matches msg (subscribers (h_tr h)) h) <=
    length (List.filter (hit (topic msg)) (map (sub_entry (sub_topic (h_tr h))) (nats_subs (h_tr h)))))%nat by lia.
  set (P := fun id => match dget (sub_topic (h_tr h)) id with Some p => nats_matches (topic msg) p | None => false end).
  set (Q := fun id => nats_match (to_nats_subject (dget_or "" (sub_topic (h_tr h)) id)) (topic msg)).
  assert (length (receivers pattern_of nats_matches msg (subscribers (h_tr h)) h) =
    length (List.filter P (dkeys (subscribers (h_tr h))))) as ->.
  { unfold receivers, dkeys. rewrite length_fmap.
    change ((subscribers (h_tr h)).*1) with (map fst (subscribers (h_tr h))).
    rewrite (filter_map P (wants pattern_of nats_matches h msg) fst); [by rewrite length_map|done]. }
  assert (length (List.filter (hit (topic msg)) (map (sub_entry (sub_topic (h_tr h))) (nats_subs (h_tr h)))) =
    length (List.filter Q (dkeys (nats_subs (h_tr h))))) as ->.
  { unfold dkeys. change ((nats_subs (h_tr h)).*1) with (map fst (nats_subs (h_tr h))).
    rewrite (filter_map (hit (topic msg)) (fun e => Q e.1) (sub_entry (sub_topic (h_tr h)))) by done.
    rewrite (filter_map Q (fun e => Q e.1) fst); [by rewrite !length_map|done]. }
  rewrite (na_sids _ _ Hwf). apply filter_length_le. intros id _. unfold P, Q, dget_or.
  destruct (dget (sub_topic (h_tr h)) id) as [p|] eqn:Hp; [|done]. cbn. apply subject_filter; [|done].
  rewrite Forall_forall in Hpl. apply Hpl. by apply (elem_dvalues _ id).
Qed.

(** Delivery over NATS: with [n] matching subscriptions on the connection the
    callbacks a message is for are submitted in order, [n] times over, and [n]
    copies are put on the topic's receive queue.  The subject hides none of them
    (for patterns that can be said as subjects); and since every subscription has
    a NATS subscription of its own, a message that [k] callbacks take is given to
    each of them at least [k] times. *)
Theorem nats_delivery msg d h :
  Forall subject_ok (dvalues (sub_topic (h_tr h))) -> nlfree (explode (topic msg)) ->
  validate d = Ok msg -> pool_open (h_tr h) = true -> wf h ->
  let n := copies (h_tr h) (topic msg) in
  exists h', deliver (topic msg) d h = (Ok tt, h') /\
    jobs (h_tr h') = jobs (h_tr h) ++ concat (replicate n (jobs_for msg h)) /\
    queue_of (h_tr h') (topic msg) = queue_of (h_tr h) (topic msg) ++ replicate n msg /\
    (length (jobs_for msg h) <= n)%nat.
Proof.
  intros Hpl Hn Hv Hp Hwf n. destruct (deliver_copies msg d n h 0 Hv Hp) as (h' & Hrun & Hj & Hq).
  exists h'. split_and!; [done..|]. unfold jobs_for. rewrite length_map. by apply receivers_le_copies.
Qed.
End invariant.
End NatsTransport.

(** * A connection that is a list of subscriptions *)
Module NatsToy.
Record conn : Type := mkConn { next : nat; active : list (nat * string) }.

(** Numbers are given out in order; a number in use would be skipped. *)
Definition free (c : conn) : nat := S (foldr Nat.max (next c) (dkeys (active c))).

#[global] Instance client : NatsClient conn := {|
  n_subscribe s := fun c => (Ok (free c), mkConn (free c) (active c ++ [(free c, s)]));
  n_unsubscribe sid := modify (fun c => mkConn (next c) (ddel (active c) sid));
  n_publish _ _ := ret tt;
  n_drain := modify (fun c => mkConn (next c) []);
  n_close := ret tt;
|}.

Lemma free_fresh c : free c ∉ dkeys (active c).
Proof.
  unfold free. intros Hin. enough (forall k l, k ∈ l -> (k <= foldr Nat.max (next c) l)%nat) as Hle.
  { specialize (Hle _ _ Hin). lia. }
  intros k l. induction l as [|j l IH]; [by intros ?%not_elem_of_nil|]. cbn. intros [->|Hk]%elem_of_cons; [lia|].
  specialize (IH Hk). lia.
Qed.

#[global] Instance client_ok : NatsClientOk conn active.
Proof.
  split; intros; cbn; try (by try eexists). do 2 eexists. split_and!; [done|done|apply free_fresh].
Qed.

Abbreviation heap := (heap (NatsTransport.state nat conn) (list nat)).

Definition run (cb : nat) (_ : Message) : M heap unit := upd_rest (fun l => l ++ [cb]).
Definition msg : Message := mkMessage "m" "a.b" VNone [] 0 None None.
Definition validate (_ : string) : result Message := Ok msg.

Definition start : heap :=
  mkHeap 0 (NatsTransport.mkState (mkConn 0 []) true [] [] [] [] [] [] true true) [].

Definition two : heap :=
  ((let! _ := NatsTransport.subscribe "a.*" 1%nat in NatsTransport.subscribe "a.**" 2%nat) start).2.

Lemma nats_two_wf : NatsTransport.wf active two.
Proof.
  unfold two. pose proof (NatsTransport.nats_wf_subscribe (CB := nat) (R := list nat) active "a.*" 1%nat
    start (NatsTransport.nats_wf_init active (mkConn 0 []) _ eq_refl eq_refl)) as H1.
  exact (NatsTransport.nats_wf_subscribe active "a.**" 2%nat _ H1).
Qed.
End NatsToy.

Lemma subscriptions_exact_witness :
  NatsToy.active (NatsTransport.nc (h_tr NatsToy.two)) ≡ₚ [(1%nat, "a.*"); (2%nat, "a.>")] /\
  NatsTransport.wf NatsToy.active (NatsTransport.unsubscribe "uuid-0" NatsToy.two).2.
Proof.
  destruct (NatsTransport.subscriptions_exact NatsToy.active (fun _ => "") NatsToy.validate NatsToy.run NatsToy.msg "t" None
    3%nat "uuid-0" (Ok "") 0 NatsToy.two) as (Ha & _ & Hu & _).
  - intros cb m h Hwf. exact Hwf.
  - exact NatsToy.nats_two_wf.
  - split; [exact Ha|exact Hu].
Defined.

(** Subscriptions to [a.*] and [a.**]: each callback is submitted twice. *)
Lemma nats_delivery_witness :
  exists h', NatsTransport.deliver NatsToy.active NatsToy.validate "a.b" "{}" NatsToy.two = (Ok tt, h') /\
    map fst (NatsTransport.jobs (h_tr h')) = [1; 2; 1; 2]%nat.
Proof.
  destruct (NatsTransport.nats_delivery NatsToy.active NatsToy.validate NatsToy.msg "{}" NatsToy.two)
    as (h' & Hd & Hj & _).
  - apply (bool_decide_eq_true_1 _). vm_compute. reflexivity.
  - unfold nlfree. vm_compute. set_solver.
  - reflexivity.
  - reflexivity.
  - exact NatsToy.nats_two_wf.
  - exists h'. split; [exact Hd|]. rewrite Hj. vm_compute. reflexivity.
Defined.
