(* ===== verification/Tcp.v ===== *)
(** * [eventforge/transports/tcp.py]: [TCPServerTransport], [TCPClientTransport]

    The two classes have the same subscription tables and receive queues, with the
    same methods on them ([Tables], over any state that has such tables); they
    differ in their sockets.  A connection is what has been sent on it and the error
    a send on it raises, if any; what arrives on it is a list of chunks (Wire), an argument of
    the loop that reads it.  [json.dumps(msg.model_dump(...))] and
    [Message( **json.loads(data))] are [serialize] and [deserialize]. *)
From S2P Require Import Prelude PyDict Types Topics Wire Transport.

Record tables (CB : Type) : Type := mkTables {
  subscribers : list (string * CB);
  topic_subs : list (string * list string);
  queues : list (string * list Message);
}.
Arguments mkTables {CB} _ _ _.
Arguments subscribers {CB} _.
Arguments topic_subs {CB} _.
Arguments queues {CB} _.

(** A state with such tables *)
Class HasTables (S CB : Type) : Type := {
  tables_of : S -> tables CB;
  set_tables : tables CB -> S -> S;
}.

Class HasTablesOk (S CB : Type) `{HasTables S CB} : Prop := {
  tables_set : forall t s, tables_of (set_tables t s) = t;
  set_set : forall t t' s, set_tables t (set_tables t' s) = set_tables t s;
}.

(** What a value is after it was written as JSON and read: a tuple is a list. *)
Fixpoint json_val (v : val) : val :=
  match v with
  | VList l | VTuple l => VList (map json_val l)
  | VDict d => VDict (map (fun kv => (kv.1, json_val kv.2)) d)
  | _ => v
  end.

Definition json_hdrs (h : hdrs) : hdrs := map (fun kv => (kv.1, json_val kv.2)) h.

Definition json_msg (m : Message) : Message :=
  mkMessage (msg_id m) (topic m) (json_val (payload m)) (json_hdrs (headers m)) (timestamp m) (reply_to m) (correlation_id m).

(** A message that can be serialized ([plain]: its payload and headers are
    built from None, booleans, numbers, texts, lists, tuples and dictionaries whose
    keys are texts) comes back with lists for its tuples. *)
Class JsonOk (serialize : Message -> result bytes) (deserialize : bytes -> result Message)
    (plain : Message -> Prop) : Prop :=
  json_back : forall m, plain m -> exists d, serialize m = Ok d /\ deserialize d = Ok (json_msg m).

Module Tables.
Section ops.
Context {S CB R : Type} `{!HasTables S CB}.
Abbreviation heap := (heap S R).
Variable call : CB -> Message -> M heap unit.

Definition upd_tables (f : tables CB -> tables CB) : M heap unit :=
  upd_tr (fun s => set_tables (f (tables_of s)) s).

(** [for t, subs in self._topic_subs.items(): if sub_id in subs: ...; break] *)
Fixpoint find_topic (id : string) (d : list (string * list string)) : option string :=
  match d with
  | [] => None
  | (t, subs) :: d' => if decide (id ∈ subs) then Some t else find_topic id d'
  end.

(** [if sub_topic and ...]: the empty topic is no topic. *)
Definition pattern_of (id : string) (h : heap) : option string :=
  match find_topic id (topic_subs (tables_of (h_tr h))) with
  | Some t => if decide (t = "") then None else Some t
  | None => None
  end.

Definition queue_of (t : tables CB) (topic : string) : list Message := dget_or [] (queues t) topic.

(** [self._queues[topic].put(msg)]; these queues have no bound *)
Definition put (msg : Message) : M heap unit :=
  upd_tables (fun t => mkTables (subscribers t) (topic_subs t)
                         (dset (queues t) (topic msg) (queue_of t (topic msg) ++ [msg]))).

Definition dispatch (msg : Message) : M heap unit :=
  let! s := get_tr in
  notify pattern_of tcp_matches call msg (subscribers (tables_of s)) ;;;
  put msg.

Definition receive (t : string) (timeout : option Z) : M heap (wait (option Message)) := fun h =>
  let tb := tables_of (h_tr h) in
  let '(r, q) := q_get (queue_of tb t) timeout in
  (r, set_tr (set_tables (mkTables (subscribers tb) (topic_subs tb) (dset (queues tb) t q)) (h_tr h)) h).

Definition receive_async (t : string) (timeout : option Z) : M heap (wait (option Message)) := fun h =>
  let tb := tables_of (h_tr h) in
  let '(r, q) := q_get_async (queue_of tb t) timeout in
  (r, set_tr (set_tables (mkTables (subscribers tb) (topic_subs tb) (dset (queues tb) t q)) (h_tr h)) h).

Definition subscribe (t : string) (cb : CB) : M heap string :=
  let! sub_id := new_uuid in
  upd_tables (fun tb => mkTables (dset (subscribers tb) sub_id cb)
    (dset (topic_subs tb) t (dget_or [] (topic_subs tb) t ++ [sub_id])) (queues tb)) ;;;
  ret sub_id.

(** [for subs in self._topic_subs.values(): if id in subs: subs.remove(id); break] *)
Fixpoint drop_id (id : string) (d : list (string * list string)) : list (string * list string) :=
  match d with
  | [] => []
  | (t, subs) :: d' => if decide (id ∈ subs) then (t, remove_first id subs) :: d' else (t, subs) :: drop_id id d'
  end.

Definition unsubscribe (id : string) : M heap bool :=
  let! s := get_tr in
  if dmem (subscribers (tables_of s)) id then
    upd_tables (fun tb => mkTables (ddel (subscribers tb) id) (drop_id id (topic_subs tb)) (queues tb)) ;;;
    ret true
  else ret false.

(** [close]: the two dictionaries; the receive queues stay *)
Definition clear : M heap unit := upd_tables (fun tb => mkTables [] [] (queues tb)).
End ops.
(** * The subscription tables *)
Section invariant.
Context {S CB R : Type} `{HasTablesOk S CB}.
#[local] Arguments dtotal : simpl never.
Abbreviation heap := (heap S R).
Implicit Types (d : list (string * list string)) (tb : tables CB) (h : heap).

(** Every id stands under exactly one topic, and has its callback. *)
Record tables_ok (n : nat) tb : Prop := {
  to_subs : dict_ok (subscribers tb);
  to_topics : dict_ok (topic_subs tb);
  to_ids : dtotal id (topic_subs tb) ≡ₚ dkeys (subscribers tb);
  to_fresh : forall i, i ∈ dkeys (subscribers tb) -> exists k, (k < n)%nat /\ i = uuid4 k;
}.

Definition ok h : Prop := tables_ok (h_uuid h) (tables_of (h_tr h)).

Lemma dtotal_cons t subs d : dtotal id ((t, subs) :: d) = subs ++ dtotal id d.
Proof. done. Qed.

Lemma find_topic_None i d : find_topic i d = None <-> i ∉ dtotal id d.
Proof.
  induction d as [|[t subs] d IH]; [by split; intros; [apply not_elem_of_nil|]|].
  rewrite dtotal_cons. cbn. case_decide; [|rewrite IH]; set_solver.
Qed.

Lemma find_topic_append i j t d : j <> i -> 
  find_topic j (dset d t (dget_or [] d t ++ [i])) = find_topic j d.
Proof.
  intros Hj. induction d as [|[t' subs] d IH]; unfold dget_or; cbn.
  - by rewrite decide_False by set_solver.
  - destruct (decide (t' = t)) as [->|]; cbn.
    + case_decide; case_decide; set_solver.
    + case_decide; [done|]. apply IH.
Qed.

Lemma find_topic_new i t d : find_topic i d = None -> find_topic i (dset d t (dget_or [] d t ++ [i])) = Some t.
Proof.
  induction d as [|[t' subs] d IH]; unfold dget_or; cbn.
  - intros _. by rewrite decide_True by set_solver.
  - case_decide; [done|]. intros Hd. case_decide; cbn.
    + subst. rewrite decide_True by set_solver. done.
    + rewrite decide_False by done. by apply IH.
Qed.

Lemma drop_id_perm i d : i ∈ dtotal id d -> dtotal id d ≡ₚ i :: dtotal id (drop_id i d).
Proof.
  induction d as [|[t subs] d IH]; [by intros ?%not_elem_of_nil|]. rewrite dtotal_cons. cbn [drop_id].
  intros Hi. case_decide as Hs; rewrite dtotal_cons.
  - by rewrite (remove_first_perm i subs Hs) at 1.
  - rewrite IH by set_solver. symmetry. apply Permutation_middle.
Qed.

Lemma dkeys_drop_id i d : dkeys (drop_id i d) = dkeys d.
Proof.
  unfold dkeys. induction d as [|[t subs] d IH]; [done|]. cbn. case_decide; [done|]. cbn. by f_equal.
Qed.

Lemma find_topic_drop i j d : j <> i -> find_topic j (drop_id i d) = find_topic j d.
Proof.
  intros Hj. induction d as [|[t subs] d IH]; [done|]. cbn. case_decide; cbn; [|by rewrite IH].
  pose proof (remove_first_other i j subs Hj). do 2 case_decide; naive_solver.
Qed.

Lemma ok_fresh n tb : tables_ok n tb -> uuid4 n ∉ dkeys (subscribers tb).
Proof. intros Hok (k & ? & Heq)%(to_fresh _ _ Hok). apply (inj uuid4) in Heq. lia. Qed.

Lemma ok_init : tables_ok 0 (mkTables [] [] []).
Proof. split; cbn; try apply NoDup_nil_2; [done|]. by intros i ?%not_elem_of_nil. Qed.

Lemma ok_queues n su ts q q' : tables_ok n (mkTables su ts q) -> tables_ok n (mkTables su ts q').
Proof. by intros []. Qed.

(** ** The operations, one by one *)
Lemma table_subscribe topic cb h :
  ok h ->
  let id := uuid4 (h_uuid h) in let r := subscribe topic cb h in
  r.1 = Ok id /\ ok r.2 /\
  pattern_of id r.2 = (if decide (topic = "") then None else Some topic) /\
  (forall j, j <> id -> pattern_of j r.2 = pattern_of j h) /\
  subscribers (tables_of (h_tr r.2)) = subscribers (tables_of (h_tr h)) ++ [(id, cb)].
Proof.
  intros Hok. cbn. pose proof (ok_fresh _ _ Hok) as Hf. destruct Hok as [Hs Ht Hi Hfr].
  unfold ok, pattern_of. cbn. rewrite tables_set. cbn. split_and!; [done| | | |].
  - split; cbn.
    + by apply dict_ok_dset.
    + by apply dict_ok_dset.
    + rewrite dtotal_dset by done. rewrite dset_fresh by by apply dget_None.
      unfold dkeys at 1. rewrite fmap_app. cbn. fold (dkeys (subscribers (tables_of (h_tr h)))). rewrite <- Hi.
      rewrite (dtotal_get_or id [] (topic_subs (tables_of (h_tr h))) topic) by done. cbn.
      rewrite <- !app_assoc. apply Permutation_app_head, Permutation_app_comm.
    + intros i [->|(k & ? & ->)%Hfr]%elem_dkeys_dset; [exists (h_uuid h)|exists k]; split; lia || done.
  - rewrite find_topic_new; [done|]. apply find_topic_None. by rewrite Hi.
  - intros j Hj. by rewrite find_topic_append.
  - by apply dset_fresh, dget_None.
Qed.

Lemma table_unsubscribe i h :
  ok h ->
  let r := unsubscribe i h in
  r.1 = Ok (bool_decide (i ∈ dkeys (subscribers (tables_of (h_tr h))))) /\ ok r.2 /\
  pattern_of i r.2 = None /\
  (forall j, j <> i -> pattern_of j r.2 = pattern_of j h) /\
  subscribers (tables_of (h_tr r.2)) = ddel (subscribers (tables_of (h_tr h))) i.
Proof.
  intros Hok. unfold unsubscribe, get_tr, gets, bind. cbn zeta. pose proof Hok as [Hs Ht Hi Hfr].
  destruct (dmem _ i) eqn:Hm.
  - apply dmem_true in Hm. rewrite bool_decide_eq_true_2 by done. unfold ok, pattern_of. cbn. rewrite tables_set. cbn.
    assert (dtotal id (topic_subs (tables_of (h_tr h))) ≡ₚ i :: dtotal id (drop_id i (topic_subs (tables_of (h_tr h)))))
      as Hp by (apply drop_id_perm; by rewrite Hi).
    assert (i ∉ dtotal id (drop_id i (topic_subs (tables_of (h_tr h))))) as Hni.
    { assert (NoDup (i :: dtotal id (drop_id i (topic_subs (tables_of (h_tr h)))))) as Hnd by by rewrite <- Hp, Hi.
      by apply NoDup_cons in Hnd as [? _]. }
    split_and!; [done| | | |done].
    + split; cbn; [by apply dict_ok_ddel| | |].
      * unfold dict_ok. by rewrite dkeys_drop_id.
      * apply (Permutation_cons_inv (a := i)). rewrite <- Hp, Hi.
        rewrite dkeys_ddel, <- remove_first_filter by done. by apply remove_first_perm.
      * intros j [_ Hj]%elem_dkeys_ddel. by apply Hfr.
    + apply find_topic_None in Hni. by rewrite Hni.
    + intros j Hj. by rewrite find_topic_drop.
  - assert (i ∉ dkeys (subscribers (tables_of (h_tr h)))) as Hni by by apply dget_None, dmem_false.
    rewrite bool_decide_eq_false_2 by done. cbn. split_and!; [done|done| |done|].
    + unfold pattern_of. rewrite (proj2 (find_topic_None i _)); [done|]. by rewrite Hi.
    + symmetry. apply ddel_fresh. by apply dmem_false.
Qed.

Lemma tcp_keeps_put msg : keeps ok (put (S := S) (CB := CB) (R := R) msg).
Proof. intros h []. unfold ok. cbn. rewrite tables_set. by split. Qed.

Lemma keeps_tables_dispatch call msg : (forall cb, keeps ok (call cb msg)) -> keeps ok (dispatch call msg).
Proof.
  intros Hc. unfold dispatch. apply keeps_bind; [apply keeps_gets|]. intros s.
  apply keeps_bind; [by apply keeps_notify|]. intros _. apply tcp_keeps_put.
Qed.

Lemma keeps_tables_receive t tm : keeps ok (receive (S := S) (CB := CB) (R := R) t tm).
Proof.
  intros h []. unfold ok, receive. destruct (q_get _ _). cbn. rewrite tables_set. by split.
Qed.

Lemma keeps_tables_receive_async t tm : keeps ok (receive_async (S := S) (CB := CB) (R := R) t tm).
Proof.
  intros h []. unfold ok, receive_async. destruct (q_get_async _ _). cbn. rewrite tables_set. by split.
Qed.

Lemma keeps_clear : keeps ok (clear (S := S) (CB := CB) (R := R)).
Proof.
  intros h _. unfold ok. cbn. rewrite tables_set. split; cbn; try apply NoDup_nil_2; [done|].
  by intros i ?%not_elem_of_nil.
Qed.

(** C23 The subscription tables of both TCP transports: from tables where every id
    stands under exactly one topic and has its callback, every operation leads to
    such tables; a new subscription is found under its topic (unless that is the
    empty string, which [_dispatch] takes for none) and is called last; an
    unsubscribed id has neither topic nor callback; all others keep theirs. *)
Theorem tcp_tables_agree call msg topic t tm cb i h :
  (forall cb, keeps ok (call cb msg)) -> ok h ->
  let id := uuid4 (h_uuid h) in
  let s := subscribe topic cb h in let u := unsubscribe i h in
  ok s.2 /\ ok u.2 /\ ok (dispatch call msg h).2 /\ ok (receive t tm h).2 /\ ok (receive_async t tm h).2 /\ ok (clear h).2 /\
  s.1 = Ok id /\ pattern_of id s.2 = (if decide (topic = "") then None else Some topic) /\
  subscribers (tables_of (h_tr s.2)) = subscribers (tables_of (h_tr h)) ++ [(id, cb)] /\
  u.1 = Ok (bool_decide (i ∈ dkeys (subscribers (tables_of (h_tr h))))) /\ pattern_of i u.2 = None /\
  subscribers (tables_of (h_tr u.2)) = ddel (subscribers (tables_of (h_tr h))) i /\
  (forall j, j <> id -> pattern_of j s.2 = pattern_of j h) /\
  (forall j, j <> i -> pattern_of j u.2 = pattern_of j h).
Proof.
  intros Hc Hok. destruct (table_subscribe topic cb h Hok) as (? & ? & ? & ? & ?).
  destruct (table_unsubscribe i h Hok) as (? & ? & ? & ? & ?).
  pose proof (keeps_tables_dispatch call msg Hc h Hok). pose proof (keeps_tables_receive t tm h Hok).
  pose proof (keeps_tables_receive_async t tm h Hok).
  pose proof (keeps_clear h Hok). by split_and!.
Qed.
End invariant.
End Tables.

(** ** Connections *)
Record conn : Type := mkConn { sent : bytes; fault : option exn }.

Definition bad_fd : exn := Exc "OSError" "[Errno 9] Bad file descriptor".
Definition broken_pipe : exn := Exc "BrokenPipeError" "[Errno 32] Broken pipe".

(** [_send_msg(sock, data)] *)
Definition conn_send (c : conn) (data : bytes) : result conn :=
  match send_msg data with
  | Raise e => Raise e
  | Ok frame => match fault c with Some e => Raise e | None => Ok (mkConn (sent c ++ frame) None) end
  end.

(** ** The reading loop

    The [while] of [_client_loop] and of [_recv_loop], on what is going to arrive;
    [None] when [fuel] rounds are not enough. *)
Section loop.
Context {W : Type}.
Variables (running : W -> bool) (deserialize : bytes -> result Message) (dispatch : Message -> M W unit).

Fixpoint read_rounds (fuel : nat) (sk : socket) : M W (option unit) := fun h =>
  match fuel with
  | O => (Ok None, h)
  | S fuel' =>
      if running h then
        match recv_msg sk with
        | (Raise e, _) => (Raise e, h)
        | (Ok None, _) => (Ok (Some tt), h)
        | (Ok (Some raw), sk') =>
            match deserialize raw with
            | Raise e => (Raise e, h)
            | Ok msg => (dispatch msg ;;; read_rounds fuel' sk') h
            end
        end
      else (Ok (Some tt), h)
  end.
End loop.

(** ** The loop ends

    A frame takes at least the four bytes of its length. *)
Lemma recv_msg_consumes sk : chunks_ok sk ->
  match recv_msg sk with
  | (Ok (Some d), sk') => chunks_ok sk' /\ (length (concat sk') < length (concat sk))%nat
  | (Ok None, _) => True
  | (Raise e, _) => is_Exception e = true
  end.
Proof.
  intros Hok. unfold recv_msg. pose proof (recv_exact_spec header_size sk Hok) as H1.
  destruct (recv_exact sk header_size) as [[h|] sk1]; [|done]. destruct H1 as (Hl & Hok1 & _ & Heq1).
  destruct (unpack_u32 h) as [n|e] eqn:Hu.
  - pose proof (recv_exact_spec (Z.to_nat n) sk1 Hok1) as H2.
    destruct (recv_exact sk1 (Z.to_nat n)) as [[d|] sk2]; [|done]. destruct H2 as (_ & Hok2 & _ & Heq2).
    split; [done|]. rewrite Heq2, Heq1, !length_drop. unfold header_size in *. lia.
  - unfold unpack_u32 in Hu. repeat case_match; simplify_eq; done.
Qed.

Section ends.
Context {W : Type} (running : W -> bool) (deserialize : bytes -> result Message) (dispatch : Message -> M W unit).
Hypothesis parse_tame : forall d e, deserialize d = Raise e -> is_Exception e = true.

Lemma read_rounds_ends (I : W -> Prop) :
  (forall m w, I w -> exists w', dispatch m w = (Ok tt, w') /\ I w') ->
  forall fuel sk w, I w -> chunks_ok sk -> (length (concat sk) < fuel)%nat ->
  exists r w', read_rounds running deserialize dispatch fuel sk w = (r, w') /\ I w' /\
    match r with Ok (Some _) => True | Ok None => False | Raise e => is_Exception e = true end.
Proof.
  intros Hd. induction fuel as [|fuel IH]; intros sk w HI Hok Hf; [lia|]. cbn [read_rounds].
  destruct (running w); [|by eexists _, w].
  pose proof (recv_msg_consumes sk Hok) as Hc. destruct (recv_msg sk) as [[[d|]|e] sk']; [|by eexists _, w..].
  destruct Hc as [Hok' Hlt]. destruct (deserialize d) as [m|e] eqn:Hde; [|by eexists _, w; eauto].
  destruct (Hd m w HI) as (w1 & Hw1 & HI1). rewrite (bind_run _ _ _ _ _ Hw1). apply IH; [done..|lia].
Qed.
End ends.

(** ** Frames on the stream *)
Section frames.
Context (serialize : Message -> result bytes) (deserialize : bytes -> result Message) (plain : Message -> Prop).
Context {json : JsonOk serialize deserialize plain}.
Implicit Types (m : Message) (msgs : list Message).

(** A message whose JSON has a length that four bytes hold *)
Definition sendable m : Prop := plain m /\ forall d, serialize m = Ok d -> Z.of_nat (length d) < 2 ^ 32.

Definition frame m : bytes :=
  match serialize m with
  | Ok d => match send_msg d with Ok f => f | Raise _ => [] end
  | Raise _ => []
  end.

Definition stream msgs : bytes := concat (map frame msgs).

Lemma sendable_frame m : sendable m ->
  exists d, serialize m = Ok d /\ deserialize d = Ok (json_msg m) /\ send_msg d = Ok (frame m).
Proof.
  intros [Hp Hl]. destruct (json_back m Hp) as (d & Hd & Hb). exists d. split_and!; [done..|].
  pose proof (send_msg_error d) as He. rewrite bool_decide_eq_true_2 in He by by apply Hl.
  unfold frame. rewrite Hd. by destruct (send_msg d).
Qed.

Lemma stream_app l1 l2 : stream (l1 ++ l2) = stream l1 ++ stream l2.
Proof. unfold stream. by rewrite map_app, concat_app. Qed.

Context {W : Type} (running : W -> bool) (dispatch : Message -> M W unit).

(** The loop goes on running, and no message makes it raise. *)
Definition steady (I : W -> Prop) : Prop :=
  (forall w, I w -> running w = true) /\
  forall m w, I w -> exists w', dispatch m w = (Ok tt, w') /\ I w'.

(** What the loop did with the first [k] bytes of a stream of messages: it
    dispatched exactly those all of whose bytes are there, in order, and
    returned. *)
Definition served (msgs : list Message) (k : nat) (w : W) (out : result (option unit) * W) : Prop :=
  exists j w', out = (Ok (Some tt), w') /\ for_each (map json_msg (take j msgs)) dispatch w = (Ok tt, w') /\
    (j <= length msgs)%nat /\
    forall i, (i <= length msgs)%nat -> (length (stream (take i msgs)) <= k)%nat <-> (i <= j)%nat.

Lemma read_rounds_served I msgs : steady I -> Forall sendable msgs -> forall k fuel sk w,
  I w -> chunks_ok sk -> concat sk = take k (stream msgs) -> (length msgs < fuel)%nat ->
  served msgs k w (read_rounds running deserialize dispatch fuel sk w).
Proof.
  intros [Hr Hd]. induction 1 as [|m msgs Hm _ IH]; intros k fuel sk w HI Hok Hsk Hf.
  - change (stream []) with (@nil ascii) in Hsk. rewrite take_nil in Hsk. destruct sk as [|c sk]; [|by apply Forall_cons in Hok as [? _]; destruct c].
    destruct fuel as [|fuel]; [cbn in Hf; lia|]. cbn [read_rounds]. rewrite Hr by done.
    rewrite recv_msg_eof. exists 0%nat, w. split_and!; [done..|]. intros [|i]; cbn; lia.
  - destruct fuel as [|fuel]; [cbn in Hf; lia|]. cbn [read_rounds]. rewrite Hr by done.
    destruct (sendable_frame m Hm) as (d & _ & Hde & Hs).
    change (stream (m :: msgs)) with (frame m ++ stream msgs) in Hsk.
    destruct (decide (length (frame m) <= k)%nat) as [Hk|Hk].
    + rewrite take_app_ge in Hsk by done.
      destruct (recv_send_msg _ _ _ _ Hs Hok Hsk) as (sk' & -> & Hok' & Hsk'). rewrite Hde.
      destruct (Hd (json_msg m) w HI) as (w1 & Hw1 & HI1). rewrite (bind_run _ _ _ _ _ Hw1).
      destruct (IH _ fuel sk' w1 HI1 Hok' Hsk') as (j & w' & -> & Hw' & Hj & Hi); [cbn in Hf; lia|].
      exists (S j), w'. split_and!; [done| |cbn; lia|].
      * cbn [take map for_each]. by rewrite (bind_run _ _ _ _ _ Hw1).
      * intros [|i] Hl; [cbn; lia|]. change (stream (take (S i) (m :: msgs))) with (frame m ++ stream (take i msgs)).
        rewrite length_app. cbn in Hl. specialize (Hi i). lia.
    + rewrite take_app_le in Hsk by lia.
      destruct (recv_msg_truncated _ _ sk k Hs Hok) as [sk' ->]; [lia|done|].
      exists 0%nat, w. split_and!; [done|done|lia|]. intros [|i] Hl; [cbn; lia|].
      change (stream (take (S i) (m :: msgs))) with (frame m ++ stream (take i msgs)). rewrite length_app. lia.
Qed.

(** Under the loop's own [except Exception] *)
Lemma served_try msgs k w (loop : M W (option unit)) h :
  served msgs k w (loop w) -> served msgs k w (try_except loop h w).
Proof. intros (j & w' & Hm & ?). exists j, w'. unfold try_except. by rewrite Hm. Qed.
End frames.

Module TCPServerTransport.

(** Sockets are named by numbers; [conns] are the open ones. *)
Record state (CB : Type) : Type := mkState {
  server_tables : tables CB;
  clients : list nat;
  conns : list (nat * conn);
  running : bool;
  listening : bool;
}.
Arguments mkState {CB} _ _ _ _ _.
Arguments server_tables {CB} _.
Arguments clients {CB} _.
Arguments conns {CB} _.
Arguments running {CB} _.
Arguments listening {CB} _.

#[global] Instance server_has_tables {CB} : HasTables (state CB) CB := {|
  tables_of := server_tables;
  set_tables t s := mkState t (clients s) (conns s) (running s) (listening s);
|}.

#[global] Instance server_has_tables_ok {CB} : HasTablesOk (state CB) CB.
Proof. split; done. Qed.

Section ops.
Context {CB R : Type}.
Abbreviation state := (state CB).
Abbreviation heap := (heap state R).
Variable serialize : Message -> result bytes.
Variable deserialize : bytes -> result Message.
Variable call : CB -> Message -> M heap unit.

Definition init : state := mkState (mkTables [] [] []) [] [] false false.

Definition set_clients (c : list nat) (s : state) : state :=
  mkState (server_tables s) c (conns s) (running s) (listening s).
Definition set_conns (c : list (nat * conn)) (s : state) : state :=
  mkState (server_tables s) (clients s) c (running s) (listening s).

(** [start], with what [bind] and [listen] do *)
Definition start (bound : result unit) : M heap unit :=
  lift bound ;;;
  upd_tr (fun s => mkState (server_tables s) (clients s) (conns s) true true).

Definition close : M heap unit :=
  upd_tr (fun s => mkState (server_tables s) (clients s) (conns s) false (listening s)) ;;;
  upd_tr (fun s => set_clients [] (set_conns
            (List.filter (fun c => negb (bool_decide (c.1 ∈ clients s))) (conns s)) s)) ;;;
  Tables.clear ;;;
  upd_tr (fun s => mkState (server_tables s) (clients s) (conns s) (running s) false).

(** One round of [_accept_loop] that accepts: the new socket is appended (and
    [_client_loop] is started on it). *)
Definition accepted (sock : nat) : M heap unit :=
  upd_tr (fun s => set_clients (clients s ++ [sock]) (set_conns (dset (conns s) sock (mkConn [] None)) s)).

Definition dispatch (msg : Message) : M heap unit := Tables.dispatch call msg.

(** The [finally] of [_client_loop] *)
Definition disconnect (sock : nat) : M heap unit :=
  upd_tr (fun s => set_conns (ddel (conns s) sock)
                     (if decide (sock ∈ clients s) then set_clients (remove_first sock (clients s)) s else s)).

Definition client_rounds (fuel : nat) (sk : socket) : M heap (option unit) :=
  read_rounds (fun h => running (h_tr h)) deserialize dispatch fuel sk.

Definition client_loop (fuel : nat) (sock : nat) (sk : socket) : M heap (option unit) :=
  try_finally
    (try_except (client_rounds fuel sk) (fun _ => ret (Some tt)))
    (disconnect sock).

(** One client of [send]'s loop *)
Definition send_one (data : bytes) (sock : nat) : M heap unit :=
  let! s := get_tr in
  match dget (conns s) sock with
  | Some c =>
      match conn_send c data with
      | Ok c' => upd_tr (set_conns (dset (conns s) sock c'))
      | Raise _ => upd_tr (set_clients (remove_first sock (clients s)))
      end
  | None => upd_tr (set_clients (remove_first sock (clients s)))
  end.

Definition send (msg : Message) : M heap unit :=
  let! data := lift (serialize msg) in
  let! s := get_tr in
  for_each (clients s) (send_one data).

Definition receive (t : string) (timeout : option Z) : M heap (wait (option Message)) := Tables.receive t timeout.
Definition receive_async (t : string) (timeout : option Z) : M heap (wait (option Message)) :=
  Tables.receive_async t timeout.
Definition subscribe (t : string) (cb : CB) : M heap string := Tables.subscribe t cb.
Definition unsubscribe (id : string) : M heap bool := Tables.unsubscribe id.
End ops.

#[global] Instance server_transport {CB R} (serialize : Message -> result bytes) :
    Transport (heap (state CB) R) CB := {|
  t_send := send serialize;
  t_receive := receive;
  t_receive_async := receive_async;
  t_subscribe := subscribe;
  t_unsubscribe := unsubscribe;
  t_close := close;
|}.
End TCPServerTransport.

Module TCPClientTransport.

Record state (CB : Type) : Type := mkState {
  client_tables : tables CB;
  socket : option conn;
  running : bool;
}.
Arguments mkState {CB} _ _ _.
Arguments client_tables {CB} _.
Arguments socket {CB} _.
Arguments running {CB} _.

#[global] Instance client_has_tables {CB} : HasTables (state CB) CB := {|
  tables_of := client_tables;
  set_tables t s := mkState t (socket s) (running s);
|}.

#[global] Instance client_has_tables_ok {CB} : HasTablesOk (state CB) CB.
Proof. split; done. Qed.

Section ops.
Context {CB R : Type}.
Abbreviation state := (state CB).
Abbreviation heap := (heap state R).
Variable serialize : Message -> result bytes.
Variable deserialize : bytes -> result Message.
Variable call : CB -> Message -> M heap unit.

Definition init : state := mkState (mkTables [] [] []) None false.

(** [connect], with what the socket's [connect] does: the new socket is stored
    before it is connected. *)
Definition connect (connected : result unit) : M heap unit :=
  upd_tr (fun s => mkState (client_tables s) (Some (mkConn [] (Some broken_pipe))) (running s)) ;;;
  lift connected ;;;
  upd_tr (fun s => mkState (client_tables s) (Some (mkConn [] None)) true).

(** [close]: the socket is closed, and stays in [_socket] *)
Definition close : M heap unit :=
  upd_tr (fun s => mkState (client_tables s)
    (match socket s with Some c => Some (mkConn (sent c) (Some bad_fd)) | None => None end) false) ;;;
  Tables.clear.

Definition dispatch (msg : Message) : M heap unit := Tables.dispatch call msg.

Definition recv_rounds (fuel : nat) (sk : Wire.socket) : M heap (option unit) :=
  read_rounds (fun h => running (h_tr h)) deserialize dispatch fuel sk.

Definition recv_loop (fuel : nat) (sk : Wire.socket) : M heap (option unit) :=
  try_except (recv_rounds fuel sk) (fun _ => ret (Some tt)).

Definition not_connected : exn := Exc "ConnectionError" "Not connected — call connect() first".

Definition send (msg : Message) : M heap unit :=
  let! s := get_tr in
  match socket s with
  | None => throw not_connected
  | Some c =>
      let! data := lift (serialize msg) in
      let! c' := lift (conn_send c data) in
      upd_tr (fun s => mkState (client_tables s) (Some c') (running s))
  end.

Definition receive (t : string) (timeout : option Z) : M heap (wait (option Message)) := Tables.receive t timeout.
Definition receive_async (t : string) (timeout : option Z) : M heap (wait (option Message)) :=
  Tables.receive_async t timeout.
Definition subscribe (t : string) (cb : CB) : M heap string := Tables.subscribe t cb.
Definition unsubscribe (id : string) : M heap bool := Tables.unsubscribe id.
End ops.

#[global] Instance client_transport {CB R} (serialize : Message -> result bytes) :
    Transport (heap (state CB) R) CB := {|
  t_send := send serialize;
  t_receive := receive;
  t_receive_async := receive_async;
  t_subscribe := subscribe;
  t_unsubscribe := unsubscribe;
  t_close := close;
|}.
End TCPClientTransport.

(** * Both ends *)
Module Link.
Section link.
Context (serialize : Message -> result bytes) (deserialize : bytes -> result Message) (plain : Message -> Prop).
Context {json : JsonOk serialize deserialize plain}.
Context {CB R CB' R' : Type}.
Abbreviation server := (heap (TCPServerTransport.state CB) R).
Abbreviation client := (heap (TCPClientTransport.state CB') R').
Variable call : CB -> Message -> M server unit.
Implicit Types (hs : server) (hc : client) (msgs : list Message).

Lemma client_send_one m hc c : sendable serialize plain m ->
  TCPClientTransport.socket (h_tr hc) = Some c -> fault c = None ->
  TCPClientTransport.send serialize m hc = (Ok tt, set_tr (TCPClientTransport.mkState
    (TCPClientTransport.client_tables (h_tr hc)) (Some (mkConn (sent c ++ frame serialize m) None))
    (TCPClientTransport.running (h_tr hc))) hc).
Proof.
  intros Hm Hc Hf. destruct (sendable_frame _ _ _ m Hm) as (d & Hd & _ & Hs).
  unfold TCPClientTransport.send, get_tr, gets, bind, lift. rewrite Hc, Hd.
  unfold conn_send. by rewrite Hs, Hf.
Qed.

Lemma client_sends msgs : Forall (sendable serialize plain) msgs -> forall hc c,
  TCPClientTransport.socket (h_tr hc) = Some c -> fault c = None ->
  exists hc', for_each msgs (TCPClientTransport.send serialize) hc = (Ok tt, hc') /\
    TCPClientTransport.socket (h_tr hc') = Some (mkConn (sent c ++ stream serialize msgs) None).
Proof.
  induction 1 as [|m msgs Hm _ IH]; intros hc c Hc Hf.
  - exists hc. split; [done|]. cbn. rewrite app_nil_r, Hc. destruct c. cbn in *. by subst.
  - cbn [for_each]. rewrite (bind_run _ _ _ _ _ (client_send_one m hc c Hm Hc Hf)).
    set (c1 := mkConn (sent c ++ frame serialize m) None).
    destruct (IH (set_tr (TCPClientTransport.mkState (TCPClientTransport.client_tables (h_tr hc)) (Some c1)
      (TCPClientTransport.running (h_tr hc))) hc) c1 eq_refl eq_refl) as (hc' & -> & Hc').
    exists hc'. split; [done|]. rewrite Hc'. unfold c1. cbn [sent]. by rewrite <- app_assoc.
Qed.

(** The server runs, no client is listed twice, and its callbacks neither change
    that nor raise more than [Exception]s. *)
Definition up hs : Prop :=
  TCPServerTransport.running (h_tr hs) = true /\ NoDup (TCPServerTransport.clients (h_tr hs)).
Definition calm : Prop := forall cb m, tame up (call cb m) /\ keeps up (call cb m).

Lemma server_steady : calm ->
  steady (fun hs => TCPServerTransport.running (h_tr hs)) (TCPServerTransport.dispatch call) up.
Proof.
  intros Hc. split; [by intros hs []|]. intros m hs Hup. unfold TCPServerTransport.dispatch, Tables.dispatch, get_tr, gets, bind at 1.
  destruct (notify_returns Tables.pattern_of tcp_matches call up m
    (subscribers (TCPServerTransport.server_tables (h_tr hs))) hs) as (hs' & Hn & Hup'); [intros cb; apply Hc..|done|].
  rewrite (bind_run _ _ _ _ _ Hn). by eexists.
Qed.

(** C24 The link from a client to the server: whatever the client sends, and
    however the network cuts the bytes that reach the server before the connection
    ends (after [k] of them), the thread that reads the connection returns, having
    dispatched exactly the messages that arrived whole (as JSON gives them back), each
    once and in order, and having taken the connection out; [send] returns for each. *)
Theorem tcp_link msgs hc hs :
  Forall (sendable serialize plain) msgs ->
  TCPClientTransport.socket (h_tr hc) = Some (mkConn [] None) -> up hs -> calm ->
  exists hc', for_each msgs (TCPClientTransport.send serialize) hc = (Ok tt, hc') /\
    TCPClientTransport.socket (h_tr hc') = Some (mkConn (stream serialize msgs) None) /\
    forall k sk sock fuel, chunks_ok sk -> concat sk = take k (stream serialize msgs) -> (length msgs < fuel)%nat ->
    exists j hs', TCPServerTransport.client_loop deserialize call fuel sock sk hs = (Ok (Some tt), hs') /\
      (for_each (map json_msg (take j msgs)) (TCPServerTransport.dispatch call) ;;; TCPServerTransport.disconnect sock) hs
        = (Ok tt, hs') /\
      forall i, (i <= length msgs)%nat -> (length (stream serialize (take i msgs)) <= k)%nat <-> (i <= j)%nat.
Proof.
  intros Hm Hc Hup Hcalm. destruct (client_sends msgs Hm hc _ Hc eq_refl) as (hc' & Hsend & Hc').
  exists hc'. split_and!; [done..|]. intros k sk sock fuel Hok Hsk Hf.
  destruct (served_try serialize (TCPServerTransport.dispatch call) msgs k hs
    (TCPServerTransport.client_rounds deserialize call fuel sk) (fun _ => ret (Some tt))) as (j & hs1 & Hrun & Hd & _ & Hi).
  { by apply (read_rounds_served serialize deserialize plain _ _ up); [apply server_steady|..]. }
  exists j, (TCPServerTransport.disconnect sock hs1).2. unfold TCPServerTransport.client_loop, try_finally.
  rewrite Hrun, (bind_run _ _ _ _ _ Hd). by split_and!.
Qed.

(** A client's thread always ends and takes out no more than its own connection:
    on any finite stream of bytes, well formed or not, and cut anyhow, it returns
    after at most one round per byte; the connection is closed and the client no
    longer listed, whatever messages could not be parsed and whatever callbacks
    raised, and the server goes on running. *)
Theorem client_loop_ends sk sock fuel hs :
  (forall d e, deserialize d = Raise e -> is_Exception e = true) -> calm -> up hs ->
  chunks_ok sk -> (length (concat sk) < fuel)%nat ->
  exists hs', TCPServerTransport.client_loop deserialize call fuel sock sk hs = (Ok (Some tt), hs') /\ up hs' /\
    dget (TCPServerTransport.conns (h_tr hs')) sock = None /\ sock ∉ TCPServerTransport.clients (h_tr hs').
Proof.
  intros Hde Hc Hup Hok Hf.
  destruct (read_rounds_ends (fun hs => TCPServerTransport.running (h_tr hs)) deserialize
    (TCPServerTransport.dispatch call) Hde up (proj2 (server_steady Hc)) fuel sk hs Hup Hok Hf)
    as (r & h1 & Hr & [Hrun Hnd] & Hres).
  assert (try_except (TCPServerTransport.client_rounds deserialize call fuel sk) (fun _ => ret (Some tt)) hs
    = (Ok (Some tt), h1)) as Ht.
  { unfold try_except, TCPServerTransport.client_rounds. rewrite Hr. destruct r as [[[]|]|e]; [done|done|by rewrite Hres]. }
  exists (TCPServerTransport.disconnect sock h1).2. unfold TCPServerTransport.client_loop, try_finally. rewrite Ht.
  unfold TCPServerTransport.disconnect, upd_tr, modify. cbn. split; [done|]. unfold up. case_decide as Hin; cbn.
  - split_and!; [done|by apply remove_first_nodup|apply dget_ddel_eq|]. rewrite remove_first_elem by done. naive_solver.
  - by split_and!; [..|apply dget_ddel_eq|].
Qed.

(** ** The server's [send] *)
Definition takes (d : bytes) hs (sock : nat) : bool :=
  match dget (TCPServerTransport.conns (h_tr hs)) sock with
  | Some c => is_Ok (conn_send c d)
  | None => false
  end.

(** What a connection has carried after one more send *)
Definition pushed (d : bytes) (c : conn) : conn :=
  match conn_send c d with Ok c' => c' | Raise _ => c end.

(** After the loop over the sockets [l]: those that did not take the frame are no
    longer clients; nothing else has changed but what the connections carried. *)
Record sent_to (d : bytes) (l : list nat) hs hs' : Prop := {
  st_clients : TCPServerTransport.clients (h_tr hs') =
    filter (fun s => s ∉ l \/ takes d hs s = true) (TCPServerTransport.clients (h_tr hs));
  st_conns : forall s, dget (TCPServerTransport.conns (h_tr hs')) s =
    (if decide (s ∈ l) then pushed d else id) <$> dget (TCPServerTransport.conns (h_tr hs)) s;
  st_tables : tables_of (CB := CB) (h_tr hs') = tables_of (h_tr hs);
  st_rest : h_rest hs' = h_rest hs;
  st_flags : TCPServerTransport.running (h_tr hs') = TCPServerTransport.running (h_tr hs) /\
    TCPServerTransport.listening (h_tr hs') = TCPServerTransport.listening (h_tr hs);
}.

Lemma send_one_spec d x hs :
  NoDup (TCPServerTransport.clients (h_tr hs)) ->
  exists hs', TCPServerTransport.send_one d x hs = (Ok tt, hs') /\ sent_to d [x] hs hs'.
Proof.
  intros Hnd. unfold TCPServerTransport.send_one, get_tr, gets, bind.
  assert (forall (c : option conn), dget (TCPServerTransport.conns (h_tr hs)) x = c ->
    match c with Some c => conn_send c d = Raise (match conn_send c d with Raise e => e | _ => broken_pipe end) | None => True end ->
    sent_to d [x] hs (set_tr (TCPServerTransport.set_clients (remove_first x (TCPServerTransport.clients (h_tr hs))) (h_tr hs)) hs))
    as Hdrop.
  { intros c Hx Hc. split; cbn; [| |done..].
    - rewrite remove_first_filter by done. apply list_filter_iff. intros s. rewrite list_elem_of_singleton.
      unfold takes. split; [by left|]. intros [?|Ht] ->; [done|]. rewrite Hx in Ht. destruct c as [c|]; [|done]. by rewrite Hc in Ht.
    - intros s. case_decide as Hs; [|by destruct (dget _ s)]. apply list_elem_of_singleton in Hs as ->. rewrite Hx.
      destruct c as [c|]; [|done]. cbn. unfold pushed. by rewrite Hc. }
  destruct (dget (TCPServerTransport.conns (h_tr hs)) x) as [c|] eqn:Hx; [|eexists; split; [done|by apply (Hdrop None)]].
  destruct (conn_send c d) as [c'|e] eqn:Hc; (eexists; split; [done|]).
  - split; cbn; [| |done..].
    + rewrite filter_all; [done|]. apply Forall_forall. intros s _. rewrite list_elem_of_singleton. unfold takes.
      destruct (decide (s = x)) as [->|]; [right|by left]. by rewrite Hx, Hc.
    + intros s. rewrite dget_dset. destruct (decide (s = x)) as [->|Hs].
      * rewrite decide_True by set_solver. rewrite Hx. cbn. unfold pushed. by rewrite Hc.
      * rewrite decide_False by set_solver. by destruct (dget _ s).
  - apply (Hdrop (Some c)); [done|]. by rewrite Hc.
Qed.

Lemma sent_to_cons d x l hs hs1 hs2 :
  x ∉ l -> sent_to d [x] hs hs1 -> sent_to d l hs1 hs2 -> sent_to d (x :: l) hs hs2.
Proof.
  intros Hx [C1 N1 T1 R1 [F1 G1]] [C2 N2 T2 R2 [F2 G2]]. split; [| |congruence..|by rewrite F2, G2].
  - rewrite C2, C1, list_filter_filter. apply list_filter_iff. intros s. unfold takes. rewrite N1.
    destruct (dget _ s) as [c|]; cbn; [|set_solver]. case_decide; set_solver.
  - intros s. rewrite N2, N1. destruct (dget _ s) as [c|]; [|done]. cbn. repeat case_decide; set_solver.
Qed.

Lemma send_loop_spec d l : NoDup l -> forall hs, NoDup (TCPServerTransport.clients (h_tr hs)) ->
  exists hs', for_each l (TCPServerTransport.send_one d) hs = (Ok tt, hs') /\ sent_to d l hs hs'.
Proof.
  induction 1 as [|x l Hx _ IH]; intros hs Hnd.
  - exists hs. split; [done|]. split; [| |done..].
    + symmetry. apply filter_all, Forall_forall. intros s _. left. apply not_elem_of_nil.
    + intros s. by destruct (dget _ s).
  - cbn [for_each]. destruct (send_one_spec d x hs Hnd) as (hs1 & H1 & S1). rewrite (bind_run _ _ _ _ _ H1).
    destruct (IH hs1) as (hs2 & -> & S2).
    { rewrite (st_clients _ _ _ _ S1). by apply NoDup_filter. }
    exists hs2. split; [done|]. by apply (sent_to_cons _ _ _ _ hs1).
Qed.

(** The server's [send]: every client whose connection works gets the frame of
    the message appended to what it was sent, exactly once; a client whose
    connection fails is no longer a client, and no other is affected; the server's
    own subscribers and receive queues are not touched.  A message whose JSON is
    too long for the length field makes the server drop all its clients. *)
Theorem server_broadcast m d hs :
  serialize m = Ok d -> NoDup (TCPServerTransport.clients (h_tr hs)) ->
  exists hs', TCPServerTransport.send serialize m hs = (Ok tt, hs') /\
    sent_to d (TCPServerTransport.clients (h_tr hs)) hs hs' /\
    (sendable serialize plain m -> forall s c,
      s ∈ TCPServerTransport.clients (h_tr hs) -> dget (TCPServerTransport.conns (h_tr hs)) s = Some c -> fault c = None ->
      s ∈ TCPServerTransport.clients (h_tr hs') /\
      dget (TCPServerTransport.conns (h_tr hs')) s = Some (mkConn (sent c ++ frame serialize m) None)) /\
    (2 ^ 32 <= Z.of_nat (length d) -> TCPServerTransport.clients (h_tr hs') = []).
Proof.
  intros Hd Hnd. destruct (send_loop_spec d _ Hnd hs Hnd) as (hs' & Hrun & Hst). exists hs'. split_and!.
  - unfold TCPServerTransport.send, get_tr, gets, lift, bind. by rewrite Hd.
  - done.
  - intros Hs s c Hin Hc Hf. destruct (sendable_frame _ _ _ m Hs) as (d' & Hd' & _ & Hfr). assert (d' = d) as -> by congruence.
    split.
    + rewrite (st_clients _ _ _ _ Hst). apply list_elem_of_filter. split; [|done]. right. unfold takes. rewrite Hc.
      unfold conn_send. by rewrite Hfr, Hf.
    + rewrite (st_conns _ _ _ _ Hst), decide_True, Hc by done. cbn. unfold pushed, conn_send. by rewrite Hfr, Hf.
  - intros Hl. rewrite (st_clients _ _ _ _ Hst). apply filter_none, Forall_forall. intros s Hin [?|Ht]; [done|].
    unfold takes in Ht. destruct (dget _ s) as [c|]; [|done]. unfold conn_send in Ht.
    pose proof (send_msg_error d) as He. rewrite bool_decide_eq_false_2 in He by lia. by destruct (send_msg d).
Qed.

End link.
End Link.

(** * A concrete link: messages that are their topics *)
Module TcpToy.
Definition topic_msg (t : string) : Message := mkMessage "m" t VNone [] 0 None None.
Definition to_json (m : Message) : result bytes := Ok (String.list_ascii_of_string (topic m)).
Definition of_json (d : bytes) : result Message := Ok (topic_msg (String.string_of_list_ascii d)).
Definition is_topic (m : Message) : Prop := m = topic_msg (topic m).

#[global] Instance json_ok : JsonOk to_json of_json is_topic.
Proof.
  intros m Hm. eexists. split; [done|]. unfold of_json.
  rewrite String.string_of_list_ascii_of_string, <- Hm. by rewrite Hm.
Qed.

Abbreviation server := (heap (TCPServerTransport.state nat) (list nat)).
Abbreviation client := (heap (TCPClientTransport.state nat) (list nat)).

(** Callbacks are numbers, which are recorded; the topic [no] makes them raise. *)
Definition run {S : Type} (cb : nat) (m : Message) : M (heap S (list nat)) unit :=
  upd_rest (fun l => l ++ [cb]) ;;; (if decide (topic m = "no") then throw (Exc "ValueError" "no") else ret tt).

(** A server with two subscriptions and a connection, and one with two clients,
    the first of which has gone *)
Definition serving : server :=
  ((TCPServerTransport.start (Ok tt) ;;; TCPServerTransport.accepted 0 ;;;
    let! _ := TCPServerTransport.subscribe "a.*" 1%nat in TCPServerTransport.subscribe "*" 2%nat)
     (mkHeap 0 TCPServerTransport.init [])).2.

Definition linked : client := (TCPClientTransport.connect (Ok tt) (mkHeap 0 TCPClientTransport.init [])).2.

Definition two_clients : server :=
  mkHeap 0 (TCPServerTransport.mkState (mkTables [] [] []) [0; 1]%nat
    [(0%nat, mkConn [] (Some broken_pipe)); (1%nat, mkConn [] None)] true true) [].

Lemma tcp_run_keeps {S} (I : heap S (list nat) -> Prop) cb m :
  (forall h l, I h -> I (set_rest l h)) -> tame I (run cb m) /\ keeps I (run cb m).
Proof.
  intros HI. unfold run. split.
  - intros h e _. unfold upd_rest, modify, bind. case_decide; cbn; [by intros [= <-]|done].
  - intros h Hh. unfold upd_rest, modify, bind. case_decide; cbn; by apply HI.
Qed.

Lemma serving_up : Link.up serving.
Proof. split; [reflexivity|]. vm_compute. repeat constructor; set_solver. Qed.

Lemma toy_sendable t : (String.length t < 100)%nat -> sendable to_json is_topic (topic_msg t).
Proof.
  intros Hl. split; [done|]. intros d [= <-]. assert (length (String.list_ascii_of_string t) = String.length t) as ->; [|lia].
  clear Hl. induction t as [|c t IH]; [done|]. cbn. by rewrite IH.
Qed.
(** [TCPClientTransport.send] holds no lock: when the kernel takes the frame of "a" in
    two pieces, another thread's frame of "b" can come between them.  The server then
    reads a message that nobody sent, and neither of the two. *)
Definition frame_of (t : string) : bytes := frame to_json (topic_msg t).
Definition torn : bytes := take 4 (frame_of "a") ++ frame_of "b" ++ drop 4 (frame_of "a").

Example torn_frames :
  exists sk, recv_msg [torn] = (Ok (Some ["000"%char]), sk) /\ (recv_msg sk).1 = Ok None.
Proof. eexists. split; vm_compute; reflexivity. Qed.
End TcpToy.

Lemma tcp_tables_agree_witness :
  let h := TcpToy.serving in
  Tables.ok (Tables.unsubscribe "uuid-0" h).2 /\ Tables.pattern_of "uuid-1" (Tables.unsubscribe "uuid-0" h).2 = Some "*".
Proof.
  assert (Tables.ok TcpToy.serving) as Hok.
  { pose proof (Tables.table_subscribe (CB := nat) "a.*" 1%nat
      ((TCPServerTransport.start (Ok tt) ;;; TCPServerTransport.accepted 0) (mkHeap 0 TCPServerTransport.init ([] : list nat))).2
      Tables.ok_init) as (_ & H1 & _).
    exact (proj1 (proj2 (Tables.table_subscribe "*" 2%nat _ H1))). }
  destruct (Tables.tcp_tables_agree TcpToy.run (TcpToy.topic_msg "a.b") "t" "t" None 3%nat "uuid-0" TcpToy.serving)
    as (_ & Hu & _ & _ & _ & _ & _ & _ & _ & _ & _ & _ & _ & Hj).
  - intros cb. by apply TcpToy.tcp_run_keeps.
  - exact Hok.
  - split; [exact Hu|]. rewrite (Hj "uuid-1") by discriminate. vm_compute. reflexivity.
Defined.

(** Two messages, the bytes cut in the middle of the first length and the
    connection lost before the end of the second: the first is dispatched. *)
Lemma tcp_link_witness :
  exists (c : TcpToy.client) hs', TCPClientTransport.socket (h_tr c) = Some (mkConn (stream TcpToy.to_json [TcpToy.topic_msg "a.b"; TcpToy.topic_msg "no"]) None) /\
    TCPServerTransport.client_loop TcpToy.of_json TcpToy.run 3 0
      [take 2 (stream TcpToy.to_json [TcpToy.topic_msg "a.b"; TcpToy.topic_msg "no"]);
       take 9 (drop 2 (stream TcpToy.to_json [TcpToy.topic_msg "a.b"; TcpToy.topic_msg "no"]))] TcpToy.serving = (Ok (Some tt), hs') /\
    h_rest hs' = [1; 2]%nat /\ TCPServerTransport.clients (h_tr hs') = [].
Proof.
  destruct (Link.tcp_link TcpToy.to_json TcpToy.of_json TcpToy.is_topic TcpToy.run
    [TcpToy.topic_msg "a.b"; TcpToy.topic_msg "no"] TcpToy.linked TcpToy.serving) as (c & _ & Hc & Hl).
  - repeat constructor; apply TcpToy.toy_sendable; cbn; lia.
  - reflexivity.
  - exact TcpToy.serving_up.
  - intros cb m. by apply TcpToy.tcp_run_keeps.
  - destruct (Hl 11%nat [take 2 (stream TcpToy.to_json [TcpToy.topic_msg "a.b"; TcpToy.topic_msg "no"]);
       take 9 (drop 2 (stream TcpToy.to_json [TcpToy.topic_msg "a.b"; TcpToy.topic_msg "no"]))] 0%nat 3%nat)
      as (j & hs' & Hrun & Hd & _).
    + repeat constructor; discriminate.
    + reflexivity.
    + cbn. lia.
    + exists c, hs'. split; [exact Hc|]. split; [exact Hrun|].
      vm_compute in Hrun. injection Hrun as <-. split; reflexivity.
Defined.

(** The first client has gone; the second gets the frame. *)
Lemma server_broadcast_witness :
  exists hs', TCPServerTransport.send TcpToy.to_json (TcpToy.topic_msg "a.b") TcpToy.two_clients = (Ok tt, hs') /\
    TCPServerTransport.clients (h_tr hs') = [1]%nat.
Proof.
  destruct (Link.server_broadcast TcpToy.to_json TcpToy.of_json TcpToy.is_topic (CB := nat) (TcpToy.topic_msg "a.b")
    (String.list_ascii_of_string "a.b") TcpToy.two_clients) as (hs' & Hrun & Hst & _).
  - reflexivity.
  - vm_compute. repeat constructor; set_solver.
  - exists hs'. split; [exact Hrun|]. rewrite (Link.st_clients _ _ _ _ Hst). vm_compute. reflexivity.
Defined.

(** A frame of nonsense whose length is never reached *)
Lemma client_loop_ends_witness :
  exists hs', TCPServerTransport.client_loop TcpToy.of_json TcpToy.run 10 0 [["0"; "1"; "2"; "3"; "4"]%char; ["5"]%char]
    TcpToy.serving = (Ok (Some tt), hs') /\ 0%nat ∉ TCPServerTransport.clients (h_tr hs').
Proof.
  destruct (Link.client_loop_ends TcpToy.of_json TcpToy.run [["0"; "1"; "2"; "3"; "4"]%char; ["5"]%char] 0 10 TcpToy.serving)
    as (hs' & Hr & _ & _ & Hn).
  - intros d e. discriminate.
  - intros cb m. by apply TcpToy.tcp_run_keeps.
  - exact TcpToy.serving_up.
  - repeat constructor; discriminate.
  - cbn. lia.
  - exists hs'. split; [exact Hr|exact Hn].
Defined.
