(* ===== verification/TcpThreads.v ===== *)
(** * The threads of a [TCPServerTransport]

    Tcp has each operation as the statement it is.  Here they meet: the thread that
    accepts, one thread for each accepted socket, any number of callers of [send]
    and of [close], interleaved in any order.  What counts is who is listed in
    [_clients], which sockets are open and where each thread stands; what the
    messages are does not.  A section under the lock is one event, and so is each
    statement outside it. *)
From S2P Require Import Prelude.

Module TcpThreads.

(** [_accept_loop]: at its test; in [accept()]; with a socket that is not yet
    listed; with one that is, but has no thread yet; ended. *)
Inductive accept_pc : Type :=
  | AtTest
  | InAccept
  | Accepted (sock : nat)
  | Appended (sock : nat)
  | AcceptEnded.

(** [_client_loop]: at its test; in [_recv_msg]; in [_dispatch]; in its [finally],
    before the lock; before [sock.close()]; ended. *)
Inductive client_pc : Type :=
  | ClientTest
  | Reading
  | Dispatching
  | Leaving
  | Closing
  | ClientEnded.

#[global] Instance client_pc_eq_dec : EqDecision client_pc.
Proof. solve_decision. Defined.
#[global] Instance accept_pc_eq_dec : EqDecision accept_pc.
Proof. solve_decision. Defined.

Record sys : Type := mkSys {
  running : bool;
  listening : bool;
  clients : list nat;
  open_socks : gset nat;
  accepting : accept_pc;
  threads : gmap nat client_pc;
  flagged : nat;                  (** callers of [close] before the lock *)
  cleared : nat;                  (** and after it *)
}.

(** After [start()] *)
Definition started : sys := mkSys true true [] ∅ AtTest ∅ 0 0.

Definition set_accepting (a : accept_pc) (y : sys) : sys :=
  mkSys (running y) (listening y) (clients y) (open_socks y) a (threads y) (flagged y) (cleared y).
Definition set_clients (c : list nat) (y : sys) : sys :=
  mkSys (running y) (listening y) c (open_socks y) (accepting y) (threads y) (flagged y) (cleared y).
Definition set_open (o : gset nat) (y : sys) : sys :=
  mkSys (running y) (listening y) (clients y) o (accepting y) (threads y) (flagged y) (cleared y).
Definition set_thread (s : nat) (p : client_pc) (y : sys) : sys :=
  mkSys (running y) (listening y) (clients y) (open_socks y) (accepting y) (<[s := p]> (threads y)) (flagged y) (cleared y).

Inductive event : Type :=
  (** the accepting thread *)
  | TestLoop | Accept (sock : nat) | TimeOut | AcceptFails | Append | Spawn
  (** the thread of a client *)
  | TestClient (sock : nat) | Read (sock : nat) (message : bool) | Dispatched (sock : nat)
  | Remove (sock : nat) | CloseSock (sock : nat)
  (** [send], to which the sockets [bad] raise; [close], in three sections *)
  | Send (bad : list nat)
  | Close1 | Close2 | Close3.

(** Whether [socket.timeout] is a [TimeoutError], as it is from Python 3.10 on;
    before, it is another [OSError]. *)
Inductive python : Type := Python38 | Python310.

Section exec.
Variable version : python.

(** A step of the client thread of [s] that is at [p] *)
Definition at_pc (s : nat) (p : client_pc) (y : sys) (y' : sys) : option sys :=
  match threads y !! s with
  | Some p' => if decide (p' = p) then Some y' else None
  | None => None
  end.

Definition exec (e : event) (y : sys) : option sys :=
  match e with
  | TestLoop =>
      match accepting y with
      | AtTest => Some (set_accepting (if running y then InAccept else AcceptEnded) y)
      | _ => None
      end
  | Accept s =>
      match accepting y with
      | InAccept =>
          if listening y && bool_decide (threads y !! s = None) && bool_decide (s ∉ open_socks y)
          then Some (set_open ({[s]} ∪ open_socks y) (set_accepting (Accepted s) y))
          else None
      | _ => None
      end
  | TimeOut =>
      match accepting y with
      | InAccept => Some (set_accepting (match version with Python310 => AtTest | Python38 => AcceptEnded end) y)
      | _ => None
      end
  | AcceptFails =>
      match accepting y with
      | InAccept => Some (set_accepting AcceptEnded y)
      | _ => None
      end
  | Append =>
      match accepting y with
      | Accepted s => Some (set_accepting (Appended s) (set_clients (clients y ++ [s]) y))
      | _ => None
      end
  | Spawn =>
      match accepting y with
      | Appended s => Some (set_accepting AtTest (set_thread s ClientTest y))
      | _ => None
      end
  | TestClient s => at_pc s ClientTest y (set_thread s (if running y then Reading else Leaving) y)
  | Read s message => at_pc s Reading y (set_thread s (if message then Dispatching else Leaving) y)
  | Dispatched s => at_pc s Dispatching y (set_thread s ClientTest y)
  | Remove s =>
      at_pc s Leaving y (set_thread s Closing
        (if decide (s ∈ clients y) then set_clients (remove_first s (clients y)) y else y))
  | CloseSock s => at_pc s Closing y (set_thread s ClientEnded (set_open (open_socks y ∖ {[s]}) y))
  | Send bad =>
      if bool_decide (Forall (fun s => s ∈ open_socks y \/ s ∈ bad) (clients y))
      then Some (set_clients (filter (fun s => s ∉ bad) (clients y)) y)
      else None
  | Close1 => Some (mkSys false (listening y) (clients y) (open_socks y) (accepting y) (threads y) (S (flagged y)) (cleared y))
  | Close2 =>
      match flagged y with
      | S n => Some (mkSys (running y) (listening y) [] (open_socks y ∖ list_to_set (clients y)) (accepting y) (threads y) n (S (cleared y)))
      | O => None
      end
  | Close3 =>
      match cleared y with
      | S n => Some (mkSys (running y) false (clients y) (open_socks y) (accepting y) (threads y) (flagged y) n)
      | O => None
      end
  end.

Abbreviation run := (run_events exec).

(** * Nothing is left behind *)

(** The thread of [s] has its [finally] before it. *)
Definition will_remove (y : sys) (s : nat) : Prop :=
  accepting y = Appended s \/ exists p, threads y !! s = Some p /\ p <> Closing /\ p <> ClientEnded.

(** [s] has or will have a thread that closes it. *)
Definition will_close (y : sys) (s : nat) : Prop :=
  accepting y = Accepted s \/ accepting y = Appended s \/ exists p, threads y !! s = Some p /\ p <> ClientEnded.

Record ok (y : sys) : Prop := {
  ok_once : NoDup (clients y);
  ok_listed : forall s, s ∈ clients y -> will_remove y s;
  ok_open : forall s, s ∈ open_socks y -> will_close y s;
  ok_new : forall s, accepting y = Accepted s \/ accepting y = Appended s -> threads y !! s = None;
}.

Lemma threads_ok_started : ok started.
Proof.
  split; cbn; [apply NoDup_nil_2|by intros s ?%not_elem_of_nil|set_solver|]. by intros s [?|?].
Qed.

(** A client thread that moves from [p] to [p'], while sockets only leave the list
    and are only closed *)
Lemma ok_move y s p p' c o :
  ok y -> threads y !! s = Some p ->
  NoDup c -> (forall x, x ∈ c -> x ∈ clients y) -> (forall x, x ∈ o -> x ∈ open_socks y) ->
  (p' = Closing \/ p' = ClientEnded -> s ∉ c) -> (p' = ClientEnded -> s ∉ o) ->
  ok (set_thread s p' (set_open o (set_clients c y))).
Proof.
  intros [Hn Hl Ho Hw] Hs Hnc Hc Hoo Hc' Ho'. split; cbn; [done| | |].
  - intros x Hx. destruct (decide (x = s)) as [->|Hne].
    + right. exists p'. cbn. rewrite lookup_insert_eq. naive_solver.
    + destruct (Hl x (Hc x Hx)) as [?|(q & ? & ?)]; [by left|right]. exists q. cbn. by rewrite lookup_insert_ne.
  - intros x Hx. destruct (decide (x = s)) as [->|Hne].
    + right. right. exists p'. cbn. rewrite lookup_insert_eq. naive_solver.
    + destruct (Ho x (Hoo x Hx)) as [?|[?|(q & ? & ?)]]; [by left|by right; left|do 2 right].
      exists q. cbn. by rewrite lookup_insert_ne.
  - intros x Hx. rewrite lookup_insert_ne; [by apply Hw|]. intros <-. rewrite (Hw s Hx) in Hs. done.
Qed.

(** Sockets leave the list and are closed, while no thread moves. *)
Lemma ok_shrink y r l c o f g : ok y -> NoDup c -> (forall x, x ∈ c -> x ∈ clients y) -> (forall x, x ∈ o -> x ∈ open_socks y) ->
  ok (mkSys r l c o (accepting y) (threads y) f g).
Proof.
  intros [Hn Hl Ho Hw] Hc Hcl Hop. split; cbn; [done| | |done]; intros s Hs; [apply (Hl s)|apply (Ho s)]; auto.
Qed.

(** The accepting thread moves, without a socket. *)
Lemma ok_accepting y a : ok y -> (forall s, accepting y <> Accepted s /\ accepting y <> Appended s) ->
  (forall s, a <> Accepted s /\ a <> Appended s) -> ok (set_accepting a y).
Proof.
  intros [Hn Hl Ho Hw] Hy Ha. split; cbn; [done| | |].
  - intros s Hs. destruct (Hl s Hs) as [?|?]; [naive_solver|by right].
  - intros s Hs. destruct (Ho s Hs) as [?|[?|?]]; [naive_solver..|by right; right].
  - intros s. naive_solver.
Qed.

Lemma at_pc_inv s p y y' z : at_pc s p y y' = Some z -> threads y !! s = Some p /\ z = y'.
Proof. unfold at_pc. destruct (threads y !! s) as [q|]; [|done]. case_decide; naive_solver. Qed.

Lemma threads_ok_exec e y y' : ok y -> exec e y = Some y' -> ok y'.
Proof.
  intros Hok. pose proof Hok as [Hn Hl Ho Hw].
  destruct e as [|s| | | | |s|s m|s|s|s|bad| | |]; cbn [exec]; intros He.
  - destruct (accepting y) eqn:Ha; try done. injection He as <-.
    apply ok_accepting; [done|by rewrite Ha|by destruct (running y)].
  - destruct (accepting y) eqn:Ha; try done. case_match eqn:Hb; [|done]. injection He as <-.
    apply andb_prop in Hb as [[_ Ht%bool_decide_eq_true]%andb_prop Hs%bool_decide_eq_true].
    split; cbn; [done| | |by intros x [[= <-]|?]].
    + intros x Hx. destruct (Hl x Hx) as [?|?]; [congruence|by right].
    + intros x [->%elem_of_singleton|Hx]%elem_of_union; [by left|].
      destruct (Ho x Hx) as [?|[?|?]]; [congruence..|by right; right].
  - destruct (accepting y) eqn:Ha; try done. injection He as <-.
    apply ok_accepting; [done|by rewrite Ha|by destruct version].
  - destruct (accepting y) eqn:Ha; try done. injection He as <-. apply ok_accepting; [done|by rewrite Ha|done].
  - destruct (accepting y) as [| |s| |] eqn:Ha; try done. injection He as <-.
    assert (s ∉ clients y) as Hs.
    { intros Hs. destruct (Hl s Hs) as [?|(p & Hp & _)]; [congruence|]. rewrite (Hw s) in Hp; [done|by left]. }
    split; cbn.
    + apply NoDup_app. split; [done|]. split; [|apply NoDup_singleton]. intros x Hx ->%list_elem_of_singleton. done.
    + intros x [Hx| ->%list_elem_of_singleton]%elem_of_app; [|by left].
      destruct (Hl x Hx) as [?|?]; [congruence|by right].
    + intros x Hx. destruct (Ho x Hx) as [Hx'|[?|?]]; [|congruence|by right; right].
      rewrite Ha in Hx'. injection Hx' as <-. by right; left.
    + intros x [?|[= <-]]; [done|]. apply Hw. by left.
  - destruct (accepting y) as [| | |s|] eqn:Ha; try done. injection He as <-.
    assert (threads y !! s = None) as Hs by (apply Hw; by right).
    split; cbn; [done| | |by intros x [?|?]].
    + intros x Hx. right. cbn. destruct (decide (x = s)) as [->|Hne]; [exists ClientTest; by rewrite lookup_insert_eq|].
      rewrite lookup_insert_ne by done. destruct (Hl x Hx) as [?|?]; [congruence|done].
    + intros x Hx. do 2 right. cbn. destruct (decide (x = s)) as [->|Hne]; [exists ClientTest; by rewrite lookup_insert_eq|].
      rewrite lookup_insert_ne by done. destruct (Ho x Hx) as [?|[?|?]]; [congruence..|done].
  - apply at_pc_inv in He as [Hs ->]. apply (ok_move y s ClientTest _ (clients y) (open_socks y)); try done; destruct (running y); naive_solver.
  - apply at_pc_inv in He as [Hs ->]. apply (ok_move y s Reading _ (clients y) (open_socks y)); try done; destruct m; naive_solver.
  - apply at_pc_inv in He as [Hs ->]. apply (ok_move y s Dispatching _ (clients y) (open_socks y)); try done; naive_solver.
  - apply at_pc_inv in He as [Hs ->]. case_decide as Hin.
    + apply (ok_move y s Leaving Closing (remove_first s (clients y)) (open_socks y)); try done.
      * by apply remove_first_nodup.
      * intros x. rewrite remove_first_elem by done. naive_solver.
      * intros _. rewrite remove_first_elem by done. naive_solver.
    + by apply (ok_move y s Leaving Closing (clients y) (open_socks y)).
  - apply at_pc_inv in He as [Hs ->]. apply (ok_move y s Closing ClientEnded (clients y)); try done; [set_solver| |set_solver].
    intros _ Hin. destruct (Hl s Hin) as [Ha|(p & Hp & ? & ?)]; [|congruence].
    rewrite (Hw s) in Hs; [done|by right].
  - case_match; [|done]. injection He as <-. apply ok_shrink; [done|by apply NoDup_filter| |done].
    by intros x [_ ?]%list_elem_of_filter.
  - injection He as <-. by apply ok_shrink.
  - destruct (flagged y); [done|]. injection He as <-. apply ok_shrink; [done|apply NoDup_nil_2| |set_solver].
    by intros x ?%not_elem_of_nil.
  - destruct (cleared y); [done|]. injection He as <-. by apply ok_shrink.
Qed.

(** ** How much there is left to do *)
#[local] Open Scope nat_scope.

Definition is_thread (e : event) : bool :=
  match e with Send _ | Close1 | Close2 | Close3 => false | _ => true end.

Definition client_work (p : client_pc) : nat :=
  match p with ClientEnded => 0 | Closing => 1 | Leaving => 2 | ClientTest => 3 | Dispatching => 4 | Reading => 5 end.

Definition accept_work (a : accept_pc) : nat :=
  match a with AcceptEnded => 0 | AtTest => 1 | Appended _ => 5 | Accepted _ => 6 | InAccept => 7 end.

Definition threads_work (m : gmap nat client_pc) : nat :=
  sum_list_with (fun sp => client_work sp.2) (map_to_list m).

Definition work (y : sys) : nat := accept_work (accepting y) + threads_work (threads y).

Lemma threads_work_new m s p : m !! s = None -> threads_work (<[s := p]> m) = client_work p + threads_work m.
Proof. intros Hs. unfold threads_work. by rewrite (map_to_list_insert m s p Hs). Qed.

Lemma threads_work_insert m s p p' : m !! s = Some p ->
  threads_work (<[s := p']> m) + client_work p = threads_work m + client_work p'.
Proof.
  intros Hs. rewrite <- (insert_delete_id m s p Hs) at 2. rewrite <- (insert_delete_eq m s p').
  rewrite !threads_work_new by apply lookup_delete_eq. lia.
Qed.

(** Once the flag is down every step of a thread is one of the last ones. *)
Lemma exec_works e y y' : ok y -> running y = false -> exec e y = Some y' ->
  running y' = false /\ (if is_thread e then work y' < work y else work y' = work y).
Proof.
  intros [_ _ _ Hw] Hr He. unfold work.
  destruct e as [|s| | | | |s|s m|s|s|s|bad| | |]; cbn [exec is_thread] in *.
  - destruct (accepting y) eqn:Ha; try done. injection He as <-. cbn. rewrite Hr. cbn. split; [done|lia].
  - destruct (accepting y) eqn:Ha; try done. case_match; [|done]. injection He as <-. cbn. split; [done|lia].
  - destruct (accepting y) eqn:Ha; try done. injection He as <-. cbn. destruct version; cbn; split; done || lia.
  - destruct (accepting y) eqn:Ha; try done. injection He as <-. cbn. split; [done|lia].
  - destruct (accepting y) eqn:Ha; try done. injection He as <-. cbn. split; [done|lia].
  - destruct (accepting y) as [| | |s|] eqn:Ha; try done. injection He as <-. cbn.
    rewrite threads_work_new by (apply Hw; by right). cbn. split; [done|lia].
  - apply at_pc_inv in He as [Hs ->]. rewrite Hr. cbn. pose proof (threads_work_insert _ _ _ Leaving Hs). cbn in *. split; [done|lia].
  - apply at_pc_inv in He as [Hs ->]. cbn. destruct m.
    + pose proof (threads_work_insert _ _ _ Dispatching Hs). cbn in *. split; [done|lia].
    + pose proof (threads_work_insert _ _ _ Leaving Hs). cbn in *. split; [done|lia].
  - apply at_pc_inv in He as [Hs ->]. cbn. pose proof (threads_work_insert _ _ _ ClientTest Hs). cbn in *. split; [done|lia].
  - apply at_pc_inv in He as [Hs ->]. pose proof (threads_work_insert _ _ _ Closing Hs).
    case_decide; cbn in *; split; done || lia.
  - apply at_pc_inv in He as [Hs ->]. cbn. pose proof (threads_work_insert _ _ _ ClientEnded Hs). cbn in *. split; [done|lia].
  - case_match; [|done]. by injection He as <-.
  - by injection He as <-.
  - destruct (flagged y); [done|]. by injection He as <-.
  - destruct (cleared y); [done|]. by injection He as <-.
Qed.

Lemma run_works es y y' : ok y -> running y = false -> run es y = Some y' ->
  (length (List.filter is_thread es) + work y' <= work y)%nat.
Proof.
  revert y. induction es as [|e es IH]; intros y Hok Hr Hrun; cbn in Hrun; [injection Hrun as <-; cbn; lia|].
  destruct (exec e y) as [y1|] eqn:Hx; [|done]. destruct (exec_works e y y1 Hok Hr Hx) as [Hr1 Hlt].
  specialize (IH y1 (threads_ok_exec e y y1 Hok Hx) Hr1 Hrun). cbn [List.filter]. destruct (is_thread e); cbn; lia.
Qed.

(** A thread that has not ended has a next step. *)
Lemma stuck_ended y : (forall e, is_thread e = true -> exec e y = None) ->
  accepting y = AcceptEnded /\ forall s p, threads y !! s = Some p -> p = ClientEnded.
Proof.
  intros Hst. split.
  - destruct (accepting y) as [| |s|s|] eqn:Ha; [| | | |done].
    + specialize (Hst TestLoop eq_refl). cbn in Hst. by rewrite Ha in Hst.
    + specialize (Hst AcceptFails eq_refl). cbn in Hst. by rewrite Ha in Hst.
    + specialize (Hst Append eq_refl). cbn in Hst. by rewrite Ha in Hst.
    + specialize (Hst Spawn eq_refl). cbn in Hst. by rewrite Ha in Hst.
  - intros s p Hs.
    assert (forall q y', p = q -> at_pc s q y y' <> None) as Hat.
    { intros q y' <-. unfold at_pc. rewrite Hs. by rewrite decide_True. }
    destruct p; [| | | | |done]; exfalso.
    + by apply (Hat _ _ eq_refl (Hst (TestClient s) eq_refl)).
    + by apply (Hat _ _ eq_refl (Hst (Read s false) eq_refl)).
    + by apply (Hat _ _ eq_refl (Hst (Dispatched s) eq_refl)).
    + by apply (Hat _ _ eq_refl (Hst (Remove s) eq_refl)).
    + by apply (Hat _ _ eq_refl (Hst (CloseSock s) eq_refl)).
Qed.

(** C25 In every interleaving of the accepting thread, the clients' threads, senders
    and closers: no socket is listed twice; a listed socket has a thread, or is
    about to get one, that still has to take it out; an open socket has one that
    still has to close it; and a thread that has ended has left its socket neither
    listed nor open. *)
Theorem clients_accounted es y : run es started = Some y ->
  NoDup (clients y) /\
  (forall s, s ∈ clients y -> will_remove y s) /\
  (forall s, s ∈ open_socks y -> will_close y s) /\
  (forall s, threads y !! s = Some ClientEnded -> (s ∉ clients y) /\ s ∉ open_socks y).
Proof.
  intros Hrun. pose proof (run_events_keep _ ok _ _ _ threads_ok_exec threads_ok_started Hrun) as [Hn Hl Ho Hw].
  split_and!; [done..|]. intros s Hs. split; intros Hin.
  - destruct (Hl s Hin) as [Ha|(p & Hp & ? & ?)]; [|congruence]. rewrite (Hw s) in Hs; [done|by right].
  - destruct (Ho s Hin) as [Ha|[Ha|(p & Hp & ?)]]; [| |congruence]; rewrite (Hw s) in Hs; auto; done.
Qed.

(** C26 [close] drains the server.  From the moment its flag is down the threads
    together take at most [work] further steps, whatever is sent or closed
    meanwhile; and when none of them has a step left, no client is listed and no
    socket is open, the ones included that were accepted while [close] ran and
    listed after it had emptied the list. *)
Theorem close_drains es es' y y' : run es started = Some y -> running y = false -> run es' y = Some y' ->
  (length (List.filter is_thread es') <= work y)%nat /\
  ((forall e, is_thread e = true -> exec e y' = None) -> clients y' = [] /\ open_socks y' = ∅).
Proof.
  intros Hrun Hr Hrun'. pose proof (run_events_keep _ ok _ _ _ threads_ok_exec threads_ok_started Hrun) as Hok.
  split; [pose proof (run_works es' y y' Hok Hr Hrun'); lia|]. intros [Ha Ht]%stuck_ended.
  pose proof (run_events_keep _ ok _ _ _ threads_ok_exec Hok Hrun') as [_ Hl Ho _]. split.
  - destruct (clients y') as [|s l] eqn:Hc; [done|]. destruct (Hl s) as [?|(p & Hp & _ & Hne)]; [left|congruence|].
    by destruct (Hne (Ht s p Hp)).
  - apply set_eq. intros s. split; [|by intros ?%not_elem_of_empty]. intros Hs.
    destruct (Ho s Hs) as [?|[?|(p & Hp & Hne)]]; [congruence..|]. by destruct (Hne (Ht s p Hp)).
Qed.
End exec.
End TcpThreads.

Module ThreadsToy.
Import TcpThreads.

(** A socket is accepted while [close] runs, and listed after the list was emptied. *)
Definition late : list event := [TestLoop; Accept 1; Close1; Close2; Append].
Definition late_end : sys := default started (run_events (exec Python310) late started).

Definition ending : list event := [Spawn; TestLoop; TestClient 1; Close3; Remove 1; CloseSock 1].
Definition ended : sys := default started (run_events (exec Python310) ending late_end).

Example listed_after_close : clients late_end = [1%nat] /\ running late_end = false.
Proof. vm_compute. split; reflexivity. Qed.

(** A client that a failed [send] took off the list is still read and dispatched. *)
Example zombie :
  match run_events (exec Python310) [TestLoop; Accept 1; Append; Spawn; TestClient 1; Send [1%nat]; Read 1 true] started with
  | Some y => clients y = [] /\ bool_decide (1%nat ∈ open_socks y) = true /\ threads y !! 1%nat = Some Dispatching
  | None => False
  end.
Proof. vm_compute. split_and!; reflexivity. Qed.

(** Before Python 3.10 the first idle second ends the accepting thread of a running server. *)
Example deaf :
  match run_events (exec Python38) [TestLoop; TimeOut] started with
  | Some y => accepting y = AcceptEnded /\ running y = true /\ listening y = true
  | None => False
  end.
Proof. vm_compute. split_and!; reflexivity. Qed.
End ThreadsToy.

Lemma clients_accounted_witness :
  TcpThreads.will_remove ThreadsToy.late_end 1 /\
  (1%nat ∉ TcpThreads.clients ThreadsToy.ended) /\ (1%nat ∉ TcpThreads.open_socks ThreadsToy.ended).
Proof.
  split.
  - destruct (TcpThreads.clients_accounted TcpThreads.Python310 ThreadsToy.late ThreadsToy.late_end) as (_ & Hl & _).
    + vm_compute. reflexivity.
    + apply Hl. vm_compute. constructor.
  - destruct (TcpThreads.clients_accounted TcpThreads.Python310 (ThreadsToy.late ++ ThreadsToy.ending) ThreadsToy.ended)
      as (_ & _ & _ & He).
    + vm_compute. reflexivity.
    + apply He. vm_compute. reflexivity.
Defined.

(** The bound is met: the run takes five steps of threads. *)
Lemma close_drains_witness :
  TcpThreads.work ThreadsToy.late_end = 5%nat /\
  (length (List.filter TcpThreads.is_thread ThreadsToy.ending) <= TcpThreads.work ThreadsToy.late_end)%nat.
Proof.
  split; [vm_compute; reflexivity|].
  apply (TcpThreads.close_drains TcpThreads.Python310 ThreadsToy.late ThreadsToy.ending ThreadsToy.late_end ThreadsToy.ended);
    vm_compute; reflexivity.
Defined.
