(* ===== verification/Remote.v ===== *)
(** * [eventforge/remote.py]: [RemoteQueue]

    A node owns outbound TCP links, each a [TCPClientTransport] under a
    [MessageQueue] of its own, and may have a local queue over a
    [TCPServerTransport].  The links ever made are a store, and the two
    dictionaries [_peers] and [_transports] hold numbers of links; a method of a
    link, or of the local queue, runs on a heap made of its attributes. *)
From S2P Require Import Prelude PyDict Types Transport Observers Queue Wire Tcp.

Module RemoteQueue.

Record link : Type := mkLink {
  l_transport : TCPClientTransport.state chan_cb;
  l_queue : qstate unit;
}.

Record state (H : Type) : Type := mkState {
  links : list link;
  peers : list (string * nat);
  transports : list (string * nat);
  local : option (TCPServerTransport.state chan_cb * qstate H);
}.
Arguments mkState {H} _ _ _ _.
Arguments links {H} _.
Arguments peers {H} _.
Arguments transports {H} _.
Arguments local {H} _.

Section ops.
Context {H U : Type} `{!EqDecision H}.
Abbreviation state := (state H).
Abbreviation world := (heap state U).
Abbreviation linkw := (heap (TCPClientTransport.state chan_cb) (qstate unit * unit)).
Abbreviation localw := (heap (TCPServerTransport.state chan_cb) (qstate H * U)).
Variable serialize : Message -> result bytes.
(** [datetime.now] on a link's heap *)
Variable clock : linkw -> Z.

Definition init (l : option (TCPServerTransport.state chan_cb * qstate H)) : state := mkState [] [] [] l.

Definition set_links (l : list link) (s : state) : state := mkState l (peers s) (transports s) (local s).
Definition set_tables p t (s : state) : state := mkState (links s) p t (local s).
Definition set_local l (s : state) : state := mkState (links s) (peers s) (transports s) l.

(** A method of link [i]; there is no link but those of the store. *)
Definition on_link {A} (i : nat) (dflt : A) (m : M linkw A) : M world A := fun h =>
  match links (h_tr h) !! i with
  | Some l =>
      let '(r, h1) := m (mkHeap (h_uuid h) (l_transport l) (l_queue l, tt)) in
      (r, mkHeap (h_uuid h1) (set_links (<[i := mkLink (h_tr h1) (h_rest h1).1]> (links (h_tr h))) (h_tr h)) (h_rest h))
  | None => (Ok dflt, h)
  end.

Definition on_local {A} (m : M localw A) (none : M world A) : M world A := fun h =>
  match local (h_tr h) with
  | Some (t, q) =>
      let '(r, h1) := m (mkHeap (h_uuid h) t (q, h_rest h)) in
      (r, mkHeap (h_uuid h1) (set_local (Some (h_tr h1, (h_rest h1).1)) (h_tr h)) (h_rest h1).2)
  | None => none h
  end.

(** [TCPClientTransport(host, port)] with a queue over it *)
Definition new_link : M world nat := fun h =>
  (Ok (length (links (h_tr h))),
   set_tr (set_links (links (h_tr h) ++ [mkLink TCPClientTransport.init init_q]) (h_tr h)) h).

Definition close_link (i : nat) : M world unit := on_link i tt TCPClientTransport.close.

Definition connect (node_id : string) (connected : result unit) : M world unit :=
  let! i := new_link in
  on_link i tt (TCPClientTransport.connect connected) ;;;
  let! s := get_tr in
  upd_tr (set_tables (dset (peers s) node_id i) (dset (ddel (transports s) node_id) node_id i)) ;;;
  match dget (transports s) node_id with
  | Some old => close_link old
  | None => ret tt
  end.

Definition disconnect (node_id : string) : M world bool :=
  let! s := get_tr in
  upd_tr (set_tables (ddel (peers s) node_id) (ddel (transports s) node_id)) ;;;
  match dget (transports s) node_id with
  | None => ret false
  | Some i => close_link i ;;; ret true
  end.

(** [peer.publish] on the queue over link [i] *)
Definition link_publish (i : nat) (name : string) (p : val) (hd : hdrs) : M world string :=
  on_link i "" (publish (TR := TCPClientTransport.client_transport serialize) clock name p hd).

(** [str()] of a [KeyError] is the [repr] of its text. *)
Definition quote : string := String "034" "".
Definition not_connected (node_id : string) : exn :=
  Exc "KeyError" (quote +:+ "not connected to node '" +:+ node_id +:+ "'" +:+ quote).

Definition send (node_id name : string) (p : val) (hd : hdrs) : M world string :=
  let! s := get_tr in
  match dget (peers s) node_id with
  | None => throw (not_connected node_id)
  | Some i => link_publish i name p hd
  end.

(** The dictionary comprehension of [broadcast] *)
Fixpoint publish_to (l : list (string * nat)) (name : string) (p : val) (hd : hdrs) : M world (list (string * string)) :=
  match l with
  | [] => ret []
  | (node_id, i) :: l' =>
      let! msg_id := link_publish i name p hd in
      let! rest := publish_to l' name p hd in
      ret ((node_id, msg_id) :: rest)
  end.

Definition broadcast (name : string) (p : val) (hd : hdrs) : M world (list (string * string)) :=
  let! s := get_tr in
  publish_to (peers s) name p hd.

Definition no_local : exn :=
  Exc "RuntimeError" ("this RemoteQueue was created without a local queue; "
    +:+ "pass RemoteQueue(node_id, local=MessageQueue(...)) to receive.").

Definition subscribe (name : string) (handler : H) : M world string :=
  on_local (Queue.subscribe (TR := TCPServerTransport.server_transport serialize) name handler) (throw no_local).

Definition on_decorator (name : string) (handler : H) : M world H := subscribe name handler ;;; ret handler.

Definition close : M world unit :=
  let! s := get_tr in
  upd_tr (set_tables [] []) ;;;
  for_each (dvalues (transports s)) close_link ;;;
  on_local (Queue.close (TR := TCPServerTransport.server_transport serialize)) (ret tt).

(** [with remote: body] *)
Definition with_remote {A} (body : M world A) : M world A := try_finally body close.

Definition node_ids : M world (list string) := gets (fun h => dkeys (peers (h_tr h))).
End ops.

(** * Links *)
Section facts.
Context {H U : Type} `{!EqDecision H}.
Abbreviation world := (heap (state H) U).
Variable serialize : Message -> result bytes.
Implicit Types (h : world) (s : state H) (i : nat).

(** A link whose socket would still take data *)
Definition open (l : link) : bool :=
  match TCPClientTransport.socket (l_transport l) with Some c => bool_decide (fault c = None) | None => false end.

Definition open_at s i : Prop := exists l, links s !! i = Some l /\ open l = true.

(** The two dictionaries name the same link for each node, no link twice, and
    every open link: none is leaked. *)
Record wf_state s : Prop := {
  rq_peers : dict_ok (peers s);
  rq_dict : dict_ok (transports s);
  rq_agree : forall n, dget (peers s) n = dget (transports s) n;
  rq_once : NoDup (dvalues (transports s));
  rq_range : forall n i, dget (transports s) n = Some i -> (i < length (links s))%nat;
  rq_owned : forall i, open_at s i -> i ∈ dvalues (transports s);
}.

Definition wf h : Prop := wf_state (h_tr h).

(** All of it but the last *)
Record wf_tables h : Prop := {
  wt_peers : dict_ok (peers (h_tr h));
  wt_dict : dict_ok (transports (h_tr h));
  wt_agree : forall n, dget (peers (h_tr h)) n = dget (transports (h_tr h)) n;
  wt_once : NoDup (dvalues (transports (h_tr h)));
  wt_range : forall n i, dget (transports (h_tr h)) n = Some i -> (i < length (links (h_tr h)))%nat;
}.

Lemma wf_from h h' :
  wf_tables h -> peers (h_tr h') = peers (h_tr h) -> transports (h_tr h') = transports (h_tr h) ->
  length (links (h_tr h')) = length (links (h_tr h)) ->
  (forall i, open_at (h_tr h') i -> i ∈ dvalues (transports (h_tr h))) -> wf h'.
Proof. intros [] Hp Ht Hl Ho. by split; rewrite ?Hp, ?Ht, ?Hl. Qed.

(** A dictionary without repeated values, by its lookups *)
Lemma dvalues_dget (d : list (string * nat)) i : dict_ok d -> i ∈ dvalues d -> exists n, dget d n = Some i.
Proof.
  intros Hd Hi. unfold dvalues in Hi. apply list_elem_of_fmap in Hi as ([n v] & -> & Hin). exists n. by apply elem_dget.
Qed.

Lemma dvalues_once (d : list (string * nat)) : dict_ok d ->
  (forall n m i, dget d n = Some i -> dget d m = Some i -> n = m) -> NoDup (dvalues d).
Proof.
  intros Hd Hinj. assert (forall n i, (n, i) ∈ d -> dget d n = Some i) as Hg by (intros; by apply elem_dget).
  assert (forall n m i, (n, i) ∈ d -> (m, i) ∈ d -> n = m) as Hi by eauto. clear Hinj Hg.
  unfold dict_ok, dkeys, dvalues in *. induction d as [|[n v] d IH]; [apply NoDup_nil_2|]. cbn in *.
  apply NoDup_cons in Hd as [Hn Hd]. apply NoDup_cons. split.
  - intros ([m w] & -> & Hm)%list_elem_of_fmap. apply Hn, list_elem_of_fmap. exists (m, w). split; [|done]. cbn in *.
    apply (Hi n m w); [by left|by right].
  - apply IH; [done|]. intros; eapply Hi; by right.
Qed.

Lemma once_inj (d : list (string * nat)) : dict_ok d -> NoDup (dvalues d) ->
  forall n m i, dget d n = Some i -> dget d m = Some i -> n = m.
Proof.
  intros Hd Ho n m i Hn%dget_elem Hm%dget_elem. unfold dict_ok, dkeys, dvalues in *. clear Hd.
  induction d as [|[k v] d IH]; [by apply not_elem_of_nil in Hn|]. cbn in *. apply NoDup_cons in Ho as [Hv Ho].
  apply elem_of_cons in Hn, Hm. destruct Hn as [[= -> ->]|Hn], Hm as [[= ->]|Hm]; [done| | |by apply IH];
    exfalso; apply Hv, list_elem_of_fmap; by eexists (_, _).
Qed.

Lemma remote_wf_init l : wf_state (init l).
Proof.
  split; try done; try apply NoDup_nil_2. by intros i (x & Hx & _).
Qed.

(** What a method of a link does to the node *)
Lemma on_link_spec {A} i (dflt : A) m h l :
  links (h_tr h) !! i = Some l ->
  exists r k, m (mkHeap (h_uuid h) (l_transport l) (l_queue l, tt)) = (r, k) /\
    on_link i dflt m h = (r, mkHeap (h_uuid k)
      (set_links (<[i := mkLink (h_tr k) (h_rest k).1]> (links (h_tr h))) (h_tr h)) (h_rest h)).
Proof. intros Hl. unfold on_link. rewrite Hl. destruct (m _) as [r k]. by eexists _, _. Qed.

(** Closing a link closes that one. *)
Lemma close_link_spec i h : exists h', close_link (H := H) (U := U) i h = (Ok tt, h') /\
  peers (h_tr h') = peers (h_tr h) /\ transports (h_tr h') = transports (h_tr h) /\
  local (h_tr h') = local (h_tr h) /\ h_rest h' = h_rest h /\
  length (links (h_tr h')) = length (links (h_tr h)) /\
  forall j, open_at (h_tr h') j <-> j <> i /\ open_at (h_tr h) j.
Proof.
  destruct (links (h_tr h) !! i) as [l|] eqn:Hl.
  - destruct (on_link_spec i tt TCPClientTransport.close h l Hl) as (r & h1 & Hm & Hon).
    unfold close_link. rewrite Hon. unfold TCPClientTransport.close, Tables.clear, Tables.upd_tables, upd_tr, modify, bind in Hm.
    injection Hm as <- <-. eexists. split; [done|]. cbn. rewrite length_insert. split_and!; [done..|].
    intros j. unfold open_at. cbn. destruct (decide (j = i)) as [->|Hj].
    + rewrite list_lookup_insert_eq by by eapply lookup_lt_Some. split; [|naive_solver].
      intros (l' & [= <-] & Ho). unfold open in Ho. cbn in Ho. by destruct (TCPClientTransport.socket (l_transport l)).
    + rewrite list_lookup_insert_ne by done. naive_solver.
  - exists h. unfold close_link, on_link. rewrite Hl. split_and!; try done. intros j. split; [|naive_solver].
    intros Ho. split; [|done]. intros ->. destruct Ho as (l & Hl' & _). congruence.
Qed.

Lemma close_links_spec (l : list nat) h : exists h', for_each l (close_link (H := H) (U := U)) h = (Ok tt, h') /\
  peers (h_tr h') = peers (h_tr h) /\ transports (h_tr h') = transports (h_tr h) /\
  local (h_tr h') = local (h_tr h) /\
  forall j, open_at (h_tr h') j <-> (j ∉ l) /\ open_at (h_tr h) j.
Proof.
  revert h. induction l as [|i l IH]; intros h.
  - exists h. split_and!; try done. intros j. split; [|naive_solver]. split; [apply not_elem_of_nil|done].
  - destruct (close_link_spec i h) as (h1 & H1 & P1 & T1 & L1 & _ & _ & O1).
    destruct (IH h1) as (h2 & H2 & P2 & T2 & L2 & O2). exists h2. cbn [for_each].
    rewrite (bind_run _ _ _ _ _ H1). split_and!; [done|congruence..|].
    intros j. rewrite O2, O1, elem_of_cons. naive_solver.
Qed.

(** *** The operations that change the links *)
Lemma new_link_connect h conn : exists h0 h1,
  new_link h = (Ok (length (links (h_tr h))), h0) /\
  on_link (length (links (h_tr h))) tt (TCPClientTransport.connect conn) h0 = (conn, h1) /\
  peers (h_tr h1) = peers (h_tr h) /\ transports (h_tr h1) = transports (h_tr h) /\
  length (links (h_tr h1)) = S (length (links (h_tr h))) /\
  forall j, open_at (h_tr h1) j <-> (open_at (h_tr h) j \/ (j = length (links (h_tr h)) /\ is_Ok conn = true)).
Proof.
  set (l0 := mkLink TCPClientTransport.init init_q).
  set (h0 := set_tr (set_links (links (h_tr h) ++ [l0]) (h_tr h)) h).
  assert (links (h_tr h0) !! length (links (h_tr h)) = Some l0) as Hl by (cbn; by apply list_lookup_middle).
  destruct (on_link_spec (length (links (h_tr h))) tt (TCPClientTransport.connect conn) h0 l0 Hl) as (r & k & Hm & Hon).
  assert (r = conn /\ open (mkLink (h_tr k) (h_rest k).1) = is_Ok conn) as [-> Ho].
  { unfold TCPClientTransport.connect, upd_tr, modify, lift, bind in Hm.
    destruct conn as [[]|e]; injection Hm as <- <-; by split. }
  exists h0. eexists. split; [done|]. split; [exact Hon|]. split_and!; try done.
  - cbn. rewrite length_insert, length_app. cbn. lia.
  - intros j. unfold open_at. cbn. destruct (decide (j = length (links (h_tr h)))) as [->|Hj].
    + rewrite list_lookup_insert_eq by (rewrite length_app; cbn; lia). split.
      * intros (l & [= <-] & Hopen). right. split; [done|]. by rewrite Ho in Hopen.
      * intros [(l & Hlo & _)|[_ Hc]]; [apply lookup_lt_Some in Hlo; lia|]. eexists. split; [done|].
        by rewrite Ho.
    + rewrite list_lookup_insert_ne by done. split.
      * intros (l & Hlo & Hopen). left. exists l. split; [|done]. apply lookup_app_Some in Hlo as [?|[Hge Hlo]]; [done|].
        destruct (j - length (links (h_tr h)))%nat eqn:Hd; [lia|]. by destruct n.
      * intros [(l & Hlo & Hopen)|[? _]]; [|done]. exists l. split; [|done]. by apply lookup_app_l_Some.
Qed.

Lemma wf_connect node conn h : wf h -> wf (connect node conn h).2.
Proof.
  intros [Hpd Hd Ha Ho Hr Hown]. destruct (new_link_connect h conn) as (h0 & h1 & H0 & H1 & P1 & T1 & L1 & O1).
  unfold connect. rewrite (bind_run _ _ _ _ _ H0). set (n := length (links (h_tr h))) in *.
  assert (forall m i, dget (transports (h_tr h)) m = Some i -> i <> n) as Hn by (intros m i Hi%Hr; lia).
  destruct conn as [[]|e]; unfold bind at 1; rewrite H1.
  2: { split; cbn; rewrite ?T1, ?P1; try done.
    - intros m i Hi%Hr. rewrite L1. lia.
    - intros i [Hi|[_ ?]]%O1; [by apply Hown|done]. }
  unfold get_tr, gets, bind at 1.
  set (h2 := set_tr (set_tables (dset (peers (h_tr h1)) node n) (dset (ddel (transports (h_tr h1)) node) node n) (h_tr h1)) h1).
  rewrite (bind_run _ _ h1 tt h2) by done.
  assert (forall i, open_at (h_tr h2) i <-> open_at (h_tr h1) i) as O2 by done.
  assert (transports (h_tr h2) = dset (ddel (transports (h_tr h)) node) node n) as T2 by (cbn; by rewrite T1).
  assert (peers (h_tr h2) = dset (peers (h_tr h)) node n) as P2 by (cbn; by rewrite P1).
  assert (forall m i, dget (transports (h_tr h2)) m = Some i <->
    (m = node /\ i = n) \/ (m <> node /\ dget (transports (h_tr h)) m = Some i)) as G2.
  { intros m i. rewrite T2, dget_dset, dget_ddel. destruct (decide (m = node)); naive_solver. }
  assert (dict_ok (transports (h_tr h2))) as D2 by (rewrite T2; by apply dict_ok_dset, dict_ok_ddel).
  assert (wf_tables h2) as W2.
  { split; [rewrite P2; by apply dict_ok_dset|done|..].
    - intros m. rewrite P2, T2, !dget_dset, dget_ddel, Ha. by repeat case_decide.
    - apply (dvalues_once _ D2). intros m1 m2 i [[-> ->]|[? H1']]%G2 [[-> Hi]|[? H2']]%G2; [done| | |].
      + by apply Hn in H2'.
      + subst. by apply Hn in H1'.
      + by apply (once_inj _ Hd Ho m1 m2 i).
    - intros m i [[-> ->]|[? Hi%Hr]]%G2; cbn; rewrite L1; lia. }
  assert (forall i, open_at (h_tr h2) i -> i ∈ dvalues (transports (h_tr h2)) \/ dget (transports (h_tr h1)) node = Some i) as Own2.
  { intros i [Hi|[-> _]]%O2%O1; [|left; apply (elem_dvalues _ node), G2; by left].
    apply Hown, dvalues_dget in Hi as [m Hm]; [|done]. destruct (decide (m = node)) as [->|Hmn]; [right; by rewrite T1|].
    left. apply (elem_dvalues _ m), G2. by right. }
  destruct (dget (transports (h_tr h1)) node) as [old|].
  - destruct (close_link_spec old h2) as (h3 & H3 & P3 & T3 & _ & _ & L3 & O3). rewrite H3. cbn.
    apply (wf_from h2 h3); try done. intros i [Hio Hi]%O3. destruct (Own2 i Hi) as [?|[= ->]]; [done|done].
  - apply (wf_from h2 h2); try done. intros i Hi. by destruct (Own2 i Hi) as [?|?].
Qed.

Lemma wf_disconnect node h : wf h -> wf (disconnect node h).2.
Proof.
  intros [Hpd Hd Ha Ho Hr Hown]. unfold disconnect, get_tr, gets, bind at 1.
  set (h1 := set_tr (set_tables (ddel (peers (h_tr h)) node) (ddel (transports (h_tr h)) node) (h_tr h)) h).
  rewrite (bind_run _ _ h tt h1) by done.
  assert (forall m i, dget (transports (h_tr h1)) m = Some i <-> m <> node /\ dget (transports (h_tr h)) m = Some i) as G1.
  { intros m i. cbn. rewrite dget_ddel. case_decide; naive_solver. }
  assert (dict_ok (transports (h_tr h1))) as D1 by by apply dict_ok_ddel.
  assert (wf_tables h1) as W1.
  { split; [by apply dict_ok_ddel|done|..].
    - intros m. cbn. rewrite !dget_ddel, Ha. by case_decide.
    - apply (dvalues_once _ D1). intros m1 m2 i [_ H1]%G1 [_ H2]%G1. by apply (once_inj _ Hd Ho m1 m2 i).
    - intros m i [_ Hi%Hr]%G1. done. }
  assert (forall i, open_at (h_tr h1) i -> i ∈ dvalues (transports (h_tr h1)) \/ dget (transports (h_tr h)) node = Some i) as Own1.
  { intros i Hi. apply Hown, dvalues_dget in Hi as [m Hm]; [|done]. destruct (decide (m = node)) as [->|Hmn]; [by right|].
    left. apply (elem_dvalues _ m), G1. by split. }
  destruct (dget (transports (h_tr h)) node) as [old|].
  - destruct (close_link_spec old h1) as (h2 & H2 & P2 & T2 & _ & _ & L2 & O2). rewrite (bind_run _ _ _ _ _ H2). cbn.
    apply (wf_from h1 h2); try done. intros i [Hio Hi]%O2. destruct (Own1 i Hi) as [?|[= ->]]; [done|done].
  - apply (wf_from h1 h1); try done. intros i Hi. by destruct (Own1 i Hi).
Qed.

(** Publishing on a link leaves the tables and the sockets' errors alone. *)
Lemma link_publish_same clock i name p hd h :
  let h' := (link_publish (H := H) (U := U) serialize clock i name p hd h).2 in
  peers (h_tr h') = peers (h_tr h) /\ transports (h_tr h') = transports (h_tr h) /\
  length (links (h_tr h')) = length (links (h_tr h)) /\ forall j, open_at (h_tr h') j <-> open_at (h_tr h) j.
Proof.
  destruct (links (h_tr h) !! i) as [l|] eqn:Hl; [|unfold link_publish, on_link; by rewrite Hl].
  destruct (on_link_spec i "" (publish (TR := TCPClientTransport.client_transport serialize) clock name p hd) h l Hl)
    as (r & k & Hm & Hon).
  assert (open (mkLink (h_tr k) (h_rest k).1) = open l) as Ho.
  { unfold publish, new_message, new_uuid, gets, bind, ret in Hm. cbn in Hm. unfold TCPClientTransport.send, get_tr, gets, lift, throw, upd_tr, modify, bind in Hm.
    cbn in Hm. unfold open in *. cbn. destruct (TCPClientTransport.socket (l_transport l)) as [c|] eqn:Hs.
    - destruct (serialize _) as [d|e]; [|by injection Hm as _ <-; cbn; rewrite Hs].
      destruct (conn_send c d) as [c'|e] eqn:Hc; injection Hm as _ <-; cbn; [|by rewrite Hs].
      unfold conn_send in Hc. destruct (send_msg d); [|done]. destruct (fault c) eqn:Hf; [done|]. by injection Hc as <-.
    - injection Hm as _ <-. cbn. by rewrite Hs. }
  unfold link_publish. rewrite Hon. cbn. rewrite length_insert. split_and!; [done..|].
  intros j. unfold open_at. cbn. destruct (decide (j = i)) as [->|Hj]; [|by rewrite list_lookup_insert_ne].
  rewrite list_lookup_insert_eq by by eapply lookup_lt_Some. rewrite Hl. split; intros (l' & [= <-] & Hl'); (eexists; split; [done|congruence]).
Qed.

Lemma keeps_link_publish clock i name p hd : keeps wf (link_publish (H := H) (U := U) serialize clock i name p hd).
Proof.
  intros h [Hpd Hd Ha Ho Hr Hown]. destruct (link_publish_same clock i name p hd h) as (P1 & T1 & L1 & O1).
  split; rewrite ?P1, ?T1, ?L1; try done. intros j Hj%O1. by apply Hown.
Qed.

Lemma keeps_remote_send clock node name p hd : keeps wf (send (H := H) (U := U) serialize clock node name p hd).
Proof. unfold send, get_tr. pose proof (fun i => keeps_link_publish clock i name p hd). eauto 8 with py. Qed.

Lemma keeps_remote_broadcast clock name p hd : keeps wf (broadcast (H := H) (U := U) serialize clock name p hd).
Proof.
  unfold broadcast, get_tr. apply keeps_bind; [apply keeps_gets|]. intros s. induction (peers s) as [|[n i] l IH]; [apply keeps_ret|].
  cbn. pose proof (keeps_link_publish clock i name p hd). eauto 8 with py.
Qed.

(** The local queue has tables and sockets of its own. *)
Lemma keeps_on_local {A} (m : M (heap (TCPServerTransport.state chan_cb) (qstate H * U)) A) none :
  keeps wf none -> keeps wf (on_local m none).
Proof.
  intros Hn h Hwf. unfold on_local. destruct (local (h_tr h)) as [[t q]|]; [|by apply Hn].
  destruct (m _) as [r h1]. by destruct Hwf.
Qed.

Lemma remote_wf_close h : wf h -> wf (close (H := H) (U := U) serialize h).2 /\
  forall i, ~ open_at (h_tr (close (H := H) (U := U) serialize h).2) i.
Proof.
  intros [Hpd Hd Ha Ho Hr Hown]. unfold close, get_tr, gets, bind at 1 4.
  set (h1 := set_tr (set_tables [] [] (h_tr h)) h). rewrite !(bind_run _ _ h tt h1) by done.
  destruct (close_links_spec (dvalues (transports (h_tr h))) h1) as (h2 & H2 & P2 & T2 & _ & O2).
  rewrite !(bind_run _ _ _ _ _ H2).
  assert (forall i, ~ open_at (h_tr h2) i) as Hno by (intros i [Hi1 Hi2]%O2; by apply Hi1, Hown).
  unfold on_local. destruct (local (h_tr h2)) as [[t q]|].
  - destruct (Queue.close _) as [r h3]. cbn. split; [|done].
    split; cbn; rewrite ?P2, ?T2; try done; [apply NoDup_nil_2..|]. intros i Hi. by apply Hno in Hi.
  - cbn. split; [|done]. split; rewrite ?P2, ?T2; try done; [apply NoDup_nil_2..|]. intros i Hi. by apply Hno in Hi.
Qed.

(** After the [with] block no socket is open, however it ends. *)
Lemma with_remote_closes {A} (body : M world A) h : wf (body h).2 ->
  forall i, ~ open_at (h_tr (with_remote serialize body h).2) i.
Proof.
  intros Hwf. unfold with_remote, try_finally. destruct (body h) as [r h1].
  destruct (remote_wf_close h1 Hwf) as [_ Hc]. by destruct (close serialize h1) as [[] ?].
Qed.

(** C27 The links of a node: every operation keeps the two dictionaries in
    agreement, gives no two nodes the same link, and leaks none: a link with an
    open socket is always one of the table, so that replacing or disconnecting a
    node closes its old link, a refused connection leaves the tables as they
    were, and after [close] no socket is open. *)
Theorem links_owned clock node conn name p hd handler h : wf h ->
  wf (connect node conn h).2 /\ wf (disconnect node h).2 /\ wf (send serialize clock node name p hd h).2 /\
  wf (broadcast serialize clock name p hd h).2 /\ wf (subscribe serialize name handler h).2 /\
  wf (close serialize h).2 /\ (forall i, ~ open_at (h_tr (close serialize h).2) i) /\
  (is_Ok conn = false -> (connect node conn h).1 = conn /\
    peers (h_tr (connect node conn h).2) = peers (h_tr h) /\ transports (h_tr (connect node conn h).2) = transports (h_tr h)).
Proof.
  intros Hwf. destruct (remote_wf_close h Hwf) as [? ?]. split_and!; try done.
  - by apply wf_connect.
  - by apply wf_disconnect.
  - by apply keeps_remote_send.
  - by apply keeps_remote_broadcast.
  - apply keeps_on_local; [apply keeps_throw|done].
  - intros Hc. destruct (new_link_connect h conn) as (h0 & h1 & N0 & N1 & P1 & T1 & _).
    destruct conn as [|e]; [done|]. assert (connect node (Raise e) h = (Raise e, h1)) as ->; [|by split_and!].
    unfold connect. rewrite (bind_run _ _ _ _ _ N0). unfold bind at 1. by rewrite N1.
Qed.

(** ** [broadcast] *)
Section broadcast.
Context (deserialize : bytes -> result Message) (plain : Message -> Prop).
Context {json : JsonOk serialize deserialize plain}.
Variable clock : heap (TCPClientTransport.state chan_cb) (qstate unit * unit) -> Z.
Variables (name : string) (p : val) (hd : hdrs).
(** The messages made before the [limit]-th id can be sent. *)
Variable limit : nat.
Hypothesis fits : forall k w, (k < limit)%nat -> sendable serialize plain (mkMessage (uuid4 k) name p hd (clock w) None None).

(** What a link has been given to send *)
Definition carried (l : link) : bytes :=
  match TCPClientTransport.socket (l_transport l) with Some c => sent c | None => [] end.

(** The message [m] of the broadcast went out on link [i]. *)
Definition carries h h' i (m : Message) : Prop :=
  Types.topic m = name /\ payload m = p /\ headers m = hd /\
  exists l l', links (h_tr h) !! i = Some l /\ links (h_tr h') !! i = Some l' /\
    carried l' = carried l ++ frame serialize m.

Abbreviation link_pub := (link_publish (H := H) (U := U) serialize clock).

Lemma link_publish_open i h : (h_uuid h < limit)%nat -> open_at (h_tr h) i ->
  exists m h', link_pub i name p hd h = (Ok (msg_id m), h') /\ carries h h' i m /\ h_uuid h' = S (h_uuid h) /\
    forall j, j <> i -> links (h_tr h') !! j = links (h_tr h) !! j.
Proof.
  intros Hk (l & Hl & Hopen).
  destruct (on_link_spec i "" (publish (TR := TCPClientTransport.client_transport serialize) clock name p hd) h l Hl)
    as (r & k & Hm & Hon). unfold link_publish. rewrite Hon.
  unfold open in Hopen. destruct (TCPClientTransport.socket (l_transport l)) as [c|] eqn:Hs; [|done].
  apply bool_decide_eq_true in Hopen.
  set (h0 := mkHeap (h_uuid h) (l_transport l) (l_queue l, tt)) in Hm.
  set (m := mkMessage (uuid4 (h_uuid h)) name p hd (clock (mkHeap (S (h_uuid h)) (l_transport l) (l_queue l, tt))) None None).
  destruct (sendable_frame serialize deserialize plain m (fits _ _ Hk)) as (d & Hd & _ & Hf).
  exists m. unfold publish, new_message, new_uuid, gets, bind, ret in Hm. cbn in Hm. fold m in Hm.
  unfold TCPClientTransport.send, get_tr, gets, lift, upd_tr, modify, bind in Hm. cbn in Hm. rewrite Hs, Hd in Hm.
  unfold conn_send in Hm. rewrite Hf, Hopen in Hm. injection Hm as <- <-.
  eexists. split; [done|]. cbn. split; [|split; [done|]].
  - split_and!; try done. exists l. eexists. cbn. rewrite list_lookup_insert_eq by by eapply lookup_lt_Some.
    split_and!; [done..|]. unfold carried. cbn. by rewrite Hs.
  - intros j Hj. by rewrite list_lookup_insert_ne.
Qed.

Lemma link_publish_closed i l h : links (h_tr h) !! i = Some l -> open l = false ->
  exists e h', link_pub i name p hd h = (Raise e, h') /\ links (h_tr h') = links (h_tr h).
Proof.
  intros Hl Hopen.
  destruct (on_link_spec i "" (publish (TR := TCPClientTransport.client_transport serialize) clock name p hd) h l Hl)
    as (r & k & Hm & Hon). unfold link_publish. rewrite Hon.
  assert (exists e, r = Raise e /\ h_tr k = l_transport l /\ (h_rest k).1 = l_queue l) as (e & -> & Ht & Hq).
  { unfold publish, new_message, new_uuid, gets, bind, ret in Hm. cbn in Hm.
    unfold TCPClientTransport.send, get_tr, gets, lift, throw, upd_tr, modify, bind in Hm. cbn in Hm. unfold open in Hopen.
    destruct (TCPClientTransport.socket (l_transport l)) as [c|]; [|injection Hm as <- <-; by eexists].
    apply bool_decide_eq_false in Hopen. destruct (serialize _) as [d|e]; [|injection Hm as <- <-; by eexists].
    destruct (conn_send c d) as [c'|e] eqn:Hc; [|injection Hm as <- <-; by eexists].
    unfold conn_send in Hc. destruct (send_msg d); [|done]. by destruct (fault c). }
  do 2 eexists. split; [done|]. cbn. rewrite Ht, Hq. destruct l. by apply list_insert_id.
Qed.

(** The peers [l] have been given their message; no other link was touched. *)
Record reached (l : list (string * nat)) (ids : list (string * string)) h h' : Prop := {
  re_sent : Forall2 (fun e r => r.1 = e.1 /\ exists m, r.2 = msg_id m /\ carries h h' e.2 m) l ids;
  re_others : forall j, j ∉ l.*2 -> links (h_tr h') !! j = links (h_tr h) !! j;
}.

Lemma reached_cons n i m l ids h h1 h2 :
  i ∉ l.*2 -> carries h h1 i m -> (forall j, j <> i -> links (h_tr h1) !! j = links (h_tr h) !! j) ->
  reached l ids h1 h2 -> reached ((n, i) :: l) ((n, msg_id m) :: ids) h h2.
Proof.
  intros Hi (Ht & Hp & Hh & l0 & l1 & Hl0 & Hl1 & Hca) Hj [Hs Ho]. split.
  - constructor.
    + split; [done|]. exists m. split; [done|]. split_and!; try done. exists l0, l1. split_and!; [done| |done]. by rewrite Ho.
    + clear -Hi Hs Hj. revert Hi. induction Hs as [|e r l ids [Hr (m' & Hm' & Ht' & Hp' & Hh' & x & y & Hx & Hy & Hc')] _ IH];
        intros Hi; constructor; [|by apply IH; set_solver].
      split; [done|]. exists m'. split; [done|]. split_and!; try done. exists x, y. split_and!; [|done..].
      rewrite <- Hj by set_solver. done.
  - intros j Hjl. rewrite Ho, Hj by set_solver. done.
Qed.

Lemma publish_to_open l h : (h_uuid h + length l <= limit)%nat -> NoDup l.*2 -> Forall (fun e => open_at (h_tr h) e.2) l ->
  exists ids h', publish_to (H := H) (U := U) serialize clock l name p hd h = (Ok ids, h') /\ reached l ids h h'.
Proof.
  revert h. induction l as [|[n i] l IH]; intros h Hk Hnd Ho; [exists [], h; split; [done|]; split; [constructor|done]|].
  cbn in Hnd, Hk. apply NoDup_cons in Hnd as [Hi Hnd]. apply Forall_cons in Ho as [Hio Ho].
  destruct (link_publish_open i h ltac:(lia) Hio) as (m & h1 & H1 & Hc & Hk1 & Hj).
  destruct (IH h1 ltac:(lia) Hnd) as (ids & h2 & H2 & Hr).
  { rewrite Forall_forall in *. intros [n' j] Hin. destruct (Ho _ Hin) as (x & Hx & Hxo). exists x. split; [|done].
    cbn in *. rewrite Hj; [done|]. intros ->. apply Hi, list_elem_of_fmap. by exists (n', i). }
  exists ((n, msg_id m) :: ids), h2. cbn [publish_to]. rewrite (bind_run _ _ _ _ _ H1), (bind_run _ _ _ _ _ H2).
  split; [done|]. by apply (reached_cons n i m l ids h h1 h2).
Qed.

Lemma publish_to_app l1 l2 h ids h1 : publish_to (H := H) (U := U) serialize clock l1 name p hd h = (Ok ids, h1) ->
  publish_to serialize clock (l1 ++ l2) name p hd h =
    (let! rest := publish_to serialize clock l2 name p hd in ret (ids ++ rest)) h1.
Proof.
  revert h ids. induction l1 as [|[n i] l1 IH]; intros h ids Hrun.
  - injection Hrun as <- <-. cbn [app]. unfold bind, ret. by destruct (publish_to _ _ l2 _ _ _ h) as [[]].
  - cbn [publish_to] in Hrun. unfold bind, ret in Hrun.
    destruct (link_pub i name p hd h) as [[x|e] h'] eqn:Hp; [|done].
    destruct (publish_to _ _ l1 _ _ _ h') as [[y|e] h''] eqn:Hl1; [|done]. injection Hrun as <- <-.
    cbn [app publish_to]. rewrite (bind_run _ _ _ _ _ Hp). unfold bind at 1. rewrite (IH h' y Hl1).
    unfold bind, ret. by destruct (publish_to _ _ l2 _ _ _ h'') as [[]].
Qed.

(** [broadcast] gives every peer one message of its own, in the order of the
    table, and returns their ids by node, when all links work; at the first link
    that does not, it raises: the peers before it have been sent their messages,
    and those after it nothing. *)
Theorem broadcast_reaches h : wf h -> (h_uuid h + length (peers (h_tr h)) <= limit)%nat ->
  (Forall (fun e => open_at (h_tr h) e.2) (peers (h_tr h)) ->
    exists ids h', broadcast serialize clock name p hd h = (Ok ids, h') /\ reached (peers (h_tr h)) ids h h') /\
  (forall pre n i post l, peers (h_tr h) = pre ++ (n, i) :: post ->
    Forall (fun e => open_at (h_tr h) e.2) pre -> links (h_tr h) !! i = Some l -> open l = false ->
    exists e ids h', broadcast serialize clock name p hd h = (Raise e, h') /\ reached pre ids h h').
Proof.
  intros [Hpd Hd Ha Ho _ _] Hk.
  assert (NoDup (dvalues (peers (h_tr h)))) as Hnd.
  { apply (dvalues_once _ Hpd). intros n m i. rewrite !Ha. by apply once_inj. }
  clear Hpd Hd Ha Ho. unfold broadcast, get_tr, gets, bind at 1 2. split; [by apply publish_to_open|].
  intros pre n i post l Hpeers Ho Hl Hopen. rewrite Hpeers in *. unfold dvalues in Hnd. rewrite fmap_app in Hnd.
  apply NoDup_app in Hnd as (Hndp & Hdis & _).
  rewrite length_app in Hk. destruct (publish_to_open pre h ltac:(lia) Hndp Ho) as (ids & h1 & H1 & Hr).
  assert (links (h_tr h1) !! i = Some l) as Hl1.
  { rewrite (re_others _ _ _ _ Hr); [done|]. intros Hi. apply (Hdis i Hi). by left. }
  destruct (link_publish_closed i l h1 Hl1 Hopen) as (e & h2 & H2 & L2).
  exists e, ids, h2. rewrite (publish_to_app _ _ _ _ _ H1). cbn [publish_to]. unfold bind. rewrite H2. split; [done|].
  destruct Hr as [Hs Hot]. split; [|by intros j Hj; rewrite L2; apply Hot].
  unfold carries in *. by rewrite L2.
Qed.
End broadcast.
End facts.
End RemoteQueue.

(** * A node with three peers, the second of which has closed *)
Module RemoteToy.
Definition msg (i : string) : Message := mkMessage i "t" VNone [] 0 None None.
Definition to_json (m : Message) : result bytes := Ok (String.list_ascii_of_string (msg_id m)).
Definition of_json (d : bytes) : result Message := Ok (msg (String.string_of_list_ascii d)).
Definition is_msg (m : Message) : Prop := m = msg (msg_id m).

#[global] Instance remote_json_ok : JsonOk to_json of_json is_msg.
Proof.
  intros m Hm. eexists. split; [done|]. unfold of_json. rewrite String.string_of_list_ascii_of_string, <- Hm. by rewrite Hm.
Qed.

Abbreviation world := (heap (RemoteQueue.state nat) unit).
Definition connected : world :=
  ((RemoteQueue.connect "a" (Ok tt) ;;; RemoteQueue.connect "b" (Ok tt) ;;; RemoteQueue.connect "c" (Ok tt))
     (mkHeap 0 (RemoteQueue.init None) tt)).2.

(** The peer of link 1 is gone. *)
Definition broken : world :=
  set_tr (RemoteQueue.set_links (alter (fun l => RemoteQueue.mkLink
    (TCPClientTransport.mkState (TCPClientTransport.client_tables (RemoteQueue.l_transport l))
       (Some (mkConn [] (Some broken_pipe))) true) (RemoteQueue.l_queue l)) 1%nat (RemoteQueue.links (h_tr connected)))
    (h_tr connected)) connected.

Lemma connected_wf : RemoteQueue.wf connected.
Proof.
  assert (RemoteQueue.wf (H := nat) (U := unit) (mkHeap 0 (RemoteQueue.init None) tt)) as H0 by apply RemoteQueue.remote_wf_init.
  pose proof (RemoteQueue.wf_connect "a" (Ok tt) _ H0) as H1.
  pose proof (RemoteQueue.wf_connect "b" (Ok tt) _ H1) as H2.
  exact (RemoteQueue.wf_connect "c" (Ok tt) _ H2).
Qed.

Lemma broken_wf : RemoteQueue.wf broken.
Proof.
  destruct connected_wf as [Hpd Hd Ha Ho Hr Hown]. split; [exact Hpd|exact Hd|exact Ha|exact Ho| |].
  - intros n i Hi%Hr. exact Hi.
  - intros i (l & Hl & Hopen). vm_compute in Hl. vm_compute.
    destruct i as [|[|[|i]]]; [left|right; left|right; right; left|done].
Qed.

Lemma msg_sendable k : (k < 3)%nat -> sendable to_json is_msg (mkMessage (uuid4 k) "t" VNone [] 0 None None).
Proof.
  intros Hk. split; [done|]. intros d [= <-]. destruct k as [|[|[|k]]]; [vm_compute; done..|lia].
Qed.
End RemoteToy.

Lemma links_owned_witness :
  RemoteQueue.wf (RemoteQueue.connect "a" (Ok tt) RemoteToy.connected).2 /\
  forall i, ~ RemoteQueue.open_at (h_tr (RemoteQueue.close RemoteToy.to_json RemoteToy.connected).2) i.
Proof.
  destruct (RemoteQueue.links_owned RemoteToy.to_json (fun _ => 0) "a" (Ok tt) "t" VNone [] 0%nat RemoteToy.connected
    RemoteToy.connected_wf) as (H1 & _ & _ & _ & _ & _ & H2 & _).
  split; [exact H1|exact H2].
Defined.

(** The first peer is sent its message, the third nothing. *)
Lemma broadcast_reaches_witness :
  exists e h', RemoteQueue.broadcast RemoteToy.to_json (fun _ => 0) "t" VNone [] RemoteToy.broken = (Raise e, h') /\
    map RemoteQueue.carried (RemoteQueue.links (h_tr h')) = [stream RemoteToy.to_json [RemoteToy.msg "uuid-0"]; []; []].
Proof.
  destruct (RemoteQueue.broadcast_reaches RemoteToy.to_json RemoteToy.of_json RemoteToy.is_msg (fun _ => 0) "t" VNone [] 3
    (fun k _ => RemoteToy.msg_sendable k) RemoteToy.broken RemoteToy.broken_wf) as [_ Hb].
  - vm_compute. repeat constructor.
  - destruct (Hb [("a", 0%nat)] "b" 1%nat [("c", 2%nat)]
      (RemoteQueue.mkLink (TCPClientTransport.mkState (mkTables [] [] []) (Some (mkConn [] (Some broken_pipe))) true) init_q))
      as (e & ids & h' & Hrun & Hr).
    + reflexivity.
    + constructor; [|constructor]. eexists. split; reflexivity.
    + reflexivity.
    + reflexivity.
    + exists e, h'. split; [exact Hrun|]. vm_compute in Hrun. injection Hrun as _ <-. reflexivity.
Defined.
