(* ===== verification/Worker.v ===== *)
(** * [eventforge/worker.py]: the worker process

    It loads a module's [HANDLERS], serves them as RPC methods over a
    [TCPServerTransport] and takes everything down when it is told to stop.  The
    objects that [serve] makes are those of Rpc, Queue and Tcp.  What importing the
    module gives is an argument, and so are the values of the command line's
    options; logging is not modelled. *)
From S2P Require Import Prelude PyDict Types Transport Observers Queue Wire Tcp Rpc.

Module Worker.

(** The module's [HANDLERS]: something else, by the name of its type, or a
    dictionary, a value that is not callable being [None] *)
Inductive handlers_attr (F : Type) : Type :=
  | NotDict (type_name : string)
  | Handlers (d : list (string * option F)).
Arguments NotDict {F} type_name.
Arguments Handlers {F} d.

Definition SystemExit (msg : string) : exn := BaseExc "SystemExit" msg.

Section load.
Context {F : Type}.
(** [repr] of a list of strings *)
Variable repr_list : list string -> string.

Definition is_ImportError (e : exn) : bool :=
  bool_decide (exn_type e = "ImportError") || bool_decide (exn_type e = "ModuleNotFoundError").

Definition quoted (s : string) : string := "'" +:+ s +:+ "'".

Definition bad_entries (d : list (string * option F)) : list string :=
  dkeys (List.filter (fun kv => match kv.2 with Some _ => false | None => true end) d).

Definition callables (d : list (string * option F)) : list (string * F) :=
  omap (fun kv => match kv.2 with Some f => Some (kv.1, f) | None => None end) d.

Definition must_define (module_path type_name : string) : exn :=
  SystemExit ("eventforge.worker: module " +:+ quoted module_path +:+ " must define a non-empty "
    +:+ "HANDLERS dict of {name: callable}; found " +:+ type_name +:+ ".").

(** [_load_handlers], with what importing the module gave *)
Definition load_handlers (module_path : string) (imported : result (handlers_attr F * option string))
    : result (list (string * F) * option string) :=
  match imported with
  | Raise e =>
      if is_ImportError e then
        Raise (SystemExit ("eventforge.worker: cannot import handler module " +:+ quoted module_path +:+ ": "
          +:+ exn_str e +:+ String "010" ("  (is it on PYTHONPATH? inside a container, bind-mount or COPY it in)")))
      else Raise e
  | Ok (NotDict ty, _) => Raise (must_define module_path ty)
  | Ok (Handlers [], _) => Raise (must_define module_path "dict")
  | Ok (Handlers d, service) =>
      match bad_entries d with
      | [] => Ok (callables d, service)
      | bad => Raise (SystemExit ("eventforge.worker: HANDLERS entries are not callable: " +:+ repr_list bad))
      end
  end.
End load.

(** [service_name or module_service or "rpc"] *)
Definition service_of (service_name module_service : option string) : string :=
  if opt_truthy service_name then default "rpc" service_name
  else if opt_truthy module_service then default "rpc" module_service else "rpc".

Section serve.
Context {H F V : Type} `{!EqDecision H}.
Abbreviation world := (heap (TCPServerTransport.state chan_cb) (qstate H * (server F * V))).
Variable serialize : Message -> result bytes.
Variable handler : H.
#[local] Instance tcp_queue : Transport world chan_cb := TCPServerTransport.server_transport serialize.

Definition add_methods (handlers : list (string * F)) : M world unit :=
  for_each handlers (fun kv => add_method kv.1 kv.2).

(** What [serve] does on the objects it makes before it installs the SIGTERM
    handler; [bound] is what binding the socket gives.  Then it blocks in
    [server.serve]. *)
Definition make (bound : result unit) (handlers : list (string * F)) : M world unit :=
  TCPServerTransport.start bound ;;;
  add_methods handlers.

Definition begin (bound : result unit) (handlers : list (string * F)) (service : string) : M world (wait unit) :=
  make bound handlers ;;;
  Rpc.serve handler service true.

(** The SIGTERM handler *)
Definition shutdown : M world unit := Rpc.stop.

(** The end of [serve], when [server.serve] has returned or raised *)
Definition ending (outcome : result unit) : M world unit :=
  try_finally
    (fun h => match outcome with
              | Raise e => if decide (exn_type e = "KeyboardInterrupt") then (Ok tt, h) else (Raise e, h)
              | Ok _ => (Ok tt, h)
              end)
    (Rpc.stop ;;; TCPServerTransport.close).

(** [serve]: the module is loaded before anything is made *)
Definition serve (repr_list : list string -> string) (module_path : string)
    (imported : result (handlers_attr F * option string)) (bound : result unit) (service_name : option string)
    : M world (wait unit) :=
  match load_handlers repr_list module_path imported with
  | Raise e => throw e
  | Ok (handlers, module_service) => begin bound handlers (service_of service_name module_service)
  end.

(** *** SIGTERM while [server.serve] starts

    Python runs a signal's handler between two statements of the main thread.
    [serve_statements] are those of [RPCServer.serve] up to its loop, which ends
    when it finds the stop event set. *)
Definition serve_statements (service : string) : list (M world unit) :=
  [ upd_server (fun s => mkServer (methods s) true (sub_id s) (stop_event s));
    upd_server (fun s => mkServer (methods s) (Rpc.running s) (sub_id s) false);
    let! i := on (service +:+ ".request") handler in
    upd_server (fun s => mkServer (methods s) (Rpc.running s) (Some i) (stop_event s)) ].

(** The signal comes before statement [k] (after the last for a larger [k]). *)
Definition signalled (k : nat) (service : string) : M world unit :=
  let l := serve_statements service in
  for_each (take k l ++ [shutdown] ++ drop k l) (fun m => m).

(** *** [main]: what [parse_args] makes of the values given to the options *)
Record namespace : Type := mkNamespace {
  ns_module : string;
  ns_service : option string;
  ns_host : string;
  ns_port : Z;
  ns_log_level : string;
}.

(** [parser.error]: the usage goes to stderr, the exit status is 2. *)
Definition usage_error : exn := SystemExit "2".

(** [given] has the value of each option that [argv] has; [int] is [int(text)]. *)
Definition parse_args (int : string -> option Z) (given : list (string * string)) : result namespace :=
  let port := match dget given "port" with
              | None => Ok 9090
              | Some text => match int text with Some p => Ok p | None => Raise usage_error end
              end in
  match port with
  | Raise e => Raise e
  | Ok port =>
      match dget given "module" with
      | None => Raise usage_error
      | Some m => Ok (mkNamespace m (dget given "service") (default "0.0.0.0" (dget given "host")) port
                        (default "INFO" (dget given "log_level")))
      end
  end.

(** [import_module] and [bind] are what importing and binding give. *)
Definition main (repr_list : list string -> string) (int : string -> option Z)
    (import_module : string -> result (handlers_attr F * option string)) (bind : string -> Z -> result unit)
    (given : list (string * string)) : M world (wait unit) :=
  let! ns := lift (parse_args int given) in
  serve repr_list (ns_module ns) (import_module (ns_module ns)) (bind (ns_host ns) (ns_port ns)) (ns_service ns).

(** The objects as they are made *)
Definition fresh (n : nat) (v : V) : world := mkHeap n TCPServerTransport.init (init_q, (init_server, v)).

(** * The life of a worker *)
Implicit Types (h : world).

Lemma add_methods_spec handlers h :
  dict_ok (methods (h_rest h).2.1 ++ handlers) ->
  add_methods handlers h = (Ok tt, set_rest ((h_rest h).1,
    (mkServer (methods (h_rest h).2.1 ++ handlers) (running (h_rest h).2.1) (sub_id (h_rest h).2.1)
       (stop_event (h_rest h).2.1), (h_rest h).2.2)) h).
Proof.
  revert h. induction handlers as [|[k f] l IH]; intros [n t [q [[ms ru si st] v]]] Hd; cbn [h_rest fst snd methods] in *.
  - by rewrite app_nil_r.
  - unfold add_methods in *. cbn [for_each].
    rewrite (bind_run _ _ _ tt (mkHeap n t (q, (mkServer (dset ms k f) ru si st, v)))) by done.
    assert (dget ms k = None) as Hk.
    { apply dget_None. intros Hin. unfold dict_ok, dkeys in Hd. rewrite fmap_app in Hd.
      apply NoDup_app in Hd as (_ & Hdis & _). apply (Hdis k Hin). by left. }
    rewrite dset_fresh by done. rewrite IH; cbn [h_rest fst snd methods]; by rewrite <- app_assoc.
Qed.

Lemma callables_keys (d : list (string * option F)) : dict_ok d -> dict_ok (callables d).
Proof.
  unfold dict_ok, dkeys, callables. induction d as [|[k o] d IH]; [done|]. cbn. intros [Hk Hd]%NoDup_cons.
  destruct o as [f|]; cbn; [|by apply IH]. apply NoDup_cons. split; [|by apply IH].
  intros ([k' f'] & -> & (x & Hx & Hf)%list_elem_of_omap)%list_elem_of_fmap. apply Hk, list_elem_of_fmap. exists x.
  split; [|done]. destruct x as [k2 [f2|]]; [|done]. by injection Hf as <- _.
Qed.

Lemma callables_all (d : list (string * option F)) : bad_entries d = [] -> dkeys (callables d) = dkeys d.
Proof.
  unfold dkeys, callables, bad_entries. induction d as [|[k [f|]] d IH]; [done| |done]. cbn. intros Hb. by rewrite IH.
Qed.

(** While it serves: the socket listens, the methods are those of the module, and
    requests go to the handler. *)
Record serving (handlers : list (string * F)) (service : string) h : Prop := {
  sv_listening : TCPServerTransport.running (h_tr h) = true /\ TCPServerTransport.listening (h_tr h) = true;
  sv_methods : methods (h_rest h).2.1 = handlers /\ Rpc.running (h_rest h).2.1 = true;
  sv_channel : q_topics (h_rest h).1 = [(service +:+ ".request", mkEventful [handler] Broadcast None None)];
  sv_subscribed : exists id, subscribers (tables_of (h_tr h)) = [(id, ChannelFire (service +:+ ".request"))] /\
    Tables.pattern_of id h = Some (service +:+ ".request");
}.

(** After it has stopped: no handler, no subscription, no client, no socket. *)
Record stopped (service : string) h : Prop := {
  sp_transport : TCPServerTransport.running (h_tr h) = false /\ TCPServerTransport.listening (h_tr h) = false /\
    TCPServerTransport.clients (h_tr h) = [] /\ subscribers (tables_of (h_tr h)) = [];
  sp_server : Rpc.running (h_rest h).2.1 = false /\ sub_id (h_rest h).2.1 = None;
  sp_channel : q_topics (h_rest h).1 = [(service +:+ ".request", mkEventful [] Broadcast None None)];
}.

(** ** While it serves *)
Section duty.
Context (P : models) (clock : world -> Z).
(** The module's functions, called with their arguments *)
Variable call_method : F -> pyargs -> M world val.

(** A subscriber of the process is the server's handler. *)
Definition serve_env : env world H Message :=
  plain_env (fun (_ : H) msg => handle_request clock P call_method msg ;;; ret VNone).

(** What happens to a worker while its main thread blocks: a client connects, an open
    connection changes (its peer reads, or is gone and sends fail), the thread of a
    client dispatches a message, of whatever topic and content, and the thread of
    a client ends. *)
Inductive served : world -> world -> Prop :=
  | served_connect sock h :
      dget (TCPServerTransport.conns (h_tr h)) sock = None ->
      served h (TCPServerTransport.accepted sock h).2
  | served_connection sock c c' h :
      dget (TCPServerTransport.conns (h_tr h)) sock = Some c ->
      served h (set_tr (TCPServerTransport.set_conns (dset (TCPServerTransport.conns (h_tr h)) sock c') (h_tr h)) h)
  | served_message msg h :
      served h (TCPServerTransport.dispatch (channel_fire serve_env) msg h).2
  | served_disconnect sock h :
      served h (TCPServerTransport.disconnect sock h).2.

(** The objects of a worker, up to its clients, their connections, the messages
    received and what the functions keep: [i] is the transport's subscription, [j]
    the handler's; after SIGTERM ([serves] is false) there is no handler. *)
Record duty (handlers : list (string * F)) (service : string) (i j : string) (serves : bool) h : Prop := {
  du_flags : TCPServerTransport.running (h_tr h) = true /\ TCPServerTransport.listening (h_tr h) = true;
  du_tables : subscribers (tables_of (h_tr h)) = [(i, ChannelFire (service +:+ ".request"))] /\
    topic_subs (tables_of (h_tr h)) = [(service +:+ ".request", [i])];
  du_queue : (h_rest h).1 =
    mkQ [(service +:+ ".request", mkEventful (if serves then [handler] else []) Broadcast None None)]
      (if serves then [(j, (service +:+ ".request", handler))] else []) [(service +:+ ".request", i)];
  du_server : (h_rest h).2.1 = mkServer handlers serves (if serves then Some j else None) (negb serves);
}.

(** The functions leave the worker's own objects alone: they have their arguments
    and what is theirs. *)
Definition functions_apart : Prop := forall f a h,
  let h' := (call_method f a h).2 in
  h_tr h' = h_tr h /\ (h_rest h').1 = (h_rest h).1 /\ (h_rest h').2.1 = (h_rest h).2.1.
Hypothesis apart : functions_apart.

Section kept.
Variables (handlers : list (string * F)) (service i j : string) (serves : bool).
Abbreviation on_duty := (duty handlers service i j serves).

Lemma duty_clients h c cs : on_duty h ->
  on_duty (set_tr (TCPServerTransport.mkState (TCPServerTransport.server_tables (h_tr h)) c cs
    (TCPServerTransport.running (h_tr h)) (TCPServerTransport.listening (h_tr h))) h).
Proof. by intros []. Qed.

Lemma duty_uuid : keeps on_duty new_uuid.
Proof. by intros h []. Qed.

Lemma duty_call f a : keeps on_duty (call_method f a).
Proof.
  intros h [? ? ? ?]. destruct (apart f a h) as (Ht & Hq & Hs). split; by rewrite ?Ht, ?Hq, ?Hs.
Qed.

Lemma duty_send msg : keeps on_duty (t_send msg).
Proof.
  change (t_send msg) with (TCPServerTransport.send (CB := chan_cb) (R := qstate H * (server F * V)) serialize msg).
  unfold TCPServerTransport.send. apply keeps_bind; [apply keeps_lift|]. intros data.
  apply keeps_bind; [apply keeps_gets|]. intros s. apply keeps_for_each. intros sock.
  intros h Hh. unfold TCPServerTransport.send_one, bind, get_tr, gets.
  destruct (dget _ sock) as [c|]; [destruct (conn_send c data)|];
    unfold upd_tr, modify; cbn [snd]; by apply duty_clients.
Qed.

Lemma duty_response msg r : keeps on_duty (send_response clock P msg r).
Proof.
  unfold send_response, publish, new_message. destruct (reply_to msg) as [rt|]; [|apply keeps_ret].
  case_decide; [apply keeps_ret|]. pose proof duty_uuid. pose proof duty_send. eauto 10 with py.
Qed.

Lemma duty_handles msg : keeps on_duty (handle_request clock P call_method msg).
Proof.
  pose proof duty_uuid. pose proof duty_call. pose proof duty_response.
  unfold handle_request, handle_invalid, handle_unknown, run_method, get_server. eauto 15 with py.
Qed.

Lemma duty_dispatch msg : keeps on_duty (TCPServerTransport.dispatch (channel_fire serve_env) msg).
Proof.
  unfold TCPServerTransport.dispatch, Tables.dispatch. apply keeps_bind; [apply keeps_gets|]. intros s.
  apply keeps_bind; [|intros _; by intros h []]. apply keeps_notify. intros [name]. unfold channel_fire.
  apply keeps_bind; [apply keeps_gets|]. intros q. destruct (dget _ name) as [ev|]; [|apply keeps_ret].
  apply keeps_fire. split; cbn; intros; try done; try apply keeps_ret.
  apply keeps_bind; [apply duty_handles|]. intros _. apply keeps_ret.
Qed.

Lemma duty_served h h' : served h h' -> on_duty h -> on_duty h'.
Proof.
  intros [sock h1 _|sock c c' h1 _|msg h1|sock h1] Hh.
  - by apply (duty_clients h1).
  - by apply (duty_clients h1).
  - by apply duty_dispatch.
  - unfold TCPServerTransport.disconnect, upd_tr, modify. cbn [snd].
    case_decide; by apply (duty_clients h1).
Qed.

Lemma duty_reached h h' : rtc served h h' -> on_duty h -> on_duty h'.
Proof. induction 1 as [|h h1 h2 Hs _ IH]; [done|]. intros Hh. by eapply IH, duty_served. Qed.
End kept.

(** The objects while the server blocks: the subscription has the next uuid, and
    the queue's entry the one after it *)
Definition up (handlers : list (string * F)) (service : string) (n : nat) (v : V) : world :=
  let topic := service +:+ ".request" in
  mkHeap (S (S n))
    (TCPServerTransport.mkState (mkTables [(uuid4 n, ChannelFire topic)] [(topic, [uuid4 n])] []) [] [] true true)
    (mkQ [(topic, mkEventful [handler] Broadcast None None)] [(uuid4 (S n), (topic, handler))] [(topic, uuid4 n)],
     (mkServer handlers true (Some (uuid4 (S n))) false, v)).

Lemma on_first t n (r : server F * V) :
  on t handler (mkHeap n (TCPServerTransport.mkState (mkTables [] [] []) [] [] true true) (init_q, r)) =
  (Ok (uuid4 (S n)), mkHeap (S (S n))
    (TCPServerTransport.mkState (mkTables [(uuid4 n, ChannelFire t)] [(t, [uuid4 n])] []) [] [] true true)
    (mkQ [(t, mkEventful [handler] Broadcast None None)] [(uuid4 (S n), (t, handler))] [(t, uuid4 n)], r)).
Proof.
  set (x := mkHeap n _ _). cbv -[decide uuid4 x]. subst x. cbn. by destruct (decide (t = t)).
Qed.

(** The objects before the SIGTERM handler is installed *)
Definition made (handlers : list (string * F)) (n : nat) (v : V) (a c : bool) : world :=
  mkHeap n (TCPServerTransport.mkState (mkTables [] [] []) [] [] true true)
    (init_q, (mkServer handlers a None c, v)).

Lemma make_run handlers n v : dict_ok handlers ->
  make (Ok tt) handlers (fresh n v) = (Ok tt, made handlers n v false false).
Proof.
  intros Hd. unfold make. rewrite (bind_run _ _ (fresh n v) tt (made [] n v false false)) by done.
  by rewrite (add_methods_spec handlers (made [] n v false false) Hd).
Qed.

Lemma begin_up handlers service n v : dict_ok handlers ->
  begin (Ok tt) handlers service (fresh n v) = (Ok Waiting, up handlers service n v).
Proof.
  intros Hd. unfold begin. rewrite (bind_run _ _ _ _ _ (make_run handlers n v Hd)).
  unfold Rpc.serve, get_server, gets, bind at 1. cbn.
  change (set_rest _ (made handlers n v false false)) with (made handlers n v true false). unfold made.
  by rewrite (bind_run _ _ _ _ _ (on_first _ _ _)).
Qed.

Lemma up_serving handlers service n v : serving handlers service (up handlers service n v).
Proof.
  split; [done..|]. exists (uuid4 n). split; [done|]. unfold Tables.pattern_of. cbn.
  rewrite (decide_True (P := uuid4 n ∈ [uuid4 n])) by by left.
  by rewrite decide_False by (by destruct service).
Qed.

Lemma up_duty handlers service n v : duty handlers service (uuid4 n) (uuid4 (S n)) true (up handlers service n v).
Proof. by split. Qed.

Lemma duty_serving handlers service i j h : duty handlers service i j true h -> serving handlers service h.
Proof.
  intros [Hf [Hs Ht] Hq Hsv]. split; [done| | |].
  - by rewrite Hsv.
  - by rewrite Hq.
  - exists i. split; [done|]. unfold Tables.pattern_of. rewrite Ht. cbn. rewrite (decide_True (P := i ∈ [i])) by by left.
    by rewrite decide_False by (by destruct service).
Qed.

(** [RPCServer.stop] takes the handler off the channel; the transport's own
    subscription stays until the transport is closed. *)
Lemma shutdown_on_duty handlers service i j h : duty handlers service i j true h ->
  exists h1, shutdown h = (Ok tt, h1) /\ duty handlers service i j false h1 /\ h_tr h1 = h_tr h.
Proof.
  destruct h as [n tr [q [s v]]]. intros [Hf Ht Hq Hs]. cbn in Hf, Ht, Hq, Hs. subst q s.
  exists (mkHeap n tr (mkQ [(service +:+ ".request", mkEventful [] Broadcast None None)] [] [(service +:+ ".request", i)],
     (mkServer handlers false None true, v))).
  split; [|by split]. unfold shutdown. revert Hf Ht. generalize (service +:+ ".request") as t. intros t _ _.
  set (x := mkHeap n tr _). cbv -[decide x]. subst x. cbn. repeat (case_decide; try done; cbn).
Qed.

(** Stopping a second time changes nothing. *)
Lemma shutdown_again handlers service i j h : duty handlers service i j false h -> shutdown h = (Ok tt, h).
Proof. destruct h as [n tr [q [s v]]]. intros [_ _ _ Hs]. cbn in Hs. by subst s. Qed.

Definition outcome_of (o : result unit) : result unit :=
  match o with
  | Raise e => if decide (exn_type e = "KeyboardInterrupt") then Ok tt else Raise e
  | Ok _ => Ok tt
  end.

Lemma ending_after o h h1 : shutdown h = (Ok tt, h1) ->
  ending o h = (outcome_of o, (TCPServerTransport.close h1).2).
Proof.
  intros Hs. unfold ending, try_finally.
  assert (forall x, (match o with
    | Raise e => if decide (exn_type e = "KeyboardInterrupt") then (Ok tt, x) else (Raise e, x)
    | Ok _ => (Ok tt, x) end) = (outcome_of o, x)) as ->.
  { intros x. destruct o as [|e]; [done|]. cbn. by case_decide. }
  unfold shutdown in Hs. by rewrite (bind_run _ _ _ _ _ Hs).
Qed.

(** From [h] on, with its clients, to the end *)
Lemma ending_on_duty handlers service i j serves o h : duty handlers service i j serves h ->
  exists h1, ending o h = (outcome_of o, h1) /\ stopped service h1 /\
    forall s, dget (TCPServerTransport.conns (h_tr h1)) s =
      if decide (s ∈ TCPServerTransport.clients (h_tr h)) then None else dget (TCPServerTransport.conns (h_tr h)) s.
Proof.
  intros Hh.
  assert (exists h1, shutdown h = (Ok tt, h1) /\ duty handlers service i j false h1 /\ h_tr h1 = h_tr h) as (h1 & Hs & Hd & Ht).
  { destruct serves; [by apply shutdown_on_duty|]. exists h. by split; [eapply shutdown_again|]. }
  eexists. rewrite (ending_after o _ _ Hs). split; [done|].
  destruct h1 as [n tr [q [s v]]]. destruct Hd as [_ _ Hq Hsv]. cbn in Hq, Hsv, Ht. subst q s tr. split; [by split|].
  intros s. cbn. induction (TCPServerTransport.conns (h_tr h)) as [|[k c] l IH]; cbn; [by case_decide|].
  destruct (decide (k ∈ TCPServerTransport.clients (h_tr h))) as [Hk|Hk].
  - rewrite bool_decide_true by done. cbn. rewrite IH. case_decide; [done|]. by rewrite decide_False by congruence.
  - rewrite bool_decide_false by done. cbn. rewrite IH. destruct (decide (k = s)) as [->|]; [by rewrite decide_False|done].
Qed.

(** C39 A worker's life, from importing its module to its end.  If an entry of
    [HANDLERS] is not callable, the process exits before any object is made; if the
    socket cannot be bound, that exception leaves with nothing registered.  Otherwise
    the worker blocks with its socket listening, exactly the module's methods
    registered under their names, and its channel subscribed to the request topic of
    the service that the command line, the module or the default names.  This it
    keeps while it serves: while clients connect, send whatever messages, have
    their requests answered, break off and leave.  However [server.serve] then ends,
    by Ctrl-C (which is swallowed), another exception (which leaves) or the SIGTERM
    handler, which ran [server.stop] first, the worker ends with no handler,
    subscription, client or listening socket left, and the connections of all the
    clients it had are closed; from SIGTERM until then its socket listens, and
    clients still come and go.  The module's functions are taken to leave the
    worker's transport, queue and server alone. *)
Theorem worker_lifecycle repr_list module_path d ms service_name n v : dict_ok d -> d <> [] ->
  let service := service_of service_name ms in
  let run bound := serve repr_list module_path (Ok (Handlers d, ms)) bound service_name (fresh n v) in
  let ends h := forall o, exists h1, ending o h = (outcome_of o, h1) /\ stopped service h1 /\
    forall s, dget (TCPServerTransport.conns (h_tr h1)) s =
      if decide (s ∈ TCPServerTransport.clients (h_tr h)) then None else dget (TCPServerTransport.conns (h_tr h)) s in
  (bad_entries d <> [] -> forall bound, run bound =
    (Raise (SystemExit ("eventforge.worker: HANDLERS entries are not callable: " +:+ repr_list (bad_entries d))), fresh n v)) /\
  (bad_entries d = [] ->
    (forall e, run (Raise e) = (Raise e, fresh n v)) /\
    exists h0, run (Ok tt) = (Ok Waiting, h0) /\ serving (callables d) service h0 /\ dkeys (callables d) = dkeys d /\
      forall h, rtc served h0 h ->
        serving (callables d) service h /\ ends h /\
        exists h1, shutdown h = (Ok tt, h1) /\ h_tr h1 = h_tr h /\
          forall h2, rtc served h1 h2 -> TCPServerTransport.listening (h_tr h2) = true /\ ends h2).
Proof.
  intros Hd Hne service run ends.
  assert (exists d1 d2, d = d1 :: d2) as (x & d' & Heq) by (destruct d; [done|eauto]).
  split; intros Hb.
  - intros bound. unfold run, serve, load_handlers. rewrite Heq in *. cbn [fst snd].
    destruct (bad_entries (x :: d')); done.
  - assert (forall bound, run bound = begin bound (callables d) service (fresh n v)) as Hrun.
    { intros bound. unfold run, serve, load_handlers. by rewrite Heq, <- Heq, Hb. }
    split; [intros e; by rewrite Hrun|].
    eexists. rewrite Hrun, begin_up by by apply callables_keys.
    split; [done|]. split; [apply up_serving|]. split; [by apply callables_all|].
    intros h Hh. pose proof (duty_reached _ _ _ _ _ _ _ Hh (up_duty _ _ _ _)) as Hon.
    split; [by eapply duty_serving|]. split; [intros o; by eapply ending_on_duty|].
    destruct (shutdown_on_duty _ _ _ _ _ Hon) as (h1 & Hs & Hoff & Ht). exists h1. do 2 (split; [done|]).
    intros h2 Hh2. pose proof (duty_reached _ _ _ _ _ _ _ Hh2 Hoff) as Hoff2.
    split; [apply (du_flags _ _ _ _ _ _ Hoff2)|]. intros o. by eapply ending_on_duty.
Qed.
End duty.

(** The statements are those of [serve]. *)
Lemma serve_statements_serve service h :
  Rpc.running (h_rest h).2.1 = false -> stop_event (h_rest h).2.1 = false ->
  (for_each (serve_statements service) (fun m => m) ;;; ret Waiting) h = Rpc.serve handler service true h.
Proof.
  destruct h as [n t [q [[ms ru si st] v]]]. cbn [h_rest fst snd Rpc.running stop_event]. intros -> ->.
  unfold Rpc.serve, serve_statements, get_server, gets, bind at 3. cbn [h_rest fst snd Rpc.running]. cbn [for_each].
  unfold Rpc.request_topic. unfold bind, upd_server, upd_rest, modify, ret. cbn.
  destruct (on _ _ _) as [[i|e] h1]; done.
Qed.

(** A worker that is told to stop before its server has cleared the stop event
    serves on: the signal that comes first, or right after [_running] was set, is
    forgotten, and the loop waits for another. *)
Lemma sigterm_window handlers service n v k : dict_ok handlers ->
  exists h, signalled k service (make (Ok tt) handlers (fresh n v)).2 = (Ok tt, h) /\
    stop_event (h_rest h).2.1 = bool_decide (2 <= k)%nat /\
    (k = 0%nat -> h = up handlers service n v).
Proof.
  intros Hd. rewrite make_run by done. cbn [snd].
  assert (forall a c, (let! i := on (service +:+ ".request") handler in
      upd_server (fun s => mkServer (methods s) (Rpc.running s) (Some i) (stop_event s))) (made handlers n v a c) =
    (Ok tt, mkHeap (S (S n)) (h_tr (up handlers service n v)) ((h_rest (up handlers service n v)).1,
      (mkServer handlers a (Some (uuid4 (S n))) c, v)))) as Hon.
  { intros a c. unfold made. by rewrite (bind_run _ _ _ _ _ (on_first _ _ _)). }
  assert (forall a c, shutdown (made handlers n v a c) = (Ok tt, made handlers n v false true)) as Hs by done.
  destruct k as [|[|[|k]]]; unfold signalled, serve_statements; cbn [take drop app for_each].
  - rewrite (bind_run _ _ _ _ _ (Hs _ _)).
    rewrite (bind_run _ _ _ tt (made handlers n v true true)) by done.
    rewrite (bind_run _ _ _ tt (made handlers n v true false)) by done.
    rewrite (bind_run _ _ _ _ _ (Hon _ _)). by eexists.
  - rewrite (bind_run _ _ _ tt (made handlers n v true false)) by done. rewrite (bind_run _ _ _ _ _ (Hs _ _)).
    rewrite (bind_run _ _ _ tt (made handlers n v false false)) by done.
    rewrite (bind_run _ _ _ _ _ (Hon _ _)). by eexists.
  - rewrite (bind_run _ _ _ tt (made handlers n v true false)) by done.
    rewrite (bind_run _ _ _ tt (made handlers n v true false)) by done. rewrite (bind_run _ _ _ _ _ (Hs _ _)).
    rewrite (bind_run _ _ _ _ _ (Hon _ _)). by eexists.
  - rewrite (bind_run _ _ _ tt (made handlers n v true false)) by done.
    rewrite (bind_run _ _ _ tt (made handlers n v true false)) by done.
    rewrite (bind_run _ _ _ _ _ (Hon _ _)). change (mkHeap _ _ _) with (up handlers service n v).
    rewrite take_nil, drop_nil. cbn [app for_each]. destruct (shutdown_on_duty _ _ _ _ _ (up_duty handlers service n v)) as (h1 & Hs1 & Hd1 & _).
    rewrite (bind_run _ _ _ _ _ Hs1). exists h1. split; [done|]. split; [by rewrite (du_server _ _ _ _ _ _ Hd1)|done].
Qed.

End serve.
End Worker.

Module WorkerToy.
Definition no_json (m : Message) : result bytes := Raise (Exc "TypeError" "").
Definition repr_list (l : list string) : string := "[" +:+ String.concat ", " l +:+ "]".
Definition handlers : list (string * option nat) := [("add", Some 0%nat); ("mul", Some 1%nat)].
Definition run (imported : result (Worker.handlers_attr nat * option string)) :=
  Worker.serve (H := nat) (V := unit) no_json 7%nat repr_list "app.handlers" imported (Ok tt) None (Worker.fresh 0 tt).

Example missing_module :
  (run (Raise (Exc "ModuleNotFoundError" "No module named 'app'"))).1 =
  Raise (Worker.SystemExit ("eventforge.worker: cannot import handler module 'app.handlers': No module named 'app'"
    +:+ String "010" "  (is it on PYTHONPATH? inside a container, bind-mount or COPY it in)")).
Proof. reflexivity. Qed.

Example no_handlers : (run (Ok (Worker.NotDict "NoneType", None))).1 =
  Raise (Worker.SystemExit "eventforge.worker: module 'app.handlers' must define a non-empty HANDLERS dict of {name: callable}; found NoneType.").
Proof. reflexivity. Qed.

Example main_defaults : Worker.parse_args (fun _ => None) [("module", "m")] =
  Ok (Worker.mkNamespace "m" None "0.0.0.0" 9090 "INFO").
Proof. reflexivity. Qed.

Example main_usage : Worker.parse_args (fun _ => Some 80) [("port", "80")] = Raise Worker.usage_error /\
  Worker.parse_args (fun _ => None) [("module", "m"); ("port", "http")] = Raise Worker.usage_error.
Proof. split; reflexivity. Qed.

Example empty_service : Worker.service_of (Some "") (Some "sums") = "sums".
Proof. reflexivity. Qed.

(** The functions return their arguments. *)
Definition echo (f : nat) (a : pyargs) : M (heap (TCPServerTransport.state chan_cb) (qstate nat * (server nat * unit))) val :=
  ret (VList (pos a)).

Definition to_json (m : Message) : result bytes := Ok ["R"%char].

(** A request for [add] *)
Definition request : Message :=
  mkMessage "m" "sums.request" (dump_request RpcToy.P (mkRPCRequest "r" "add" [VInt 7] [] None)) [] 0 (Some "replies") None.
End WorkerToy.

(** A client connects and calls [add]; its answer is sent; then Ctrl-C. *)
Lemma worker_lifecycle_witness :
  let run := Worker.serve (V := unit) WorkerToy.to_json 7%nat WorkerToy.repr_list "app.handlers"
    (Ok (Worker.Handlers WorkerToy.handlers, Some "sums")) (Ok tt) None (Worker.fresh 0 tt) in
  let E := Worker.serve_env (V := unit) WorkerToy.to_json RpcToy.P (fun _ => 0) WorkerToy.echo in
  let h1 := (TCPServerTransport.accepted 5 run.2).2 in
  let h2 := (TCPServerTransport.dispatch (channel_fire E) WorkerToy.request h1).2 in
  Worker.serving 7%nat [("add", 0%nat); ("mul", 1%nat)] "sums" h2 /\
  dget (TCPServerTransport.conns (h_tr h2)) 5%nat = Some (mkConn ["000"; "000"; "000"; "001"; "R"]%char None) /\
  TCPServerTransport.clients (h_tr h2) = [5%nat] /\
  exists h3, Worker.ending (F := nat) (V := unit) (Raise (BaseExc "KeyboardInterrupt" "")) h2 = (Ok tt, h3) /\
    Worker.stopped "sums" h3 /\ dget (TCPServerTransport.conns (h_tr h3)) 5%nat = None.
Proof.
  intros run E h1 h2.
  destruct (Worker.worker_lifecycle (V := unit) WorkerToy.to_json 7%nat RpcToy.P (fun _ => 0) WorkerToy.echo
    ltac:(intros f a h; split_and!; reflexivity) WorkerToy.repr_list "app.handlers" WorkerToy.handlers
    (Some "sums") None 0 tt) as [_ Hs].
  - apply (bool_decide_unpack _). reflexivity.
  - discriminate.
  - destruct (Hs eq_refl) as (_ & h & Hrun & _ & _ & Hall).
    assert (run.2 = h) as Hh by (unfold run; rewrite Hrun; reflexivity).
    destruct (Hall h2) as (Hsv & He & _).
    + eapply rtc_l; [|eapply rtc_l; [|apply rtc_refl]].
      * rewrite <- Hh. apply (Worker.served_connect _ _ _ _ 5%nat run.2). vm_compute. reflexivity.
      * apply (Worker.served_message _ _ _ _ WorkerToy.request h1).
    + split; [exact Hsv|]. split; [vm_compute; reflexivity|]. split; [vm_compute; reflexivity|].
      destruct (He (Raise (BaseExc "KeyboardInterrupt" ""))) as (h3 & H3 & Hst & Hc).
      exists h3. split; [exact H3|]. split; [exact Hst|]. rewrite Hc. vm_compute. reflexivity.
Defined.
