(* ===== verification/RpcTcp.v ===== *)
(** * A remote call over TCP

    The parts meet: [RPCClient] on a [MessageQueue] over a [TCPClientTransport], and
    a worker's [RPCServer] on a [MessageQueue] over a [TCPServerTransport], two
    processes with a heap each.  The client sends; the server's thread for that
    client reads a message, whose dispatch fires the queue's channel, which runs
    the server's handler, which publishes the answer to the clients; the client's
    thread reads it into the receive queue of the reply topic, and the call takes
    it from there. *)
From S2P Require Import Prelude PyDict Types Topics Wire Transport Observers Queue Rpc Tcp Worker.

(** ** The two models over JSON

    A request that was dumped, written as JSON and read is validated to the request
    with lists for the tuples inside its arguments ([convert_args] makes a tuple of
    the arguments themselves again); the result of a response likewise. *)
Definition json_args (a : pyargs) : pyargs := mkArgs (map json_val (pos a)) (json_hdrs (kw a)).

Definition json_request (r : RPCRequest) : RPCRequest :=
  mkRPCRequest (req_id r) (req_method r) (map json_val (req_args r)) (json_hdrs (req_kwargs r)) (req_timeout r).

Definition json_response (r : RPCResponse) : RPCResponse :=
  mkRPCResponse (resp_id r) (request_id r) (json_val (resp_result r)) (resp_error r) (resp_error_type r).

Class JsonModels (P : models) : Prop := {
  request_over_json : forall r, validate_request P (json_val (dump_request P r)) = Ok (json_request r);
  response_over_json : forall r, validate_response P (json_val (dump_response P r)) = Ok (json_response r);
}.

Module TcpRpc.
Section remote.
Context {H F V H' F' V' : Type} `{!EqDecision H} `{!EqDecision H'}.
Abbreviation server_world := (heap (TCPServerTransport.state chan_cb) (qstate H * (server F * V))).
Abbreviation client_world := (heap (TCPClientTransport.state chan_cb) (qstate H' * (server F' * V'))).
Context (serialize : Message -> result bytes) (deserialize : bytes -> result Message) (plain : Message -> Prop).
Context {json : JsonOk serialize deserialize plain}.
Context (P : models) {POk : JsonModels P}.
Variables (clock : server_world -> Z) (clock' : client_world -> Z).
Variable call_method : F -> pyargs -> M server_world val.
(** How the two processes run the subscribers of their channels *)
Variables (Es : env server_world H Message) (Ec : env client_world H' Message).
Variables (handler : H) (handlers : list (string * F)) (service : string) (default_timeout : Z).
Implicit Types (hs : server_world) (hc : client_world).

#[local] Instance server_side : Transport server_world chan_cb := TCPServerTransport.server_transport serialize.
#[local] Instance client_side : Transport client_world chan_cb := TCPClientTransport.client_transport serialize.

(** One round of the reading loops *)
Definition server_round (sk : Wire.socket) : M server_world (option unit) :=
  TCPServerTransport.client_rounds deserialize (channel_fire Es) 1 sk.
Definition client_round (sk : Wire.socket) : M client_world (option unit) :=
  TCPClientTransport.recv_rounds deserialize (channel_fire Ec) 1 sk.

Hypothesis handler_runs : forall msg hs,
  invoke Es handler msg hs = (handle_request clock P call_method msg ;;; ret VNone) hs.
Hypothesis own : method_own call_method.
Hypothesis raises_tame : method_tame call_method.

(** ** Either loop takes the next message off the stream. *)
Lemma round_dispatches {W} (running : W -> bool) (dispatch : Message -> M W unit) m sk rest w w' :
  sendable serialize plain m -> chunks_ok sk -> concat sk = frame serialize m ++ rest ->
  running w = true -> dispatch (json_msg m) w = (Ok tt, w') ->
  read_rounds running deserialize dispatch 1 sk w = (Ok None, w').
Proof.
  intros Hm Hok Hsk Hr Hd. destruct (sendable_frame _ _ _ m Hm) as (d & _ & Hde & Hs).
  destruct (recv_send_msg _ _ _ _ Hs Hok Hsk) as (sk' & Hrecv & _ & _).
  cbn [read_rounds]. rewrite Hr, Hrecv, Hde. by rewrite (bind_run _ _ _ _ _ Hd).
Qed.

(** ** The server's part *)

(** A message published by the server while [sock] works reaches it. *)
Lemma publish_reaches m hs sock cs :
  sendable serialize plain m -> NoDup (TCPServerTransport.clients (h_tr hs)) ->
  sock ∈ TCPServerTransport.clients (h_tr hs) ->
  dget (TCPServerTransport.conns (h_tr hs)) sock = Some cs -> fault cs = None ->
  exists hs', t_send m hs = (Ok tt, hs') /\ h_rest hs' = h_rest hs /\
    tables_of (h_tr hs') = tables_of (h_tr hs) /\
    (TCPServerTransport.running (h_tr hs') = TCPServerTransport.running (h_tr hs) /\
     TCPServerTransport.listening (h_tr hs') = TCPServerTransport.listening (h_tr hs)) /\
    NoDup (TCPServerTransport.clients (h_tr hs')) /\
    sock ∈ TCPServerTransport.clients (h_tr hs') /\
    dget (TCPServerTransport.conns (h_tr hs')) sock = Some (mkConn (sent cs ++ frame serialize m) None).
Proof.
  intros Hm Hnd Hin Hc Hf. destruct (sendable_frame _ _ _ m Hm) as (d & Hd & _ & Hs).
  destruct (Link.send_loop_spec serialize deserialize plain d _ Hnd hs Hnd) as (hs' & Hrun & [Hcl Hco Ht Hr [Hrn Hls]]).
  exists hs'. assert (conn_send cs d = Ok (mkConn (sent cs ++ frame serialize m) None)) as Hsend.
  { unfold conn_send. by rewrite Hs, Hf. }
  split_and!; [|done|done|done|done| | |].
  - cbn. unfold TCPServerTransport.send, get_tr, gets, lift, bind. by rewrite Hd.
  - rewrite Hcl. by apply NoDup_filter.
  - rewrite Hcl. apply list_elem_of_filter. split; [right|done]. unfold Link.takes. by rewrite Hc, Hsend.
  - rewrite Hco, decide_True, Hc by done. cbn. unfold Link.pushed. by rewrite Hsend.
Qed.

(** The answer to a request, and the state in which it is made *)
Definition reply_to_call (rid rt : string) (r : result val) (h1 : server_world) : Message :=
  mkMessage (uuid4 (S (h_uuid h1))) rt (dump_response P (response_of (uuid4 (h_uuid h1)) rid r)) []
    (clock (mkHeap (S (S (h_uuid h1))) (h_tr h1) (h_rest h1))) None None.

(** The server dispatches a request: the method runs, the answer goes to the clients. *)
Lemma server_dispatches m a rid rt tmo msg hs sock cs :
  let t := request_topic service in
  let out := looked_up call_method m a hs in
  let reply := reply_to_call rid rt out.1 out.2 in
  Types.topic msg = t -> Types.reply_to msg = Some rt -> rt <> "" ->
  validate_request P (payload msg) = Ok (mkRPCRequest rid m (pos a) (kw a) tmo) ->
  Worker.serving handler handlers service hs -> NoDup (TCPServerTransport.clients (h_tr hs)) ->
  sock ∈ TCPServerTransport.clients (h_tr hs) ->
  dget (TCPServerTransport.conns (h_tr hs)) sock = Some cs -> fault cs = None ->
  sendable serialize plain reply ->
  exists hs1, TCPServerTransport.dispatch (channel_fire Es) msg hs = (Ok tt, hs1) /\
    h_rest hs1 = h_rest out.2 /\
    ((h_rest out.2).2.1 = (h_rest hs).2.1 -> Worker.serving handler handlers service hs1) /\
    NoDup (TCPServerTransport.clients (h_tr hs1)) /\ sock ∈ TCPServerTransport.clients (h_tr hs1) /\
    dget (TCPServerTransport.conns (h_tr hs1)) sock = Some (mkConn (sent cs ++ frame serialize reply) None).
Proof.
  intros t out reply Ht Hrt Hne Hp [[Hrn Hls] Hms Hch (id & Hsub & Hpat)] Hnd Hin Hc Hf Hsend.
  destruct (looked_up_own call_method m a hs own) as (Htr1 & Hq1 & _).
  pose proof (server_answers clock P call_method msg _ hs raises_tame Hp) as Hans.
  unfold replied in Hans. rewrite Hrt, bool_decide_false in Hans by done. specialize (Hans eq_refl).
  cbn [req_method req_args req_kwargs req_id] in Hans. replace (mkArgs (pos a) (kw a)) with a in Hans by by destruct a.
  fold out in Hans, Htr1, Hq1. destruct out as [r h1]. cbn [fst snd] in *.
  set (h4 := mkHeap (S (S (h_uuid h1))) (h_tr h1) (h_rest h1)) in *.
  destruct (publish_reaches reply h4 sock cs) as (h5 & H5 & R5 & T5 & [F5 G5] & N5 & C5 & D5); [done| | | |done|]; unfold h4; cbn [h_tr]; rewrite ?Htr1; try done.
  assert (channel_fire Es (ChannelFire t) msg hs = (Ok tt, h5)) as Hfire.
  { unfold channel_fire, get_q, gets, bind. rewrite Hch. cbn [dget]. rewrite decide_True by done.
    rewrite fire_plain by done. cbn [ev_subscribers]. unfold broadcast. cbn [for_each]. unfold bind at 1 2.
    rewrite handler_runs. unfold bind. rewrite Hans. unfold send_response. rewrite Hrt, decide_False by done.
    unfold publish, new_message, new_uuid, gets, ret, bind. cbn [h_uuid h_tr h_rest].
    change (mkHeap _ _ _) with h4. change (mkMessage _ _ _ _ _ _ _) with reply. rewrite H5. done. }
  unfold TCPServerTransport.dispatch, Tables.dispatch, get_tr, gets, bind at 1. rewrite Hsub.
  rewrite (bind_run _ _ hs tt h5).
  - unfold h4 in *. cbn [h_tr h_rest] in *. rewrite Htr1 in *.
    eexists. split; [done|]. split; [done|]. split; [|by split_and!]. intros Hsrv. split; cbn.
    + by rewrite F5, G5.
    + by rewrite R5, Hsrv.
    + by rewrite R5, Hq1.
    + exists id. unfold Tables.pattern_of in *. cbn in *. by rewrite T5.
  - apply (notify_single _ _ _ msg [] (id, ChannelFire t) [] _ _ (Ok tt)); [done| |done|done|done].
    unfold wants. cbn [fst]. rewrite Hpat, Ht. unfold tcp_matches. by rewrite decide_True.
Qed.

(** ** The client's part *)
Lemma response_read i rid r : read_response P (json_val (dump_response P (response_of i rid r))) =
  match client_sees r with Ok v => Ok (json_val v) | Raise e => Raise e end.
Proof. unfold read_response. rewrite response_over_json. destruct r as [v|e]; [done|]. cbn. by case_decide. Qed.

(** The answer's dispatch puts it on its receive queue, and the call takes it. *)
Lemma client_takes m tm rt rid r h1 hc :
  let reply := reply_to_call rid rt r h1 in
  (forall sub p, sub ∈ subscribers (tables_of (h_tr hc)) -> Tables.pattern_of sub.1 hc = Some p -> tcp_matches rt p = false) ->
  Tables.queue_of (tables_of (h_tr hc)) rt = [] -> 0 <= effective default_timeout tm ->
  exists hc2 hc3, TCPClientTransport.dispatch (channel_fire Ec) (json_msg reply) hc = (Ok tt, hc2) /\
    call_receive P default_timeout m tm rt hc2 =
      (match client_sees r with Ok v => Ok (Done (json_val v)) | Raise e => Raise e end, hc3) /\
    Tables.queue_of (tables_of (h_tr hc3)) rt = [].
Proof.
  intros reply Hsub Hq Htm.
  set (tb := TCPClientTransport.client_tables (h_tr hc)) in *.
  set (with_queue := fun q => set_tr (TCPClientTransport.mkState (mkTables (subscribers tb) (topic_subs tb) q)
    (TCPClientTransport.socket (h_tr hc)) (TCPClientTransport.running (h_tr hc))) hc).
  exists (with_queue (dset (queues tb) rt [json_msg reply])), (with_queue (dset (dset (queues tb) rt [json_msg reply]) rt [])).
  assert (notify Tables.pattern_of tcp_matches (channel_fire Ec) (json_msg reply) (subscribers tb) hc = (Ok tt, hc)) as Hn.
  { apply notify_unwanted, Forall_forall. intros sub Hin. unfold wants.
    destruct (Tables.pattern_of sub.1 hc) as [p|] eqn:Hp; [|done]. by apply (Hsub sub). }
  split_and!.
  - unfold TCPClientTransport.dispatch, Tables.dispatch, get_tr, gets, bind at 1. rewrite (bind_run _ _ _ _ _ Hn).
    unfold Tables.put, Tables.upd_tables, upd_tr, modify, with_queue. cbn [tables_of set_tables].
    change (Types.topic (json_msg reply)) with rt. cbn in Hq |- *. by rewrite Hq.
  - unfold call_receive, receive. rewrite (bind_run _ _ _ (Done (Some (json_msg reply))) (with_queue (dset (dset (queues tb) rt [json_msg reply]) rt []))).
    + unfold call_answer, lift, bind, ret. unfold reply, reply_to_call, json_msg. cbn [payload].
      rewrite response_read. by destruct (client_sees r).
    + change (t_receive (Transport := client_side)) with (TCPClientTransport.receive (CB := chan_cb) (R := qstate H' * (server F' * V'))).
      unfold TCPClientTransport.receive, Tables.receive, Tables.queue_of, with_queue, dget_or. cbn.
      rewrite dget_dset_eq. unfold q_get. by rewrite decide_False by lia.
  - unfold with_queue, Tables.queue_of, dget_or. cbn. by rewrite dget_dset_eq.
Qed.

(** C7 A remote call over TCP, end to end.  The client's first half puts one frame
    on its connection.  When the worker's thread for that client reads it, in
    whatever pieces the network delivers it and whatever follows, the method that
    the module registered runs once on the caller's arguments as JSON gives them
    back, with lists for tuples (or the request for an unknown one is refused), the
    connection carries one more frame, the answer, and the worker is as ready for
    the next call as before.  When the client's thread reads that, the second half
    of the call returns the method's result, again with lists for tuples, or raises
    an [Exception] with the type and the text of its error ([client_sees]: an error
    whose text is empty is taken for success, and the call returns None), and
    leaves nothing on the reply topic. *)
Theorem call_over_tcp m a tm hc hs sock c cs :
  let rid := uuid4 (h_uuid hc) in
  let rt := "_rpc_reply." +:+ rid in
  let request := mkMessage (uuid4 (S (h_uuid hc))) (request_topic service)
    (dump_request P (mkRPCRequest rid m (pos a) (kw a) (Some (effective default_timeout tm)))) []
    (clock' (mkHeap (S (S (h_uuid hc))) (h_tr hc) (h_rest hc))) (Some rt) (Some rid) in
  let out := looked_up call_method m (json_args a) hs in
  let reply := reply_to_call rid rt out.1 out.2 in
  TCPClientTransport.socket (h_tr hc) = Some c -> fault c = None -> TCPClientTransport.running (h_tr hc) = true ->
  (forall sub p, sub ∈ subscribers (tables_of (h_tr hc)) -> Tables.pattern_of sub.1 hc = Some p -> tcp_matches rt p = false) ->
  Tables.queue_of (tables_of (h_tr hc)) rt = [] -> 0 <= effective default_timeout tm ->
  Worker.serving handler handlers service hs -> NoDup (TCPServerTransport.clients (h_tr hs)) ->
  sock ∈ TCPServerTransport.clients (h_tr hs) ->
  dget (TCPServerTransport.conns (h_tr hs)) sock = Some cs -> fault cs = None ->
  sendable serialize plain request -> sendable serialize plain reply ->
  exists hc1, call_send clock' P service default_timeout m a tm hc = (Ok rt, hc1) /\
    TCPClientTransport.socket (h_tr hc1) = Some (mkConn (sent c ++ frame serialize request) None) /\
    forall sk rest, chunks_ok sk -> concat sk = frame serialize request ++ rest ->
    exists hs1, server_round sk hs = (Ok None, hs1) /\ h_rest hs1 = h_rest out.2 /\
      ((h_rest out.2).2.1 = (h_rest hs).2.1 -> Worker.serving handler handlers service hs1) /\
      NoDup (TCPServerTransport.clients (h_tr hs1)) /\ sock ∈ TCPServerTransport.clients (h_tr hs1) /\
      dget (TCPServerTransport.conns (h_tr hs1)) sock = Some (mkConn (sent cs ++ frame serialize reply) None) /\
      forall sk' rest', chunks_ok sk' -> concat sk' = frame serialize reply ++ rest' ->
      exists hc2 hc3, client_round sk' hc1 = (Ok None, hc2) /\
        call_receive P default_timeout m tm rt hc2 =
          (match client_sees out.1 with Ok v => Ok (Done (json_val v)) | Raise e => Raise e end, hc3) /\
        Tables.queue_of (tables_of (h_tr hc3)) rt = [].
Proof.
  intros rid rt request out reply Hc Hf Hrun Hsub Hq Htm Hsv Hnd Hin Hcs Hfs Hreq Hrep.
  set (hc0 := mkHeap (S (S (h_uuid hc))) (h_tr hc) (h_rest hc)).
  set (hc1 := set_tr (TCPClientTransport.mkState (TCPClientTransport.client_tables (h_tr hc))
    (Some (mkConn (sent c ++ frame serialize request) None)) (TCPClientTransport.running (h_tr hc))) hc0).
  exists hc1. split_and!; [|done|].
  { unfold call_send, new_message, new_uuid, gets, ret, bind. cbn [h_uuid h_tr h_rest].
    change (mkHeap _ _ _) with hc0. fold rid rt.
    change (t_send (Transport := client_side)) with (TCPClientTransport.send (CB := chan_cb) (R := qstate H' * (server F' * V')) serialize).
    change (mkMessage _ _ _ _ _ _ _) with request.
    by rewrite (Link.client_send_one serialize deserialize plain request hc0 c). }
  intros sk rest Hok Hsk.
  destruct (server_dispatches m (json_args a) rid rt (Some (effective default_timeout tm)) (json_msg request) hs sock cs eq_refl eq_refl) as (hs1 & Hd & Hr1 & Hsv1 & Hn1 & Hin1 & Hc1); [done|exact (request_over_json _)|done..|].
  exists hs1. split_and!; [|done..|].
  { apply (round_dispatches _ _ request sk rest); [done..| |done]. apply (Worker.sv_listening _ _ _ _ Hsv). }
  intros sk' rest' Hok' Hsk'.
  destruct (client_takes m tm rt rid out.1 out.2 hc1) as (hc2 & hc3 & Hd2 & Hcall & Hq3); [done..|].
  exists hc2, hc3. split_and!; [|done..]. by apply (round_dispatches _ _ reply sk' rest').
Qed.
End remote.
End TcpRpc.

(** * A concrete pair of processes *)
Module TcpRpcToy.
Abbreviation server_world := (heap (TCPServerTransport.state chan_cb) (qstate nat * (server nat * list nat))).
Abbreviation client_world := (heap (TCPClientTransport.state chan_cb) (qstate nat * (server nat * unit))).

Definition P := RpcToy.P.
Definition rt : string := "_rpc_reply." +:+ uuid4 0.
Definition request : Message :=
  mkMessage (uuid4 1) "sums.request" (dump_request P (mkRPCRequest (uuid4 0) "pair" [VInt 7] [] (Some 30))) [] 0
    (Some rt) (Some (uuid4 0)).
Definition reply : Message :=
  mkMessage (uuid4 3) rt (dump_response P (mkRPCResponse (uuid4 2) (uuid4 0) (VTuple [VInt 7]) None None)) [] 0 None None.

Definition to_json (m : Message) : result bytes :=
  Ok (if decide (Types.topic m = "sums.request") then ["Q"%char] else ["R"%char]).
Definition of_json (d : bytes) : result Message :=
  Ok (json_msg (match d with "Q"%char :: _ => request | _ => reply end)).
Definition is_msg (m : Message) : Prop := m = request \/ m = reply.

#[global] Instance rpc_json_ok : JsonOk to_json of_json is_msg.
Proof. intros m [-> | ->]; eexists; split; reflexivity. Qed.

#[global] Instance toy_json_models : JsonModels P.
Proof.
  split; [intros [i m a k t]|intros [i rid v e t]]; cbn.
  - assert (str_keys (map (fun kv => (kv.1, json_val kv.2)) (map (fun p => (VStr p.1, p.2)) k)) = Ok (json_hdrs k)) as ->.
    { induction k as [|[s x] k IH]; [done|]. cbn in IH |- *. by rewrite IH. }
    by destruct t.
  - by destruct e, t.
Qed.

(** Methods note that they ran and return their arguments. *)
Definition run (f : nat) (a : pyargs) : M server_world val :=
  upd_rest (fun r => (r.1, (r.2.1, r.2.2 ++ [f]))) ;;; ret (VTuple (pos a)).

Definition env_of {W} (call : nat -> Message -> M W val) : env W nat Message := plain_env call.

Definition Es : env server_world nat Message := env_of (fun _ msg =>
  handle_request (TR := TCPServerTransport.server_transport to_json) (fun _ => 0) P run msg ;;; ret VNone).
Definition Ec : env client_world nat Message := env_of (fun _ _ => ret VNone).

Definition hs : server_world :=
  (TCPServerTransport.accepted 5 (Worker.up 9%nat [("pair", 0%nat)] "sums" 0 [])).2.
Definition hc : client_world :=
  (TCPClientTransport.connect (Ok tt) (mkHeap 0 TCPClientTransport.init (init_q, (init_server, tt)))).2.

Lemma msg_fits m : is_msg m -> sendable to_json is_msg m.
Proof. intros Hm. split; [done|]. intros d [= <-]. by case_decide. Qed.
End TcpRpcToy.

(** The frame arrives one byte at a time; the tuple that the method returns is a
    list for the caller. *)
Lemma call_over_tcp_witness :
  exists hc1 hs1 hc2 hc3,
    call_send (TR := TCPClientTransport.client_transport TcpRpcToy.to_json) (fun _ => 0) TcpRpcToy.P "sums" 30 "pair"
      (mkArgs [VInt 7] []) None TcpRpcToy.hc = (Ok TcpRpcToy.rt, hc1) /\
    TcpRpc.server_round TcpRpcToy.of_json TcpRpcToy.Es
      (map (fun b => [b]) (frame TcpRpcToy.to_json TcpRpcToy.request)) TcpRpcToy.hs = (Ok None, hs1) /\
    (h_rest hs1).2.2 = [0%nat] /\
    TcpRpc.client_round TcpRpcToy.of_json TcpRpcToy.Ec [frame TcpRpcToy.to_json TcpRpcToy.reply] hc1 = (Ok None, hc2) /\
    call_receive (TR := TCPClientTransport.client_transport TcpRpcToy.to_json) TcpRpcToy.P 30 "pair" None TcpRpcToy.rt hc2 =
      (Ok (Done (VList [VInt 7])), hc3).
Proof.
  destruct (TcpRpc.call_over_tcp TcpRpcToy.to_json TcpRpcToy.of_json TcpRpcToy.is_msg TcpRpcToy.P (fun _ => 0) (fun _ => 0)
    TcpRpcToy.run TcpRpcToy.Es TcpRpcToy.Ec 9%nat [("pair", 0%nat)] "sums" 30)
    with (m := "pair") (a := mkArgs [VInt 7] []) (tm := @None Z) (hc := TcpRpcToy.hc) (hs := TcpRpcToy.hs) (sock := 5%nat)
      (c := mkConn [] None) (cs := mkConn [] None) as (hc1 & Hsend & _ & Hserver).
  - reflexivity.
  - intros f a h. split_and!; reflexivity.
  - intros f a h e. discriminate.
  - reflexivity.
  - reflexivity.
  - reflexivity.
  - intros sub p Hs. vm_compute in Hs. by apply not_elem_of_nil in Hs.
  - reflexivity.
  - cbn. lia.
  - split; [split; reflexivity..|reflexivity|]. exists (uuid4 0). split; vm_compute; reflexivity.
  - repeat constructor. apply not_elem_of_nil.
  - apply list_elem_of_here.
  - reflexivity.
  - reflexivity.
  - apply TcpRpcToy.msg_fits. left. reflexivity.
  - apply TcpRpcToy.msg_fits. right. vm_compute. reflexivity.
  - destruct (Hserver (map (fun b => [b]) (frame TcpRpcToy.to_json TcpRpcToy.request)) []) as (hs1 & Hr & Hrest & _ & _ & _ & _ & Hclient).
    + vm_compute. repeat constructor; discriminate.
    + vm_compute. reflexivity.
    + destruct (Hclient [frame TcpRpcToy.to_json TcpRpcToy.reply] []) as (hc2 & hc3 & Hc2 & Hcall & _).
      * vm_compute. repeat constructor; discriminate.
      * vm_compute. reflexivity.
      * exists hc1, hs1, hc2, hc3. split; [exact Hsend|]. split; [exact Hr|]. split; [rewrite Hrest; vm_compute; reflexivity|].
        split; [exact Hc2|]. exact Hcall.
Defined.
