(* ===== verification/Topology.v ===== *)
(** * [deploy/topology]: the demander and the handlers of its servers

    [demander.py] reads a list of servers, connects to each with retries, and sends
    calls round-robin over the pool; the answers say who served them.  The
    handlers are those that the worker processes load.  An [RPCClient] over a
    connected [TCPClientTransport] is what [connect] gives (Rpc, Tcp); the pool is
    [RoundRobinRPCClient] (Rpc). *)
From Stdlib Require Import QArith.
From S2P Require Import Prelude PyDict PyFloat PyText Types Transport Queue Rpc Worker.
Import PyText.
#[local] Open Scope Z_scope.

Module Topology.

(** ** The module's constants, from the environment *)
Definition SERVERS (env : list (string * string)) : list string :=
  map implode (split_on "," (explode (default "server1:9090,server2:9090,server3:9090" (dget env "EVENTFORGE_SERVERS")))).
Definition SERVICE (env : list (string * string)) : string := default "math" (dget env "EVENTFORGE_SERVICE").
Definition N_CALLS (env : list (string * string)) : result Z := parse_int (default "12" (dget env "EVENTFORGE_CALLS")).

(** [addr.strip().partition(":")], and [int(port)] *)
Definition parse_addr (addr : string) : result (string * Z) :=
  let '(host, port) := partition ":" (strip (explode addr)) in
  match parse_int (implode port) with Ok p => Ok (implode host, p) | Raise e => Raise e end.

(** [host:port] as it is written, the addresses separated by commas *)
Definition addr_of (hp : string * Z) : string := hp.1 +:+ ":" +:+ pretty hp.2.
Fixpoint addrs_of (hp : string * Z) (l : list (string * Z)) : string :=
  match l with [] => addr_of hp | hp' :: l' => addr_of hp +:+ "," +:+ addrs_of hp' l' end.

Definition host_char (c : ascii) : Prop := plain_char c /\ c <> ":"%char /\ c <> ","%char.

Lemma parse_addr_of hp : Forall host_char (explode hp.1) -> parse_addr (addr_of hp) = Ok hp.
Proof.
  destruct hp as [host port]. intros Hh. cbn in Hh. unfold parse_addr, addr_of. cbn [fst snd].
  rewrite !explode_app. rewrite strip_plain.
  - change (explode ":") with [":"%char]. cbn [app]. rewrite partition_app.
    + by rewrite !implode_explode, parse_int_pretty.
    + intros Hin. rewrite Forall_forall in Hh. by destruct (Hh _ Hin) as (_ & ? & _).
  - apply Forall_app. split; [eapply Forall_impl; [exact Hh|]; by intros c []|]. constructor; [done|].
    eapply Forall_impl; [apply pretty_Z_chars|]. intros c [[d Hd]| ->]; [by apply (digit_plain c d)|done].
Qed.

Lemma addr_no_comma hp : Forall host_char (explode hp.1) -> ","%char ∉ explode (addr_of hp).
Proof.
  intros Hh. unfold addr_of. rewrite !explode_app, !elem_of_app.
  intros [Hin|[Hin|Hin]].
  - rewrite Forall_forall in Hh. by destruct (Hh _ Hin) as (_ & _ & ?).
  - by apply list_elem_of_singleton in Hin.
  - pose proof (pretty_Z_chars hp.2) as Hz. rewrite Forall_forall in Hz. by destruct (Hz _ Hin) as [[d Hd]|].
Qed.

(** The demander reads back the addresses that it is given. *)
Theorem servers_roundtrip hp l : Forall (fun hp => Forall host_char (explode hp.1)) (hp :: l) ->
  map parse_addr (SERVERS [("EVENTFORGE_SERVERS", addrs_of hp l)]) = map Ok (hp :: l).
Proof.
  intros Hl. change (SERVERS [("EVENTFORGE_SERVERS", addrs_of hp l)])
    with (map implode (split_on "," (explode (addrs_of hp l)))).
  assert (split_on "," (explode (addrs_of hp l)) = map explode (map addr_of (hp :: l))) as ->.
  { revert hp Hl. induction l as [|hp' l IH]; intros hp [Hh Hl]%Forall_cons.
    - by apply split_on_none, addr_no_comma.
    - cbn [addrs_of]. rewrite !explode_app. change (explode ",") with [","%char]. cbn [app].
      rewrite split_on_app by by apply addr_no_comma. by rewrite IH. }
  rewrite !map_map. apply map_ext_in. intros x Hx%list_elem_of_In. rewrite implode_explode.
  apply parse_addr_of. rewrite Forall_forall in Hl. by apply Hl.
Qed.

(** ** Calls over a pool, with a tally of who answered *)
(** [d[key]] on what a call returned (a [TypeError]'s text is not Python's) *)
Definition item (v : val) (key : string) : result val :=
  match v with
  | VDict d => match str_item d key with Some x => Ok x | None => Raise (Exc "KeyError" ("'" +:+ key +:+ "'")) end
  | _ => Raise (Exc "TypeError" "object is not subscriptable")
  end.

Section tally.
Context {W C K : Type} `{!EqDecision K}.
Variable call : C -> string * list val -> M W (wait val).
Variable idx : W -> nat.
Variable set_idx : nat -> W -> W.
(** The method and arguments of call number [i], the key under which its result
    is counted, and the item of the result that is printed *)
Variable args : nat -> string * list val.
Variable key_of : val -> result K.
Variable printed : string.

Definition count (tally : list (K * Z)) (key : K) : list (K * Z) :=
  dset tally key (dget_or 0 tally key + 1).

(** The calls numbered from [i], [left] of them; [Waiting] when one never ends *)
Fixpoint fire_calls (pool : list C) (i left : nat) (tally : list (K * Z)) : M W (wait (list (K * Z))) :=
  match left with
  | O => ret (Done tally)
  | S rounds =>
      let! r := RoundRobin.call_next call idx set_idx pool (args i) in
      match r with
      | Waiting => ret Waiting
      | Done res =>
          let! key := lift (key_of res) in
          let! _ := lift (item res printed) in
          fire_calls pool (S i) rounds (count tally key)
      end
  end.

(** *** The spread of the calls *)
Variable tag : C -> K.
Variable pool : list C.
Hypothesis idx_set : forall n w, idx (set_idx n w) = n.
Hypothesis call_idx : forall c x w, idx (call c x w).2 = idx w.

(** Every server answers, and says who it is. *)
Definition answers (c : C) : Prop := forall (i : nat) w, exists res,
  (call c (args i) w).1 = Ok (Done res) /\ key_of res = Ok (tag c) /\ exists y, item res printed = Ok y.

Abbreviation size := (length pool).

(** How many of the first [k] calls client number [j] gets *)
Definition turns (k j : nat) : nat := ((k + (size - 1 - j)) / size)%nat.

Lemma turns_S k j : (j < size)%nat -> turns (S k) j = (turns k j + if decide (k mod size = j) then 1 else 0)%nat.
Proof.
  intros Hj. unfold turns. pose proof (Nat.div_mod_eq k size) as Hk. pose proof (Nat.mod_upper_bound k size ltac:(lia)) as Hr.
  set (q := (k / size)%nat) in *. set (r := (k mod size)%nat) in *.
  assert (forall a, (a + (size - 1 - j) < 2 * size)%nat ->
    ((size * q + a + (size - 1 - j)) / size = q + if decide (j < a) then 1 else 0)%nat) as Hdiv.
  { intros a Ha. destruct (decide (j < a)%nat).
    - symmetry. apply (Nat.div_unique _ _ _ (a - 1 - j)); lia.
    - symmetry. apply (Nat.div_unique _ _ _ (a + (size - 1 - j))); lia. }
  replace (S k + (size - 1 - j))%nat with (size * q + S r + (size - 1 - j))%nat by lia.
  replace (k + (size - 1 - j))%nat with (size * q + r + (size - 1 - j))%nat by lia.
  rewrite !Hdiv by lia. repeat case_decide; lia.
Qed.

(** The tally after [k] calls *)
Record tallied (k : nat) (d : list (K * Z)) : Prop := {
  ta_keys : dkeys d = map tag (take k pool);
  ta_loads : forall j c, pool !! j = Some c -> dget_or 0 d (tag c) = Z.of_nat (turns k j);
}.

Hypothesis tags : NoDup (map tag pool).

Lemma tallied_nil : tallied 0 [].
Proof.
  split; [done|]. intros j c Hj%lookup_lt_Some. unfold turns. rewrite Nat.div_small by lia. done.
Qed.

Lemma tag_inj i j c c' : pool !! i = Some c -> pool !! j = Some c' -> tag c = tag c' -> i = j.
Proof.
  intros Hi Hj Ht. apply (NoDup_lookup _ i j (tag c) tags); change (map tag pool) with (tag <$> pool); rewrite list_lookup_fmap.
  - by rewrite Hi.
  - by rewrite Hj, Ht.
Qed.

Lemma tallied_count k d c : tallied k d -> pool !! (k mod size)%nat = Some c -> tallied (S k) (count d (tag c)).
Proof.
  intros [Hk Hl] Hc. pose proof (lookup_lt_Some _ _ _ Hc) as Hlt. split.
  - unfold count. rewrite dkeys_dset, Hk. destruct (decide (k < size)%nat) as [Hkn|Hkn].
    + rewrite Nat.mod_small in Hc by done. rewrite decide_False.
      * by rewrite (take_S_r _ _ _ Hc), map_app.
      * intros (c' & Ht & Hin)%list_elem_of_fmap. apply list_elem_of_lookup in Hin as [i Hi].
        apply lookup_take_Some in Hi as [Hi Hik]. pose proof (tag_inj _ _ _ _ Hc Hi Ht). lia.
    + rewrite !take_ge by lia. rewrite decide_True; [done|]. apply list_elem_of_fmap. exists c.
      split; [done|]. by eapply list_elem_of_lookup_2.
  - intros j c' Hj. pose proof (lookup_lt_Some _ _ _ Hj) as Hjn. rewrite turns_S by done.
    unfold count. rewrite dget_or_dset. destruct (decide (tag c' = tag c)) as [Ht|Ht].
    + rewrite <- Ht, (Hl _ _ Hj). rewrite decide_True; [lia|]. by apply (tag_inj _ _ c c').
    + rewrite (Hl _ _ Hj). rewrite decide_False; [lia|]. intros <-. rewrite Hc in Hj. by injection Hj as ->.
Qed.

Lemma fire_calls_spec rounds k d w :
  (0 < size)%nat -> Forall answers pool -> idx w = (k mod size)%nat -> tallied k d ->
  exists d' w', fire_calls pool k rounds d w = (Ok (Done d'), w') /\ tallied (k + rounds) d'.
Proof.
  intros Hn Hans. revert k d w. induction rounds as [|rounds IH]; intros k d w Hi Hd.
  { exists d, w. by rewrite Nat.add_0_r. }
  destruct (lookup_lt_is_Some_2 pool (k mod size)) as [c Hc]; [apply Nat.mod_upper_bound; lia|].
  pose proof (proj1 (Forall_lookup _ _) Hans _ _ Hc) as Hac.
  set (x := args k). set (w0 := set_idx (S (k mod size) mod size) w).
  destruct (Hac k w0) as (res & Hr & Hs & y & Hy). fold x in Hr. pose proof (call_idx c x w0) as Hi1.
  cbn [fire_calls]. unfold RoundRobin.call_next, RoundRobin.next_client, bind at 1 2. rewrite Hi, Hc. fold x w0.
  destruct (call c x w0) as [r w1]. cbn in Hr. subst r. rewrite Hs, Hy. cbn [lift bind].
  destruct (IH (S k) (count d (tag c)) w1) as (d' & w' & Hf & Hd').
  - cbn in Hi1. rewrite Hi1. unfold w0. rewrite idx_set.
    replace (S (k mod size)) with (1 + k mod size)%nat by lia. by rewrite Nat.Div0.add_mod_idemp_r.
  - by apply tallied_count.
  - exists d', w'. split; [exact Hf|]. by replace (k + S rounds)%nat with (S k + rounds)%nat by lia.
Qed.

(** C11 Calls over a pool spread evenly.  When the servers of the pool answer, each
    under a key of its own, all calls are made and tallied: the
    tally has one row for each server that was called, which are the first
    [min N size] of the pool, in this order, and of [N] calls server number [j] of
    [size] has exactly [(N + size - 1 - j) / size], which is [N / size] or one
    more. *)
Theorem calls_spread N w :
  (0 < size)%nat -> Forall answers pool -> idx w = 0%nat ->
  exists d w', fire_calls pool 0 N [] w = (Ok (Done d), w') /\ dkeys d = map tag (take N pool) /\
    forall j c, pool !! j = Some c ->
      dget_or 0 d (tag c) = Z.of_nat (turns N j) /\ (N / size <= turns N j <= N / size + 1)%nat.
Proof.
  intros Hn Hans Hi. destruct (fire_calls_spec N 0 [] w Hn Hans) as (d & w' & Hf & [Hk Hl]).
  { by rewrite Nat.Div0.mod_0_l. }
  { apply tallied_nil. }
  exists d, w'. split; [done|]. split; [done|]. intros j c Hj. split; [by apply Hl|].
  apply lookup_lt_Some in Hj. unfold turns. split.
  - apply Nat.Div0.div_le_mono. lia.
  - replace (N / size + 1)%nat with ((N + 1 * size) / size)%nat by (rewrite Nat.div_add by lia; done).
    apply Nat.Div0.div_le_mono. lia.
Qed.
End tally.

Section demander.
Context {W C : Type}.
(** [TCPClientTransport(host, port)] and its [connect()], with the queue and the
    [RPCClient] over it *)
Variable connect : string -> Z -> M W C.
Variable sleep : Q -> M W unit.
(** [isinstance(exc, (ConnectionError, OSError))] *)
Variable is_OSError : exn -> bool.
(** [RPCClient.call] *)
Variable call : C -> string * list val -> M W (wait val).
Variable idx : W -> nat.
Variable set_idx : nat -> W -> W.
(** [str(v)] *)
Variable str : val -> string.

Definition could_not_connect (host : string) (port : Z) (last_exc : option exn) : exn :=
  Worker.SystemExit ("demander: could not connect to " +:+ host +:+ ":" +:+ pretty port +:+ ": " +:+
    match last_exc with Some e => exn_str e | None => "None" end).

(** [for i in range(attempts):] with [left] rounds before it *)
Fixpoint connect_attempts (host : string) (port : Z) (left : nat) (last_exc : option exn) : M W C := fun w =>
  match left with
  | O => throw (could_not_connect host port last_exc) w
  | S rounds =>
      match connect host port w with
      | (Ok c, w') => (Ok c, w')
      | (Raise e, w') =>
          if is_OSError e then (sleep (1 # 2) ;;; connect_attempts host port rounds (Some e)) w'
          else (Raise e, w')
      end
  end.

Definition connect_with_retry (host : string) (port : Z) (attempts : Z) : M W C :=
  connect_attempts host port (Z.to_nat attempts) None.

(** The loop over [SERVERS] *)
Fixpoint connect_all (addrs : list string) : M W (list C) :=
  match addrs with
  | [] => ret []
  | addr :: addrs =>
      let! hp := lift (parse_addr addr) in
      let! c := connect_with_retry hp.1 hp.2 30 in
      let! cs := connect_all addrs in
      ret (c :: cs)
  end.

(** [f"{res['host']}#{res['pid']}"] *)
Definition server_of (res : val) : result string :=
  match item res "host", item res "pid" with
  | Ok h, Ok p => Ok (str h +:+ "#" +:+ str p)
  | Raise e, _ => Raise e
  | _, Raise e => Raise e
  end.

Definition compute_args (i : nat) : string * list val := ("compute", [VFloat (float_of (Z.of_nat i) 0)]).

Definition main (env : list (string * string)) : M W (wait (list (string * Z))) :=
  let! n_calls := lift (N_CALLS env) in
  let! clients := connect_all (SERVERS env) in
  let! pool := lift (RoundRobin.init clients) in
  modify (set_idx pool.2) ;;;
  fire_calls call idx set_idx compute_args server_of "result" pool.1 0 (Z.to_nat n_calls) [].
(** *** Connecting ends *)

(** [k] attempts that fail with an [OSError], each followed by half a second's
    sleep; [last] is the error of the last. *)
Inductive refused (host : string) (port : Z) : nat -> option exn -> W -> option exn -> W -> Prop :=
  | refused_none l w : refused host port 0 l w l w
  | refused_more k l w e w1 w2 l' w3 :
      connect host port w = (Raise e, w1) -> is_OSError e = true -> sleep (1 # 2) w1 = (Ok tt, w2) ->
      refused host port k (Some e) w2 l' w3 -> refused host port (S k) l w l' w3.

Hypothesis sleep_returns : forall d w, (sleep d w).1 = Ok tt.

Lemma connect_attempts_spec host port n l w :
  exists k l' w1, refused host port k l w l' w1 /\
    ((k = n /\ connect_attempts host port n l w = (Raise (could_not_connect host port l'), w1)) \/
     ((k < n)%nat /\ connect_attempts host port n l w = connect host port w1 /\
      forall e, (connect host port w1).1 = Raise e -> is_OSError e = false)).
Proof.
  revert l w. induction n as [|n IH]; intros l w.
  - exists 0%nat, l, w. split; [constructor|]. by left.
  - cbn [connect_attempts]. destruct (connect host port w) as [[c|e] w1] eqn:Hc.
    + exists 0%nat, l, w. split; [constructor|]. right. split; [lia|]. rewrite Hc. by split.
    + destruct (is_OSError e) eqn:He.
      * pose proof (sleep_returns (1 # 2)%Q w1) as Hs. destruct (sleep (1 # 2)%Q w1) as [rs w2] eqn:Hsl. cbn in Hs. subst rs.
        rewrite (bind_run _ _ _ _ _ Hsl). destruct (IH (Some e) w2) as (k & l' & w3 & Hr & Hk).
        exists (S k), l', w3. split; [by econstructor|].
        destruct Hk as [[-> Hk]|[Hk Hrest]]; [by left|right; split; [lia|done]].
      * exists 0%nat, l, w. split; [constructor|]. right. split; [lia|]. rewrite Hc. split; [done|].
        cbn. congruence.
Qed.

End demander.

(** ** [handlers.py] *)
Section handlers.
(** [socket.gethostname()], [os.getpid()] *)
Variables (hostname : string) (pid : Z).

Definition whoami : list (val * val) := [(VStr "host", VStr hostname); (VStr "pid", VInt pid)].

(** [x * x] *)
Definition square (x : val) : result val := py_mul x x.

Definition compute (x : val) : result val :=
  match square x with
  | Ok y => Ok (VDict (whoami ++ [(VStr "input", x); (VStr "result", y)]))
  | Raise e => Raise e
  end.

Definition echo (payload : val) : result val := Ok (VDict (whoami ++ [(VStr "echo", payload)])).

Definition HANDLERS : list (string * (val -> result val)) := [("compute", compute); ("echo", echo)].
Definition SERVICE_NAME : string := "math".
End handlers.
End Topology.

Example servers_parsed :
  map Topology.parse_addr (Topology.SERVERS [("EVENTFORGE_SERVERS", "a:1, b:2 ,c")]) =
    [Ok ("a", 1); Ok ("b", 2); Raise (PyText.bad_int "")] /\
  map PyText.py_int ["12"; " +7"; "-1_000"; "1__0"; "_1"; ""; "0x1"] =
    [Some 12; Some 7; Some (-1000); None; None; None; None].
Proof. vm_compute. done. Qed.

(** * A pool of servers that are their names; connecting may be refused *)
Module TopologyToy.
(** The pool's index, the outcomes of the next connects (then all succeed), the naps *)
Definition world : Type := nat * list (result unit) * nat.

Definition idx (w : world) : nat := w.1.1.
Definition set_idx (n : nat) (w : world) : world := (n, w.1.2, w.2).

Definition connect (host : string) (port : Z) : M world string := fun w =>
  match w.1.2 with
  | [] => (Ok host, w)
  | Ok _ :: l => (Ok host, (w.1.1, l, w.2))
  | Raise e :: l => (Raise e, (w.1.1, l, w.2))
  end.
Definition sleep (d : Q) : M world unit := modify (fun w => (w.1.1, w.1.2, S w.2)).
Definition is_OSError (e : exn) : bool := bool_decide (exn_type e = "ConnectionRefusedError").

Definition str (v : val) : string := match v with VStr s => s | VInt z => pretty z | _ => "?" end.

(** A worker that loaded [handlers.py] runs its method on what it gets. *)
Definition call (c : string) (x : string * list val) : M world (wait val) := fun w =>
  match dget (Topology.HANDLERS c 1) x.1, x.2 with
  | Some f, [v] => (match f v with Ok v => Ok (Done v) | Raise e => Raise e end, w)
  | _, _ => (Raise (Exc "Exception" "MethodNotFound"), w)
  end.

Definition refusal : result unit := Raise (Exc "ConnectionRefusedError" "refused").
Definition demander (servers calls : string) : M world (wait (list (string * Z))) :=
  Topology.main connect sleep is_OSError call idx set_idx str
    [("EVENTFORGE_SERVERS", servers); ("EVENTFORGE_CALLS", calls)].
End TopologyToy.

(** The second server is up at the third try; 7 calls over 3 servers. *)
Example demander_runs :
  let r := TopologyToy.demander "a:9090, b:9090,c:9090" "7" (0%nat, [Ok tt; TopologyToy.refusal; TopologyToy.refusal], 0%nat) in
  r.1 = Ok (Done [("a#1", 3); ("b#1", 2); ("c#1", 2)]) /\ r.2 = (1%nat, [], 2%nat).
Proof. vm_compute. done. Qed.

Example demander_gives_up :
  let r := TopologyToy.demander "a:9090" "7" (0%nat, repeat TopologyToy.refusal 40, 0%nat) in
  r.1 = Raise (Worker.SystemExit "demander: could not connect to a:9090: refused") /\ r.2.2 = 30%nat.
Proof. vm_compute. done. Qed.

Lemma calls_spread_witness :
  exists d w', Topology.fire_calls TopologyToy.call TopologyToy.idx TopologyToy.set_idx
      Topology.compute_args (Topology.server_of TopologyToy.str) "result" ["a"; "b"; "c"] 0 7 [] (0%nat, [], 0%nat) = (Ok (Done d), w') /\
    dkeys d = ["a#1"; "b#1"; "c#1"] /\ dget_or 0 d "a#1" = 3 /\ dget_or 0 d "c#1" = 2.
Proof.
  destruct (Topology.calls_spread TopologyToy.call TopologyToy.idx TopologyToy.set_idx
    Topology.compute_args (Topology.server_of TopologyToy.str) "result" (fun c => c +:+ "#1") ["a"; "b"; "c"]) with (N := 7%nat) (w := (0%nat, @nil (result unit), 0%nat))
    as (d & w' & Hf & Hk & Hl).
  - reflexivity.
  - intros c x w. unfold TopologyToy.call. destruct (dget _ _) as [f|], x.2 as [|v [|]]; try done; by destruct (f v).
  - apply (bool_decide_eq_true_1 _). vm_compute. reflexivity.
  - cbn. lia.
  - repeat constructor; intros i w; eexists; (split; [reflexivity|split; [reflexivity|eexists; reflexivity]]).
  - reflexivity.
  - exists d, w'. split; [exact Hf|]. split; [exact Hk|]. split.
    + exact (proj1 (Hl 0%nat "a" eq_refl)).
    + exact (proj1 (Hl 2%nat "c" eq_refl)).
Defined.

(** What a worker makes of the module: both handlers, under "math" *)
Example worker_loads_handlers :
  Worker.load_handlers (fun _ => "") "handlers"
    (Ok (Worker.Handlers (map (fun kv => (kv.1, Some kv.2)) (Topology.HANDLERS "h" 1)), Some Topology.SERVICE_NAME)) =
    Ok (Topology.HANDLERS "h" 1, Some "math") /\
  Worker.service_of None (Some Topology.SERVICE_NAME) = Topology.SERVICE [].
Proof. done. Qed.
