(* ===== verification/Scripts.v ===== *)
(** * [examples]: the programs that come with the library

    [02_message_queue.py], [06_registry_integration.py], [distributed_handlers.py]
    and [07_distributed_workers.py], on the components that they use.  The registry
    of 06 and 07 is a third-party package: [serialize] and [build] are parameters,
    with the law that building gives the model back.  What is printed is
    what the programs return here. *)
From Stdlib Require Import QArith.
From S2P Require Import Prelude PyDict PyFloat PyText Types Transport Memory Observers Queue Rpc Worker Topology.
Import PyText.
#[local] Open Scope Z_scope.

(** ** A process with a queue: handlers [H], methods [F], variables [V] *)
Section process.
Context {H F V : Type} `{!EqDecision H}.
Abbreviation world := (heap (MemoryTransport.state chan_cb) (qstate H * (server F * V))).
Variable body : env world H Message -> H -> Message -> M world val.

(** Handlers may publish, which runs handlers, [n] deep. *)
Fixpoint env_at (n : nat) : env world H Message :=
  match n with
  | O => plain_env (fun _ _ => throw (Exc "RecursionError" "maximum recursion depth exceeded"))
  | S n => plain_env (body (env_at n))
  end.

Definition fresh_process (v : V) : world := Local.init 0 1000 (init_server, v).
End process.

(** * [02_message_queue.py] *)
Module PubSub.
Inductive handler : Type := handle_user_event | handle_system_event | logger1 | logger2 | math_requests.
#[global] Instance handler_eq_dec : EqDecision handler.
Proof. solve_decision. Defined.

Inductive method : Type := add | multiply.

Record logs : Type := mkLogs { received : list string; log1 : list val; log2 : list string }.

Abbreviation world := (heap (MemoryTransport.state chan_cb) (qstate handler * (server method * logs))).

Section main.
Variable P : models.
Variable clock : world -> Z.
(** [str(v)] *)
Variable str : val -> string.

Definition upd_logs (f : logs -> logs) : M world unit := upd_rest (fun r => (r.1, (r.2.1, f r.2.2))).

(** The parameters [a] and [b] of a call *)
Definition bind_ab (x : pyargs) : result (val * val) :=
  match pos x, kw x with
  | [a; b], [] => Ok (a, b)
  | [a], [(k, b)] => if decide (k = "b") then Ok (a, b) else Raise (Exc "TypeError" "unexpected keyword argument")
  | [], [_; _] =>
      match dget (kw x) "a", dget (kw x) "b" with
      | Some a, Some b => Ok (a, b)
      | _, _ => Raise (Exc "TypeError" "missing required argument")
      end
  | _, _ => Raise (Exc "TypeError" "wrong number of arguments")
  end.

(** The two methods, on integers *)
Definition run_method (f : method) (x : pyargs) : M world val :=
  let! ab := lift (bind_ab x) in
  match ab with
  | (VInt a, VInt b) => ret (VInt (match f with add => a + b | multiply => a * b end))
  | _ => throw (Exc "TypeError" "unsupported operand")
  end.

Definition run_handler (E : env world handler Message) (h : handler) (msg : Message) : M world val :=
  match h with
  | handle_user_event =>
      upd_logs (fun l => mkLogs (received l ++ ["user: " +:+ str (payload msg)]) (log1 l) (log2 l)) ;;; ret VNone
  | handle_system_event =>
      upd_logs (fun l => mkLogs (received l ++ ["system: " +:+ str (payload msg)]) (log1 l) (log2 l)) ;;; ret VNone
  | logger1 => upd_logs (fun l => mkLogs (received l) (log1 l ++ [payload msg]) (log2 l)) ;;; ret VNone
  | logger2 => upd_logs (fun l => mkLogs (received l) (log1 l) (log2 l ++ ["[copy] " +:+ str (payload msg)])) ;;; ret VNone
  | math_requests => handle_request (TR := Local.local_transport E) clock P run_method msg ;;; ret VNone
  end.

Variable depth : nat.
#[local] Instance queue : Transport world chan_cb := Local.local_transport (env_at run_handler depth).

Definition user_event : val := VDict [(VStr "action", VStr "login"); (VStr "user", VStr "alice")].
Definition system_event : val := VDict [(VStr "action", VStr "startup")].

Definition main : M world (wait val * wait val) :=
  on_decorator "events.user" handle_user_event ;;;
  on_decorator "events.system" handle_system_event ;;;
  publish clock "events.user" user_event [] ;;;
  publish clock "events.system" system_event [] ;;;
  on_decorator "notifications" logger1 ;;;
  on_decorator "notifications" logger2 ;;;
  publish clock "notifications" (VStr "hello") [] ;;;
  publish clock "notifications" (VStr "world") [] ;;;
  register (Some "add") add "add" ;;;
  register (Some "multiply") multiply "multiply" ;;;
  Rpc.serve math_requests "math" false ;;;
  let! r1 := Rpc.call clock P "math" 30 "add" (mkArgs [] [("a", VInt 5); ("b", VInt 3)]) None in
  let! r2 := Rpc.call clock P "math" 30 "multiply" (mkArgs [] [("a", VInt 4); ("b", VInt 7)]) None in
  Rpc.stop ;;;
  ret (r1, r2).
End main.
End PubSub.

(** [str] of a dictionary of strings, and of a string *)
Definition toy_str (v : val) : string :=
  match v with
  | VStr s => s
  | VDict d => "{" +:+ String.concat ", " (map (fun kv => match kv with
      | (VStr k, VStr x) => "'" +:+ k +:+ "': '" +:+ x +:+ "'" | _ => "?" end) d) +:+ "}"
  | _ => "?"
  end.

(** What the program prints *)
Example message_queue_output :
  let r := PubSub.main RpcToy.P (fun _ => 0) toy_str 2 (fresh_process (PubSub.mkLogs [] [] [])) in
  r.1 = Ok (Done (VInt 8), Done (VInt 28)) /\
  (h_rest r.2).2.2 = PubSub.mkLogs ["user: {'action': 'login', 'user': 'alice'}"; "system: {'action': 'startup'}"]
    [VStr "hello"; VStr "world"] ["[copy] hello"; "[copy] world"] /\
  running (h_rest r.2).2.1 = false /\
  Local.handlers_of "math.request" r.2 = [].
Proof. vm_compute. done. Qed.

(** * [06_registry_integration.py] and [distributed_handlers.py] *)
Module Envelopes.

(** ** The model *)
Record MLP : Type := mkMLP { in_features : Z; hidden : Z; out_features : Z }.

(** [sum(l, acc)], one addition after the other *)
Fixpoint py_sum (l : list val) (acc : val) : result val :=
  match l with
  | [] => Ok acc
  | v :: l => match py_add acc v with Ok acc => py_sum l acc | Raise e => Raise e end
  end.

(** [[sum(x) % (self.out_features or 1)] * self.out_features] *)
Definition predict (m : MLP) (x : list val) : result val :=
  match py_sum x (VInt 0) with
  | Raise e => Raise e
  | Ok s =>
      match py_mod s (if decide (out_features m = 0) then 1 else out_features m) with
      | Raise e => Raise e
      | Ok p => Ok (VList (replicate (Z.to_nat (out_features m)) p))
      end
  end.

Section registry.
(** The registry *)
Variable serialize : MLP -> val.
Variable build : val -> result MLP.

(** The two arguments of a handler: an envelope and a batch, given by position *)
Definition with_batch (f : val -> list val -> result val) (a : pyargs) : result val :=
  match pos a, kw a with
  | [envelope; VList batch], [] | [envelope; VTuple batch], [] => f envelope batch
  | _, _ => Raise (Exc "TypeError" "wrong arguments")
  end.

Definition remote_train_step (envelope : val) (batch : list val) : result val :=
  match build envelope with
  | Raise e => Raise e
  | Ok model =>
      match predict model batch with
      | Raise e => Raise e
      | Ok prediction => Ok (VDict [(VStr "prediction", prediction); (VStr "model_class", VStr "MLP");
          (VStr "n_features", VInt (in_features model))])
      end
  end.

(** [distributed_handlers.train_step], in the process [pid] *)
Definition train_step (pid : Z) (envelope : val) (batch : list val) : result val :=
  match build envelope with
  | Raise e => Raise e
  | Ok model =>
      match predict model batch with
      | Raise e => Raise e
      | Ok prediction => Ok (VDict [(VStr "worker_pid", VInt pid); (VStr "model_class", VStr "MLP");
          (VStr "prediction", prediction)])
      end
  end.

Definition HANDLERS (pid : Z) : list (string * (pyargs -> result val)) := [("train_step", with_batch (train_step pid))].
Definition SERVICE_NAME : string := "learner".

(** ** [main] of 06 *)
Abbreviation world := (heap (MemoryTransport.state chan_cb) (qstate unit * (server unit * unit))).
Variable P : models.
Variable clock : world -> Z.

Definition run_method (_ : unit) (a : pyargs) : M world val := lift (with_batch remote_train_step a).

Definition run_handler (E : env world unit Message) (_ : unit) (msg : Message) : M world val :=
  handle_request (TR := Local.local_transport E) clock P run_method msg ;;; ret VNone.

Variable depth : nat.
#[local] Instance learner_queue : Transport world chan_cb := Local.local_transport (env_at run_handler depth).

Definition AssertionError : exn := Exc "AssertionError" "".

(** [assert result[key] == expected], for a text and for an integer *)
Definition assert_item (v : val) (key : string) (expected : val) : M world unit :=
  let! x := lift (Topology.item v key) in
  match x, expected with
  | VStr s, VStr s' => if decide (s = s') then ret tt else throw AssertionError
  | VInt z, VInt z' => if decide (z = z') then ret tt else throw AssertionError
  | _, _ => throw AssertionError
  end.

Definition local_model : MLP := mkMLP 4 16 2.
Definition batch : list val := [VFloat (float_of 1 0); VFloat (float_of 2 0); VFloat (float_of 3 0); VFloat (float_of 4 0)].

(** It returns what the remote side answered. *)
Definition main : M world (wait val) :=
  add_method "train_step" tt ;;;
  Rpc.serve tt "learner" false ;;;
  try_finally
    (let envelope := serialize local_model in
     let! r := Rpc.call clock P "learner" 30 "train_step" (mkArgs [envelope; VList batch] []) None in
     match r with
     | Waiting => ret Waiting
     | Done res =>
         assert_item res "model_class" (VStr "MLP") ;;;
         assert_item res "n_features" (VInt 4) ;;;
         ret (Done res)
     end)
    Rpc.stop.
End registry.

(** ** The round trip, for any registry *)
Section round_trip.
Variables (serialize : MLP -> val) (build : val -> result MLP).
Variable clock : heap (MemoryTransport.state chan_cb) (qstate unit * (server unit * unit)) -> Z.
Hypothesis builds_back : build (serialize local_model) = Ok local_model.
Hypothesis build_raises : forall v e, build v = Raise e -> is_Exception e = true.

Abbreviation E := (env_at (run_handler build RpcToy.P clock)).

(** The process when the call is made: the method registered, its topic served *)
Definition serving : heap (MemoryTransport.state chan_cb) (qstate unit * (server unit * unit)) :=
  ((add_method "train_step" tt ;;; Rpc.serve (TR := learner_queue build RpcToy.P clock 2) tt "learner" false)
     (fresh_process tt)).2.

Lemma serving_linked : Local.linked serving.
Proof.
  apply (Local.linked_same (Queue.subscribe (TR := Local.local_transport (E 2)) "learner.request" tt (fresh_process tt)).2).
  - apply (Local.keeps_subscribe "learner.request" tt (E 2) (fresh_process tt)); [apply Local.mq_ok_init|reflexivity].
  - reflexivity.
  - reflexivity.
  - vm_compute. lia.
Qed.

Lemma with_batch_raises f a e : (forall x b e, f x b = Raise e -> is_Exception e = true) ->
  with_batch f a = Raise e -> is_Exception e = true.
Proof.
  intros Hf. unfold with_batch. destruct (pos a) as [|x [|[] []]], (kw a); try (by intros [= <-]); apply Hf.
Qed.

Lemma predict_raises m x e : predict m x = Raise e -> is_Exception e = true.
Proof.
  unfold predict. assert (forall acc e, py_sum x acc = Raise e -> is_Exception e = true) as Hs.
  { induction x as [|v x IH]; [done|]. intros acc e'. cbn.
    destruct (py_add acc v) as [s|e1] eqn:H1; [apply IH|intros [= <-]; by eapply py_arith_raises]. }
  destruct (py_sum x (VInt 0)) as [s|e1] eqn:Hx; [|intros [= <-]; by apply (Hs (VInt 0))].
  destruct (py_mod s _) as [p|e1] eqn:H1; [done|intros [= <-]; by eapply py_mod_raises].
Qed.

Lemma remote_train_step_raises x b e : remote_train_step build x b = Raise e -> is_Exception e = true.
Proof.
  unfold remote_train_step. destruct (build x) as [m|e1] eqn:Hb; [|intros [= <-]; by apply (build_raises x)].
  destruct (predict m b) as [p|e1] eqn:Hp; [done|]. intros [= <-]. by apply (predict_raises m b).
Qed.

Definition answer : val :=
  VDict [(VStr "prediction", VList [VFloat (float_of 0 0); VFloat (float_of 0 0)]); (VStr "model_class", VStr "MLP"); (VStr "n_features", VInt 4)].

(** The assertions of 06 hold, whatever the envelopes look like: what the remote
    side saw is the model that was sent; and the server is stopped. *)
Lemma round_trip_ok : exists w,
  main serialize build RpcToy.P clock 2 (fresh_process tt) = (Ok (Done answer), w) /\ running (h_rest w).2.1 = false.
Proof.
  destruct (LocalRpc.local_call (E 2) (E 1) clock RpcToy.P (run_method build) tt "learner" 30) with
    (m := "train_step") (a := mkArgs [serialize local_model; VList batch] []) (tm := @None Z) (h := serving)
    as (i & h' & Hc & _).
  - reflexivity.
  - intros f a h. by split_and!.
  - intros f a h e. cbn. apply with_batch_raises. apply remote_train_step_raises.
  - apply serving_linked.
  - unfold Local.names_plain. apply (bool_decide_eq_true_1 _). vm_compute. reflexivity.
  - reflexivity.
  - apply Local.simple_channels_all. vm_compute. by repeat constructor.
  - reflexivity.
  - reflexivity.
  - cbn. lia.
  - reflexivity.
  - reflexivity.
  - rewrite (read_response_of RpcToy.P) in Hc.
    assert ((looked_up (run_method build) "train_step" (mkArgs [serialize local_model; VList batch] [])
      (mkHeap (S (S (h_uuid serving))) (h_tr serving) (h_rest serving))).1 = Ok answer) as Hl.
    { change (with_batch (remote_train_step build) (mkArgs [serialize local_model; VList batch] []) = Ok answer).
      unfold with_batch. cbn [pos kw]. unfold remote_train_step. by rewrite builds_back. }
    rewrite Hl in Hc. cbn [client_sees] in Hc.
    destruct (stop_stops h') as (w & Hs & Hr & _). exists w. split; [|exact Hr].
    unfold main. rewrite (bind_run _ _ _ tt (mkHeap 0 (h_tr (fresh_process (H := unit) (F := unit) tt))
      (init_q, (mkServer [("train_step", tt)] false None false, tt)))) by reflexivity.
    rewrite (bind_run _ _ _ (Done tt) serving) by (vm_compute; reflexivity).
    unfold try_finally. rewrite (bind_run _ _ _ _ _ Hc).
    rewrite (bind_run _ _ h' tt h') by reflexivity. rewrite (bind_run _ _ h' tt h') by reflexivity.
    unfold ret. by rewrite Hs.
Qed.
End round_trip.
End Envelopes.

(** * [07_distributed_workers.py] *)
Module Distributed.

(** ** The command line of a worker, and how the worker reads it *)
Definition worker_argv (port : Z) : list string :=
  ["-m"; "eventforge.worker"; "--import"; "distributed_handlers"; "--service"; Envelopes.SERVICE_NAME;
   "--host"; "127.0.0.1"; "--port"; pretty port; "--log-level"; "WARNING"].

(** The options that [worker.parse_args] declares, by the attribute they set *)
Definition dests : list (string * string) :=
  [("--import", "module"); ("--service", "service"); ("--host", "host"); ("--port", "port"); ("--log-level", "log_level")].

(** What [argparse] finds in an [argv] of flags that are each followed by their
    value; anything else is an error here. *)
Fixpoint options_of (argv : list string) : result (list (string * string)) :=
  match argv with
  | [] => Ok []
  | flag :: value :: argv =>
      match dget dests flag, options_of argv with
      | Some d, Ok given => Ok ((d, value) :: given)
      | _, _ => Raise Worker.usage_error
      end
  | _ => Raise Worker.usage_error
  end.

(** The worker that is spawned for a port serves the example's handlers there. *)
Theorem worker_options port :
  match options_of (drop 2 (worker_argv port)) with Ok given => Worker.parse_args py_int given | Raise e => Raise e end =
    Ok (Worker.mkNamespace "distributed_handlers" (Some "learner") "127.0.0.1" port "WARNING").
Proof.
  pose proof (py_int_pretty port) as Hp. unfold worker_argv. revert Hp. generalize (pretty port). intros s Hs.
  change (match (match py_int s with Some p => Ok p | None => Raise Worker.usage_error end) with
    | Raise e => Raise e
    | Ok p => Ok (Worker.mkNamespace "distributed_handlers" (Some "learner") "127.0.0.1" p "WARNING")
    end = Ok (Worker.mkNamespace "distributed_handlers" (Some "learner") "127.0.0.1" port "WARNING")).
  by rewrite Hs.
Qed.

Section driver.
Context {W T Pr : Type}.
(** [subprocess.Popen], [time.sleep] *)
Variable spawn : list string -> M W Pr.
Variable sleep : Q -> M W unit.
(** [TCPClientTransport(host, port)] and its [connect()]; [RPCClient.call] over it *)
Variable connect : string -> Z -> M W T.
Variable call : T -> string * list val -> M W (wait val).
Variable close : T -> M W unit.
(** [Popen.terminate], [Popen.wait] *)
Variables terminate wait_for : Pr -> M W unit.
Variable idx : W -> nat.
Variable set_idx : nat -> W -> W.
Variable serialize : Envelopes.MLP -> val.

Definition ports (n_workers base_port : Z) : list Z :=
  map (fun i => base_port + Z.of_nat i) (seq 0 (Z.to_nat n_workers)).

Fixpoint spawn_all (l : list Z) : M W (list Pr) :=
  match l with
  | [] => ret []
  | p :: l => let! w := spawn (worker_argv p) in let! ws := spawn_all l in ret (w :: ws)
  end.

(** The loop that fills [transports]: they are those that were connected when it
    is left, also by an exception. *)
Fixpoint connect_workers (l : list Z) (transports : list T) (w : W) : result unit * list T * W :=
  match l with
  | [] => (Ok tt, transports, w)
  | p :: l =>
      match connect "127.0.0.1" p w with
      | (Ok t, w') => connect_workers l (transports ++ [t]) w'
      | (Raise e, w') => (Raise e, transports, w')
      end
  end.

Definition train_args (envelope : val) (i : nat) : string * list val :=
  ("train_step", [envelope; VList [VFloat (float_of 1 0); VFloat (float_of 2 0); VFloat (float_of 3 0); VFloat (float_of (Z.of_nat i) 0)]]).

(** [result["worker_pid"]]: what [os.getpid()] gave *)
Definition pid_of (res : val) : result Z :=
  match Topology.item res "worker_pid" with
  | Ok (VInt pid) => Ok pid
  | Ok _ => Raise (Exc "TypeError" "worker_pid")
  | Raise e => Raise e
  end.

Definition drive (n_workers : Z) (transports : list T) : M W (wait (list (Z * Z))) :=
  let! pool := lift (RoundRobin.init transports) in
  modify (set_idx pool.2) ;;;
  let envelope := serialize (Envelopes.mkMLP 4 32 2) in
  let! r := Topology.fire_calls call idx set_idx (train_args envelope) pid_of "prediction" pool.1 0 9 [] in
  match r with
  | Waiting => ret Waiting
  | Done pid_counts =>
      if decide (Z.of_nat (length pid_counts) = n_workers) then ret (Done pid_counts)
      else throw (Exc "AssertionError" "round-robin should hit all workers")
  end.

Definition tear_down (transports : list T) (workers : list Pr) : M W unit :=
  for_each transports close ;;;
  for_each workers terminate ;;;
  for_each workers wait_for.

Definition main (n_workers base_port : Z) : M W (wait (list (Z * Z))) :=
  let! workers := spawn_all (ports n_workers base_port) in
  sleep 2 ;;;
  fun w =>
    let '(r, transports, w1) := connect_workers (ports n_workers base_port) [] w in
    try_finally (match r with Raise e => throw e | Ok _ => drive n_workers transports end)
      (tear_down transports workers) w1.

(** ** The assertion of 07 *)
Variable pid : T -> Z.
Hypothesis idx_set : forall n w, idx (set_idx n w) = n.
Hypothesis call_idx : forall t x w, idx (call t x w).2 = idx w.

Definition trains (t : T) : Prop := forall i w, exists res,
  (call t (train_args (serialize (Envelopes.mkMLP 4 32 2)) i) w).1 = Ok (Done res) /\ pid_of res = Ok (pid t) /\
  exists y, Topology.item res "prediction" = Ok y.

(** When the workers answer, each from a process of its own, the nine calls reach
    all of up to nine workers, and the assertion fails for more. *)
Lemma drive_spec transports w :
  transports <> [] -> NoDup (map pid transports) -> Forall trains transports ->
  exists d w', dkeys d = map pid (take 9 transports) /\
    drive (Z.of_nat (length transports)) transports w =
      (if decide (length transports <= 9)%nat then Ok (Done d)
       else Raise (Exc "AssertionError" "round-robin should hit all workers"), w').
Proof.
  intros Hne Hnd Hall. unfold drive.
  assert (RoundRobin.init transports = Ok (transports, 0%nat)) as -> by by destruct transports.
  unfold bind at 1, lift. cbn [fst snd]. rewrite (bind_run _ _ w tt (set_idx 0 w)) by done.
  destruct (Topology.fire_calls_spec call idx set_idx (train_args (serialize (Envelopes.mkMLP 4 32 2))) pid_of
    "prediction" pid transports) with (rounds := 9%nat) (k := 0%nat) (d := @nil (Z * Z)) (w := set_idx 0 w)
    as (d & w' & Hf & [Hk _]); try done.
  - by destruct transports; [|cbn; lia].
  - by rewrite idx_set, Nat.Div0.mod_0_l.
  - apply Topology.tallied_nil.
  - exists d, w'. split; [done|]. rewrite (bind_run _ _ _ _ _ Hf).
    assert (length d = length transports `min` 9)%nat as Hl.
    { apply (f_equal length) in Hk. unfold dkeys in Hk. rewrite length_fmap in Hk. rewrite Hk, length_map, length_take. lia. }
    rewrite Hl. destruct (decide (length transports <= 9)%nat).
    + rewrite decide_True by lia. done.
    + rewrite decide_False by lia. done.
Qed.
End driver.
End Distributed.
