(* ===== verification/TaskScripts.v ===== *)
(** * [examples] on tasks: [01_executor_basics.py] and [04_task_decorator.py]

    01 runs functions on the three kinds of executor; of 04, the parts whose output
    does not depend on time: the plain task, the lifecycle callbacks and the task
    on a queue.  The tasks with meters print measured times, and the one with
    [max_instances] what four threads see of each other (TaskPool bounds that).
    The workers of a pool run before their results are asked for. *)
From Stdlib Require Import QArith.
From S2P Require Import Prelude PyDict PyFloat Types Transport Memory Observers Queue TaskPool Executor TaskRunner TaskQueue.
#[local] Open Scope Z_scope.

Definition bad_arguments : exn := Exc "TypeError" "wrong arguments".

(** * [01_executor_basics.py] *)
Module ExecutorBasics.
Inductive func : Type := cpu_work | io_work | failing_task.

(** [total] after [for i in range(k): total += i % 17] *)
Definition cpu_total (k : Z) : Z :=
  (N.iter (Z.to_N k) (fun it => (it.1 + 1, it.2 + it.1 mod 17)) (0, 0)).2.

Lemma cpu_loop (k : N) :
  N.iter k (fun it => (it.1 + 1, it.2 + it.1 mod 17)) (0, 0) =
    let r := Z.of_N k mod 17 in (Z.of_N k, 136 * (Z.of_N k / 17) + r * (r - 1) / 2).
Proof.
  induction k as [|k IH] using N.peano_ind; [done|].
  rewrite N.iter_succ, IH. cbn [fst snd]. set (z := Z.of_N k). rewrite N2Z.inj_succ. fold z.
  pose proof (Z.div_mod z 17 ltac:(done)) as Hd. pose proof (Z.mod_pos_bound z 17 ltac:(done)) as Hb.
  set (q := z / 17) in *. set (r := z mod 17) in *. clearbody q r. f_equal.
  destruct (decide (r = 16)) as [->|Hr].
  - assert (Z.succ z = (q + 1) * 17) as -> by lia. rewrite Z.div_mul, Z.mod_mul by done. cbn [fst snd]. change (16 * (16 - 1) / 2) with 120. change (0 * (0 - 1) / 2) with 0. lia.
  - rewrite <- (Z.div_unique (Z.succ z) 17 q (r + 1)), <- (Z.mod_unique (Z.succ z) 17 q (r + 1)) by lia.
    replace ((r + 1) * (r + 1 - 1)) with (r * (r - 1) + r * 2) by ring. rewrite Z.div_add by done. lia.
Qed.

(** The loop's result without the loop *)
Lemma cpu_total_eq k : 0 <= k -> cpu_total k = 136 * (k / 17) + k mod 17 * (k mod 17 - 1) / 2.
Proof. intros Hk. unfold cpu_total. rewrite cpu_loop. cbn [snd]. by rewrite Z2N.id. Qed.

Abbreviation world := (heap (Executor.state func) unit).

Section main.
(** [str(v)], [time.sleep] *)
Variable str : val -> string.
Variable sleep : val -> M world unit.
Variable clock : world -> Z.
Variables thread_name process_name : world -> string.
Variable pickle : Executor.pickled func -> option exn.

Definition run (f : func) (a : pyargs) : M world val :=
  match f, pos a, kw a with
  | cpu_work, [VInt n], [] => ret (VInt (cpu_total (n * 100000)))
  | io_work, [delay], [] => sleep delay ;;; ret (VStr ("slept " +:+ str delay +:+ "s"))
  | failing_task, [], [] => throw (Exc "ValueError" "intentional error")
  | _, _, _ => throw bad_arguments
  end.

(** [executor = Executor(mode=m)] *)
Definition new_executor (m : ExecutionMode) : M world unit := upd_tr (fun _ => Executor.init m).

(** Submit; the workers run; ask for the results. *)
Definition batch (f : func) (items : list pyargs) : M world (wait (list TaskResult)) :=
  let! tids := (fix submit_each items := match items with
    | [] => ret []
    | a :: items =>
        let! tid := Executor.submit run clock thread_name f a in
        let! tids := submit_each items in
        ret (tid :: tids)
    end) items in
  for_each tids (fun tid =>
    let! _ := Executor.outcome (Executor.work run clock thread_name process_name pickle tid) in ret tt) ;;;
  Executor.result_all clock tids None.

(** What is printed of a result that was waited for *)
Definition printed {A} (f : TaskResult -> A) (r : wait (list TaskResult)) : wait (list A) :=
  match r with Done l => Done (map f l) | Waiting => Waiting end.

Definition arg (v : val) : pyargs := mkArgs [v] [].

Definition main : M world (wait (list val) * wait (list val) * wait (list val) * wait (list (option string))) :=
  new_executor SEQUENTIAL ;;;
  let! one := batch cpu_work [arg (VInt 10)] in
  new_executor THREAD ;;;
  let! four := batch io_work (replicate 4 (arg (VFloat (float_of 1 (-3))))) in
  new_executor PROCESS ;;;
  let! two := batch cpu_work (replicate 2 (arg (VInt 20))) in
  new_executor THREAD ;;;
  let! failing := batch failing_task [mkArgs [] []] in
  ret (printed value one, printed value four, printed value two,
       printed (fun r => if TaskResult_is_failure r then error r else None) failing).
End main.
End ExecutorBasics.

(** What it prints, in the three modes *)
Example executor_basics_output :
  (ExecutorBasics.main (fun _ => "0.125") (fun _ => ret tt) (fun _ => 0) (fun _ => "t") (fun _ => "p")
     (fun _ => None) (mkHeap 0 (Executor.init SEQUENTIAL) tt)).1 =
  Ok (Done [VInt (ExecutorBasics.cpu_total 1000000)], Done (replicate 4 (VStr "slept 0.125s")),
      Done (replicate 2 (VInt (ExecutorBasics.cpu_total 2000000))), Done [Some "intentional error"]) /\
  ExecutorBasics.cpu_total 1000000 = 7999964 /\ ExecutorBasics.cpu_total 2000000 = 15999992.
Proof.
  split; [lazy -[ExecutorBasics.cpu_total]; reflexivity|].
  split; (rewrite ExecutorBasics.cpu_total_eq by lia; reflexivity).
Qed.

(** * [04_task_decorator.py] *)
Module TaskDecorator.
Import TaskQueue.

Inductive func : Type := simple_task | lifecycle_task | process_job.

(** The callbacks: those of [lifecycle_task], and that of [process_job] *)
Inductive callback : Type := on_success | on_failure | on_complete | append_result.
#[global] Instance callback_eq_dec : EqDecision callback.
Proof. solve_decision. Defined.

Record lists : Type := mkLists { results : list string; processed : list val }.

Abbreviation world := (heap (MemoryTransport.state chan_cb) (qstate (hnd Empty_set) * parts func callback lists)).
Abbreviation qenv := (env world (hnd Empty_set) Message).

Section main.
(** [str(v)], [s.upper()] *)
Variable str : val -> string.
Variable upper : string -> string.
Variable clock : world -> Z.
Variables thread_name process_name : world -> string.
Variable pickle : Executor.pickled func -> option exn.

Definition func_call (E : qenv) (f : func) (a : pyargs) : M world val :=
  match f, pos a, kw a with
  | simple_task, [VInt x], [] => ret (VInt (x * 2))
  | lifecycle_task, [should_fail], [] =>
      if truthy should_fail then throw (Exc "ValueError" "intentional") else ret (VStr "ok")
  | process_job, [VStr data], [] => ret (VStr (upper data))
  | _, _, _ => throw bad_arguments
  end.

Definition upd_lists (f : lists -> lists) : M world unit :=
  upd_parts (fun p => mkParts (tasks p) (executors p) (f (user p))).

(** A callback on the context [ref] of task [i] *)
Definition listen (E : qenv) (i : nat) (s : callback) (ref : nat) : M world val := fun h =>
  match t ← tasks (h_rest h).2 !! i; t_ctxs t !! ref with
  | None => (Raise (BaseExc "NoContext" ""), h)
  | Some ctx =>
      (let append line := upd_lists (fun l => mkLists (results l ++ [line]) (processed l)) in
       match s with
       | on_success => append ("success: " +:+ str (ctx_result ctx))
       | on_failure => append ("failure: " +:+ match ctx_error ctx with Some e => exn_str e | None => "None" end)
       | on_complete => append ("complete: " +:+ ctx_func_name ctx)
       | append_result => upd_lists (fun l => mkLists (results l) (processed l ++ [ctx_result ctx]))
       end ;;; ret VNone) h
  end.

Definition no_env {W G Args} : env W G Args := plain_env (fun _ _ => ret VNone).

Variable depth : nat.
Definition E : qenv :=
  handlers func_call listen (fun _ => no_env) (fun _ _ _ => ret VNone) no_env clock thread_name process_name pickle depth.

(** [Executor(mode=m, max_workers=4)] *)
Definition new_executor_of (m : ExecutionMode) : M world nat := fun h =>
  (Ok (length (executors (h_rest h).2)),
   (upd_parts (fun p => mkParts (tasks p) (executors p ++ [Executor.init m]) (user p)) h).2).

Definition call (x : wrapper) (v : val) : M world (wait val) :=
  call_task func_call listen (fun _ => no_env) clock thread_name process_name pickle E (_runner x) (mkArgs [v] []).

(** The example's mode is THREAD. *)
Definition main (m : ExecutionMode) : M world (wait val * wait val) :=
  let! executor := new_executor_of m in
  let! simple := decorator no_env false None (Some executor) [] None None None true None None simple_task "simple_task" in
  let! result := call simple (VInt 21) in
  let! lifecycle := decorator no_env false None (Some executor) [] (Some on_success) (Some on_failure) (Some on_complete)
                      true None None lifecycle_task "lifecycle_task" in
  call lifecycle (VBool false) ;;;
  try_except (call lifecycle (VBool true) ;;; ret tt) (fun _ => ret tt) ;;;
  let! job := decorator no_env true (Some "jobs.process") (Some executor) [] (Some append_result) None None
                true None None process_job "process_job" in
  let! direct := call job (VStr "hello") in
  publish (TR := Local.local_transport E) clock "jobs.process" (VStr "world") [] ;;;
  ret (result, direct).
End main.

Definition fresh : world := mkHeap 0 (MemoryTransport.init 10) (init_q, mkParts [] [] (mkLists [] [])).

Definition toy_str (v : val) : string := match v with VStr s => s | VNone => "None" | _ => "?" end.
Definition toy_upper (s : string) : string := if decide (s = "hello") then "HELLO" else if decide (s = "world") then "WORLD" else s.

Definition output (m : ExecutionMode) : result (wait val * wait val) * lists :=
  let o := main toy_str toy_upper (fun _ => 0) (fun _ => "t") (fun _ => "p") (fun _ => None) 2 m fresh in
  (o.1, user (h_rest o.2).2).
End TaskDecorator.

(** What the program collects: with the thread pool that it uses, the call that
    raises is a success with the result [None], and is not raised to the caller;
    in line it is a failure. *)
Example task_decorator_output :
  TaskDecorator.output THREAD =
    (Ok (Done (VInt 42), Done (VStr "HELLO")),
     TaskDecorator.mkLists ["success: ok"; "complete: lifecycle_task"; "success: None"; "complete: lifecycle_task"]
       [VStr "HELLO"; VStr "WORLD"]) /\
  TaskDecorator.output SEQUENTIAL =
    (Ok (Done (VInt 42), Done (VStr "HELLO")),
     TaskDecorator.mkLists ["success: ok"; "complete: lifecycle_task"; "failure: intentional"; "complete: lifecycle_task"]
       [VStr "HELLO"; VStr "WORLD"]).
Proof. vm_compute. done. Qed.
